(* ===== verification/_CoqProject ===== *)
-Q . S2P
Prelude.v
Endian.v
StringPiece.v
Buffer.v
BufferFacts.v
BufferTheorems.v
Format.v
LogStream.v
AsyncLogging.v
AsyncLoggingFacts.v
CurrentThread.v
MutexLock.v
MutexFacts.v
CountDownLatch.v
WeakCallback.v
Channel.v
Timestamp.v
FileUtil.v
ProcessInfo.v
Date.v
TimeZone.v
TimeZoneFacts.v
Logging.v
LoggingFacts.v
LogFile.v
BaseTheorems.v
LogTheorems.v
SocketsOps.v
InetAddress.v
Poller.v
EPollPoller.v
PollPoller.v
DefaultPoller.v
Loop.v
TimerQueue.v
TimerFacts.v
TimerRun.v
TimerDelay.v
TcpConnection.v
TcpConnectionFacts.v
TcpConnectionLife.v
TcpConnectionRun.v
Socket.v
Acceptor.v
Connector.v
ConnectorFacts.v
ConnectorRun.v
EventLoopThreadPool.v
Thread.v
EventLoopThread.v
TcpServer.v
TcpClient.v
TcpServerFacts.v
TcpServerRun.v
TcpServerEnd.v
TcpClientFacts.v
TcpClientRun.v
ServedConnection.v
EventLoop.v
LoopSetup.v
LoopThreads.v
Service.v
Footprint.v
ServiceFacts.v
ServiceRun.v
Demo.v
NetDemo.v
NetTheorems.v
ServerTheorems.v
ConnectorTheorems.v
ClientTheorems.v
Echo.v
TcpTheorems.v
EchoTheorems.v
ServiceTheorems.v
EchoServer.v
EchoServerTheorems.v
LoopTheorems.v
TimerTheorems.v
SyncTheorems.v
