(* ===== verification/Prelude.v ===== *)
(** A verification of NetworkProgramBaseFrame, a reactor-style TCP library for Linux in C++.

    * The program

    src/networker/net is the library proper.  A thread runs an [EventLoop]: it waits in a [Poller]
    (epoll or poll) for the descriptors of its [Channel]s, calls the channels' callbacks, and then
    the functors that were queued for it.  A [TimerQueue] gives a loop timers.  [TcpConnection] is
    a connected socket with its two [Buffer]s and its channel.  An [Acceptor] listens, a
    [Connector] connects; a [TcpServer] owns an acceptor, a pool of loop threads and its
    connections, a [TcpClient] a connector and its connection.  src/networker/base has what the library stands on: time, dates and zones, string
    views, formatted log streams, log files and the asynchronous logger, threads, process data.

    * The files

    Each file models one class, with its functions in the order of the source; a definition has
    the name of the function it translates.

    Base.  [StringPiece.v]: StringPiece.h.  [Format.v]: the printf formats and snprintf.
    [LogStream.v]: LogStream.h/.cpp.  [Logging.v], [LoggingFacts.v]: Logging.h/.cpp,
    a LOG_ statement with what it sends out.  [FileUtil.v]: FileUtil.h/.cpp, over stdio
    and read(2).  [LogFile.v]: LogFile.h/.cpp.  [AsyncLogging.v],
    [AsyncLoggingFacts.v]: AsyncLogging.h/.cpp as a step relation.  [CurrentThread.v]:
    CurrentThread.h/.cpp and Exception.h/.cpp.  [MutexLock.v]: MutexLock.h and
    Condition.h, as primitive actions of threads that run guarded sections; [MutexFacts.v] has their
    invariants, the replay of whole sections and what bounds an execution.
    [CountDownLatch.v]: CountDownLatch.h/.cpp, as such sections.  [Thread.v]: Thread.h/.cpp with
    the thread function, Atomic.h.  [Timestamp.v], [Date.v], [TimeZone.v], [TimeZoneFacts.v]: the classes of these names.
    [ProcessInfo.v]: ProcessInfo.cpp, over the contents of /proc.

    Net.  [Endian.v], [Buffer.v], [BufferFacts.v]: Endian.h, Buffer.h/.cpp.  [SocketsOps.v],
    [InetAddress.v]: SocketsOps.cpp, InetAddress.h/.cpp, on the bytes of a [sockaddr_in6],
    with the bytes that an address can hold.
    [Channel.v]: Channel.h/.cpp.  [Poller.v]: the interface Poller.h with the laws of a poller;
    [EPollPoller.v] and [PollPoller.v] discharge them, and [DefaultPoller.v] does for a pointer
    to either.  [Loop.v]: what clients need of an event
    loop; [EventLoop.v] (EventLoop.h/.cpp) discharges it; [LoopThreads.v] interleaves a loop's thread
    with the threads that use it.  [LoopSetup.v]: the whole constructor and destructor of a loop.
    [TimerQueue.v], [TimerFacts.v], [TimerRun.v], [TimerDelay.v]: Timer and
    TimerQueue, with runAt, runAfter and runEvery of the loop.  [TcpConnection.v] with [TcpConnectionFacts.v], [TcpConnectionLife.v],
    [TcpConnectionRun.v]: TcpConnection.h/.cpp.  [Socket.v]: Socket, with the
    text of a tcp_info.  [Acceptor.v]: Acceptor.h/.cpp.
    [Connector.v], [ConnectorFacts.v], [ConnectorRun.v]: Connector.h/.cpp.
    [EventLoopThread.v], [EventLoopThreadPool.v]: the classes of these names.  [TcpServer.v],
    [TcpServerFacts.v], [TcpServerRun.v], [TcpServerEnd.v]: TcpServer.h/.cpp, over an interface of connections;
    [TcpClient.v], [TcpClientFacts.v], [TcpClientRun.v]: TcpClient.h/.cpp, over the connector and the
    same interface; [ServedConnection.v] shows that [TcpConnection.v] implements it.  [Service.v]: many connections on one
    loop, its callbacks and functors those of all of them; [Footprint.v] has what one of them can change,
    [ServiceFacts.v] the invariant, [ServiceRun.v] a round of the loop.  [Echo.v]: the callbacks of
    the echo server of test/src/echo.cpp over a whole conversation; [EchoServer.v]: its class, its logging and main().
    [WeakCallback.v]: WeakCallback.h.  [Demo.v] and [NetDemo.v]: concrete environments for examples and witnesses.

    * How the code is modelled

    An operation of the source is a function on explicit state with a result in [outcome]: a value,
    or the fault that ends it (below).  Asserts are those of the debug build.  An integer is a
    [Z] with the wrap-around of its type written out where it can matter; memory is a list of
    bytes, an object behind a pointer an entry of a finite map.  LOG_ lines in other classes are left out,
    except that LOG_FATAL and LOG_SYSFATAL end the process.  Callbacks that the library binds are
    values of an inductive type; what a user's callback does is arbitrary within the contract stated
    where it is used.  System calls and the C library are type classes ([EpollKernel], [EventFd],
    [TcpSocket], [SocketKernel], [InetText], [Stdio], [LogEnv], [ReadFd] and others) whose laws
    are documented behaviour; the demo files have concrete instances of them.

    [safely m Q] says that [m] returns with [Q], or that the environment refused: a fatal log,
    a container at its maximal size, no memory.  It excludes failed asserts and undefined behaviour.

    * What is shown

    [BufferTheorems.v]: a buffer refines a queue of bytes with front space; integers survive a
    change of byte order; searching for line ends.
    [BaseTheorems.v]: calendar and time-zone conversions against their mathematical meaning; a
    zone file is read back.
    [LogTheorems.v]: integer printing and the log stream; files receive every line once, whole and
    in order; the asynchronous logger loses nothing, fails no assert and drains; where it does
    lose lines; the line a log statement writes, late time zones, unterminated FATAL lines.
    [LoopTheorems.v]: functors run once, in order, and the loop never sleeps on work; a channel's
    interest reaches the kernel; both pollers keep their tables; a loop is made over either poller and
    deleted.
    [TimerTheorems.v]: due timers run once and in order; cancelled ones do not; a timer runs in the
    first round that reads its time; a timer armed too late.
    [TcpTheorems.v]: a connection's whole life; sending extends the peer's stream; shutdown comes
    after the data; destruction.
    [ServiceTheorems.v]: connections that share a loop do not disturb each other, whatever their callbacks
    and other threads call; a send that outlives its connection; the echo server answers every client with its own messages.
    [EchoTheorems.v], [EchoServerTheorems.v]: a whole conversation with the echo server; main()
    brings it up and clients are accepted.
    [ConnectorTheorems.v]: a connector's whole life with its books of descriptors, the verdict on an
    attempt, the back-off, and where starting again fails.
    [NetTheorems.v]: the type of addresses, addresses and their texts; accepting; round robin; the
    start of a loop's thread ends, or hangs when something fails.
    [ServerTheorems.v]: a server's whole life, and its destructor.
    [ClientTheorems.v]: a client's whole life, what it does after a close, and its connections' names.
    [SyncTheorems.v]: mutual exclusion and its holder, guarded sections are atomic, a latch opens,
    a wait loses the holder.

    Theorems about errors state the behaviour of the code where it is not what its comments say.

    * Bounds and fuel

    Loops over lists and buffers are structural.  [AppendFile::append] and [readToString] loop
    over the answers of the system; their fuel is the number of bytes that are left, and it is
    shown to suffice.  [loop] is a recursion on the list of the answers of its waits.  The executions
    of [startLoop] and of a latch are bounded by measures, up to wake-ups without a notification.  Connection numbers of a server stay below 2^31: the
    next one would overflow an [int].

    * What is not modelled

    In [Service.v] all clients are accepted and served by the loop's own thread, over epoll(7); its
    connections' closing timers go off between any two rounds, and the calls of other threads are
    whole steps there.
        The small helpers noncopyable and Types, and of ProcessInfo.cpp the plain forwards of
    system calls.  The data races that C++ permits on
    plain variables ([connect_] of a connector, [quit_] of a loop): the steps of different threads
    are interleaved, one access at a time.  The virtual memory effects of freeing: the address of a
    destroyed channel is not used again. *)
From Stdlib Require Export ZArith Lia.
From Stdlib Require Strings.Byte.
From stdpp Require Export base tactics option list list_numbers gmap sets strings fin_maps pretty numbers.
#[global] Open Scope Z_scope.

(** * Outcomes

    What a C++ function can do besides returning.  The asserts are those of the
    debug build; a theorem that an operation ends in [Ok] therefore also says
    that the release build, which drops them, behaves the same. *)
Inductive fault :=
| AssertFailure      (** an [assert] of the source is false *)
| FatalLog           (** [LOG_FATAL]/[LOG_SYSFATAL]: the process aborts *)
| LengthError        (** [std::length_error] of a container *)
| BadAlloc           (** a thrown [std::bad_alloc] *)
| LogicError         (** a thrown [std::logic_error] or [std::bad_function_call] *)
| UndefinedBehaviour (** out-of-bounds access, dangling pointer, signed overflow *).

Inductive outcome (A : Type) :=
| Ok (a : A)
| Fail (f : fault).
Arguments Ok {A} a.
Arguments Fail {A} f.

#[export] Instance outcome_ret : MRet outcome := λ A a, Ok a.
#[export] Instance outcome_bind : MBind outcome := λ A B k m,
  match m with Ok a => k a | Fail f => Fail f end.
#[export] Instance outcome_fmap : FMap outcome := λ A B g m,
  match m with Ok a => Ok (g a) | Fail f => Fail f end.

#[export] Instance fault_eq_dec : EqDecision fault.
Proof. intros x y; unfold Decision; decide equality. Defined.

(** [assert(b)] of the source. *)
Definition require (b : bool) : outcome unit :=
  if b then Ok tt else Fail AssertFailure.

(** A memory access that is defined only when [b] holds. *)
Definition defined (b : bool) : outcome unit :=
  if b then Ok tt else Fail UndefinedBehaviour.

Definition is_ok {A} (m : outcome A) : bool :=
  match m with Ok _ => true | Fail _ => false end.

Lemma bind_ok {A B} (m : outcome A) (k : A → outcome B) r :
  (m ≫= k) = Ok r ↔ ∃ a, m = Ok a ∧ k a = Ok r.
Proof. destruct m as [a|f]; cbn; naive_solver. Qed.

Lemma bind_Ok {A B} (a : A) (k : A → outcome B) : (Ok a ≫= k) = k a.
Proof. done. Qed.

Lemma require_ok b u : require b = Ok u ↔ b = true.
Proof. destruct b, u; cbn; naive_solver. Qed.

Lemma defined_ok b u : defined b = Ok u ↔ b = true.
Proof. destruct b, u; cbn; naive_solver. Qed.

Lemma require_true b : b = true → require b = Ok tt.
Proof. by intros ->. Qed.

Lemma defined_true b : b = true → defined b = Ok tt.
Proof. by intros ->. Qed.

(** * Total correctness up to exhausted resources

    [safely m Q]: the operation returns and [Q] holds, or the environment refused
    (a fatal log of the library, a container at its maximal size, no memory).  An assert that
    fails or an access that is undefined is not safe. *)
Definition resource (f : fault) : Prop := f = FatalLog ∨ f = LengthError ∨ f = BadAlloc.

Definition safely {A} (m : outcome A) (Q : A → Prop) : Prop :=
  match m with Ok a => Q a | Fail f => resource f end.

Lemma safely_Ok {A} (a : A) (Q : A → Prop) : safely (Ok a) Q ↔ Q a.
Proof. done. Qed.

Lemma safely_bind {A B} (m : outcome A) (k : A → outcome B) Q :
  safely (m ≫= k) Q ↔ safely m (λ a, safely (k a) Q).
Proof. by destruct m. Qed.

Lemma safely_mono {A} (m : outcome A) (Q Q' : A → Prop) :
  safely m Q → (∀ a, Q a → Q' a) → safely m Q'.
Proof. destruct m; cbn; auto. Qed.

Lemma safely_and {A} (m : outcome A) (Q Q' : A → Prop) :
  safely m Q → safely m Q' → safely m (λ a, Q a ∧ Q' a).
Proof. destruct m; cbn; auto. Qed.

Lemma safely_ok {A} (m : outcome A) Q a : m = Ok a → safely m Q → Q a.
Proof. by intros ->. Qed.

Lemma safely_exists {A} (m : outcome A) (Q : A → Prop) a : m = Ok a → Q a → safely m Q.
Proof. by intros ->. Qed.

(** Takes apart a hypothesis [m ≫= k = Ok r], naming nothing. *)
Ltac inv_ok :=
  repeat match goal with
  | H : (_ ≫= _) = Ok _ |- _ => apply bind_ok in H as (? & ? & H)
  | H : require _ = Ok _ |- _ => apply require_ok in H
  | H : defined _ = Ok _ |- _ => apply defined_ok in H
  | H : mret _ = Ok _ |- _ => injection H as H
  | H : Ok _ = Ok _ |- _ => injection H as H
  | H : Fail _ = Ok _ |- _ => discriminate H
  | H : prod _ _ |- _ => destruct H
  | H : (if ?b then _ else _) = Ok _ |- _ => let E := fresh "Hif" in destruct b eqn:E
  | H : (let '(_, _) := ?p in _) = Ok _ |- _ => let E := fresh "Hp" in destruct p eqn:E
  end; simplify_eq.

(** Turns the boolean tests of the source into propositions. *)
Ltac bool_prop :=
  repeat match goal with
  | H : (_ <? _) = true |- _ => apply Z.ltb_lt in H
  | H : (_ <? _) = false |- _ => apply Z.ltb_ge in H
  | H : (_ <=? _) = true |- _ => apply Z.leb_le in H
  | H : (_ <=? _) = false |- _ => apply Z.leb_gt in H
  | H : (_ =? _) = true |- _ => apply Z.eqb_eq in H
  | H : (_ =? _) = false |- _ => apply Z.eqb_neq in H
  | H : (_ && _) = true |- _ => apply andb_true_iff in H as [? ?]
  | H : (_ || _) = false |- _ => apply orb_false_iff in H as [? ?]
  | H : negb _ = true |- _ => apply negb_true_iff in H
  | H : negb _ = false |- _ => apply negb_false_iff in H
  end.

(** * Machine integers: a [w]-bit integer is a [Z] with the wrap written out *)
Definition u16 (z : Z) : Z := z mod 2 ^ 16.
Definition u32 (z : Z) : Z := z mod 2 ^ 32.
Definition u64 (z : Z) : Z := z mod 2 ^ 64.
Definition i8 (z : Z) : Z := (z + 2 ^ 7) mod 2 ^ 8 - 2 ^ 7.
Definition i16 (z : Z) : Z := (z + 2 ^ 15) mod 2 ^ 16 - 2 ^ 15.
Definition i32 (z : Z) : Z := (z + 2 ^ 31) mod 2 ^ 32 - 2 ^ 31.
Definition i64 (z : Z) : Z := (z + 2 ^ 63) mod 2 ^ 64 - 2 ^ 63.

(** The signed conversion at any width, used to state facts for all widths at once. *)
Definition signed (w z : Z) : Z := (z + 2 ^ (w - 1)) mod 2 ^ w - 2 ^ (w - 1).

Definition in_u64 (z : Z) : Prop := 0 ≤ z < 2 ^ 64.
Definition in_i32 (z : Z) : Prop := - 2 ^ 31 ≤ z < 2 ^ 31.
Definition in_i64 (z : Z) : Prop := - 2 ^ 63 ≤ z < 2 ^ 63.

Lemma u64_small z : 0 ≤ z < 2 ^ 64 → u64 z = z.
Proof. apply Z.mod_small. Qed.
Lemma u32_small z : 0 ≤ z < 2 ^ 32 → u32 z = z.
Proof. apply Z.mod_small. Qed.
Lemma u64_range z : 0 ≤ u64 z < 2 ^ 64.
Proof. by apply Z.mod_pos_bound. Qed.
Lemma u32_range z : 0 ≤ u32 z < 2 ^ 32.
Proof. by apply Z.mod_pos_bound. Qed.
Lemma i32_small z : in_i32 z → i32 z = z.
Proof. unfold in_i32, i32. intros. rewrite Z.mod_small; lia. Qed.
Lemma i64_small z : in_i64 z → i64 z = z.
Proof. unfold in_i64, i64. intros. rewrite Z.mod_small; lia. Qed.
Lemma i32_range z : in_i32 (i32 z).
Proof. unfold in_i32, i32. pose proof (Z.mod_pos_bound (z + 2 ^ 31) (2 ^ 32)). lia. Qed.

(** Reading back a signed [w]-bit value from its unsigned image. *)
Lemma signed_mod w z :
  1 ≤ w → - 2 ^ (w - 1) ≤ z < 2 ^ (w - 1) → signed w (z mod 2 ^ w) = z.
Proof.
  intros Hw Hz. unfold signed.
  rewrite Zplus_mod_idemp_l, Z.mod_small; [lia|].
  replace (2 ^ w) with (2 * 2 ^ (w - 1)); [lia|].
  rewrite <- Z.pow_succ_r by lia. f_equal; lia.
Qed.

(** * Bytes *)
Abbreviation byte := Byte.byte.

#[export] Instance byte_eq_dec : EqDecision byte.
Proof. intros x y. destruct (Byte.byte_eq_dec x y); [by left|by right]. Defined.
#[export] Instance byte_inhabited : Inhabited byte := populate Byte.x00.

Definition byte_val (b : byte) : Z := Z.of_N (Byte.to_N b).
Definition byte_of (z : Z) : byte := default Byte.x00 (Byte.of_N (Z.to_N (z mod 256))).

Lemma byte_val_range b : 0 ≤ byte_val b < 256.
Proof. unfold byte_val. pose proof (Byte.to_N_bounded b). lia. Qed.

Lemma byte_val_of z : byte_val (byte_of z) = z mod 256.
Proof.
  unfold byte_of, byte_val. pose proof (Z.mod_pos_bound z 256 ltac:(lia)).
  destruct (Byte.of_N _) as [b|] eqn:E; cbn.
  - apply Byte.to_of_N in E. lia.
  - apply Byte.of_N_None_iff in E. lia.
Qed.

Lemma byte_of_val b : byte_of (byte_val b) = b.
Proof.
  unfold byte_of. rewrite Z.mod_small by apply byte_val_range.
  unfold byte_val. by rewrite N2Z.id, Byte.of_to_N.
Qed.

Lemma byte_val_inj b c : byte_val b = byte_val c → b = c.
Proof. intros E. by rewrite <- (byte_of_val b), <- (byte_of_val c), E. Qed.

(** The bytes of a C string literal (the source's literals are ASCII). *)
Definition bytes_of_string (s : string) : list byte := String.list_byte_of_string s.

(** * Lists indexed by [Z] *)
Definition zlen {A} (l : list A) : Z := Z.of_nat (length l).
Definition ztake {A} (n : Z) (l : list A) : list A := take (Z.to_nat n) l.
Definition zdrop {A} (n : Z) (l : list A) : list A := drop (Z.to_nat n) l.

(** The [n] elements that start at offset [i]. *)
Definition zslice {A} (i n : Z) (l : list A) : list A := ztake n (zdrop i l).

(** [l] with the elements from offset [i] on replaced by [d]. *)
Definition zblit {A} (i : Z) (d l : list A) : list A :=
  ztake i l ++ d ++ zdrop (i + zlen d) l.

Section zlists.
  Context {A : Type}.
  Implicit Types l d : list A.

Lemma zlen_nonneg l : 0 ≤ zlen l.
Proof. unfold zlen. lia. Qed.
Lemma zlen_nil : zlen (@nil A) = 0.
Proof. done. Qed.
Lemma zlen_cons x l : zlen (x :: l) = 1 + zlen l.
Proof. unfold zlen. cbn. lia. Qed.
Lemma zlen_app l d : zlen (l ++ d) = zlen l + zlen d.
Proof. unfold zlen. rewrite length_app. lia. Qed.
Lemma zlen_ztake n l : 0 ≤ n ≤ zlen l → zlen (ztake n l) = n.
Proof. unfold zlen, ztake. rewrite length_take. lia. Qed.
Lemma zlen_zdrop n l : 0 ≤ n ≤ zlen l → zlen (zdrop n l) = zlen l - n.
Proof. unfold zlen, zdrop. rewrite length_drop. lia. Qed.
Lemma zlen_replicate n (x : A) : zlen (replicate n x) = Z.of_nat n.
Proof. unfold zlen. by rewrite length_replicate. Qed.
Lemma zlen_zero_nil l : zlen l = 0 → l = [].
Proof. destruct l; [done|]. rewrite zlen_cons. pose proof (zlen_nonneg l). lia. Qed.

Lemma ztake_all n l : zlen l ≤ n → ztake n l = l.
Proof. unfold zlen, ztake. intros. apply take_ge. lia. Qed.
Lemma ztake_0 n l : n ≤ 0 → ztake n l = [].
Proof. unfold ztake. intros. by replace (Z.to_nat n) with O by lia. Qed.
Lemma zdrop_0 n l : n ≤ 0 → zdrop n l = l.
Proof. unfold zdrop. intros. by replace (Z.to_nat n) with O by lia. Qed.
Lemma zdrop_all n l : zlen l ≤ n → zdrop n l = [].
Proof. unfold zlen, zdrop. intros. apply drop_ge. lia. Qed.
Lemma ztake_zdrop n l : ztake n l ++ zdrop n l = l.
Proof. apply take_drop. Qed.
Lemma zdrop_zdrop m n l : 0 ≤ m → 0 ≤ n → zdrop m (zdrop n l) = zdrop (n + m) l.
Proof. unfold zdrop. intros. rewrite drop_drop. f_equal. lia. Qed.
Lemma ztake_app_l n l d : n ≤ zlen l → ztake n (l ++ d) = ztake n l.
Proof. unfold ztake, zlen. intros. apply take_app_le. lia. Qed.
Lemma ztake_app_len l d n : n = zlen l → ztake n (l ++ d) = l.
Proof. intros ->. rewrite ztake_app_l by lia. apply ztake_all. lia. Qed.
Lemma zdrop_app_len l d n : n = zlen l → zdrop n (l ++ d) = d.
Proof. intros ->. unfold zdrop, zlen. by rewrite Nat2Z.id, drop_app_length. Qed.
Lemma zdrop_app_ge l d n : zlen l ≤ n → zdrop n (l ++ d) = zdrop (n - zlen l) d.
Proof.
    unfold zdrop, zlen. intros. rewrite drop_app_ge by lia. f_equal. lia.
Qed.
Lemma zdrop_app_l n l d : n ≤ zlen l → zdrop n (l ++ d) = zdrop n l ++ d.
Proof. unfold zdrop, zlen. intros. apply drop_app_le. lia. Qed.
Lemma ztake_ztake m n l : m ≤ n → ztake m (ztake n l) = ztake m l.
Proof. unfold ztake. intros. rewrite take_take. f_equal. lia. Qed.

Lemma zlen_zslice i n l : 0 ≤ i → 0 ≤ n → i + n ≤ zlen l → zlen (zslice i n l) = n.
Proof.
    intros. unfold zslice. rewrite zlen_ztake; [done|]. rewrite zlen_zdrop; lia.
Qed.
Lemma zslice_0 i n l : n ≤ 0 → zslice i n l = [].
Proof. apply ztake_0. Qed.
Lemma zslice_app_take i m n l :
    0 ≤ i → 0 ≤ m → 0 ≤ n → zslice i (m + n) l = zslice i m l ++ zslice (i + m) n l.
Proof.
    intros. unfold zslice. rewrite <- (zdrop_zdrop m i) by lia.
    unfold ztake, zdrop. rewrite Z2Nat.inj_add by lia.
    by rewrite <- take_take_drop.
Qed.
Lemma zslice_drop i m n l :
    0 ≤ i → 0 ≤ m ≤ n → zslice (i + m) (n - m) l = zdrop m (zslice i n l).
Proof.
    intros. unfold zslice. rewrite <- (zdrop_zdrop m i) by lia.
    unfold ztake, zdrop. rewrite take_drop_commute. do 2 f_equal. lia.
Qed.

Lemma zlen_zblit i d l : 0 ≤ i → i + zlen d ≤ zlen l → zlen (zblit i d l) = zlen l.
Proof.
    intros. pose proof (zlen_nonneg d). unfold zblit.
    rewrite !zlen_app, zlen_ztake, zlen_zdrop by lia. lia.
Qed.
Lemma zslice_zblit_same i n d l :
    n = zlen d → 0 ≤ i → i + zlen d ≤ zlen l → zslice i n (zblit i d l) = d.
Proof.
    intros ->. intros. pose proof (zlen_nonneg d). unfold zslice, zblit.
    rewrite zdrop_app_len by (rewrite zlen_ztake; lia).
    by apply ztake_app_len.
Qed.
Lemma zslice_zblit_before i d l j n :
    0 ≤ j → 0 ≤ n → j + n ≤ i → i + zlen d ≤ zlen l → zslice j n (zblit i d l) = zslice j n l.
Proof.
    intros. pose proof (zlen_nonneg d). unfold zslice, zblit.
    rewrite zdrop_app_l by (rewrite zlen_ztake; lia).
    rewrite ztake_app_l by (rewrite zlen_zdrop; rewrite zlen_ztake; lia).
    rewrite <- (ztake_zdrop i l) at 2.
    rewrite zdrop_app_l by (rewrite zlen_ztake; lia).
    by rewrite ztake_app_l by (rewrite zlen_zdrop; rewrite zlen_ztake; lia).
Qed.
Lemma zslice_zblit_after i d l j n :
    0 ≤ i → i + zlen d ≤ j → i + zlen d ≤ zlen l → zslice j n (zblit i d l) = zslice j n l.
Proof.
    intros. pose proof (zlen_nonneg d). unfold zslice, zblit.
    rewrite zdrop_app_ge by (rewrite zlen_ztake; lia).
    rewrite zlen_ztake by lia.
    rewrite zdrop_app_ge by lia. rewrite zdrop_zdrop by lia. do 2 f_equal. lia.
Qed.
End zlists.

(** * The library's hint database *)
Create HintDb net_db.
Create Rewrite HintDb net_len.
#[export] Hint Resolve zlen_nonneg byte_val_range u64_range u32_range : net_db.
#[export] Hint Rewrite @zlen_app @zlen_cons @zlen_nil @zlen_replicate : net_len.

(** Linear arithmetic with the length facts of the lists in the context. *)
Ltac zlia :=
  autorewrite with net_len in *;
  repeat match goal with
  | |- context [zlen ?l] =>
      lazymatch goal with
      | _ : 0 ≤ zlen l |- _ => fail
      | _ => pose proof (zlen_nonneg l)
      end
  | _ : context [zlen ?l] |- _ =>
      lazymatch goal with
      | _ : 0 ≤ zlen l |- _ => fail
      | _ => pose proof (zlen_nonneg l)
      end
  end; lia.

(** Arithmetic with quotients by constants. *)
Ltac dlia := Z.to_euclidean_division_equations; lia.

(** Discharges the boolean condition of a check, and runs through the checks
    and binds at the head of an operation. *)
Ltac bsolve :=
  rewrite ?andb_true_iff, ?Z.leb_le, ?Z.ltb_lt, ?Z.eqb_eq; split_and?; zlia.
Ltac run_checks :=
  repeat first
    [ rewrite bind_Ok
    | rewrite require_true by bsolve
    | rewrite defined_true by bsolve ].
