(* ===== verification/Endian.v ===== *)
(** Byte order: networker/net/Endian.h.

    The memory image of an integer object depends on the host; [htobeN] and
    [beNtoh] of the C library swap bytes exactly on a little-endian host.  The
    theorems hold for both kinds of host, which is the point of the file. *)
From S2P Require Import Prelude.

Inductive host_order := LittleEndian | BigEndian.

(** The byte order of the machine the program runs on. *)
Class Host := host : host_order.

(** [n] bytes of [z], least significant first, and the value they stand for. *)
Fixpoint le_bytes (n : nat) (z : Z) : list byte :=
  match n with
  | O => []
  | S n' => byte_of z :: le_bytes n' (z / 256)
  end.

Fixpoint le_value (bs : list byte) : Z :=
  match bs with
  | [] => 0
  | b :: bs' => byte_val b + 256 * le_value bs'
  end.

(** The big-endian ("network") encoding. *)
Definition be_bytes (n : nat) (z : Z) : list byte := reverse (le_bytes n z).
Definition be_value (bs : list byte) : Z := le_value (reverse bs).

Section endian.
  Context `{Host}.

(** The bytes an [n]-byte unsigned object of value [z] has in memory, and the
    value of the object whose bytes are [bs] (what [memcpy] to an integer reads). *)
Definition object_bytes (n : nat) (z : Z) : list byte :=
  match host with LittleEndian => le_bytes n z | BigEndian => be_bytes n z end.

Definition object_value (bs : list byte) : Z :=
  match host with LittleEndian => le_value bs | BigEndian => be_value bs end.

(** [htobe16/32/64] and [be16/32/64toh] of <endian.h>, on [n] bytes. *)
Definition htobe (n : nat) (z : Z) : Z :=
  match host with LittleEndian => be_value (le_bytes n z) | BigEndian => z end.

Definition betoh (n : nat) (z : Z) : Z :=
  match host with LittleEndian => be_value (le_bytes n z) | BigEndian => z end.

Definition hostToNetwork64 (host64 : Z) : Z := htobe 8 (u64 host64).
Definition hostToNetwork32 (host32 : Z) : Z := htobe 4 (u32 host32).
Definition hostToNetwork16 (host16 : Z) : Z := htobe 2 (u16 host16).
Definition networkToHost64 (net64 : Z) : Z := betoh 8 (u64 net64).
Definition networkToHost32 (net32 : Z) : Z := betoh 4 (u32 net32).
Definition networkToHost16 (net16 : Z) : Z := betoh 2 (u16 net16).
End endian.

Lemma length_le_bytes n z : length (le_bytes n z) = n.
Proof. revert z; induction n as [|n IH]; intros z; cbn; [done|by rewrite IH]. Qed.

Lemma length_be_bytes n z : length (be_bytes n z) = n.
Proof. unfold be_bytes. by rewrite length_reverse, length_le_bytes. Qed.

Lemma le_value_bound bs : 0 ≤ le_value bs < 256 ^ zlen bs.
Proof.
  induction bs as [|b bs IH]; [done|].
  cbn [le_value]. rewrite zlen_cons, Z.pow_add_r by zlia.
  pose proof (byte_val_range b). lia.
Qed.

Lemma le_value_bytes n z : le_value (le_bytes n z) = z mod 256 ^ Z.of_nat n.
Proof.
  revert z; induction n as [|n IH]; intros z; cbn [le_bytes le_value].
  - by rewrite Z.mod_1_r.
  - rewrite IH, byte_val_of, Nat2Z.inj_succ, Z.pow_succ_r by lia.
    rewrite Z.rem_mul_r by lia. lia.
Qed.

Lemma le_bytes_value bs n : length bs = n → le_bytes n (le_value bs) = bs.
Proof.
  intros <-. induction bs as [|b bs IH]; [done|].
  cbn [length le_bytes le_value].
  pose proof (byte_val_range b).
  f_equal.
  - apply byte_val_inj. rewrite byte_val_of. rewrite Z.mul_comm, Z.mod_add by lia.
    by apply Z.mod_small.
  - rewrite Z.mul_comm, Z.div_add by lia. by rewrite Z.div_small, Z.add_0_l.
Qed.

Lemma be_value_bytes n z : be_value (be_bytes n z) = z mod 256 ^ Z.of_nat n.
Proof. unfold be_value, be_bytes. by rewrite reverse_involutive, le_value_bytes. Qed.

Lemma be_value_bound bs : 0 ≤ be_value bs < 256 ^ zlen bs.
Proof.
  unfold be_value. pose proof (le_value_bound (reverse bs)) as Hb.
  unfold zlen in *. by rewrite length_reverse in Hb.
Qed.

Section endian_facts.
  Context `{Host}.

  (** The memory image of a value converted to network order is its big-endian
      encoding, whatever the host. *)
Lemma object_bytes_htobe n z : object_bytes n (htobe n z) = be_bytes n z.
Proof.
    unfold object_bytes, htobe. destruct host; [|done].
    unfold be_value, be_bytes. apply le_bytes_value. by rewrite length_reverse, length_le_bytes.
Qed.

Lemma betoh_object_value n bs : length bs = n → betoh n (object_value bs) = be_value bs.
Proof.
    intros Hn. unfold betoh, object_value. destruct host; [|done].
    by rewrite le_bytes_value.
Qed.

Lemma object_value_bound bs : 0 ≤ object_value bs < 256 ^ zlen bs.
Proof.
    unfold object_value. destruct host; [apply le_value_bound|apply be_value_bound].
Qed.

Lemma htobe_bound n z : 0 ≤ z < 256 ^ Z.of_nat n → 0 ≤ htobe n z < 256 ^ Z.of_nat n.
Proof.
    intros. unfold htobe. destruct host; [|done].
    pose proof (be_value_bound (le_bytes n z)) as Hb.
    unfold zlen in Hb. by rewrite length_le_bytes in Hb.
Qed.

Lemma betoh_htobe n z : 0 ≤ z < 256 ^ Z.of_nat n → betoh n (htobe n z) = z.
Proof.
    intros. unfold betoh, htobe. destruct host; [|done].
    unfold be_value. rewrite le_bytes_value by (by rewrite length_reverse, length_le_bytes).
    by rewrite reverse_involutive, le_value_bytes, Z.mod_small.
Qed.
End endian_facts.
