(* ===== verification/StringPiece.v ===== *)
(** String views: networker/base/StringPiece.h.

    A [char*] into an object is the list of bytes from the pointer to the end
    of that object; NULL is the empty list.  Reading past the end is
    [UndefinedBehaviour].  [view] is the byte string a well-formed piece stands
    for, and the comparison operators are shown to be the lexicographic order
    on views. *)
From S2P Require Import Prelude.

Record StringPiece := mkPiece { ptr_ : list byte; length_ : Z }.

(** * The C library on byte memory *)

(** [memcmp(p, q, n)]: only the sign of the result is documented. *)
Fixpoint memcmp_nat (p q : list byte) (n : nat) {struct n} : outcome Z :=
  match n with
  | O => Ok 0
  | S n' =>
      match p, q with
      | x :: p', y :: q' =>
          if byte_val x <? byte_val y then Ok (-1)
          else if byte_val y <? byte_val x then Ok 1
          else memcmp_nat p' q' n'
      | _, _ => Fail UndefinedBehaviour
      end
  end.

Definition memcmp (p q : list byte) (n : Z) : outcome Z :=
  _ ← defined ((0 <=? n) && (n <=? zlen p) && (n <=? zlen q));
  memcmp_nat p q (Z.to_nat n).

(** [strlen(p)]: the offset of the first NUL. *)
Fixpoint strlen (p : list byte) : outcome Z :=
  match p with
  | [] => Fail UndefinedBehaviour
  | b :: p' => if decide (b = Byte.x00) then Ok 0 else Z.succ <$> strlen p'
  end.

(** [std::string(p, n)]: [n] bytes are copied; a length past [max_size] throws. *)
Definition max_string_size : Z := 2 ^ 62 - 1.
Definition string_of (p : list byte) (n : Z) : outcome (list byte) :=
  if max_string_size <? u64 n then Fail LengthError
  else _ ← defined (u64 n <=? zlen p); Ok (ztake (u64 n) p).

(** [str.data()]: the characters and the terminating NUL. *)
Definition string_data (str : list byte) : list byte := str ++ [Byte.x00].

(** * Constructors and accessors *)
Definition empty_piece : StringPiece := mkPiece [] 0.

Definition of_cstr (str : list byte) : outcome StringPiece :=
  n ← strlen str; Ok (mkPiece str (i32 n)).

Definition of_string (str : list byte) : outcome StringPiece :=
  n ← strlen (string_data str); Ok (mkPiece (string_data str) (i32 n)).

Definition of_range (offset : list byte) (len : Z) : StringPiece := mkPiece offset len.

Definition is_empty (p : StringPiece) : bool := length_ p =? 0.

Definition clear (_ : StringPiece) : StringPiece := mkPiece [] 0.

Definition set_piece (buffer : list byte) (len : Z) (_ : StringPiece) : StringPiece :=
  mkPiece buffer len.

Definition at_index (p : StringPiece) (i : Z) : outcome byte :=
  if i <? 0 then Fail UndefinedBehaviour
  else match ptr_ p !! Z.to_nat i with Some b => Ok b | None => Fail UndefinedBehaviour end.

Definition remove_prefix (n : Z) (p : StringPiece) : outcome StringPiece :=
  _ ← defined ((0 <=? n) && (n <=? zlen (ptr_ p)));
  Ok (mkPiece (zdrop n (ptr_ p)) (length_ p - n)).

Definition remove_suffix (n : Z) (p : StringPiece) : StringPiece :=
  mkPiece (ptr_ p) (length_ p - n).

(** * Comparisons *)
Definition piece_eq (x y : StringPiece) : outcome bool :=
  if length_ x =? length_ y
  then r ← memcmp (ptr_ x) (ptr_ y) (length_ x); Ok (r =? 0)
  else Ok false.

Definition piece_neq (x y : StringPiece) : outcome bool := negb <$> piece_eq x y.

(** STRINGPIECE_BINARY_PREDICATE(cmp, auxcmp). *)
Definition binary_predicate (cmp auxcmp : Z → Z → bool) (x y : StringPiece) : outcome bool :=
  r ← memcmp (ptr_ x) (ptr_ y) (if length_ x <? length_ y then length_ x else length_ y);
  Ok (auxcmp r 0 || ((r =? 0) && cmp (length_ x) (length_ y))).

Definition piece_lt := binary_predicate Z.ltb Z.ltb.
Definition piece_le := binary_predicate Z.leb Z.ltb.
Definition piece_ge := binary_predicate Z.geb Z.gtb.
Definition piece_gt := binary_predicate Z.gtb Z.gtb.

Definition compare (x y : StringPiece) : outcome Z :=
  r ← memcmp (ptr_ x) (ptr_ y) (if length_ x <? length_ y then length_ x else length_ y);
  Ok (if r =? 0
      then if length_ x <? length_ y then -1
           else if length_ y <? length_ x then 1 else r
      else r).

Definition as_string (p : StringPiece) : outcome (list byte) := string_of (ptr_ p) (length_ p).

(** [CopyToString]: the new content of [*target]. *)
Definition CopyToString (p : StringPiece) : outcome (list byte) := string_of (ptr_ p) (length_ p).

Definition starts_with (p x : StringPiece) : outcome bool :=
  if length_ x <=? length_ p
  then r ← memcmp (ptr_ p) (ptr_ x) (length_ x); Ok (r =? 0)
  else Ok false.

(** * Abstract view *)
Definition valid (p : StringPiece) : Prop :=
  0 ≤ length_ p ≤ zlen (ptr_ p) ∧ length_ p < 2 ^ 31.

Definition view (p : StringPiece) : list byte := ztake (length_ p) (ptr_ p).

(** The lexicographic order on byte strings, bytes compared as unsigned. *)
Fixpoint lex (a b : list byte) : comparison :=
  match a, b with
  | [], [] => Eq
  | [], _ :: _ => Lt
  | _ :: _, [] => Gt
  | x :: a', y :: b' =>
      match byte_val x ?= byte_val y with Eq => lex a' b' | c => c end
  end.

(** The part of [s] before its first NUL. *)
Fixpoint until_nul (s : list byte) : list byte :=
  match s with
  | [] => []
  | b :: s' => if decide (b = Byte.x00) then [] else b :: until_nul s'
  end.

Definition sign_of (c : comparison) : Z := match c with Eq => 0 | Lt => -1 | Gt => 1 end.

Lemma view_len p : valid p → zlen (view p) = length_ p.
Proof. intros [? ?]. unfold view. by rewrite zlen_ztake. Qed.

(** [memcmp] on a common prefix length, then the lengths, is [lex]. *)
Lemma memcmp_lex (a b : list byte) :
  ∃ r, memcmp_nat a b (length a `min` length b) = Ok r ∧
       (r = -1 ∨ r = 0 ∨ r = 1) ∧
       sign_of (lex a b) = (if r =? 0 then sign_of (zlen a ?= zlen b) else r).
Proof.
  revert b; induction a as [|x a IH]; intros [|y b].
  - exists 0. auto.
  - exists 0. cbn [length Nat.min memcmp_nat lex].
    split_and!; auto.
  - exists 0. cbn [length Nat.min memcmp_nat lex].
    split_and!; auto.
  - cbn [length Nat.min memcmp_nat lex]. rewrite !zlen_cons.
    destruct (Z.compare_spec (byte_val x) (byte_val y)) as [E|E|E].
    + rewrite E, Z.ltb_irrefl. destruct (IH b) as (r & -> & Hr & ->).
      exists r. split_and!; auto.
      destruct (Z.compare_spec (zlen a) (zlen b)), (Z.compare_spec (1 + zlen a) (1 + zlen b));
        try lia; done.
    + exists (-1). rewrite (proj2 (Z.ltb_lt _ _) E). auto.
    + exists 1. rewrite (proj2 (Z.ltb_ge _ _)) by lia. rewrite (proj2 (Z.ltb_lt _ _) E). auto.
Qed.

Lemma memcmp_nat_take p q n m k :
  n ≤ m → n ≤ k → n ≤ zlen p → n ≤ zlen q →
  memcmp_nat (ztake m p) (ztake k q) (Z.to_nat n) = memcmp_nat p q (Z.to_nat n).
Proof.
  unfold ztake, zlen. intros Hm Hk Hp Hq.
  assert (Z.to_nat n ≤ Z.to_nat m ∧ Z.to_nat n ≤ Z.to_nat k ∧
          Z.to_nat n ≤ length p ∧ Z.to_nat n ≤ length q)%nat as (Hm' & Hk' & Hp' & Hq') by lia.
  clear Hm Hk Hp Hq. revert p q Hp' Hq' Hm' Hk'.
  generalize (Z.to_nat m) (Z.to_nat k). induction (Z.to_nat n) as [|i IH].
  { by intros. }
  intros [|j] [|l] [|x p] [|y q]; cbn; intros; try lia.
  by rewrite IH by lia.
Qed.

(** Every comparison below runs [memcmp] on the shorter of two valid pieces. *)
Lemma memcmp_min x y :
  valid x → valid y →
  ∃ r, memcmp (ptr_ x) (ptr_ y) (if length_ x <? length_ y then length_ x else length_ y) = Ok r ∧
       (r = -1 ∨ r = 0 ∨ r = 1) ∧
       sign_of (lex (view x) (view y)) =
         (if r =? 0 then sign_of (length_ x ?= length_ y) else r).
Proof.
  intros Vx Vy. pose proof Vx as [? ?]. pose proof Vy as [? ?].
  destruct (memcmp_lex (view x) (view y)) as (r & Hm & Hr & Hs).
  exists r. rewrite !view_len in Hs by done. split_and!; auto.
  replace (if length_ x <? length_ y then length_ x else length_ y)
    with (length_ x `min` length_ y) by (destruct (Z.ltb_spec (length_ x) (length_ y)); lia).
  unfold memcmp. rewrite defined_true by (rewrite !andb_true_iff, !Z.leb_le; lia).
  rewrite <- Hm. unfold view.
  replace (length _ `min` length _)%nat with (Z.to_nat (length_ x `min` length_ y)).
  - symmetry. apply memcmp_nat_take; lia.
  - pose proof (view_len _ Vx) as E1. pose proof (view_len _ Vy) as E2.
    unfold zlen, view in E1, E2. lia.
Qed.

(** [compare] is the lexicographic order on views. *)
Theorem compare_lex x y :
  valid x → valid y → compare x y = Ok (sign_of (lex (view x) (view y))).
Proof.
  intros Vx Vy. destruct (memcmp_min x y Vx Vy) as (r & Hm & Hr & Hs).
  unfold compare. rewrite Hm, bind_Ok. f_equal. rewrite Hs.
  destruct (Z.eqb_spec r 0) as [->|]; [|done].
  destruct (Z.compare_spec (length_ x) (length_ y)) as [E|E|E].
  - by rewrite E, !Z.ltb_irrefl.
  - by rewrite (proj2 (Z.ltb_lt _ _) E).
  - rewrite (proj2 (Z.ltb_ge _ _)) by lia. by rewrite (proj2 (Z.ltb_lt _ _) E).
Qed.

(** All four ordering operators of the macro agree with [compare]. *)
Lemma binary_predicate_lex cmp auxcmp x y :
  valid x → valid y →
  (∀ a b, cmp a b = cmp (sign_of (a ?= b)) 0) →
  (∀ a, a ≠ 0 → auxcmp a 0 = cmp a 0) → (auxcmp 0 0 = false) →
  binary_predicate cmp auxcmp x y = Ok (cmp (sign_of (lex (view x) (view y))) 0).
Proof.
  intros Vx Vy Hcmp Haux H0. destruct (memcmp_min x y Vx Vy) as (r & Hm & Hr & Hs).
  unfold binary_predicate. rewrite Hm, bind_Ok, Hs. f_equal.
  destruct (Z.eqb_spec r 0) as [->|Hne].
  - by rewrite H0, Hcmp.
  - by rewrite Haux, andb_false_l, orb_false_r.
Qed.

Lemma sign_lt c : (sign_of c <? 0) = match c with Lt => true | _ => false end.
Proof. by destruct c. Qed.

(** The length a NUL-terminated string is given. *)
Lemma strlen_until_nul s : strlen (string_data s) = Ok (zlen (until_nul s)).
Proof.
  unfold string_data. induction s as [|b s IH]; cbn [app strlen until_nul]; [done|].
  destruct (decide (b = Byte.x00)); [done|]. rewrite IH. cbn. by rewrite zlen_cons, Z.add_comm.
Qed.

Lemma until_nul_prefix s : ∃ t, s = until_nul s ++ t.
Proof.
  induction s as [|b s [t IH]]; cbn [until_nul]; [by exists []|].
  destruct (decide (b = Byte.x00)); [by exists (b :: s)|].
  exists t. cbn. by f_equal.
Qed.

Lemma until_nul_len s : 0 ≤ zlen (until_nul s) ≤ zlen s.
Proof.
  destruct (until_nul_prefix s) as [t E]. pose proof (f_equal zlen E) as El. rewrite zlen_app in El. zlia.
Qed.

Lemma until_nul_id s : Byte.x00 ∉ s → until_nul s = s.
Proof.
  induction s as [|b s IH]; [done|]. cbn. rewrite elem_of_cons. intros Hn.
  destruct (decide (b = Byte.x00)) as [->|]; [naive_solver|]. f_equal. naive_solver.
Qed.

Lemma until_nul_no_nul s : Byte.x00 ∉ until_nul s.
Proof.
  induction s as [|b s IH]; cbn [until_nul]; [by apply not_elem_of_nil|].
  destruct (decide (b = Byte.x00)); [by apply not_elem_of_nil|].
  rewrite elem_of_cons. naive_solver.
Qed.

(** A piece built from a [std::string] covers the string only up to its first NUL. *)
Lemma of_string_view s :
  zlen s < 2 ^ 31 →
  ∃ p, of_string s = Ok p ∧ valid p ∧ view p = until_nul s.
Proof.
  intros Hs. unfold of_string. rewrite strlen_until_nul, bind_Ok.
  destruct (until_nul_prefix s) as [t Ht].
  assert (zlen (until_nul s) ≤ zlen s) by (rewrite Ht at 2; zlia).
  rewrite i32_small by (unfold in_i32; zlia).
  eexists. split_and!; [done| |].
  - split; cbn; [|lia]. unfold string_data. zlia.
  - unfold view, string_data. cbn. rewrite Ht at 2. rewrite <- app_assoc. by apply ztake_app_len.
Qed.

Lemma as_string_view p : valid p → as_string p = Ok (view p).
Proof.
  intros [? ?]. unfold as_string, string_of, view, max_string_size.
  rewrite u64_small by lia.
  rewrite (proj2 (Z.ltb_ge _ _)) by lia. by rewrite defined_true by (apply Z.leb_le; lia).
Qed.

#[export] Hint Resolve as_string_view : net_db.
