(* ===== verification/Buffer.v ===== *)
(** The application-level I/O buffer: networker/net/Buffer.h and Buffer.cpp.

    [buffer_] is the [std::vector<char>], the two indices are [size_t] and
    computed modulo 2^64.  A [char*] into the buffer is its offset from
    [begin()].  Every copy states its bounds: leaving the vector is
    [UndefinedBehaviour], so that a theorem ending in [Ok] is also memory
    safety.  [content] is the abstract state (the readable bytes) and [wf] the
    picture drawn in the header comment of the class. *)
From S2P Require Import Prelude.
From S2P Require Import Endian.
From S2P Require Import StringPiece.

Record Buffer := mkBuffer {
  buffer_ : list byte;
  readerIndex_ : Z;
  writerIndex_ : Z
}.

Definition kCRLF : list byte := bytes_of_string (String (Ascii.ascii_of_nat 13) (String (Ascii.ascii_of_nat 10) EmptyString)).
Definition kCheapPrepend : Z := 8.
Definition kInitialSize : Z := 1024.

(** [std::vector<char>]: the largest size, and [resize]/construction at [n]. *)
Definition max_vector_size : Z := 2 ^ 63 - 1.

Definition vector_new (n : Z) : outcome (list byte) :=
  if max_vector_size <? n then Fail LengthError else Ok (replicate (Z.to_nat n) Byte.x00).

Definition vector_resize (n : Z) (v : list byte) : outcome (list byte) :=
  if max_vector_size <? n then Fail LengthError
  else Ok (ztake n v ++ replicate (Z.to_nat (n - zlen v)) Byte.x00).

(** Reading [n] bytes at offset [i], and [std::copy] of [d] to offset [i]. *)
Definition load (i n : Z) (v : list byte) : outcome (list byte) :=
  _ ← defined ((0 <=? i) && (0 <=? n) && (i + n <=? zlen v)); Ok (zslice i n v).

Definition store (i : Z) (d v : list byte) : outcome (list byte) :=
  _ ← defined ((0 <=? i) && (i + zlen d <=? zlen v)); Ok (zblit i d v).

(** * Observers *)
Definition size (b : Buffer) : Z := zlen (buffer_ b).
Definition readableBytes (b : Buffer) : Z := u64 (writerIndex_ b - readerIndex_ b).
Definition writableBytes (b : Buffer) : Z := u64 (size b - writerIndex_ b).
Definition prependableBytes (b : Buffer) : Z := readerIndex_ b.
Definition peek (b : Buffer) : Z := readerIndex_ b.
Definition beginWrite (b : Buffer) : Z := writerIndex_ b.

(** [Buffer(initialSize)]. *)
Definition new_buffer (initialSize : Z) : outcome Buffer :=
  v ← vector_new (u64 (kCheapPrepend + initialSize));
  let b := mkBuffer v kCheapPrepend kCheapPrepend in
  _ ← require (readableBytes b =? 0);
  _ ← require (writableBytes b =? initialSize);
  _ ← require (prependableBytes b =? kCheapPrepend);
  Ok b.

(** [swap(rhs)]: the two objects after the call. *)
Definition swap (this rhs : Buffer) : Buffer * Buffer :=
  (mkBuffer (buffer_ rhs) (readerIndex_ rhs) (writerIndex_ rhs),
   mkBuffer (buffer_ this) (readerIndex_ this) (writerIndex_ this)).

(** [std::search(first, last, pat)]: the offset of the first match, or [last]. *)
Fixpoint search_from (pat hay : list byte) (off : Z) (last : Z) : Z :=
  if bool_decide (pat `prefix_of` hay) then off
  else match hay with [] => last | _ :: hay' => search_from pat hay' (off + 1) last end.

Definition std_search (first last : Z) (pat v : list byte) : outcome Z :=
  hay ← load first (last - first) v; Ok (search_from pat hay first last).

(** [memchr(p, c, n)]. *)
Fixpoint memchr_from (c : byte) (hay : list byte) (off : Z) : option Z :=
  match hay with
  | [] => None
  | x :: hay' => if decide (x = c) then Some off else memchr_from c hay' (off + 1)
  end.

Definition newline : byte := Byte.x0a.

Definition findCRLF (b : Buffer) : outcome (option Z) :=
  crlf ← std_search (peek b) (beginWrite b) kCRLF (buffer_ b);
  Ok (if crlf =? beginWrite b then None else Some crlf).

Definition findCRLF_from (start : Z) (b : Buffer) : outcome (option Z) :=
  _ ← require (peek b <=? start);
  _ ← require (start <=? beginWrite b);
  crlf ← std_search start (beginWrite b) kCRLF (buffer_ b);
  Ok (if crlf =? beginWrite b then None else Some crlf).

Definition findEOL (b : Buffer) : outcome (option Z) :=
  hay ← load (peek b) (readableBytes b) (buffer_ b);
  Ok (memchr_from newline hay (peek b)).

Definition findEOL_from (start : Z) (b : Buffer) : outcome (option Z) :=
  _ ← require (peek b <=? start);
  _ ← require (start <=? beginWrite b);
  hay ← load start (beginWrite b - start) (buffer_ b);
  Ok (memchr_from newline hay start).

(** * Consuming *)
Definition retrieveAll (b : Buffer) : Buffer := mkBuffer (buffer_ b) kCheapPrepend kCheapPrepend.

Definition retrieve (len : Z) (b : Buffer) : outcome Buffer :=
  _ ← require (len <=? readableBytes b);
  if len <? readableBytes b
  then Ok (mkBuffer (buffer_ b) (u64 (readerIndex_ b + len)) (writerIndex_ b))
  else Ok (retrieveAll b).

Definition retrieveUntil (end_ : Z) (b : Buffer) : outcome Buffer :=
  _ ← require (peek b <=? end_);
  _ ← require (end_ <=? beginWrite b);
  retrieve (u64 (end_ - peek b)) b.

Definition retrieveInt64 (b : Buffer) : outcome Buffer := retrieve 8 b.
Definition retrieveInt32 (b : Buffer) : outcome Buffer := retrieve 4 b.
Definition retrieveInt16 (b : Buffer) : outcome Buffer := retrieve 2 b.
Definition retrieveInt8 (b : Buffer) : outcome Buffer := retrieve 1 b.

Definition retrieveAsString (len : Z) (b : Buffer) : outcome (list byte * Buffer) :=
  _ ← require (len <=? readableBytes b);
  result ← load (peek b) len (buffer_ b);
  b' ← retrieve len b;
  Ok (result, b').

Definition retrieveAllAsString (b : Buffer) : outcome (list byte * Buffer) :=
  retrieveAsString (readableBytes b) b.

Definition toStringPiece (b : Buffer) : StringPiece.StringPiece :=
  StringPiece.of_range (zdrop (peek b) (buffer_ b)) (i32 (readableBytes b)).

(** * Producing *)
Definition hasWritten (len : Z) (b : Buffer) : outcome Buffer :=
  _ ← require (len <=? writableBytes b);
  Ok (mkBuffer (buffer_ b) (readerIndex_ b) (u64 (writerIndex_ b + len))).

Definition unwrite (len : Z) (b : Buffer) : outcome Buffer :=
  _ ← require (len <=? readableBytes b);
  Ok (mkBuffer (buffer_ b) (readerIndex_ b) (u64 (writerIndex_ b - len))).

Definition makeSpace (len : Z) (b : Buffer) : outcome Buffer :=
  if u64 (writableBytes b + prependableBytes b) <? u64 (len + kCheapPrepend)
  then
    v ← vector_resize (u64 (writerIndex_ b + len)) (buffer_ b);
    Ok (mkBuffer v (readerIndex_ b) (writerIndex_ b))
  else
    _ ← require (kCheapPrepend <? readerIndex_ b);
    let readable := readableBytes b in
    d ← load (readerIndex_ b) (writerIndex_ b - readerIndex_ b) (buffer_ b);
    v ← store kCheapPrepend d (buffer_ b);
    let b' := mkBuffer v kCheapPrepend (u64 (kCheapPrepend + readable)) in
    _ ← require (readable =? readableBytes b');
    Ok b'.

Definition ensureWritableBytes (len : Z) (b : Buffer) : outcome Buffer :=
  b' ← (if writableBytes b <? len then makeSpace len b else Ok b);
  _ ← require (len <=? writableBytes b');
  Ok b'.

(** [append(data, len)]: [data] is the memory from the pointer on. *)
Definition append (data : list byte) (len : Z) (b : Buffer) : outcome Buffer :=
  b' ← ensureWritableBytes len b;
  d ← load 0 len data;
  v ← store (beginWrite b') d (buffer_ b');
  hasWritten len (mkBuffer v (readerIndex_ b') (writerIndex_ b')).

Definition append_piece (str : StringPiece.StringPiece) (b : Buffer) : outcome Buffer :=
  append (StringPiece.ptr_ str) (u64 (StringPiece.length_ str)) b.

Definition prepend (data : list byte) (len : Z) (b : Buffer) : outcome Buffer :=
  _ ← require (len <=? prependableBytes b);
  let r := u64 (readerIndex_ b - len) in
  d ← load 0 len data;
  v ← store r d (buffer_ b);
  Ok (mkBuffer v r (writerIndex_ b)).

Definition shrink (reserve : Z) (b : Buffer) : outcome Buffer :=
  other ← new_buffer kInitialSize;
  other ← ensureWritableBytes (u64 (readableBytes b + reserve)) other;
  other ← append_piece (toStringPiece b) other;
  Ok (swap b other).1.

(** * Integers in network byte order *)
Section integers.
  Context `{Host}.

Definition appendInt64 (x : Z) (b : Buffer) : outcome Buffer :=
  append (object_bytes 8 (hostToNetwork64 x)) 8 b.
Definition appendInt32 (x : Z) (b : Buffer) : outcome Buffer :=
  append (object_bytes 4 (hostToNetwork32 x)) 4 b.
Definition appendInt16 (x : Z) (b : Buffer) : outcome Buffer :=
  append (object_bytes 2 (hostToNetwork16 x)) 2 b.
Definition appendInt8 (x : Z) (b : Buffer) : outcome Buffer :=
  append (object_bytes 1 x) 1 b.

Definition peekInt64 (b : Buffer) : outcome Z :=
  _ ← require (8 <=? readableBytes b);
  be64 ← load (peek b) 8 (buffer_ b);
  Ok (i64 (networkToHost64 (object_value be64))).
Definition peekInt32 (b : Buffer) : outcome Z :=
  _ ← require (4 <=? readableBytes b);
  be32 ← load (peek b) 4 (buffer_ b);
  Ok (i32 (networkToHost32 (object_value be32))).
Definition peekInt16 (b : Buffer) : outcome Z :=
  _ ← require (2 <=? readableBytes b);
  be16 ← load (peek b) 2 (buffer_ b);
  Ok (i16 (networkToHost16 (object_value be16))).
Definition peekInt8 (b : Buffer) : outcome Z :=
  _ ← require (1 <=? readableBytes b);
  x ← load (peek b) 1 (buffer_ b);
  Ok (i8 (object_value x)).

Definition readInt32 (b : Buffer) : outcome (Z * Buffer) :=
  result ← peekInt32 b; b' ← retrieveInt32 b; Ok (result, b').
Definition readInt16 (b : Buffer) : outcome (Z * Buffer) :=
  result ← peekInt16 b; b' ← retrieveInt16 b; Ok (result, b').
Definition readInt8 (b : Buffer) : outcome (Z * Buffer) :=
  result ← peekInt8 b; b' ← retrieveInt8 b; Ok (result, b').

Definition prependInt64 (x : Z) (b : Buffer) : outcome Buffer :=
  prepend (object_bytes 8 (hostToNetwork64 x)) 8 b.
Definition prependInt32 (x : Z) (b : Buffer) : outcome Buffer :=
  prepend (object_bytes 4 (hostToNetwork32 x)) 4 b.
Definition prependInt16 (x : Z) (b : Buffer) : outcome Buffer :=
  prepend (object_bytes 2 (hostToNetwork16 x)) 2 b.
Definition prependInt8 (x : Z) (b : Buffer) : outcome Buffer :=
  prepend (object_bytes 1 x) 1 b.
End integers.

(** * Reading from a descriptor *)

(** What [readv(2)] answers: the bytes it delivered, or an errno. *)
Inductive read_result :=
| ReadBytes (bs : list byte)
| ReadError (err : Z).

Definition extrabuf_size : Z := 65536.

(** [iovcnt] of the call: how many bytes the two vectors can take. *)
Definition iovcnt (b : Buffer) : Z := if writableBytes b <? extrabuf_size then 2 else 1.
Definition iov_capacity (b : Buffer) : Z :=
  writableBytes b + (if iovcnt b =? 2 then extrabuf_size else 0).

(** [readFd]: the result ([n] and the errno saved through [saveErrno]) and the buffer.
    The kernel fills [vec[0]] (the writable part) first, then [vec[1]] (the stack buffer). *)
Definition readFd (r : read_result) (b : Buffer) : outcome (Z * option Z * Buffer) :=
  let writable := writableBytes b in
  match r with
  | ReadError err => Ok (-1, Some err, b)
  | ReadBytes bs =>
      let n := zlen bs in
      v ← store (writerIndex_ b) (ztake writable bs) (buffer_ b);
      let extrabuf := zdrop writable bs in
      if n <=? writable
      then Ok (n, None, mkBuffer v (readerIndex_ b) (u64 (writerIndex_ b + n)))
      else
        b' ← append extrabuf (u64 (n - writable)) (mkBuffer v (readerIndex_ b) (zlen v));
        Ok (n, None, b')
  end.

(** * Abstract state and invariant *)

(** The readable bytes, as a queue. *)
Definition content (b : Buffer) : list byte :=
  zslice (readerIndex_ b) (writerIndex_ b - readerIndex_ b) (buffer_ b).

(** [0 <= readerIndex <= writerIndex <= size], and the vector never gets smaller
    than the cheap-prepend area. *)
Definition wf (b : Buffer) : Prop :=
  0 ≤ readerIndex_ b ≤ writerIndex_ b ∧ writerIndex_ b ≤ size b ≤ max_vector_size ∧
  kCheapPrepend ≤ size b.

(** [append(len)] can be served: by moving the readable bytes to the front, or
    by growing the vector. *)
Definition room (len : Z) (b : Buffer) : Prop :=
  readableBytes b + len + kCheapPrepend ≤ size b ∨ writerIndex_ b + len ≤ max_vector_size.

Lemma load_ok i n v : 0 ≤ i → 0 ≤ n → i + n ≤ zlen v → load i n v = Ok (zslice i n v).
Proof. intros. unfold load. by rewrite defined_true by bsolve. Qed.

Lemma store_ok i d v : 0 ≤ i → i + zlen d ≤ zlen v → store i d v = Ok (zblit i d v).
Proof. intros. unfold store. by rewrite defined_true by bsolve. Qed.

Section observers.
  Variable b : Buffer.
  Hypothesis Hwf : wf b.

Lemma readableBytes_wf : readableBytes b = writerIndex_ b - readerIndex_ b.
Proof. destruct Hwf as (? & ? & ?). unfold readableBytes, max_vector_size in *. apply u64_small. lia. Qed.
Lemma writableBytes_wf : writableBytes b = size b - writerIndex_ b.
Proof. destruct Hwf as (? & ? & ?). unfold writableBytes, max_vector_size in *. apply u64_small. lia. Qed.
Lemma content_len : zlen (content b) = readableBytes b.
Proof.
    rewrite readableBytes_wf. destruct Hwf as (? & ? & ?). unfold content, size in *. apply zlen_zslice; lia.
Qed.
End observers.

Lemma zslice_whole {A} (n : Z) (l : list A) : n = zlen l → zslice 0 n l = l.
Proof. intros ->. unfold zslice. rewrite zdrop_0 by lia. by apply ztake_all. Qed.

Lemma zslice_zlen_0 {A} (n : Z) (l : list A) : zslice 0 n l = ztake n l.
Proof. unfold zslice. by rewrite zdrop_0. Qed.

(** Growing the vector keeps every readable byte where it is. *)
Lemma vector_resize_spec n v :
  zlen v ≤ n ≤ max_vector_size →
  ∃ v', vector_resize n v = Ok v' ∧ zlen v' = n ∧
        ∀ i k, 0 ≤ i → 0 ≤ k → i + k ≤ zlen v → zslice i k v' = zslice i k v.
Proof.
  intros Hn. unfold vector_resize. rewrite (proj2 (Z.ltb_ge _ _)) by lia.
  eexists. split_and!; [done| |].
  - rewrite ztake_all by lia. autorewrite with net_len. lia.
  - intros i k ???. rewrite ztake_all by lia. unfold zslice.
    rewrite zdrop_app_l by lia. apply ztake_app_l. rewrite zlen_zdrop; lia.
Qed.

(** [ensureWritableBytes]: the content is untouched and [len] bytes fit. *)
Lemma ensureWritableBytes_spec len b :
  wf b → 0 ≤ len < 2 ^ 63 → room len b →
  ∃ b', ensureWritableBytes len b = Ok b' ∧ wf b' ∧ content b' = content b ∧
        len ≤ writableBytes b' ∧ writerIndex_ b' ≤ writerIndex_ b ∧
        size b' = (if writableBytes b <? len
                   then if writableBytes b + prependableBytes b <? len + kCheapPrepend
                        then writerIndex_ b + len else size b
                   else size b).
Proof.
  intros W Hlen Hroom. unfold ensureWritableBytes.
  pose proof (readableBytes_wf b W) as ER. pose proof (writableBytes_wf b W) as EW.
  pose proof W as (HR & HS & H8). unfold room, prependableBytes, kCheapPrepend, max_vector_size in *.
  destruct (Z.ltb_spec (writableBytes b) len) as [Hlt|Hge].
  2: { exists b. run_checks. split_and!; auto; lia. }
  unfold makeSpace, prependableBytes, kCheapPrepend.
  rewrite !(u64_small (_ + _)) by lia.
  destruct (Z.ltb_spec (writableBytes b + readerIndex_ b) (len + 8)) as [Hg|Hm].
  - rewrite ER, EW in *. unfold size in *.
    destruct (vector_resize_spec (writerIndex_ b + len) (buffer_ b)) as (v & -> & Hv & Hs).
    { unfold max_vector_size. lia. }
    set (b' := mkBuffer v (readerIndex_ b) (writerIndex_ b)).
    assert (W' : wf b') by (unfold wf, size, max_vector_size, kCheapPrepend in *; cbn; lia).
    pose proof (writableBytes_wf b' W') as EW'. unfold size in EW'. cbn in EW'.
    rewrite !bind_Ok. fold b'. exists b'. run_checks. split_and!; auto; try (cbn; lia).
    unfold content. cbn. apply Hs; lia.
  - run_checks. rewrite EW, ER in *. unfold size in *.
    rewrite load_ok, bind_Ok by lia.
    rewrite store_ok, bind_Ok by (try rewrite zlen_zslice; lia).
    set (b' := mkBuffer _ 8 _).
    assert (W' : wf b').
    { unfold wf, size, max_vector_size, kCheapPrepend in *; cbn. rewrite zlen_zblit by (try rewrite zlen_zslice; lia). lia. }
    pose proof (writableBytes_wf b' W') as EW'. pose proof (readableBytes_wf b' W') as ER'.
    unfold size in EW'. cbn in EW', ER'.
    rewrite zlen_zblit in EW' by (try rewrite zlen_zslice; lia).
    run_checks. fold b'. exists b'. run_checks. split_and!; auto; try (cbn; lia).
    + unfold content. cbn.
      apply zslice_zblit_same; rewrite ?zlen_zslice; lia.
    + unfold b'; cbn. apply zlen_zblit; try rewrite zlen_zslice; lia.
Qed.

(** Writing [len] bytes into a buffer that has them as writable bytes. *)
Lemma fill_spec d b :
  wf b → zlen d ≤ writableBytes b →
  ∃ v, store (writerIndex_ b) d (buffer_ b) = Ok v ∧
       let b' := mkBuffer v (readerIndex_ b) (writerIndex_ b + zlen d) in
       wf b' ∧ content b' = content b ++ d ∧ size b' = size b ∧ zlen v = size b.
Proof.
  intros W Hd. pose proof (writableBytes_wf b W) as EW.
  pose proof W as (HR & HS & H8). unfold size, max_vector_size in *. pose proof (zlen_nonneg d).
  rewrite store_ok by lia. eexists. split; [done|].
  assert (Hz : zlen (zblit (writerIndex_ b) d (buffer_ b)) = zlen (buffer_ b))
    by (apply zlen_zblit; lia).
  cbn. split_and!; [| |unfold size; cbn; lia|done].
  - unfold wf, size, max_vector_size, kCheapPrepend in *; cbn. lia.
  - unfold content; cbn.
    replace (writerIndex_ b + zlen d - readerIndex_ b)
      with ((writerIndex_ b - readerIndex_ b) + zlen d) by lia.
    rewrite zslice_app_take by lia. f_equal.
    + apply zslice_zblit_before; lia.
    + replace (readerIndex_ b + (writerIndex_ b - readerIndex_ b)) with (writerIndex_ b) by lia.
      apply zslice_zblit_same; lia.
Qed.

(** [append]: the given bytes are queued behind the content; nothing is lost. *)
Lemma append_spec data len b :
  wf b → 0 ≤ len < 2 ^ 63 → len ≤ zlen data → room len b →
  ∃ b', append data len b = Ok b' ∧ wf b' ∧ content b' = content b ++ ztake len data ∧
        writerIndex_ b' ≤ writerIndex_ b + len ∧
        size b' ≤ size b `max` (writerIndex_ b + len).
Proof.
  intros W Hlen Hd Hroom.
  destruct (ensureWritableBytes_spec len b W Hlen Hroom) as (b1 & E1 & W1 & C1 & F1 & I1 & S1).
  unfold append. rewrite E1, bind_Ok, load_ok, bind_Ok by lia. rewrite zslice_zlen_0.
  assert (L : zlen (ztake len data) = len) by (apply zlen_ztake; lia).
  destruct (fill_spec (ztake len data) b1 W1) as (v & E2 & W2 & C2 & S2 & Z2); [lia|].
  unfold beginWrite. rewrite E2, bind_Ok. unfold hasWritten.
  pose proof (writableBytes_wf b1 W1) as EW1.
  assert (Hroom1 : len ≤ writableBytes (mkBuffer v (readerIndex_ b1) (writerIndex_ b1))).
  { unfold writableBytes, size; cbn. rewrite Z2. done. }
  run_checks. cbn [writerIndex_ readerIndex_ buffer_].
  destruct W1 as (? & ? & ?). unfold max_vector_size in *.
  rewrite u64_small by lia. rewrite L in *. cbn in C2.
  eexists. split_and!; [done|done| | |].
  - by rewrite C2, C1.
  - cbn. lia.
  - rewrite S2, S1. repeat case_match; lia.
Qed.

(** Appending what fits behind the writer, or after compaction, keeps the vector. *)
Lemma append_no_growth data len b :
  wf b → 0 ≤ len < 2 ^ 63 → len ≤ zlen data →
  readableBytes b + len + kCheapPrepend ≤ size b →
  ∃ b', append data len b = Ok b' ∧ size b' = size b ∧ content b' = content b ++ ztake len data.
Proof.
  intros W Hlen Hd Hfit.
  destruct (append_spec data len b W Hlen Hd (or_introl Hfit)) as (b' & E & W' & C & _ & _).
  exists b'. split_and!; auto.
  destruct (ensureWritableBytes_spec len b W Hlen (or_introl Hfit)) as (b1 & E1 & W1 & _ & F1 & _ & S1).
  unfold append in E. rewrite E1, bind_Ok, load_ok, bind_Ok in E by lia. rewrite zslice_zlen_0 in E.
  destruct (fill_spec (ztake len data) b1 W1) as (v & E2 & _ & _ & _ & Z2).
  { by rewrite zlen_ztake by lia. }
  unfold beginWrite in E. rewrite E2, bind_Ok in E. unfold hasWritten in E. inv_ok.
  unfold size at 1; cbn. rewrite Z2, S1.
  unfold prependableBytes, kCheapPrepend in *.
  rewrite (readableBytes_wf b W), (writableBytes_wf b W) in *.
  destruct (Z.ltb_spec (size b - writerIndex_ b) len); [|done].
  destruct (Z.ltb_spec (size b - writerIndex_ b + readerIndex_ b) (len + 8)); [lia|done].
Qed.

(** [retrieve]: the first [len] bytes leave the queue; an over-long request is
    caught by the assert. *)
Lemma retrieveAll_spec b : wf b → wf (retrieveAll b) ∧ content (retrieveAll b) = [].
Proof.
  intros (HR & HS & H8). unfold wf, content, retrieveAll, size, kCheapPrepend in *; cbn.
  split; [lia|]. by apply zslice_0.
Qed.

Lemma retrieve_spec len b :
  wf b → 0 ≤ len ≤ readableBytes b →
  ∃ b', retrieve len b = Ok b' ∧ wf b' ∧ content b' = zdrop len (content b) ∧
        buffer_ b' = buffer_ b ∧ writerIndex_ b' ≤ writerIndex_ b `max` kCheapPrepend.
Proof.
  intros W Hlen. unfold retrieve. run_checks.
  pose proof (readableBytes_wf b W) as ER. pose proof (content_len b W) as EC.
  pose proof W as (HR & HS & H8).
  destruct (Z.ltb_spec len (readableBytes b)) as [Hlt|Hge].
  - unfold max_vector_size in HS.
    rewrite u64_small by lia. eexists. split_and!; [done| | |done|cbn; lia].
    + unfold wf, size, max_vector_size, kCheapPrepend in *; cbn. lia.
    + unfold content; cbn. rewrite <- zslice_drop by lia. f_equal; lia.
  - eexists. split_and!; [done| | |done|cbn; lia].
    + apply retrieveAll_spec; auto.
    + rewrite (proj2 (retrieveAll_spec b W)). symmetry. apply zdrop_all. lia.
Qed.

Lemma retrieve_too_long len b : readableBytes b < len → retrieve len b = Fail AssertFailure.
Proof. intros. unfold retrieve, require. by rewrite (proj2 (Z.leb_gt _ _)). Qed.

Lemma retrieveAsString_spec len b :
  wf b → 0 ≤ len ≤ readableBytes b →
  ∃ b', retrieveAsString len b = Ok (ztake len (content b), b') ∧ wf b' ∧
        content b' = zdrop len (content b) ∧ buffer_ b' = buffer_ b.
Proof.
  intros W Hlen. destruct (retrieve_spec len b W Hlen) as (b' & E & W' & C & B & _).
  exists b'. split_and!; auto. unfold retrieveAsString, peek.
  pose proof (readableBytes_wf b W) as ER. pose proof W as (HR & HS & H8). unfold size in HS.
  run_checks. rewrite load_ok, bind_Ok by lia. rewrite E, bind_Ok. do 2 f_equal.
  unfold content, zslice. by rewrite ztake_ztake by lia.
Qed.

Lemma retrieveAllAsString_spec b :
  wf b →
  ∃ b', retrieveAllAsString b = Ok (content b, b') ∧ wf b' ∧ content b' = [] ∧ buffer_ b' = buffer_ b.
Proof.
  intros W. pose proof (content_len b W) as EC.
  destruct (retrieveAsString_spec (readableBytes b) b W) as (b' & E & W' & C & B).
  { pose proof (zlen_nonneg (content b)). lia. }
  exists b'. split_and!; auto.
  - unfold retrieveAllAsString. rewrite E. by rewrite ztake_all by lia.
  - rewrite C. apply zdrop_all. lia.
Qed.

Lemma unwrite_spec len b :
  wf b → 0 ≤ len ≤ readableBytes b →
  ∃ b', unwrite len b = Ok b' ∧ wf b' ∧
        content b' = ztake (readableBytes b - len) (content b) ∧ buffer_ b' = buffer_ b.
Proof.
  intros W Hlen. unfold unwrite. run_checks.
  pose proof (readableBytes_wf b W) as ER. pose proof W as (HR & HS & H8). unfold max_vector_size in HS.
  rewrite u64_small by lia. eexists. split_and!; [done| | |done].
  - unfold wf, size, max_vector_size, kCheapPrepend in *; cbn. lia.
  - unfold content, zslice; cbn. rewrite ztake_ztake by lia. f_equal. lia.
Qed.

(** [prepend]: the bytes go in front, if the prependable area holds them. *)
Lemma prepend_spec data len b :
  wf b → 0 ≤ len ≤ prependableBytes b → len ≤ zlen data →
  ∃ b', prepend data len b = Ok b' ∧ wf b' ∧ content b' = ztake len data ++ content b ∧
        size b' = size b ∧ prependableBytes b' = prependableBytes b - len.
Proof.
  intros W Hlen Hd. unfold prepend. run_checks. unfold prependableBytes in *.
  pose proof W as (HR & HS & H8). unfold size, max_vector_size in HS.
  rewrite u64_small by lia. rewrite load_ok, bind_Ok by lia. rewrite zslice_zlen_0.
  assert (L : zlen (ztake len data) = len) by (apply zlen_ztake; lia).
  rewrite store_ok, bind_Ok by lia.
  assert (Hz : zlen (zblit (readerIndex_ b - len) (ztake len data) (buffer_ b)) = zlen (buffer_ b))
    by (apply zlen_zblit; lia).
  eexists. split_and!; [done| | |unfold size; cbn; lia|done].
  - unfold wf, size, max_vector_size, kCheapPrepend in *; cbn. lia.
  - unfold content; cbn.
    replace (writerIndex_ b - (readerIndex_ b - len)) with (len + (writerIndex_ b - readerIndex_ b)) by lia.
    rewrite zslice_app_take by lia. f_equal.
    + apply zslice_zblit_same; lia.
    + replace (readerIndex_ b - len + len) with (readerIndex_ b) by lia.
      apply zslice_zblit_after; lia.
Qed.

Lemma prepend_too_long data len b :
  prependableBytes b < len → prepend data len b = Fail AssertFailure.
Proof. intros. unfold prepend, require. by rewrite (proj2 (Z.leb_gt _ _)). Qed.

#[export] Hint Resolve retrieveAll_spec : net_db.
