(* ===== verification/BufferFacts.v ===== *)
(** Properties of [Buffer]: the refinement of the byte queue, the integer round
    trips in network byte order, the searches, and the scatter read. *)
From S2P Require Import Prelude.
From S2P Require Import Endian.
From S2P Require Import StringPiece.
From S2P Require Import Buffer.

(** * Network-order integers *)
Section integers.
  Context `{Host}.

Lemma load_content n b :
    Buffer.wf b → 0 ≤ n ≤ readableBytes b →
    load (peek b) n (buffer_ b) = Ok (ztake n (content b)).
Proof.
    intros W Hn. pose proof (readableBytes_wf b W) as ER. pose proof W as (HR & HS & H8).
    unfold size, peek in *. rewrite load_ok by lia. f_equal.
    unfold content, zslice. by rewrite ztake_ztake by lia.
Qed.

  (** The value read back from the encoding of [x] at width [8 * n]. *)
Lemma network_roundtrip n x :
    (1 ≤ n)%nat → - 2 ^ (8 * Z.of_nat n - 1) ≤ x < 2 ^ (8 * Z.of_nat n - 1) →
    signed (8 * Z.of_nat n)
      (betoh n (object_value (be_bytes n (x mod 2 ^ (8 * Z.of_nat n))) mod 2 ^ (8 * Z.of_nat n))) = x.
Proof.
    intros Hn Hx. pose proof (length_be_bytes n (x mod 2 ^ (8 * Z.of_nat n))) as Hl.
    pose proof (object_value_bound (be_bytes n (x mod 2 ^ (8 * Z.of_nat n)))) as Hb.
    unfold zlen in Hb. rewrite Hl in Hb.
    assert (E : 256 ^ Z.of_nat n = 2 ^ (8 * Z.of_nat n)).
    { change 256 with (2 ^ 8). by rewrite <- Z.pow_mul_r by lia. }
    rewrite (Z.mod_small (object_value _)) by lia.
    rewrite betoh_object_value by done. rewrite be_value_bytes, E, Zmod_mod.
    apply signed_mod; [lia|done].
Qed.

Lemma content_take_app (d rest : list byte) b n :
    content b = d ++ rest → n = zlen d → ztake n (content b) = d.
Proof. intros -> ->. by apply ztake_app_len. Qed.

Lemma readable_app b (d rest : list byte) :
    Buffer.wf b → content b = d ++ rest → zlen d ≤ readableBytes b.
Proof. intros W E. pose proof (content_len b W) as EC. rewrite E in EC. zlia. Qed.

  (** Reading an integer at the front of the queue. *)
Lemma peekInt32_spec x b rest :
    Buffer.wf b → in_i32 x → content b = be_bytes 4 (u32 x) ++ rest → peekInt32 b = Ok x.
Proof.
    intros W Hx E. assert (L : zlen (be_bytes 4 (u32 x)) = 4) by (unfold zlen; by rewrite length_be_bytes).
    pose proof (readable_app b _ _ W E). unfold peekInt32. run_checks.
    rewrite load_content, bind_Ok by (auto; lia).
    rewrite (content_take_app (be_bytes 4 (u32 x)) rest) by auto.
    f_equal. apply (network_roundtrip 4); [lia|exact Hx].
Qed.

Lemma peekInt16_spec x b rest :
    Buffer.wf b → - 2 ^ 15 ≤ x < 2 ^ 15 → content b = be_bytes 2 (u16 x) ++ rest →
    peekInt16 b = Ok x.
Proof.
    intros W Hx E. assert (L : zlen (be_bytes 2 (u16 x)) = 2) by (unfold zlen; by rewrite length_be_bytes).
    pose proof (readable_app b _ _ W E). unfold peekInt16. run_checks.
    rewrite load_content, bind_Ok by (auto; lia).
    rewrite (content_take_app (be_bytes 2 (u16 x)) rest) by auto.
    f_equal. apply (network_roundtrip 2); [lia|exact Hx].
Qed.

Lemma peekInt64_spec x b rest :
    Buffer.wf b → in_i64 x → content b = be_bytes 8 (u64 x) ++ rest → peekInt64 b = Ok x.
Proof.
    intros W Hx E. assert (L : zlen (be_bytes 8 (u64 x)) = 8) by (unfold zlen; by rewrite length_be_bytes).
    pose proof (readable_app b _ _ W E). unfold peekInt64. run_checks.
    rewrite load_content, bind_Ok by (auto; lia).
    rewrite (content_take_app (be_bytes 8 (u64 x)) rest) by auto.
    f_equal. apply (network_roundtrip 8); [lia|exact Hx].
Qed.

Lemma append_int_spec n v b :
    Buffer.wf b → Z.of_nat n < 2 ^ 63 → room (Z.of_nat n) b →
    ∃ b', append (object_bytes n (htobe n v)) (Z.of_nat n) b = Ok b' ∧
          Buffer.wf b' ∧ content b' = content b ++ be_bytes n v.
Proof.
    intros W Hn Hroom. rewrite object_bytes_htobe.
    assert (L : zlen (be_bytes n v) = Z.of_nat n) by (unfold zlen; by rewrite length_be_bytes).
    destruct (append_spec (be_bytes n v) (Z.of_nat n) b W) as (b' & ? & ? & C & _); auto; [lia|lia|].
    exists b'. split_and!; auto. by rewrite C, ztake_all by lia.
Qed.

Lemma prepend_int_spec n v b :
    Buffer.wf b → Z.of_nat n ≤ prependableBytes b →
    ∃ b', prepend (object_bytes n (htobe n v)) (Z.of_nat n) b = Ok b' ∧
          Buffer.wf b' ∧ content b' = be_bytes n v ++ content b.
Proof.
    intros W Hn. rewrite object_bytes_htobe.
    assert (L : zlen (be_bytes n v) = Z.of_nat n) by (unfold zlen; by rewrite length_be_bytes).
    destruct (prepend_spec (be_bytes n v) (Z.of_nat n) b W) as (b' & ? & ? & C & _); auto; [lia|lia|].
    exists b'. split_and!; auto. by rewrite C, ztake_all by lia.
Qed.

Lemma readInt32_spec x b rest :
    Buffer.wf b → in_i32 x → content b = be_bytes 4 (u32 x) ++ rest →
    ∃ b', readInt32 b = Ok (x, b') ∧ Buffer.wf b' ∧ content b' = rest.
Proof.
    intros W Hx E. assert (L : zlen (be_bytes 4 (u32 x)) = 4) by (unfold zlen; by rewrite length_be_bytes).
    pose proof (readable_app b _ _ W E).
    destruct (retrieve_spec 4 b W) as (b' & Er & W' & C & _); [lia|].
    exists b'. unfold readInt32, retrieveInt32. rewrite (peekInt32_spec x b rest) by done.
    rewrite bind_Ok, Er, bind_Ok. split_and!; auto. rewrite C, E. by apply zdrop_app_len.
Qed.
End integers.

(** * Searching *)
Definition occurs_first (pat l : list byte) (i : nat) : Prop :=
  pat `prefix_of` drop i l ∧ ∀ j, (j < i)%nat → ¬ pat `prefix_of` drop j l.

Lemma search_from_spec pat hay off last :
  pat ≠ [] → last = off + zlen hay →
  (∃ i, search_from pat hay off last = off + Z.of_nat i ∧ (i < length hay)%nat ∧ occurs_first pat hay i) ∨
  (search_from pat hay off last = last ∧ ∀ j, ¬ pat `prefix_of` drop j hay).
Proof.
  intros Hp. revert off last. induction hay as [|x hay IH]; intros off last ->; cbn [search_from].
  - rewrite bool_decide_eq_false_2.
    2: { intros [k Hk]. by destruct pat. }
    right. split; [done|]. intros j. rewrite drop_nil. intros [k Hk]. by destruct pat.
  - case_bool_decide as Hb.
    + left. exists O. split_and!; [lia|cbn; lia|split; [done|lia]].
    + rewrite zlen_cons. destruct (IH (off + 1) (off + (1 + zlen hay))) as [(i & E & Hi & Ho & Hj)|[E Hn]]; [lia| |].
      * left. exists (S i). split_and!; [lia|cbn; lia|split; [done|]].
        intros [|j] Hlt; [done|]. apply Hj. lia.
      * right. split; [done|]. intros [|j]; [done|apply Hn].
Qed.

Lemma kCRLF_not_nil : kCRLF ≠ [].
Proof. done. Qed.

(** [findCRLF] returns the first CRLF of the content, and NULL only if there is none. *)
Lemma findCRLF_spec b :
  Buffer.wf b →
  ∃ r, findCRLF b = Ok r ∧
    match r with
    | Some p => ∃ i, p = peek b + Z.of_nat i ∧ (i < length (content b))%nat ∧
                     occurs_first kCRLF (content b) i
    | None => ∀ j, ¬ kCRLF `prefix_of` drop j (content b)
    end.
Proof.
  intros W. pose proof (readableBytes_wf b W) as ER. pose proof (content_len b W) as EC.
  pose proof W as (HR & HS & H8). unfold size in HS.
  unfold findCRLF, std_search, peek, beginWrite. rewrite load_ok, !bind_Ok by lia.
  fold (content b).
  destruct (search_from_spec kCRLF (content b) (readerIndex_ b) (writerIndex_ b) kCRLF_not_nil)
    as [(i & E & Hi & Ho)|[E Hn]]; [lia| |]; rewrite E; eexists; (split; [done|]).
  - rewrite (proj2 (Z.eqb_neq _ _)).
    + by exists i.
    + unfold zlen in EC. lia.
  - by rewrite Z.eqb_refl.
Qed.

Lemma memchr_from_spec c hay off :
  match memchr_from c hay off with
  | Some p => ∃ i, p = off + Z.of_nat i ∧ hay !! i = Some c ∧ c ∉ take i hay
  | None => c ∉ hay
  end.
Proof.
  revert off; induction hay as [|x hay IH]; intros off; cbn [memchr_from]; [apply not_elem_of_nil|].
  destruct (decide (x = c)) as [->|Hne].
  - exists O. split_and!; [lia|done|apply not_elem_of_nil].
  - specialize (IH (off + 1)). destruct (memchr_from c hay (off + 1)).
    + destruct IH as (i & -> & Hl & Hn). exists (S i). split_and!; [lia|done|].
      cbn. rewrite elem_of_cons. naive_solver.
    + rewrite elem_of_cons. naive_solver.
Qed.

(** [findEOL] returns the first newline of the content. *)
Lemma findEOL_spec b :
  Buffer.wf b →
  ∃ r, findEOL b = Ok r ∧
    match r with
    | Some p => ∃ i, p = peek b + Z.of_nat i ∧ content b !! i = Some newline ∧
                     newline ∉ take i (content b)
    | None => newline ∉ content b
    end.
Proof.
  intros W. pose proof (readableBytes_wf b W) as ER. pose proof (content_len b W) as EC.
  pose proof (zlen_nonneg (content b)).
  unfold findEOL. rewrite load_content, bind_Ok by (auto; lia).
  rewrite ztake_all by lia. eexists. split; [done|]. apply memchr_from_spec.
Qed.

(** * The scatter read *)
Lemma readFd_spec bs b :
  Buffer.wf b → zlen bs ≤ iov_capacity b → writerIndex_ b + zlen bs ≤ max_vector_size →
  ∃ b', readFd (ReadBytes bs) b = Ok (zlen bs, None, b') ∧ Buffer.wf b' ∧
        content b' = content b ++ bs ∧ size b' ≤ size b + zlen bs.
Proof.
  intros W Hcap Hmax. pose proof (writableBytes_wf b W) as EW. pose proof W as (HR & HS & H8).
  unfold readFd. pose proof (zlen_nonneg bs).
  assert (L : zlen (ztake (writableBytes b) bs) = writableBytes b `min` zlen bs).
  { destruct (Z.le_ge_cases (zlen bs) (writableBytes b)).
    - rewrite ztake_all by lia. lia.
    - rewrite zlen_ztake; lia. }
  destruct (fill_spec (ztake (writableBytes b) bs) b W) as (v & E & W1 & C1 & S1 & Z1); [lia|].
  rewrite E, bind_Ok. unfold max_vector_size in *.
  destruct (Z.leb_spec (zlen bs) (writableBytes b)) as [Hle|Hgt].
  - rewrite u64_small by lia. rewrite ztake_all in * by lia.
    eexists. split_and!; [done|done|done|rewrite S1; lia].
  - replace (writerIndex_ b + zlen (ztake (writableBytes b) bs)) with (zlen v) in * by lia.
    rewrite u64_small by lia.
    assert (Hx : zlen (zdrop (writableBytes b) bs) = zlen bs - writableBytes b) by (apply zlen_zdrop; lia).
    set (b1 := mkBuffer v (readerIndex_ b) (zlen v)) in *.
    destruct (append_spec (zdrop (writableBytes b) bs) (zlen bs - writableBytes b) b1 W1)
      as (b' & E' & W' & C' & _ & S'); [lia|lia| |].
    { right. unfold max_vector_size. cbn. lia. }
    rewrite E', bind_Ok. eexists. split_and!; [done|done| |].
    + rewrite C', C1, (ztake_all _ (zdrop _ _)) by lia. by rewrite <- app_assoc, ztake_zdrop.
    + rewrite S1 in S'. cbn in S'. lia.
Qed.

Lemma readFd_error err b : readFd (ReadError err) b = Ok (-1, Some err, b).
Proof. done. Qed.

(** * Safety without a bound on the memory *)

(** [append] and [readFd] either succeed or run out of address space. *)
Lemma append_safely data len b :
  Buffer.wf b → 0 ≤ len ≤ zlen data → len < 2 ^ 63 →
  safely (append data len b) (λ b', Buffer.wf b' ∧ content b' = content b ++ ztake len data).
Proof.
  intros W Hlen Hmax. pose proof (writableBytes_wf b W) as EW. pose proof (readableBytes_wf b W) as ER.
  pose proof W as (HR & HS & H8).
  destruct (decide (room len b)) as [Hroom|Hno].
  - destruct (append_spec data len b) as (b' & E & ? & ? & _); [done|lia|lia|done|].
    by rewrite E.
  - unfold room, max_vector_size, kCheapPrepend in *.
    assert (E : ensureWritableBytes len b = Fail LengthError).
    { unfold ensureWritableBytes, makeSpace, prependableBytes, vector_resize, max_vector_size, kCheapPrepend.
      rewrite (proj2 (Z.ltb_lt _ _)) by lia. rewrite !u64_small by lia.
      rewrite (proj2 (Z.ltb_lt _ _)) by lia. by rewrite (proj2 (Z.ltb_lt _ _)) by lia. }
    unfold append. rewrite E. by right; left.
Qed.

Lemma readFd_safely bs b :
  Buffer.wf b → zlen bs ≤ iov_capacity b →
  safely (readFd (ReadBytes bs) b)
    (λ r, r.1 = (zlen bs, None) ∧ Buffer.wf r.2 ∧ content r.2 = content b ++ bs).
Proof.
  intros W Hcap. pose proof (writableBytes_wf b W) as EW. pose proof W as (HR & HS & H8).
  unfold readFd. pose proof (zlen_nonneg bs).
  assert (L : zlen (ztake (writableBytes b) bs) = writableBytes b `min` zlen bs).
  { destruct (Z.le_ge_cases (zlen bs) (writableBytes b)).
    - rewrite ztake_all by lia. lia.
    - rewrite zlen_ztake; lia. }
  destruct (fill_spec (ztake (writableBytes b) bs) b W) as (v & E & W1 & C1 & S1 & Z1); [lia|].
  rewrite E, bind_Ok. unfold max_vector_size in *.
  destruct (Z.leb_spec (zlen bs) (writableBytes b)) as [Hle|Hgt].
  - rewrite u64_small by lia. rewrite ztake_all in * by lia. by cbn.
  - replace (writerIndex_ b + zlen (ztake (writableBytes b) bs)) with (zlen v) in * by lia.
    assert (iov_capacity b ≤ writableBytes b + 65536) by (unfold iov_capacity, extrabuf_size; case_match; lia).
    rewrite u64_small by lia.
    assert (Hx : zlen (zdrop (writableBytes b) bs) = zlen bs - writableBytes b) by (apply zlen_zdrop; lia).
    apply safely_bind. eapply safely_mono; [apply append_safely; [exact W1|lia|lia]|].
    intros b' [W' C']. cbn. split_and!; [done|done|].
    rewrite C', C1, (ztake_all _ (zdrop _ _)) by lia. by rewrite <- app_assoc, ztake_zdrop.
Qed.

(** Reading the whole content through [peek] and [readableBytes]. *)
Lemma load_all b : Buffer.wf b → load (peek b) (readableBytes b) (buffer_ b) = Ok (content b).
Proof.
  intros W. pose proof (readableBytes_wf b W) as E. pose proof W as (HR & HS & H8).
  unfold peek. rewrite E. unfold size in *. rewrite load_ok by lia. done.
Qed.

(** * Construction and [shrink] *)
Lemma new_buffer_spec n :
  0 ≤ n ≤ 2 ^ 62 →
  ∃ b, new_buffer n = Ok b ∧ Buffer.wf b ∧ content b = [] ∧ size b = n + kCheapPrepend ∧
       writerIndex_ b = kCheapPrepend ∧ readerIndex_ b = kCheapPrepend.
Proof.
  intros Hn. unfold new_buffer, vector_new, max_vector_size, kCheapPrepend.
  rewrite u64_small by lia. rewrite (proj2 (Z.ltb_ge _ _)), bind_Ok by lia.
  set (b := mkBuffer _ 8 8).
  assert (S : size b = n + 8) by (unfold size; cbn; rewrite zlen_replicate; lia).
  assert (W : Buffer.wf b) by (unfold Buffer.wf, max_vector_size, kCheapPrepend; rewrite S; cbn; lia).
  pose proof (readableBytes_wf b W) as ER. pose proof (writableBytes_wf b W) as EW. cbn in ER, EW.
  assert (EP : prependableBytes b = 8) by done. run_checks. exists b.
  by split_and!; auto.
Qed.

Lemma toStringPiece_view b :
  Buffer.wf b → readableBytes b < 2 ^ 31 →
  StringPiece.valid (toStringPiece b) ∧ StringPiece.view (toStringPiece b) = content b ∧
  StringPiece.length_ (toStringPiece b) = readableBytes b.
Proof.
  intros W Hr. pose proof (readableBytes_wf b W) as ER. pose proof W as (HR & HS & H8).
  unfold toStringPiece, StringPiece.valid, StringPiece.view, StringPiece.of_range, peek; cbn.
  rewrite i32_small by (unfold in_i32; lia). unfold size in *.
  rewrite zlen_zdrop by lia. split_and!; [lia|lia|lia| |done]. by rewrite ER.
Qed.

(** [shrink] keeps the content and leaves exactly the room it was asked for. *)
Lemma shrink_spec reserve b :
  Buffer.wf b → 0 ≤ reserve < 2 ^ 61 → readableBytes b < 2 ^ 31 →
  ∃ b', shrink reserve b = Ok b' ∧ Buffer.wf b' ∧ content b' = content b ∧
        size b' = kCheapPrepend + (kInitialSize `max` (readableBytes b + reserve)).
Proof.
  intros W Hres Hr. pose proof (content_len b W) as EC. pose proof (zlen_nonneg (content b)).
  destruct (toStringPiece_view b W Hr) as (V & Vw & Vl).
  unfold shrink. destruct (new_buffer_spec kInitialSize) as (o & Eo & Wo & Co & So & Wi & Ri).
  { unfold kInitialSize. lia. }
  rewrite Eo, bind_Ok. rewrite u64_small by lia.
  pose proof (writableBytes_wf o Wo) as EWo. pose proof (readableBytes_wf o Wo) as ERo.
  unfold kCheapPrepend, kInitialSize in *.
  destruct (ensureWritableBytes_spec (readableBytes b + reserve) o Wo) as (o1 & E1 & W1 & C1 & F1 & I1 & S1);
    [lia|right; unfold max_vector_size; lia|].
  rewrite E1, bind_Ok. unfold append_piece. rewrite Vl, u64_small by lia.
  pose proof (writableBytes_wf o1 W1) as EW1. pose proof (readableBytes_wf o1 W1) as ER1.
  pose proof (content_len o1 W1) as EC1. rewrite C1, Co, zlen_nil in EC1.
  assert (Hs1 : size o1 = 8 + (1024 `max` (readableBytes b + reserve))).
  { rewrite S1, Wi. unfold prependableBytes, kCheapPrepend. rewrite EWo, So, Wi, Ri.
    repeat case_match; bool_prop; lia. }
  destruct (append_no_growth (StringPiece.ptr_ (toStringPiece b)) (readableBytes b) o1 W1)
    as (o2 & E2 & S2 & C2).
  - lia.
  - destruct V as [V _]. rewrite Vl in V. lia.
  - unfold kCheapPrepend. pose proof W1 as (? & ? & ?). lia.
  - rewrite E2, bind_Ok. exists o2.
    destruct (append_spec (StringPiece.ptr_ (toStringPiece b)) (readableBytes b) o1 W1)
      as (o3 & E3 & W3 & _); [lia|destruct V; lia|right; unfold max_vector_size; lia|].
    rewrite E2 in E3. injection E3 as <-.
    split_and!; [by destruct o2|done| |lia].
    rewrite C2, C1, Co, <- Vw. unfold StringPiece.view. by rewrite Vl.
Qed.

(** * Refinement of the byte queue *)

(** The operations of the class that change the queue. *)
Inductive op :=
| OpAppend (data : list byte)
| OpPrepend (data : list byte)
| OpRetrieve (len : Z)
| OpRetrieveAll
| OpUnwrite (len : Z)
| OpEnsure (len : Z)
| OpShrink (reserve : Z)
| OpReadFd (bs : list byte).

Definition run_op (o : op) (b : Buffer) : outcome Buffer :=
  match o with
  | OpAppend data => append data (zlen data) b
  | OpPrepend data => prepend data (zlen data) b
  | OpRetrieve len => retrieve len b
  | OpRetrieveAll => Ok (retrieveAll b)
  | OpUnwrite len => unwrite len b
  | OpEnsure len => ensureWritableBytes len b
  | OpShrink reserve => shrink reserve b
  | OpReadFd bs => snd <$> readFd (ReadBytes bs) b
  end.

(** The abstract queue: a list of bytes, written at the back, read at the front. *)
Definition spec_op (o : op) (q : list byte) : list byte :=
  match o with
  | OpAppend data => q ++ data
  | OpPrepend data => data ++ q
  | OpRetrieve len => zdrop len q
  | OpRetrieveAll => []
  | OpUnwrite len => ztake (zlen q - len) q
  | OpEnsure _ | OpShrink _ => q
  | OpReadFd bs => q ++ bs
  end.

(** When an operation may be called: what its assert says, and the size limit of
    [std::vector]. *)
Definition allowed (o : op) (b : Buffer) : Prop :=
  match o with
  | OpAppend data => room (zlen data) b
  | OpPrepend data => zlen data ≤ prependableBytes b
  | OpRetrieve len | OpUnwrite len => 0 ≤ len ≤ readableBytes b
  | OpRetrieveAll => True
  | OpEnsure len => 0 ≤ len < 2 ^ 63 ∧ room len b
  | OpShrink reserve => 0 ≤ reserve < 2 ^ 61 ∧ readableBytes b < 2 ^ 31
  | OpReadFd bs => zlen bs ≤ iov_capacity b ∧ writerIndex_ b + zlen bs ≤ max_vector_size
  end.

Fixpoint run_ops (os : list op) (b : Buffer) : outcome Buffer :=
  match os with [] => Ok b | o :: os' => b' ← run_op o b; run_ops os' b' end.

Fixpoint all_allowed (os : list op) (b : Buffer) : Prop :=
  match os with
  | [] => True
  | o :: os' => allowed o b ∧ ∀ b', run_op o b = Ok b' → all_allowed os' b'
  end.

Lemma room_len len b : Buffer.wf b → room len b → len < 2 ^ 63.
Proof.
  intros W. pose proof (readableBytes_wf b W). destruct W as (? & ? & ?).
  unfold room, max_vector_size, kCheapPrepend in *. lia.
Qed.

Lemma op_refines o b :
  Buffer.wf b → allowed o b →
  ∃ b', run_op o b = Ok b' ∧ Buffer.wf b' ∧ content b' = spec_op o (content b).
Proof.
  intros W Ha. destruct o as [data|data|len| |len|len|reserve|bs]; cbn [run_op allowed spec_op] in *.
  - pose proof (room_len _ _ W Ha).
    destruct (append_spec data (zlen data) b W) as (b' & ? & ? & C & _); auto; try zlia.
    exists b'. split_and!; auto. by rewrite C, ztake_all by lia.
  - destruct (prepend_spec data (zlen data) b W) as (b' & ? & ? & C & _); try zlia.
    exists b'. split_and!; auto. by rewrite C, ztake_all by lia.
  - destruct (retrieve_spec len b W Ha) as (b' & ? & ? & C & _). eauto.
  - eexists. split; [done|]. by apply retrieveAll_spec.
  - destruct (unwrite_spec len b W Ha) as (b' & ? & ? & C & _).
    exists b'. split_and!; auto. by rewrite content_len by done.
  - destruct Ha as [Hl Hr]. destruct (ensureWritableBytes_spec len b W Hl Hr) as (b' & ? & ? & ? & _). eauto.
  - destruct Ha as [Hl Hr]. destruct (shrink_spec reserve b W Hl Hr) as (b' & ? & ? & ? & _). eauto.
  - destruct Ha as [Hl Hr]. destruct (readFd_spec bs b W Hl Hr) as (b' & E & ? & ? & _).
    rewrite E. cbn. eauto.
Qed.

Lemma run_ops_refines os b :
  Buffer.wf b → all_allowed os b →
  ∃ b', run_ops os b = Ok b' ∧ Buffer.wf b' ∧
        content b' = fold_left (λ q o, spec_op o q) os (content b).
Proof.
  revert b; induction os as [|o os IH]; intros b W; cbn.
  - intros _. eauto.
  - intros [Ha Hn]. destruct (op_refines o b W Ha) as (b1 & E & W1 & C1).
    rewrite E, bind_Ok. destruct (IH b1 W1 (Hn b1 E)) as (b' & E' & W' & C').
    exists b'. split_and!; auto. by rewrite C', C1.
Qed.
