(* ===== verification/BufferTheorems.v ===== *)
(** Properties of the byte buffer and of string views (Buffer.v, StringPiece.v). *)
From S2P Require Import Prelude.
From S2P Require Import Endian.
From S2P Require Import StringPiece.
From S2P Require Import Buffer.
From S2P Require Import BufferFacts.

(** A buffer of four bytes behind the prependable area, empty. *)
Definition small_buffer : Buffer := mkBuffer (replicate 12 Byte.x00) 8 8.

(** The operations of the witness below: the second append moves the readable bytes
    to the front, the third grows the vector. *)
Definition small_ops : list op :=
  [OpAppend (bytes_of_string "abc"); OpPrepend (bytes_of_string "xy"); OpRetrieve 4;
   OpAppend (bytes_of_string "def"); OpUnwrite 1; OpAppend (bytes_of_string "0123456789");
   OpReadFd (bytes_of_string "net"); OpEnsure 100; OpShrink 16; OpRetrieveAll].

Lemma small_wf : Buffer.wf small_buffer.
Proof. unfold Buffer.wf. split_and!; by vm_compute. Qed.

(** C6: the buffer is a queue of bytes.  Any sequence of appends, prepends, reads from a
    descriptor, retrievals, unwrites, reservations and shrinks, each called as its assert
    allows, returns (no assert fails, no byte outside the vector is touched), keeps
    [0 <= readerIndex <= writerIndex <= size], and leaves in the readable part exactly what
    the same operations do to a list of bytes. *)
Theorem buffer_refines_queue os b :
  Buffer.wf b → all_allowed os b →
  ∃ b', run_ops os b = Ok b' ∧ Buffer.wf b' ∧ content b' = fold_left (λ q o, spec_op o q) os (content b).
Proof. apply run_ops_refines. Qed.

Lemma buffer_refines_queue_witness :
  Buffer.wf small_buffer ∧ all_allowed small_ops small_buffer ∧
  ∃ b', run_ops small_ops small_buffer = Ok b' ∧ Buffer.wf b' ∧
        content b' = fold_left (λ q o, spec_op o q) small_ops (content small_buffer).
Proof.
  pose proof small_wf as W.
  assert (A : all_allowed small_ops small_buffer).
  { unfold small_ops. cbn -[run_op allowed].
    repeat (split; [first [by left|by right|done|by split; [|left]|by split; [|right]|by vm_compute]
                   |intros b' Hb'; vm_compute in Hb'; injection Hb' as <-]).
    done. }
  split; [exact W|]. split; [exact A|]. exact (buffer_refines_queue small_ops small_buffer W A).
Defined.

(** Integers survive the network.  What [appendInt32]/[appendInt64] put at the end of a
    buffer on one host, [readInt32]/[peekInt64] take from the front of any buffer on any
    other host, whatever the two byte orders, and the rest of the buffer is untouched. *)
Theorem integers_cross_hosts (sender receiver : Host) x y b :
  Buffer.wf b → in_i32 x → in_i64 y → room 4 b →
  ∃ b4, @appendInt32 sender x b = Ok b4 ∧
    (room 8 b4 →
     ∃ b8 d, @appendInt64 sender y b4 = Ok b8 ∧ Buffer.wf b8 ∧ content b8 = content b ++ d ∧ zlen d = 12 ∧
       ∀ r rest, Buffer.wf r → content r = d ++ rest →
         ∃ r', @readInt32 receiver r = Ok (x, r') ∧ Buffer.wf r' ∧ @peekInt64 receiver r' = Ok y).
Proof.
  intros W Hx Hy R4.
  destruct (@append_int_spec sender 4 (u32 x) b W ltac:(lia) R4) as (b4 & E4 & W4 & C4).
  exists b4. split; [exact E4|]. intros R8.
  destruct (@append_int_spec sender 8 (u64 y) b4 W4 ltac:(lia) R8) as (b8 & E8 & W8 & C8).
  exists b8, (be_bytes 4 (u32 x) ++ be_bytes 8 (u64 y)). split_and!; [exact E8|exact W8| |done|].
  { by rewrite C8, C4, app_assoc. }
  intros r rest Wr Cr. rewrite <- app_assoc in Cr.
  destruct (@readInt32_spec receiver x r _ Wr Hx Cr) as (r' & Er & Wr' & Cr').
  exists r'. split_and!; [done..|]. by eapply peekInt64_spec.
Qed.

Lemma integers_cross_hosts_witness :
  ∃ b4, @appendInt32 LittleEndian (-2) small_buffer = Ok b4 ∧
    (room 8 b4 →
     ∃ b8 d, @appendInt64 LittleEndian 3 b4 = Ok b8 ∧ Buffer.wf b8 ∧ content b8 = content small_buffer ++ d ∧
       zlen d = 12 ∧
       ∀ r rest, Buffer.wf r → content r = d ++ rest →
         ∃ r', @readInt32 BigEndian r = Ok (-2, r') ∧ Buffer.wf r' ∧ @peekInt64 BigEndian r' = Ok 3).
Proof.
  apply (integers_cross_hosts LittleEndian BigEndian (-2) 3 small_buffer small_wf);
    [unfold in_i32; lia|unfold in_i64; lia|by left].
Defined.

(** The line searches.  [findCRLF] returns the first CRLF of the readable bytes and
    [findEOL] the first newline, as pointers into the buffer, or NULL when there is none. *)
Theorem find_line_ends b :
  Buffer.wf b →
  (∃ r, findCRLF b = Ok r ∧
     match r with
     | Some p => ∃ i, p = peek b + Z.of_nat i ∧ (i < length (content b))%nat ∧ occurs_first kCRLF (content b) i
     | None => ∀ j, ¬ kCRLF `prefix_of` drop j (content b)
     end) ∧
  (∃ r, findEOL b = Ok r ∧
     match r with
     | Some p => ∃ i, p = peek b + Z.of_nat i ∧ content b !! i = Some newline ∧ newline ∉ take i (content b)
     | None => newline ∉ content b
     end).
Proof. intros W. split; [by apply findCRLF_spec|by apply findEOL_spec]. Qed.

Lemma find_line_ends_witness :
  (∃ r, findCRLF small_buffer = Ok r ∧
     match r with
     | Some p => ∃ i, p = peek small_buffer + Z.of_nat i ∧ (i < length (content small_buffer))%nat ∧
                      occurs_first kCRLF (content small_buffer) i
     | None => ∀ j, ¬ kCRLF `prefix_of` drop j (content small_buffer)
     end) ∧
  (∃ r, findEOL small_buffer = Ok r ∧
     match r with
     | Some p => ∃ i, p = peek small_buffer + Z.of_nat i ∧ content small_buffer !! i = Some newline ∧
                      newline ∉ take i (content small_buffer)
     | None => newline ∉ content small_buffer
     end).
Proof. exact (find_line_ends small_buffer small_wf). Defined.

(** Misuse is caught.  Retrieving or unwriting more than is readable, prepending more
    than the reserved area holds, announcing more bytes than were writable and peeking an
    integer that is not there all stop at the operation's assert. *)
Theorem buffer_misuse_asserts `{!Host} len data b :
  (readableBytes b < len → retrieve len b = Fail AssertFailure ∧ unwrite len b = Fail AssertFailure ∧
                           retrieveAsString len b = Fail AssertFailure) ∧
  (prependableBytes b < len → prepend data len b = Fail AssertFailure) ∧
  (writableBytes b < len → hasWritten len b = Fail AssertFailure) ∧
  (readableBytes b < 4 → readInt32 b = Fail AssertFailure).
Proof.
  split_and!; intros Hlt.
  - split_and!; [by apply retrieve_too_long|..]; unfold unwrite, retrieveAsString, require;
      by rewrite (proj2 (Z.leb_gt _ _)).
  - by apply prepend_too_long.
  - unfold hasWritten, require. by rewrite (proj2 (Z.leb_gt _ _)).
  - unfold readInt32, peekInt32, require. by rewrite (proj2 (Z.leb_gt _ _)).
Qed.

Lemma buffer_misuse_asserts_witness :
  retrieve 1 small_buffer = Fail AssertFailure ∧ prepend (replicate 9 Byte.x00) 9 small_buffer = Fail AssertFailure ∧
  hasWritten 5 small_buffer = Fail AssertFailure ∧ @readInt32 LittleEndian small_buffer = Fail AssertFailure.
Proof.
  split_and!.
  - apply (@buffer_misuse_asserts LittleEndian 1 [] small_buffer). by vm_compute.
  - apply (@buffer_misuse_asserts LittleEndian 9 (replicate 9 Byte.x00) small_buffer). by vm_compute.
  - apply (@buffer_misuse_asserts LittleEndian 5 [] small_buffer). by vm_compute.
  - apply (@buffer_misuse_asserts LittleEndian 0 [] small_buffer). by vm_compute.
Defined.

(** [StringPiece::compare] and [operator<] are the lexicographic order of the byte
    strings the pieces stand for, also when one is a prefix of the other. *)
Theorem piece_order x y :
  StringPiece.valid x → StringPiece.valid y →
  compare x y = Ok (sign_of (lex (view x) (view y))) ∧
  piece_lt x y = Ok (match lex (view x) (view y) with Lt => true | _ => false end).
Proof.
  intros Hx Hy. split; [by apply compare_lex|].
  unfold piece_lt. rewrite binary_predicate_lex; try done.
  - by rewrite sign_lt.
  - intros a b0. destruct (Z.ltb_spec a b0), (Z.compare_spec a b0); cbn; try done; lia.
Qed.

Lemma piece_order_witness :
  let x := of_range (bytes_of_string "abc") 2 in
  let y := of_range (bytes_of_string "abd") 3 in
  compare x y = Ok (sign_of (lex (view x) (view y))) ∧
  piece_lt x y = Ok (match lex (view x) (view y) with Lt => true | _ => false end).
Proof. cbv zeta. apply piece_order; (split; [split; by vm_compute|by vm_compute]). Defined.
