(* ===== verification/Format.v ===== *)
(** The parts of the C library the base classes share: the printf formats the
    sources use, snprintf(3), and [struct tm]. *)
From S2P Require Import Prelude.

(** ["%d"], ["%" PRId64]. *)
Definition decimal (z : Z) : list byte := bytes_of_string (pretty z).

(** A field of at least [w] characters, padded on the left with blanks. *)
Definition pad_left (w : Z) (s : list byte) : list byte :=
  replicate (Z.to_nat (w - zlen s)) Byte.x20 ++ s.

(** ["%5d"]. *)
Definition format_d (w z : Z) : list byte := pad_left w (decimal z).

(** ["%06d"]: padded with zeros after the sign. *)
Definition format_0d (w z : Z) : list byte :=
  let digits := decimal (Z.abs z) in
  let sign := if z <? 0 then [Byte.x2d] else [] in
  sign ++ replicate (Z.to_nat (w - zlen sign - zlen digits)) Byte.x30 ++ digits.

(** What snprintf leaves in a buffer of [size] bytes (without the NUL), and what
    it returns. *)
Definition snprintf (size : Z) (s : list byte) : list byte * Z := (ztake (size - 1) s, zlen s).

Lemma snprintf_fits size s : zlen s < size → snprintf size s = (s, zlen s).
Proof. intros. unfold snprintf. by rewrite ztake_all by lia. Qed.

Lemma snprintf_bound size s : 1 ≤ size → zlen (snprintf size s).1 ≤ size - 1.
Proof.
  intros. unfold snprintf. cbn. destruct (Z.le_ge_cases (zlen s) (size - 1)).
  - rewrite ztake_all; lia.
  - rewrite zlen_ztake; [lia|]. pose proof (zlen_nonneg s). lia.
Qed.

Lemma bytes_of_string_inj s t : bytes_of_string s = bytes_of_string t → s = t.
Proof.
  intros E. rewrite <- (String.string_of_list_byte_of_string s), <- (String.string_of_list_byte_of_string t).
  unfold bytes_of_string in E. by rewrite E.
Qed.

(** Different numbers print differently. *)
Lemma decimal_inj a b : decimal a = decimal b → a = b.
Proof. intros E. by apply bytes_of_string_inj, (inj pretty) in E. Qed.

(** * How long numbers print *)
Lemma pretty_len k n s : (n < 10 ^ N.of_nat k)%N → (String.length (pretty_N_go n s) ≤ k + String.length s)%nat.
Proof.
  revert n s. induction k as [|k IH]; intros n s Hn.
  { cbn in Hn. assert (n = 0)%N as -> by lia. rewrite pretty_N_go_0. lia. }
  destruct (decide (n = 0)%N) as [->|]; [rewrite pretty_N_go_0; lia|]. rewrite pretty_N_go_step by lia.
  etrans; [apply IH|cbn; lia]. apply N.Div0.div_lt_upper_bound.
  replace (N.of_nat (S k)) with (N.succ (N.of_nat k)) in Hn by lia. rewrite N.pow_succ_r' in Hn. lia.
Qed.

Lemma length_bytes s : zlen (bytes_of_string s) = Z.of_nat (String.length s).
Proof. unfold zlen. f_equal. induction s as [|c s IH]; cbn; [done|by f_equal]. Qed.

Lemma pretty_grows n s : (String.length s ≤ String.length (pretty_N_go n s))%nat.
Proof.
  revert s. induction (N.lt_wf_0 n) as [n _ IH]; intros s.
  destruct (decide (n = 0)%N) as [->|]; [by rewrite pretty_N_go_0|]. rewrite pretty_N_go_step by lia.
  etrans; [|apply IH, N.div_lt; lia]. cbn. lia.
Qed.

(** A 64-bit integer takes at most 21 characters. *)
Lemma decimal_len v : - 2 ^ 64 < v < 2 ^ 64 → 0 < zlen (decimal v) ≤ 21.
Proof.
  intros Hv. unfold decimal. rewrite length_bytes.
  assert (H20 : ∀ p, Z.pos p < 2 ^ 64 → (String.length (pretty_N_go (N.pos p) "") ≤ 20)%nat).
  { intros p Hp. pose proof (pretty_len 20 (N.pos p) "") as HL. cbn [String.length] in HL.
    assert (2 ^ 64 < 10 ^ N.of_nat 20)%N by (by vm_compute). etrans; [apply HL; lia|lia]. }
  assert (H0 : ∀ p, (0 < String.length (pretty_N_go (N.pos p) ""))%nat).
  { intros p. destruct (String.length (pretty_N_go (N.pos p) "")) eqn:E; [|lia].
    exfalso. rewrite pretty_N_go_step in E by lia.
    pose proof (pretty_grows (N.pos p / 10) (String (pretty_N_char (N.pos p mod 10)) "")) as HG. cbn [String.length] in HG. lia. }
  destruct v as [|p|p]; cbn; [lia| |].
  - pose proof (H20 p ltac:(lia)). pose proof (H0 p).
    change (pretty p) with (pretty_N_go (N.pos p) ""). lia.
  - pose proof (H20 p ltac:(lia)). pose proof (H0 p).
    change (String.length ("-" +:+ pretty p)) with (S (String.length (pretty_N_go (N.pos p) ""))). lia.
Qed.

(** A number of at most [k] digits. *)
Lemma decimal_digits k z : 0 ≤ z < 10 ^ Z.of_nat k → (0 < k)%nat → zlen (decimal z) ≤ Z.of_nat k.
Proof.
  intros Hz Hk. unfold decimal. rewrite length_bytes. destruct z as [|p|p]; [cbn; lia| |lia].
  change (pretty (Z.pos p)) with (pretty_N_go (N.pos p) ""). pose proof (pretty_len k (N.pos p) "") as HL.
  cbn [String.length] in HL. assert (N.pos p < 10 ^ N.of_nat k)%N; [|lia].
  apply N2Z.inj_lt. rewrite N2Z.inj_pow, nat_N_Z. cbn. lia.
Qed.

(** [struct tm]; [tm_zone] is the string the pointer leads to, if it is not NULL. *)
Record tm := mkTm {
  tm_year : Z; tm_mon : Z; tm_mday : Z; tm_hour : Z; tm_min : Z; tm_sec : Z;
  tm_wday : Z; tm_yday : Z; tm_isdst : Z; tm_gmtoff : Z; tm_zone : option (list byte)
}.

(** After [memZero]. *)
Definition tm_zero : tm := mkTm 0 0 0 0 0 0 0 0 0 0 None.
