(* ===== verification/LogStream.v ===== *)
(** Formatting of log messages: networker/base/LogStream.h and LogStream.cpp.

    [FixedBuffer<SIZE>] is its array and the offset of [cur_]; the array is not
    initialised, so a new buffer starts with any bytes.  Integers are formatted by
    the library's own [convert]; it is shown equal to the printf format "%d", and the
    stream is a bounded log that takes each item completely or not at all. *)
From S2P Require Import Prelude.
From S2P Require Import Format.
From S2P Require Import StringPiece.
From S2P Require Import Buffer.

Definition kSmallBuffer : Z := 4000.
Definition kLargeBuffer : Z := 4000 * 1000.

(** * FixedBuffer *)
Record FixedBuffer := mkFixed { data_ : list byte; cur_ : Z }.

Definition new_FixedBuffer (garbage : list byte) : FixedBuffer := mkFixed garbage 0.

Definition avail (b : FixedBuffer) : Z := i32 (zlen (data_ b) - cur_ b).
Definition length_of (b : FixedBuffer) : Z := i32 (cur_ b).

(** [memcpy(cur_, buf, len)] when [avail() > static_cast<int>(len)]; [len] is a [size_t]. *)
Definition fixed_append (buf : list byte) (len : Z) (b : FixedBuffer) : outcome FixedBuffer :=
  if i32 len <? avail b then
    d ← load 0 len buf;
    m ← store (cur_ b) d (data_ b);
    Ok (mkFixed m (cur_ b + len))
  else Ok b.

Definition fixed_add (len : Z) (b : FixedBuffer) : FixedBuffer := mkFixed (data_ b) (cur_ b + len).
Definition fixed_reset (b : FixedBuffer) : FixedBuffer := mkFixed (data_ b) 0.
Definition fixed_bzero (b : FixedBuffer) : FixedBuffer :=
  mkFixed (replicate (length (data_ b)) Byte.x00) (cur_ b).

(** * Integers *)
Definition digits : list byte := bytes_of_string "9876543210123456789".
Definition digitsHex : list byte := bytes_of_string "0123456789ABCDEF".

(** [zero\[lsd\]], [zero] pointing at the middle of [digits]. *)
Definition zero (lsd : Z) : outcome byte := 
  if 9 + lsd <? 0 then Fail UndefinedBehaviour
  else match digits !! Z.to_nat (9 + lsd) with Some c => Ok c | None => Fail UndefinedBehaviour end.

(** The [do ... while (i != 0)] of [convert]; [out] is what was written, last first. *)
Fixpoint convert_loop (fuel : nat) (i : Z) (out : list byte) : outcome (list byte) :=
  match fuel with
  | O => Fail UndefinedBehaviour
  | S fuel =>
      c ← zero (Z.rem i 10);
      let i := Z.quot i 10 in
      if i =? 0 then Ok (c :: out) else convert_loop fuel i (c :: out)
  end.

(** Enough rounds for 64 bits. *)
Definition rounds : nat := 64.

(** [convert]: the characters left in [buf] after [std::reverse]; the sign was
    written last. *)
Definition convert (value : Z) : outcome (list byte) :=
  out ← convert_loop rounds value [];
  Ok (if value <? 0 then Byte.x2d :: out else out).

Fixpoint convertHex_loop (fuel : nat) (i : Z) (out : list byte) : outcome (list byte) :=
  match fuel with
  | O => Fail UndefinedBehaviour
  | S fuel =>
      match digitsHex !! Z.to_nat (i mod 16) with
      | None => Fail UndefinedBehaviour
      | Some c =>
          let i := i / 16 in
          if i =? 0 then Ok (c :: out) else convertHex_loop fuel i (c :: out)
      end
  end.

Definition convertHex (value : Z) : outcome (list byte) := convertHex_loop rounds value [].

(** * LogStream *)
Definition kMaxNumericSize : Z := 32.

(** Writing a C string at [current()] and [add]ing its length. *)
Definition put_numeric (s : list byte) (b : FixedBuffer) : outcome FixedBuffer :=
  m ← store (cur_ b) (s ++ [Byte.x00]) (data_ b);
  Ok (fixed_add (zlen s) (mkFixed m (cur_ b))).

Definition formatInteger (v : Z) (b : FixedBuffer) : outcome FixedBuffer :=
  if kMaxNumericSize <=? avail b then s ← convert v; put_numeric s b else Ok b.

(** The [operator<<] overloads. *)
Inductive item :=
| LBool (v : bool)
| LShort (v : Z) | LUShort (v : Z) | LInt (v : Z) | LUInt (v : Z) | LLong (v : Z) | LULong (v : Z)
| LPointer (p : Z)
| LDouble (g : list byte)         (** a floating value, as "%.12g" prints it *)
| LChar (v : byte)
| LCString (s : option (list byte))  (** a [char*]: NULL, or the memory from it on *)
| LString (v : list byte)
| LFmt (buf : list byte) (len : Z).  (** a [Fmt] object: [buf_] and [length_] *)

Definition put (x : item) (b : FixedBuffer) : outcome FixedBuffer :=
  match x with
  | LBool v => fixed_append (string_data (bytes_of_string (if v then "1" else "0"))) 1 b
  | LShort v | LUShort v | LInt v | LUInt v | LLong v | LULong v => formatInteger v b
  | LPointer p =>
      if kMaxNumericSize <=? avail b then
        s ← convertHex (u64 p); put_numeric (Byte.x30 :: Byte.x78 :: s) b
      else Ok b
  | LDouble g =>
      if kMaxNumericSize <=? avail b then
        let '(s, len) := snprintf kMaxNumericSize g in
        m ← store (cur_ b) (s ++ [Byte.x00]) (data_ b);
        Ok (fixed_add len (mkFixed m (cur_ b)))
      else Ok b
  | LChar v => fixed_append [v] 1 b
  | LCString None => fixed_append (string_data (bytes_of_string "(null)")) 6 b
  | LCString (Some s) => n ← strlen s; fixed_append s n b
  | LString v => fixed_append (string_data v) (zlen v) b
  | LFmt buf len => fixed_append buf (u64 len) b
  end.

(** [Fmt(fmt, val)]: [s] is what the format prints. *)
Definition new_Fmt (s : list byte) : outcome item :=
  let '(buf, n) := snprintf 32 s in
  _ ← require (u64 n <? 32);
  Ok (LFmt (buf ++ [Byte.x00]) n).

Fixpoint put_all (xs : list item) (b : FixedBuffer) : outcome FixedBuffer :=
  match xs with [] => Ok b | x :: xs => b ← put x b; put_all xs b end.

(** * Abstract state *)

(** What has been logged so far. *)
Definition logged (b : FixedBuffer) : list byte := ztake (cur_ b) (data_ b).

(** The offset stays inside the array, whose size is an [int]. *)
Definition fixed_ok (b : FixedBuffer) : Prop := 0 ≤ cur_ b ≤ zlen (data_ b) ∧ zlen (data_ b) < 2 ^ 31.

(** What one item prints. *)
Definition prints (x : item) : list byte :=
  match x with
  | LBool v => bytes_of_string (if v then "1" else "0")
  | LShort v | LUShort v | LInt v | LUInt v | LLong v | LULong v => decimal v
  | LPointer p => match convertHex (u64 p) with Ok s => Byte.x30 :: Byte.x78 :: s | Fail _ => [] end
  | LDouble g => g
  | LChar v => [v]
  | LCString None => bytes_of_string "(null)"
  | LCString (Some s) => until_nul s
  | LString v => v
  | LFmt buf len => ztake len buf
  end.

(** How much room an item asks for before it prints. *)
Definition needs (x : item) : Z :=
  match x with
  | LShort _ | LUShort _ | LInt _ | LUInt _ | LLong _ | LULong _ | LPointer _ | LDouble _ => 32
  | _ => zlen (prints x) + 1
  end.

(** The values have the type's width; strings end and have [int] sizes. *)
Definition item_ok (x : item) : Prop :=
  match x with
  | LShort v => - 2 ^ 15 ≤ v < 2 ^ 15 | LUShort v => 0 ≤ v < 2 ^ 16
  | LInt v => in_i32 v | LUInt v => 0 ≤ v < 2 ^ 32
  | LLong v => in_i64 v | LULong v => 0 ≤ v < 2 ^ 64
  | LPointer p => 0 ≤ p < 2 ^ 64
  | LDouble g => zlen g < 32
  | LCString (Some s) => Byte.x00 ∈ s ∧ zlen s < 2 ^ 31
  | LString v => zlen v < 2 ^ 31
  | LFmt buf len => 0 ≤ len < 32 ∧ len ≤ zlen buf
  | _ => True
  end.

(** * convert *)
Definition digit_byte (d : N) : byte := Ascii.byte_of_ascii (pretty_N_char d).

Lemma zero_digit d :
  (d < 10)%N → zero (Z.of_N d) = Ok (digit_byte d) ∧ zero (- Z.of_N d) = Ok (digit_byte d).
Proof.
  intros Hd. assert (d = 0 ∨ d = 1 ∨ d = 2 ∨ d = 3 ∨ d = 4 ∨ d = 5 ∨ d = 6 ∨ d = 7 ∨ d = 8 ∨ d = 9)%N
    as H by lia. repeat (destruct H as [->|H]; [by vm_compute|]). subst d. by vm_compute.
Qed.

Lemma div10 n : Z.of_N (n / 10) = Z.of_N n / 10.
Proof. by rewrite N2Z.inj_div. Qed.
Lemma mod10 n : Z.of_N (n mod 10) = Z.of_N n mod 10.
Proof. by rewrite N2Z.inj_mod. Qed.

Lemma convert_loop_digits fuel n sgn s :
  (0 < n)%N → (n < 10 ^ N.of_nat fuel)%N → sgn = 1 ∨ sgn = -1 →
  convert_loop fuel (sgn * Z.of_N n) (bytes_of_string s) = Ok (bytes_of_string (pretty_N_go n s)).
Proof.
  revert n s. induction fuel as [|fuel IH]; intros n s Hn Hlt Hsgn; [cbn in Hlt; lia|].
  cbn [convert_loop]. rewrite pretty_N_go_step by done.
  assert (Er : Z.rem (sgn * Z.of_N n) 10 = sgn * Z.of_N (n mod 10))
    by (rewrite mod10; destruct Hsgn as [->| ->]; dlia).
  assert (Eq : Z.quot (sgn * Z.of_N n) 10 = sgn * Z.of_N (n / 10))
    by (rewrite div10; destruct Hsgn as [->| ->]; dlia).
  assert (Hd : (n mod 10 < 10)%N) by (apply N.mod_lt; lia).
  assert (Hz : zero (sgn * Z.of_N (n mod 10)) = Ok (digit_byte (n mod 10))).
  { destruct (zero_digit _ Hd) as [H1 H2]. destruct Hsgn as [->| ->];
      [by replace (1 * _) with (Z.of_N (n mod 10)) by lia|by replace (-1 * _) with (- Z.of_N (n mod 10)) by lia]. }
  rewrite Er, Eq, Hz, bind_Ok.
  change (digit_byte (n mod 10) :: bytes_of_string s) with (bytes_of_string (String (pretty_N_char (n mod 10)) s)).
  destruct (Z.eqb_spec (sgn * Z.of_N (n / 10)) 0) as [E|E].
  - assert (n / 10 = 0)%N as -> by (destruct Hsgn as [->| ->]; lia). by rewrite pretty_N_go_0.
  - apply IH; [apply N.neq_0_lt_0; intros E0; apply E; rewrite E0; lia| |done]. apply N.Div0.div_lt_upper_bound.
    replace (N.of_nat (S fuel)) with (N.succ (N.of_nat fuel)) in Hlt by lia.
    rewrite N.pow_succ_r' in Hlt. lia.
Qed.

(** The library's conversion and printf agree on every 64-bit integer. *)
Lemma convert_decimal v : - 2 ^ 64 < v < 2 ^ 64 → convert v = Ok (decimal v).
Proof.
  intros Hv. unfold convert, decimal.
  assert (Hfuel : ∀ p, Z.pos p < 2 ^ 64 → (N.pos p < 10 ^ N.of_nat rounds)%N).
  { intros p Hp. assert (2 ^ 64 < 10 ^ N.of_nat rounds)%N by (by vm_compute). lia. }
  destruct v as [|p|p]; [by vm_compute| |].
  - pose proof (convert_loop_digits rounds (N.pos p) 1 "" ltac:(lia) (Hfuel p ltac:(lia)) ltac:(by left)) as E.
    replace (1 * Z.of_N (N.pos p)) with (Z.pos p) in E by lia. cbn [bytes_of_string] in E.
    change (convert_loop rounds (Z.pos p) []) with (convert_loop rounds (Z.pos p) (bytes_of_string "")).
    rewrite E, bind_Ok. done.
  - pose proof (convert_loop_digits rounds (N.pos p) (-1) "" ltac:(lia) (Hfuel p ltac:(lia)) ltac:(by right)) as E.
    replace (-1 * Z.of_N (N.pos p)) with (Z.neg p) in E by lia.
    change (convert_loop rounds (Z.neg p) []) with (convert_loop rounds (Z.neg p) (bytes_of_string "")).
    rewrite E, bind_Ok. done.
Qed.

(** * convertHex *)
Definition hex_digit (c : byte) : Z := default 0 (Z.of_nat <$> (fst <$> list_find (λ x, x = c) digitsHex)).
Definition hex_value (s : list byte) : Z := fold_left (λ a c, 16 * a + hex_digit c) s 0.

Lemma hex_value_snoc s c : hex_value (s ++ [c]) = 16 * hex_value s + hex_digit c.
Proof. unfold hex_value. by rewrite fold_left_app. Qed.

Lemma hex_char d : 0 ≤ d < 16 → ∃ c, digitsHex !! Z.to_nat d = Some c ∧ hex_digit c = d.
Proof.
  intros Hd.
  assert (H : forallb (λ d, match digitsHex !! Z.to_nat d with Some c => hex_digit c =? d | None => false end)
                (seqZ 0 16) = true) by (vm_compute; reflexivity).
  rewrite forallb_forall in H. specialize (H d). destruct (digitsHex !! Z.to_nat d) as [c|].
  - exists c. split; [done|]. apply Z.eqb_eq, H, list_elem_of_In, elem_of_seqZ. lia.
  - discriminate H. apply list_elem_of_In, elem_of_seqZ. lia.
Qed.

Lemma convertHex_loop_ok fuel i out :
  0 ≤ i < 16 ^ Z.of_nat (S fuel) →
  ∃ d, convertHex_loop (S fuel) i out = Ok (d ++ out) ∧ hex_value d = i ∧ 0 < zlen d ≤ Z.of_nat (S fuel).
Proof.
  revert i out. induction fuel as [|fuel IH]; intros i out Hi.
  all: assert (Hm : 0 ≤ i mod 16 < 16) by (apply Z.mod_pos_bound; lia).
  all: destruct (hex_char _ Hm) as (c & Ec & Hc); cbn [convertHex_loop]; rewrite Ec.
  - assert (i / 16 = 0) as E by (change (16 ^ Z.of_nat 1) with 16 in Hi; dlia). rewrite E. cbn.
    exists [c]. split_and!; [done| |by vm_compute|by vm_compute].
    change (hex_digit c = i). rewrite Hc. dlia.
  - destruct (Z.eqb_spec (i / 16) 0) as [E|E].
    + exists [c]. split_and!; [done| |done|zlia]. change (hex_digit c = i). rewrite Hc. dlia.
    + assert (Hi' : 0 ≤ i / 16 < 16 ^ Z.of_nat (S fuel)).
      { rewrite (Nat2Z.inj_succ (S fuel)), Z.pow_succ_r in Hi by lia.
        generalize dependent (16 ^ Z.of_nat (S fuel)). intros. dlia. }
      destruct (IH (i / 16) (c :: out) Hi') as (d & E2 & Ed & Hd). exists (d ++ [c]). split_and!.
      * rewrite <- app_assoc. exact E2.
      * rewrite hex_value_snoc, Ed, Hc. dlia.
      * zlia.
      * zlia.
Qed.

Lemma convertHex_ok v :
  0 ≤ v < 2 ^ 64 → ∃ s, convertHex v = Ok s ∧ hex_value s = v ∧ 0 < zlen s ≤ 16.
Proof.
  intros Hv. destruct (convertHex_loop_ok 15 v []) as (d & E & Hd & Hl); [by change (16 ^ Z.of_nat 16) with (2 ^ 64)|].
  exists d. split_and!; try lia. unfold convertHex, rounds.
  assert (Hmore : ∀ k fuel i out r, convertHex_loop fuel i out = Ok r → convertHex_loop (fuel + k) i out = Ok r).
  { intros k fuel. induction fuel as [|fuel IH]; intros i out r; [done|]. cbn [convertHex_loop Nat.add].
    destruct (digitsHex !! _); [|done]. destruct (_ =? 0); [done|]. apply IH. }
  change 64%nat with (16 + 48)%nat. rewrite (Hmore 48%nat 16%nat _ _ _ E). by rewrite app_nil_r.
Qed.

(** * The buffer *)
Lemma ztake_zblit i k (d l : list byte) :
  0 ≤ i → 0 ≤ k ≤ zlen d → i + zlen d ≤ zlen l → ztake (i + k) (zblit i d l) = ztake i l ++ ztake k d.
Proof.
  intros Hi Hk Hl. unfold zblit.
  assert (Ei : zlen (ztake i l) = i) by (apply zlen_ztake; pose proof (zlen_nonneg d); lia).
  unfold ztake at 1. rewrite Z2Nat.inj_add by lia.
  assert (Hn : Z.to_nat i = length (ztake i l)) by (unfold zlen in Ei; lia).
  rewrite Hn, take_app_add'; [|done]. f_equal. rewrite take_app_le; [done|]. unfold zlen in Hk. lia.
Qed.

Lemma avail_ok b : fixed_ok b → avail b = zlen (data_ b) - cur_ b.
Proof. intros [Hc Hl]. unfold avail. apply i32_small. unfold in_i32. lia. Qed.

Lemma logged_len b : fixed_ok b → zlen (logged b) = cur_ b.
Proof. intros [Hc _]. by apply zlen_ztake. Qed.

(** Storing characters and a terminator at [current()]. *)
Lemma put_numeric_ok s b :
  fixed_ok b → zlen s + 1 ≤ avail b →
  ∃ b', put_numeric s b = Ok b' ∧ fixed_ok b' ∧ zlen (data_ b') = zlen (data_ b) ∧ logged b' = logged b ++ s.
Proof.
  intros I Ha. rewrite avail_ok in Ha by done. pose proof I as [Hc Hl]. pose proof (zlen_nonneg s).
  assert (Es : zlen (s ++ [Byte.x00]) = zlen s + 1) by (by rewrite zlen_app).
  unfold put_numeric. rewrite store_ok, bind_Ok by lia.
  assert (Ez : zlen (zblit (cur_ b) (s ++ [Byte.x00]) (data_ b)) = zlen (data_ b)) by (apply zlen_zblit; lia).
  eexists. split; [done|]. unfold fixed_ok, logged, fixed_add. cbn. rewrite Ez. split_and!; try lia.
  rewrite ztake_zblit by lia. f_equal. apply ztake_app_len. done.
Qed.

Lemma fixed_append_ok buf len b :
  fixed_ok b → 0 ≤ len < 2 ^ 31 → len ≤ zlen buf →
  ∃ b', fixed_append buf len b = Ok b' ∧ fixed_ok b' ∧ zlen (data_ b') = zlen (data_ b) ∧
        logged b' = if len <? avail b then logged b ++ ztake len buf else logged b.
Proof.
  intros I Hl Hb. unfold fixed_append. rewrite i32_small by (unfold in_i32; lia).
  destruct (Z.ltb_spec len (avail b)) as [Hlt|Hge]; [|by exists b].
  rewrite avail_ok in Hlt by done. pose proof I as [Hc Hd].
  rewrite load_ok, bind_Ok, zslice_zlen_0 by lia.
  assert (El : zlen (ztake len buf) = len) by (apply zlen_ztake; lia).
  rewrite store_ok, bind_Ok by lia.
  assert (Ez : zlen (zblit (cur_ b) (ztake len buf) (data_ b)) = zlen (data_ b)) by (apply zlen_zblit; lia).
  eexists. split; [done|]. unfold fixed_ok, logged. cbn. rewrite Ez. split_and!; try lia.
  rewrite ztake_zblit by lia. f_equal. apply ztake_all. lia.
Qed.

(** * The stream *)

(** An item is taken whole if the room it asks for is there. *)
Definition spec_put (size : Z) (q : list byte) (x : item) : list byte :=
  if needs x <=? size - zlen q then q ++ prints x else q.

Lemma formatInteger_ok v b :
  fixed_ok b → - 2 ^ 64 < v < 2 ^ 64 →
  ∃ b', formatInteger v b = Ok b' ∧ fixed_ok b' ∧ zlen (data_ b') = zlen (data_ b) ∧
        logged b' = if 32 <=? avail b then logged b ++ decimal v else logged b.
Proof.
  intros I Hv. unfold formatInteger, kMaxNumericSize. destruct (Z.leb_spec 32 (avail b)); [|by exists b].
  rewrite convert_decimal, bind_Ok by done. pose proof (decimal_len v Hv). by apply put_numeric_ok; [|lia].
Qed.

Lemma strlen_until_nul_mem s :
  Byte.x00 ∈ s → strlen s = Ok (zlen (until_nul s)) ∧ ztake (zlen (until_nul s)) s = until_nul s ∧
  zlen (until_nul s) ≤ zlen s.
Proof.
  induction s as [|c s IH]; intros Hin; [by apply elem_of_nil in Hin|]. cbn [strlen until_nul].
  destruct (decide (c = Byte.x00)) as [->|Hne]; [split_and!; [done|done|zlia]|].
  apply elem_of_cons in Hin as [|Hin]; [done|]. destruct (IH Hin) as (E1 & E2 & E3).
  rewrite E1. cbn. rewrite zlen_cons. split_and!; [f_equal; lia| |zlia].
  unfold ztake. rewrite Z2Nat.inj_add by zlia. change (Z.to_nat 1 + ?n)%nat with (S n).
  cbn [take]. f_equal. exact E2.
Qed.

(** Every [operator<<] appends what it prints, or nothing. *)
Lemma put_ok x b :
  fixed_ok b → item_ok x →
  ∃ b', put x b = Ok b' ∧ fixed_ok b' ∧ zlen (data_ b') = zlen (data_ b) ∧
        logged b' = spec_put (zlen (data_ b)) (logged b) x.
Proof.
  intros I Hx. unfold spec_put. rewrite logged_len by done. rewrite <- avail_ok by done.
  assert (HA : ∀ buf s, zlen s < 2 ^ 31 → zlen s ≤ zlen buf → ztake (zlen s) buf = s →
    ∃ b', fixed_append buf (zlen s) b = Ok b' ∧ fixed_ok b' ∧ zlen (data_ b') = zlen (data_ b) ∧
      logged b' = if zlen s + 1 <=? avail b then logged b ++ s else logged b).
  { intros buf s H1 H2 H3. pose proof (zlen_nonneg s).
    destruct (fixed_append_ok buf (zlen s) b I ltac:(lia) H2) as (b' & E & I' & Ed & El).
    exists b'. split_and!; try done. rewrite El, H3.
    destruct (Z.ltb_spec (zlen s) (avail b)), (Z.leb_spec (zlen s + 1) (avail b)); try lia; done. }
  destruct x as [v|v|v|v|v|v|v|p|g|c|[s|]|v|buf len]; cbn [item_ok] in Hx; cbn [put prints needs];
    try (apply formatInteger_ok; [done|unfold in_i32, in_i64 in *; lia]).
  - destruct v; [by apply (HA _ (bytes_of_string "1"))|by apply (HA _ (bytes_of_string "0"))].
  - destruct (convertHex_ok p Hx) as (h & Eh & _ & Lh). rewrite u64_small by done. rewrite Eh.
    unfold kMaxNumericSize. destruct (Z.leb_spec 32 (avail b)); [|by exists b].
    rewrite bind_Ok. apply put_numeric_ok; [done|zlia].
  - unfold kMaxNumericSize. destruct (Z.leb_spec 32 (avail b)); [|by exists b].
    rewrite snprintf_fits by done. by apply put_numeric_ok; [|lia].
  - by apply (HA [c] [c]).
  - destruct Hx as [Hnul Hlen]. destruct (strlen_until_nul_mem s Hnul) as (-> & Et & Hle).
    rewrite bind_Ok. apply HA; [lia|done|done].
  - by apply (HA _ (bytes_of_string "(null)")).
  - apply HA; [done|unfold string_data; zlia|by apply ztake_app_len].
  - destruct Hx as [Hx1 Hx2]. assert (El : zlen (ztake len buf) = len) by (apply zlen_ztake; lia).
    rewrite u64_small by lia. pose proof (HA buf (ztake len buf)) as HB. rewrite El in *. apply HB; [lia|lia|done].
Qed.

Lemma put_all_ok xs b :
  fixed_ok b → Forall item_ok xs →
  ∃ b', put_all xs b = Ok b' ∧ fixed_ok b' ∧ zlen (data_ b') = zlen (data_ b) ∧
        logged b' = fold_left (spec_put (zlen (data_ b))) xs (logged b).
Proof.
  revert b. induction xs as [|x xs IH]; intros b I Hxs; cbn; [by exists b|].
  apply list.Forall_cons in Hxs as [Hx Hxs]. destruct (put_ok x b I Hx) as (b1 & -> & I1 & E1 & L1).
  destruct (IH b1 I1 Hxs) as (b2 & E2 & I2 & E3 & L2). exists b2. rewrite bind_Ok.
  split_and!; try done; [congruence|]. by rewrite L2, E1, L1.
Qed.
