(* ===== verification/AsyncLogging.v ===== *)
(** Asynchronous logging: networker/base/AsyncLogging.h and AsyncLogging.cpp.

    Any number of front-end threads call [append]; one back-end thread runs
    [threadFunc].  A [shared_ptr<Buffer>] has one owner at a time (pointers are moved, or
    copied and then overwritten), so buffers are values and a null pointer is [None].
    What holds the mutex is one step; the back end gives the mutex up in the wait, and the
    wait may end at any time (signal, timeout or spuriously). *)
From S2P Require Import Prelude.
From S2P Require Import Format.
From S2P Require Import StringPiece.
From S2P Require Import Buffer.
From S2P Require Import LogStream.

(** [BufferPtr]. *)
Abbreviation BufferPtr := (option FixedBuffer).

Definition ptr (p : BufferPtr) : outcome FixedBuffer :=
  match p with Some b => Ok b | None => Fail UndefinedBehaviour end.

Record AsyncLogging := mkAsync {
  running_ : bool;
  currentBuffer_ : BufferPtr;
  nextBuffer_ : BufferPtr;
  buffers_ : list FixedBuffer
}.

Definition set_running (v : bool) (a : AsyncLogging) : AsyncLogging :=
  mkAsync v (currentBuffer_ a) (nextBuffer_ a) (buffers_ a).

(** [AsyncLogging::AsyncLogging]: two buffers, cleared; [junk] is the memory they get. *)
Definition new_AsyncLogging (junk1 junk2 : list byte) : AsyncLogging :=
  mkAsync false (Some (fixed_bzero (new_FixedBuffer junk1))) (Some (fixed_bzero (new_FixedBuffer junk2))) [].

(** * The front end *)
Definition append (junk logline : list byte) (len : Z) (a : AsyncLogging) : outcome AsyncLogging :=
  cur ← ptr (currentBuffer_ a);
  if len <? avail cur then
    cur ← fixed_append logline (u64 len) cur;
    Ok (mkAsync (running_ a) (Some cur) (nextBuffer_ a) (buffers_ a))
  else
    let buffers := buffers_ a ++ [cur] in
    let cur := match nextBuffer_ a with Some b => b | None => new_FixedBuffer junk end in
    cur ← fixed_append logline (u64 len) cur;
    Ok (mkAsync (running_ a) (Some cur) None buffers).

(** * The back end *)

(** The locals of [threadFunc]. *)
Record Backend := mkBackend {
  newBuffer1 : BufferPtr;
  newBuffer2 : BufferPtr;
  buffersToWrite : list FixedBuffer
}.

Definition new_Backend (junk1 junk2 : list byte) : Backend :=
  mkBackend (Some (fixed_bzero (new_FixedBuffer junk1))) (Some (fixed_bzero (new_FixedBuffer junk2))) [].

(** [assert(p && p->length() == 0)]. *)
Definition empty_ptr (p : BufferPtr) : bool :=
  match p with Some b => length_of b =? 0 | None => false end.

(** The asserts at the top of the loop. *)
Definition top_asserts (b : Backend) : outcome unit :=
  _ ← require (empty_ptr (newBuffer1 b));
  _ ← require (empty_ptr (newBuffer2 b));
  require (bool_decide (buffersToWrite b = [])).

(** The critical section after the wait. *)
Definition swap_buffers (a : AsyncLogging) (b : Backend) : outcome (AsyncLogging * Backend) :=
  cur ← ptr (currentBuffer_ a);
  let full := buffers_ a ++ [cur] in
  let a' := mkAsync (running_ a) (newBuffer1 b) (nextBuffer_ a) (buffersToWrite b) in
  match nextBuffer_ a with
  | None => Ok (mkAsync (running_ a') (currentBuffer_ a') (newBuffer2 b) (buffers_ a'), mkBackend None None full)
  | Some _ => Ok (a', mkBackend None (newBuffer2 b) full)
  end.

(** The notice about dropped buffers; [now] is the formatted time. *)
Definition notice (now : list byte) (n : Z) : list byte :=
  let '(buf, _) := snprintf 256 (bytes_of_string "Drooped log message at " ++ now ++ bytes_of_string ", " ++
                                 decimal n ++ bytes_of_string " larger buffer" ++ [newline]) in until_nul buf.

(** What is given to [output.append], and what is kept of the buffers. *)
Definition limit_buffers (now : list byte) (bs : list FixedBuffer) : list (list byte) * list FixedBuffer :=
  if 25 <? zlen bs then ([notice now (zlen bs - 2)], ztake 2 bs) else ([], bs).

(** [output.append(data(), length())]. *)
Definition written (b : FixedBuffer) : list byte := ztake (length_of b) (data_ b).

(** Takes the last buffer for an empty [newBuffer]. *)
Definition refill (p : BufferPtr) (bs : list FixedBuffer) : outcome (BufferPtr * list FixedBuffer) :=
  match p with
  | Some _ => Ok (p, bs)
  | None =>
      match list.last bs with
      | Some b => Ok (Some (fixed_reset b), removelast bs)
      | None => Fail AssertFailure
      end
  end.

(** The part of a round outside the critical section: what [output] is given, and the locals. *)
Definition write_round (now : list byte) (b : Backend) : outcome (list (list byte) * Backend) :=
  _ ← require (negb (bool_decide (buffersToWrite b = [])));
  let '(head, bs) := limit_buffers now (buffersToWrite b) in
  let out := head ++ map written bs in
  let bs := if 2 <? zlen bs then ztake 2 bs else bs in
  '(nb1, bs) ← refill (newBuffer1 b) bs;
  '(nb2, bs) ← refill (newBuffer2 b) bs;
  Ok (out, mkBackend nb1 nb2 []).

(** * The threads together *)
Inductive phase :=
| BStart                   (** created, before the assert of [threadFunc] *)
| BTop (b : Backend)       (** [while (running_)] *)
| BLock (b : Backend)      (** about to take the mutex *)
| BWait (b : Backend)      (** in [cond_.waitForSeconds] *)
| BWrite (b : Backend)     (** left the critical section *)
| BDone.

Record system := mkSystem {
  async : AsyncLogging;
  back : phase;
  submitted : list (list byte);   (** the lines appended, in order *)
  output : list (list byte);      (** what [LogFile::append] was given, in order *)
  floods : nat                    (** how often buffers were dropped *)
}.

(** Memory for a buffer. *)
Definition buffer_memory (junk : list byte) : Prop := zlen junk = kLargeBuffer.

Inductive front_step : system → system → Prop :=
| front_append a ph sub out n a' junk line :
    buffer_memory junk → zlen line < 2 ^ 31 → append junk line (zlen line) a = Ok a' →
    front_step (mkSystem a ph sub out n) (mkSystem a' ph (sub ++ [line]) out n)
| front_stop a ph sub out n :
    ph ≠ BStart → front_step (mkSystem a ph sub out n) (mkSystem (set_running false a) ph sub out n).

Inductive back_step : system → system → Prop :=
| back_start a sub out n junk1 junk2 :
    running_ a = true → buffer_memory junk1 → buffer_memory junk2 →
    back_step (mkSystem a BStart sub out n) (mkSystem a (BTop (new_Backend junk1 junk2)) sub out n)
| back_test a b sub out n :
    running_ a = true → top_asserts b = Ok tt →
    back_step (mkSystem a (BTop b) sub out n) (mkSystem a (BLock b) sub out n)
| back_end a b sub out n :
    running_ a = false → back_step (mkSystem a (BTop b) sub out n) (mkSystem a BDone sub out n)
| back_wait a b sub out n :
    buffers_ a = [] → back_step (mkSystem a (BLock b) sub out n) (mkSystem a (BWait b) sub out n)
| back_lock a b sub out n a' b' :
    buffers_ a ≠ [] → swap_buffers a b = Ok (a', b') →
    back_step (mkSystem a (BLock b) sub out n) (mkSystem a' (BWrite b') sub out n)
| back_wake a b sub out n a' b' :
    swap_buffers a b = Ok (a', b') →
    back_step (mkSystem a (BWait b) sub out n) (mkSystem a' (BWrite b') sub out n)
| back_write a b sub out n now lines b' :
    write_round now b = Ok (lines, b') →
    back_step (mkSystem a (BWrite b) sub out n)
      (mkSystem a (BTop b') sub (out ++ lines) (if 25 <? zlen (buffersToWrite b) then S n else n)).

Definition step (s s' : system) : Prop := front_step s s' ∨ back_step s s'.

(** [start()] after the constructor: [running_] is set and the thread created. *)
Inductive started : system → Prop :=
| started_intro junk1 junk2 : buffer_memory junk1 → buffer_memory junk2 →
    started (mkSystem (set_running true (new_AsyncLogging junk1 junk2)) BStart [] [] 0).

Definition reachable (s : system) : Prop := ∃ s0, started s0 ∧ rtc step s0 s.
