(* ===== verification/AsyncLoggingFacts.v ===== *)
(** Facts about AsyncLogging.v: the hand-over of buffers loses and reorders nothing and
    its asserts hold, in every interleaving. *)
From S2P Require Import Prelude.
From S2P Require Import Format.
From S2P Require Import StringPiece.
From S2P Require Import Buffer.
From S2P Require Import LogStream.
From S2P Require Import AsyncLogging.

(** * Buffers *)

(** A buffer of the logger, and one that is empty. *)
Definition good (b : FixedBuffer) : Prop := fixed_ok b ∧ zlen (data_ b) = kLargeBuffer.
Definition fresh (b : FixedBuffer) : Prop := good b ∧ cur_ b = 0.
Definition good_ptr (P : FixedBuffer → Prop) (p : BufferPtr) : Prop := match p with Some b => P b | None => True end.

Lemma fresh_logged b : fresh b → logged b = [].
Proof. intros [_ E]. unfold logged. by rewrite E, ztake_0. Qed.

Lemma fresh_new junk : buffer_memory junk → fresh (new_FixedBuffer junk).
Proof.
  intros E. unfold buffer_memory, kLargeBuffer in E. unfold fresh, good, fixed_ok, kLargeBuffer. cbn. lia.
Qed.

Lemma fresh_bzero b : fresh b → fresh (fixed_bzero b).
Proof.
  intros [[[Hc Hl] E] Hz]. unfold fresh, good, fixed_ok, fixed_bzero. cbn.
  rewrite zlen_replicate. fold (zlen (data_ b)). lia.
Qed.

Lemma fresh_reset b : good b → fresh (fixed_reset b).
Proof. intros [[Hc Hl] E]. unfold fresh, good, fixed_ok. cbn. lia. Qed.

Lemma empty_fresh b : fresh b → empty_ptr (Some b) = true.
Proof. intros [_ E]. unfold empty_ptr, length_of. by rewrite E. Qed.

Lemma written_logged b : good b → written b = logged b.
Proof. intros [[Hc Hl] _]. unfold written, logged, length_of. rewrite i32_small; [done|]. unfold in_i32. lia. Qed.

(** What a line leaves: a line as large as a buffer is dropped. *)
Definition kept (line : list byte) : list byte := if zlen line <? kLargeBuffer then line else [].

Lemma fixed_append_fresh b line :
  fresh b → zlen line < 2 ^ 31 →
  ∃ b', fixed_append line (u64 (zlen line)) b = Ok b' ∧ good b' ∧ logged b' = kept line.
Proof.
  intros Hf Hl. pose proof (zlen_nonneg line). rewrite u64_small by lia. pose proof Hf as [[I E] Hz].
  destruct (fixed_append_ok line (zlen line) b I) as (b' & Eb & I' & Ed & El); [lia|lia|].
  exists b'. split; [done|]. split; [split; [done|congruence]|].
  rewrite El, avail_ok by done. rewrite fresh_logged by done. unfold kept. rewrite E, Hz, Z.sub_0_r.
  destruct (zlen line <? kLargeBuffer); [|reflexivity]. by rewrite ztake_all by lia.
Qed.

Lemma fixed_append_fits b line :
  good b → zlen line < avail b →
  ∃ b', fixed_append line (u64 (zlen line)) b = Ok b' ∧ good b' ∧ logged b' = logged b ++ kept line.
Proof.
  intros [I E] Ha. pose proof (zlen_nonneg line). pose proof I as [Hc Hd]. 
  assert (Ea : avail b = kLargeBuffer - cur_ b) by (by rewrite avail_ok, E).
  rewrite u64_small by lia.
  destruct (fixed_append_ok line (zlen line) b I) as (b' & Eb & I' & Ed & El); [lia|lia|].
  exists b'. split; [done|]. split; [split; [done|congruence]|].
  rewrite El. rewrite (proj2 (Z.ltb_lt _ _)) by done. rewrite ztake_all by lia. unfold kept.
  by rewrite (proj2 (Z.ltb_lt _ _)) by lia.
Qed.

(** * The shared state *)
Definition chunks (bs : list FixedBuffer) : list byte := concat (map logged bs).
Arguments chunks : simpl never.

Lemma chunks_app bs bs' : chunks (bs ++ bs') = chunks bs ++ chunks bs'.
Proof. unfold chunks. by rewrite map_app, concat_app. Qed.

Lemma chunks_one b : chunks [b] = logged b.
Proof. unfold chunks. cbn. by rewrite app_nil_r. Qed.

Record async_ok (a : AsyncLogging) : Prop := {
  as_current : ∃ cur, currentBuffer_ a = Some cur ∧ good cur;
  as_next : good_ptr fresh (nextBuffer_ a);
  as_buffers : Forall good (buffers_ a);
  as_used : nextBuffer_ a = None → buffers_ a ≠ []
}.

(** What the front end has collected and the back end not yet taken. *)
Definition collected (a : AsyncLogging) : list byte :=
  chunks (buffers_ a) ++ match currentBuffer_ a with Some b => logged b | None => [] end.

Lemma append_ok a junk line :
  async_ok a → buffer_memory junk → zlen line < 2 ^ 31 →
  ∃ a', append junk line (zlen line) a = Ok a' ∧ async_ok a' ∧ running_ a' = running_ a ∧
    collected a' = collected a ++ kept line.
Proof.
  intros [(cur & Ec & Hc) Hn Hb Hu] Hj Hl. unfold append. rewrite Ec. cbn [ptr]. rewrite bind_Ok.
  unfold collected. rewrite Ec. destruct (Z.ltb_spec (zlen line) (avail cur)) as [Hfit|Hfull].
  - destruct (fixed_append_fits cur line Hc Hfit) as (b & -> & Hg & El). rewrite bind_Ok.
    eexists. split; [done|]. cbn. rewrite El, app_assoc. split_and!; try done. split; cbn; try done. eauto.
  - set (b0 := match nextBuffer_ a with Some b => b | None => new_FixedBuffer junk end).
    assert (Hf : fresh b0) by (unfold b0; destruct (nextBuffer_ a); [done|by apply fresh_new]).
    destruct (fixed_append_fresh b0 line Hf Hl) as (b & -> & Hg & El). rewrite bind_Ok.
    eexists. split; [done|]. cbn. rewrite chunks_app, El. rewrite chunks_one.
    split_and!; try done; []. split; cbn; [eauto|done| |intros _ E; by destruct (buffers_ a)].
    apply Forall_app. split; [done|by apply list.Forall_singleton].
Qed.

(** * The back end's locals *)
Definition ready (b : Backend) : Prop :=
  (∃ b1, newBuffer1 b = Some b1 ∧ fresh b1) ∧ (∃ b2, newBuffer2 b = Some b2 ∧ fresh b2) ∧ buffersToWrite b = [].

Record to_write (b : Backend) : Prop := {
  tw_first : newBuffer1 b = None;
  tw_second : good_ptr fresh (newBuffer2 b);
  tw_buffers : Forall good (buffersToWrite b);
  tw_some : buffersToWrite b ≠ [];
  tw_two : newBuffer2 b = None → (2 ≤ length (buffersToWrite b))%nat
}.

Lemma top_asserts_ok b : ready b → top_asserts b = Ok tt.
Proof.
  intros ((b1 & E1 & F1) & (b2 & E2 & F2) & E3). unfold top_asserts. rewrite E1, E2, E3.
  by rewrite !empty_fresh by done.
Qed.

Lemma swap_buffers_ok a b :
  async_ok a → ready b →
  ∃ a' b', swap_buffers a b = Ok (a', b') ∧ async_ok a' ∧ running_ a' = running_ a ∧ to_write b' ∧
    collected a' = [] ∧ chunks (buffersToWrite b') = collected a ∧
    length (buffersToWrite b') = S (length (buffers_ a)).
Proof.
  intros [(cur & Ec & Hc) Hn Hb Hu] ((b1 & E1 & F1) & (b2 & E2 & F2) & E3).
  unfold swap_buffers. rewrite Ec. cbn [ptr]. rewrite bind_Ok.
  assert (Hall : Forall good (buffers_ a ++ [cur])) by (apply Forall_app; split; [done|by apply list.Forall_singleton]).
  assert (Hch : chunks (buffers_ a ++ [cur]) = collected a).
  { rewrite chunks_app. unfold collected. rewrite Ec. by rewrite chunks_one. }
  assert (Hlen : length (buffers_ a ++ [cur]) = S (length (buffers_ a))) by (rewrite length_app; cbn; lia).
  destruct (nextBuffer_ a) as [nb|] eqn:En.
  - do 2 eexists. split; [done|]. split_and!; try done.
    + split; cbn; rewrite ?E1, ?E3, ?En; try done. exists b1. split; [done|apply F1].
    + split; cbn; rewrite ?E2; try done. by destruct (buffers_ a).
    + unfold collected. cbn. rewrite E1, E3. cbn. by apply fresh_logged.
  - do 2 eexists. split; [done|]. split_and!; try done.
    + split; cbn; rewrite ?E1, ?E2, ?E3; try done. exists b1. split; [done|apply F1].
    + split; cbn; try done; [by destruct (buffers_ a)|]. intros _. rewrite Hlen.
      specialize (Hu eq_refl). destruct (buffers_ a); [done|cbn; lia].
    + unfold collected. cbn. rewrite E1, E3. cbn. by apply fresh_logged.
Qed.

Lemma last_removelast {A} (l : list A) : l ≠ [] → ∃ x, list.last l = Some x ∧ l = removelast l ++ [x].
Proof.
  intros Hl. destruct (exists_last Hl) as (l' & x & ->). exists x. rewrite last_snoc, removelast_last. done.
Qed.

Lemma refill_ok p bs :
  Forall good bs → good_ptr fresh p → (p = None → bs ≠ []) →
  ∃ b bs', refill p bs = Ok (Some b, bs') ∧ fresh b ∧ Forall good bs' ∧
    length bs' = (length bs - (if p then 0 else 1))%nat.
Proof.
  intros Hg Hp Hn. destruct p as [b|].
  - exists b, bs. split_and!; try done. lia.
  - unfold refill. destruct (last_removelast bs (Hn eq_refl)) as (x & -> & E).
    rewrite E in Hg. apply Forall_app in Hg as [Hg Hx]. apply list.Forall_cons in Hx as [Hx _].
    do 2 eexists. split; [done|]. split_and!; try done; [by apply fresh_reset|].
    rewrite E at 2. rewrite length_app. cbn. lia.
Qed.

(** A round outside the critical section: the asserts hold, the locals are ready for the next
    round, and without a flood exactly the buffers' contents are written. *)
Lemma write_round_ok now b :
  to_write b →
  ∃ lines b', write_round now b = Ok (lines, b') ∧ ready b' ∧
    ((length (buffersToWrite b) ≤ 25)%nat → concat lines = chunks (buffersToWrite b)) ∧
    ((25 < length (buffersToWrite b))%nat →
       lines = notice now (zlen (buffersToWrite b) - 2) :: map logged (ztake 2 (buffersToWrite b))).
Proof.
  intros [H1 H2 Hg Hs Ht]. unfold write_round. rewrite bool_decide_eq_false_2 by done. cbn [require negb].
  rewrite bind_Ok. set (bs := (limit_buffers now (buffersToWrite b)).2).
  assert (Hbs : Forall good bs ∧ bs ≠ [] ∧ (newBuffer2 b = None → (2 ≤ length bs)%nat)).
  { unfold bs, limit_buffers. destruct (Z.ltb_spec 25 (zlen (buffersToWrite b))) as [H25|]; [|done].
    unfold ztake, zlen in *. cbn [snd]. change (Z.to_nat 2) with 2%nat. split; [by apply Forall_take|].
    destruct (buffersToWrite b) as [|x [|y l]]; cbn in *; [lia|lia|]. split; [done|lia]. }
  destruct Hbs as (Gbs & Nbs & Tbs).
  destruct (limit_buffers now (buffersToWrite b)) as [head bs0] eqn:El. cbn [snd] in bs. subst bs.
  set (bs2 := if 2 <? zlen bs0 then ztake 2 bs0 else bs0).
  assert (H22 : Forall good bs2 ∧ bs2 ≠ [] ∧ (newBuffer2 b = None → (2 ≤ length bs2)%nat)).
  { unfold bs2. destruct (Z.ltb_spec 2 (zlen bs0)) as [H3|]; [|done].
    unfold ztake, zlen in *. change (Z.to_nat 2) with 2%nat. split; [by apply Forall_take|].
    destruct bs0 as [|x [|y l]]; cbn in *; [lia|lia|]. split; [done|lia]. }
  destruct H22 as (G2 & N2 & T2).
  destruct (refill_ok (newBuffer1 b) bs2) as (c1 & bs3 & -> & F1 & G3 & L3); [done|by rewrite H1|done|].
  rewrite bind_Ok. rewrite H1 in L3.
  destruct (refill_ok (newBuffer2 b) bs3) as (c2 & bs4 & -> & F2 & _ & _); [done|done| |].
  { intros E. specialize (T2 E). intros ->. cbn in L3. lia. }
  rewrite bind_Ok. do 2 eexists. split; [done|].
  assert (Ew : map written bs0 = map logged bs0).
  { apply map_ext_in. intros x Hx. apply written_logged. rewrite list.Forall_forall in Gbs. by apply Gbs, list_elem_of_In. }
  rewrite Ew. unfold limit_buffers in El. split_and!.
  - split; [by exists c1|]. split; [by exists c2|done].
  - intros Hle. rewrite (proj2 (Z.ltb_ge _ _)) in El by (unfold zlen; lia). injection El as <- <-. done.
  - intros Hlt. rewrite (proj2 (Z.ltb_lt _ _)) in El by (unfold zlen; lia). injection El as <- <-. done.
Qed.

Lemma until_nul_le s : zlen (until_nul s) ≤ zlen s.
Proof. destruct (until_nul_prefix s) as [t E]. rewrite E at 2. zlia. Qed.

(** Everything given to the file is at most a buffer long. *)
Lemma write_round_sizes now b lines b' :
  to_write b → write_round now b = Ok (lines, b') → Forall (λ l, zlen l < 2 ^ 31) lines.
Proof.
  intros Hw E. destruct (write_round_ok now b Hw) as (l2 & b2 & E2 & _ & Hle & Hgt).
  rewrite E in E2. injection E2 as <- <-.
  assert (Hlog : ∀ bs, Forall good bs → Forall (λ l, zlen l < 2 ^ 31) (map logged bs)).
  { intros bs Hbs. apply list.Forall_fmap. eapply list.Forall_impl; [done|]. intros x [I Ex]. cbn.
    rewrite logged_len by done. destruct I as [Hc Hd]. lia. }
  unfold write_round in E. apply bind_ok in E as (_ & _ & E).
  destruct (limit_buffers now (buffersToWrite b)) as [head bs] eqn:El.
  apply bind_ok in E as ([nb1 bs1] & _ & E). apply bind_ok in E as ([nb2 bs2] & _ & [= <- _]).
  unfold limit_buffers in El. pose proof (tw_buffers _ Hw) as Hg.
  assert (Hwr : ∀ bs, Forall good bs → map written bs = map logged bs).
  { intros l Hl. apply map_ext_in. intros x Hx. apply written_logged. rewrite list.Forall_forall in Hl. by apply Hl, list_elem_of_In. }
  destruct (25 <? zlen (buffersToWrite b)); injection El as <- <-.
  - cbn [app]. assert (Forall good (ztake 2 (buffersToWrite b))) as Hg2 by (by apply Forall_take).
    rewrite Hwr by done. constructor; [|by apply Hlog]. unfold notice.
    pose proof (snprintf_bound 256 (bytes_of_string "Drooped log message at " ++ now ++ bytes_of_string ", " ++
      decimal (zlen (buffersToWrite b) - 2) ++ bytes_of_string " larger buffer" ++ [newline]) ltac:(lia)) as Hs.
    destruct (snprintf _ _) as [buf k]. cbn [fst] in Hs. pose proof (until_nul_le buf). lia.
  - cbn [app]. rewrite Hwr by done. by apply Hlog.
Qed.

(** * The threads together *)

(** The back end's locals fit its place in the program. *)
Definition locals_ok (s : system) : Prop :=
  match back s with
  | BStart => running_ (async s) = true
  | BTop b | BLock b | BWait b => ready b
  | BWrite b => to_write b
  | BDone => True
  end.

(** Taken by the back end and not yet given to the file. *)
Definition taken (ph : phase) : list byte :=
  match ph with BWrite b => chunks (buffersToWrite b) | _ => [] end.

Record consistent (s : system) : Prop := {
  co_async : async_ok (async s);
  co_locals : locals_ok s;
  co_bytes : floods s = 0%nat →
    concat (map kept (submitted s)) = concat (output s) ++ taken (back s) ++ collected (async s);
  co_output : Forall (λ l, zlen l < 2 ^ 31) (output s)
}.

Lemma concat_kept sub line : concat (map kept (sub ++ [line])) = concat (map kept sub) ++ kept line.
Proof. rewrite map_app, concat_app. cbn. by rewrite app_nil_r. Qed.

Lemma started_consistent s : started s → consistent s.
Proof.
  intros [j1 j2 H1 H2]. pose proof (fresh_bzero _ (fresh_new _ H1)) as F1. pose proof (fresh_bzero _ (fresh_new _ H2)) as F2.
  split; [split; cbn; try done; exists (fixed_bzero (new_FixedBuffer j1)); split; [done|apply F1]|done| |constructor].
  intros _. cbn. unfold collected. cbn. by rewrite fresh_logged.
Qed.

Lemma async_ok_running v a : async_ok a → async_ok (set_running v a).
Proof. by intros [? ? ? ?]. Qed.

Lemma front_consistent s s' : front_step s s' → consistent s → consistent s'.
Proof.
  intros [a ph sub out n a' junk line Hj Hl E|a ph sub out n Hph] [Ia Il Ib Io]; cbn in *.
  - destruct (append_ok a junk line Ia Hj Hl) as (a2 & E2 & Ia2 & Er & Ec).
    assert (a2 = a') as -> by congruence. split; cbn; [done| | |done].
    + unfold locals_ok in *. cbn in *. destruct ph; try done. congruence.
    + intros Hz. by rewrite concat_kept, Ib, Ec, !app_assoc.
  - split; cbn; [by apply async_ok_running| |done|done]. unfold locals_ok in *. cbn in *. by destruct ph.
Qed.

Lemma ready_new junk1 junk2 : buffer_memory junk1 → buffer_memory junk2 → ready (new_Backend junk1 junk2).
Proof.
  intros H1 H2. split; [|split; [|done]]; eexists; (split; [done|]); by apply fresh_bzero, fresh_new.
Qed.

(** Taking the buffers over keeps the books. *)
Lemma swap_consistent a b ph sub out n a' b' :
  taken ph = [] → ready b → swap_buffers a b = Ok (a', b') →
  consistent (mkSystem a ph sub out n) → consistent (mkSystem a' (BWrite b') sub out n).
Proof.
  intros Hp Hb E [Ia Il Ib Io]. cbn in *. destruct (swap_buffers_ok a b Ia Hb) as (a2 & b2 & E2 & Ia2 & Er & Hw & Hc & Ht & _).
  rewrite E in E2. injection E2 as <- <-. split; cbn; [done|done| |done].
  intros Hz. by rewrite Ib, Hp, Hc, Ht, app_nil_r by done.
Qed.

Lemma back_consistent s s' : back_step s s' → consistent s → consistent s'.
Proof.
  intros [a sub out n j1 j2 Hr H1 H2|a b sub out n Hr _|a b sub out n Hr|a b sub out n He|a b sub out n a' b' He E
         |a b sub out n a' b' E|a b sub out n now lines b' E] C.
  - destruct C as [Ia Il Ib Io]. split; cbn; [done|by apply ready_new|done|done].
  - destruct C as [Ia Il Ib Io]. by split.
  - destruct C as [Ia Il Ib Io]. by split.
  - destruct C as [Ia Il Ib Io]. by split.
  - eapply (swap_consistent a b (BLock b)); [done|apply C|done|done].
  - eapply (swap_consistent a b (BWait b)); [done|apply C|done|done].
  - destruct C as [Ia Il Ib Io]. cbn in *. pose proof (write_round_sizes now b lines b' Il E) as Hsz.
    destruct (write_round_ok now b Il) as (l2 & b2 & E2 & Hr & Hw & _).
    rewrite E in E2. injection E2 as <- <-. split; cbn; [done|done| |by apply Forall_app].
    destruct (Z.ltb_spec 25 (zlen (buffersToWrite b))) as [|Hle]; [done|].
    intros Hz. rewrite Ib, concat_app, Hw by (done || unfold zlen in Hle; lia). by rewrite app_assoc.
Qed.

Lemma reachable_consistent s : reachable s → consistent s.
Proof.
  intros (s0 & H0 & Hr). apply started_consistent in H0. induction Hr as [|x y z [Hs|Hs] _ IH]; [done|..].
  - apply IH. by eapply front_consistent.
  - apply IH. by eapply back_consistent.
Qed.

(** * No assert fails, no null pointer is used *)
Lemma no_failure s :
  reachable s →
  (∀ junk line, buffer_memory junk → zlen line < 2 ^ 31 → is_ok (append junk line (zlen line) (async s)) = true) ∧
  match back s with
  | BStart => running_ (async s) = true
  | BTop b => top_asserts b = Ok tt
  | BLock b | BWait b => is_ok (swap_buffers (async s) b) = true
  | BWrite b => ∀ now, is_ok (write_round now b) = true
  | BDone => True
  end.
Proof.
  intros Hs. apply reachable_consistent in Hs as [Ia Il _ _]. split.
  - intros junk line Hj Hl. by destruct (append_ok _ junk line Ia Hj Hl) as (a' & -> & _).
  - unfold locals_ok in Il. destruct (back s) as [|b|b|b|b|]; [done|by apply top_asserts_ok| | | |done].
    + by destruct (swap_buffers_ok _ b Ia Il) as (? & ? & -> & _).
    + by destruct (swap_buffers_ok _ b Ia Il) as (? & ? & -> & _).
    + intros now. by destruct (write_round_ok now b Il) as (? & ? & -> & _).
Qed.

(** * Progress of the back end *)

(** Its own steps bring the back end from any place inside the loop to the top. *)
Lemma finish_round s :
  consistent s → match back s with BLock _ | BWait _ | BWrite _ => True | _ => False end →
  ∃ s' b, rtc back_step s s' ∧ back s' = BTop b ∧ running_ (async s') = running_ (async s) ∧
    submitted s' = submitted s ∧
    (match back s with BWrite _ => async s' = async s | _ => collected (async s') = [] end) ∧
    ((match back s with BWrite b => length (buffersToWrite b) | _ => S (length (buffers_ (async s))) end ≤ 25)%nat →
     floods s' = floods s).
Proof.
  intros C. pose proof C as [Ia Il _ _]. destruct s as [a ph sub out n]. cbn in *.
  assert (Hwrite : ∀ a b, consistent (mkSystem a (BWrite b) sub out n) →
    ∃ s' b', rtc back_step (mkSystem a (BWrite b) sub out n) s' ∧ back s' = BTop b' ∧ async s' = a ∧
      submitted s' = sub ∧ ((length (buffersToWrite b) ≤ 25)%nat → floods s' = n)).
  { intros a1 b [_ Ib _ _]. destruct (write_round_ok [] b Ib) as (l & b' & E & _).
    do 2 eexists. split; [apply rtc_once; by eapply back_write|]. cbn. split_and!; try done.
    intros Hl. by rewrite (proj2 (Z.ltb_ge _ _)) by (unfold zlen; lia). }
  assert (Hswap : ∀ b, taken ph = [] → ready b → (∀ a' b', swap_buffers a b = Ok (a', b') →
      rtc back_step (mkSystem a ph sub out n) (mkSystem a' (BWrite b') sub out n)) →
    ∃ s' b', rtc back_step (mkSystem a ph sub out n) s' ∧ back s' = BTop b' ∧ running_ (async s') = running_ a ∧
      submitted s' = sub ∧ collected (async s') = [] ∧ ((S (length (buffers_ a)) ≤ 25)%nat → floods s' = n)).
  { intros b Hp Hb Hsteps. destruct (swap_buffers_ok a b Ia Hb) as (a' & b' & E & _ & Er & _ & Hc & _ & Hl).
    destruct (Hwrite a' b') as (s' & b2 & Hs & Hback & Ha & Hsub & Hf); [by eapply swap_consistent|].
    exists s', b2. subst a'. split_and!; try done; [|intros; apply Hf; lia].
    etrans; [by apply Hsteps|done]. }
  destruct ph as [|b|b|b|b|]; intros Hph; try done; unfold locals_ok in Il; cbn in Il.
  - destruct (Hswap b) as (s' & b' & Hs); [done|done| |by exists s', b'].
    intros a' b' E. destruct (decide (buffers_ a = [])) as [He|He].
    + etrans; [apply rtc_once; by apply back_wait|]. apply rtc_once. by apply back_wake.
    + apply rtc_once. by apply back_lock.
  - destruct (Hswap b) as (s' & b' & Hs); [done|done| |by exists s', b'].
    intros a' b' E. apply rtc_once. by apply back_wake.
  - destruct (Hwrite a b C) as (s' & b' & Hs & Hback & Ha & Hsub & Hf).
    exists s', b'. by rewrite Ha.
Qed.

(** From anywhere inside the loop the back end can, by its own steps, hand everything that was
    appended to the file. *)
Lemma drain s :
  reachable s → running_ (async s) = true → match back s with BStart | BDone => False | _ => True end →
  ∃ s', rtc back_step s s' ∧ submitted s' = submitted s ∧
    (floods s' = 0%nat → concat (output s') = concat (map kept (submitted s))) ∧
    ((length (buffers_ (async s)) < 25)%nat →
     (match back s with BWrite b => length (buffersToWrite b) ≤ 25 | _ => True end)%nat → floods s' = floods s).
Proof.
  intros Hs Hr Hp. apply reachable_consistent in Hs.
  assert (Hkeep : ∀ s1 s2, rtc back_step s1 s2 → consistent s1 → consistent s2).
  { intros s1 s2 H12. induction H12 as [|x y z Hxy _ IH]; [done|]. intros Hx. apply IH. by eapply back_consistent. }
  assert (Hlocked : ∀ s b, consistent s → back s = BLock b →
    ∃ s', rtc back_step s s' ∧ submitted s' = submitted s ∧
      (floods s' = 0%nat → concat (output s') = concat (map kept (submitted s))) ∧
      ((length (buffers_ (async s)) < 25)%nat → floods s' = floods s)).
  { intros s1 b C Hb. destruct (finish_round s1 C) as (s2 & b2 & Hst & Hb2 & _ & Hsub & Hc & Hf); [by rewrite Hb|].
    exists s2. rewrite Hb in *. split_and!; try done.
    intros Hz. pose proof (co_bytes _ (Hkeep _ _ Hst C) Hz) as E. rewrite Hb2, Hsub, Hc in E. cbn in E.
    by rewrite !app_nil_r in E. }
  assert (Htop : ∀ s b, consistent s → back s = BTop b → running_ (async s) = true →
    ∃ s', rtc back_step s s' ∧ submitted s' = submitted s ∧
      (floods s' = 0%nat → concat (output s') = concat (map kept (submitted s))) ∧
      ((length (buffers_ (async s)) < 25)%nat → floods s' = floods s)).
  { intros [a ph sub out n] b C Hb Hrun. cbn in Hb, Hrun. subst ph.
    assert (H1 : back_step (mkSystem a (BTop b) sub out n) (mkSystem a (BLock b) sub out n)).
    { apply back_test; [done|]. apply top_asserts_ok. apply (co_locals _ C). }
    destruct (Hlocked (mkSystem a (BLock b) sub out n) b) as (s' & Hst & Hsub & Ho & Hf);
      [by eapply back_consistent|done|].
    exists s'. split_and!; try done. by eapply rtc_l. }
  destruct (back s) as [|b|b|b|b|] eqn:Hb; try done.
  - destruct (Htop s b) as (s' & ? & ? & ? & Hf); [done..|]. exists s'. split_and!; try done. auto.
  - destruct (Hlocked s b) as (s' & ? & ? & ? & Hf); [done..|]. exists s'. split_and!; try done. auto.
  - destruct (finish_round s) as (s1 & b1 & H1 & Hb1 & _ & Hsub & Hc & Hf); [done|by rewrite Hb|].
    exists s1. rewrite Hb in *. split_and!; try done; [|auto].
    intros Hz. pose proof (co_bytes _ (Hkeep _ _ H1 ltac:(done)) Hz) as E. rewrite Hb1, Hsub, Hc in E. cbn in E.
    by rewrite !app_nil_r in E.
  - destruct (finish_round s) as (s1 & b1 & H1 & Hb1 & Hrun & Hsub & Ha & Hf); [done|by rewrite Hb|].
    rewrite Hb in *. destruct (Htop s1 b1) as (s2 & H2 & Hsub2 & Ho & Hf2); [by eapply Hkeep|done|congruence|].
    exists s2. split_and!; [by etrans|congruence|by rewrite <- Hsub|].
    intros Hlt Hle. rewrite Hf2 by (by rewrite Ha). by apply Hf.
Qed.
