(* ===== verification/CurrentThread.v ===== *)
(** The calling thread: networker/base/CurrentThread.h and CurrentThread.cpp, with the functions
    of the namespace that Thread.cpp defines; and the exception that carries a stack trace,
    networker/base/Exception.h and Exception.cpp.

    [gettid] is what gettid(2) answers in the thread that runs the code; [tid]
    keeps it in thread-local variables. *)
From S2P Require Import Prelude.
From S2P Require Import Format.
From S2P Require Import StringPiece.

(** The thread that executes an operation. *)
Class CurrentThread := { gettid : Z }.

(** The thread-local variables of CurrentThread.cpp. *)
Record thread_locals := mkLocals {
  t_cachedTid : Z;
  t_tidString : list byte;
  t_tidStringLength : Z;
  t_threadName : list byte
}.

Definition initial_locals : thread_locals :=
  mkLocals 0 (replicate 32 Byte.x00) 6 (bytes_of_string "unknown").

(** [CurrentThread::cacheTid] (Thread.cpp). *)
Definition cacheTid `{CurrentThread} (t : thread_locals) : thread_locals :=
  if t_cachedTid t =? 0 then
    let '(buf, n) := snprintf 32 (format_d 5 gettid) in
    mkLocals gettid (zblit 0 (buf ++ [Byte.x00]) (t_tidString t)) n (t_threadName t)
  else t.

(** [CurrentThread::tid]. *)
Definition tid `{CurrentThread} (t : thread_locals) : Z * thread_locals :=
  let t := if t_cachedTid t =? 0 then cacheTid t else t in
  (t_cachedTid t, t).

(** The cache never shows another thread's id. *)
Definition locals_ok `{CurrentThread} (t : thread_locals) : Prop :=
  t_cachedTid t = 0 ∨ t_cachedTid t = gettid.

Lemma tid_spec `{CurrentThread} t : locals_ok t → (tid t).1 = gettid ∧ locals_ok (tid t).2.
Proof.
  unfold tid, cacheTid, locals_ok. intros [E|E]; rewrite E.
  - cbn. auto.
  - destruct (Z.eqb_spec gettid 0) as [E0|]; cbn; auto.
Qed.

(** [tidString] and [tidStringLength]: the text of the id, as the first call of [tid] left it. *)
Definition tidString (t : thread_locals) : list byte := t_tidString t.
Definition tidStringLength (t : thread_locals) : Z := t_tidStringLength t.
Definition current_name (t : thread_locals) : list byte := t_threadName t.

(** [sleepUsec]: the seconds and nanoseconds it asks nanosleep(2) for. *)
Definition kMicroSecondsPerSecond : Z := 1000 * 1000.
Definition sleepUsec (usec : Z) : Z * Z :=
  (Z.quot usec kMicroSecondsPerSecond, Z.rem usec kMicroSecondsPerSecond * 1000).

(** * stackTrace *)

(** The C library: the frames as backtrace_symbols(3) writes them (or its failure), and
    __cxa_demangle. *)
Class StackFrames := {
  backtrace_symbols : option (list (list byte));
  cxa_demangle : list byte → option (list byte)
}.

Definition max_frames : Z := 200.
Definition left_parenthesis : byte := Byte.x28.
Definition plus_sign : byte := Byte.x2b.

(** The scan for the last ['('] and the last ['+'], as offsets. *)
Fixpoint scan_frame (p : list byte) (i : Z) (left_par plus : option Z) : option Z * option Z :=
  match p with
  | [] => (left_par, plus)
  | c :: p =>
      if bool_decide (c = left_parenthesis) then scan_frame p (i + 1) (Some i) plus
      else if bool_decide (c = plus_sign) then scan_frame p (i + 1) left_par (Some i)
      else scan_frame p (i + 1) left_par plus
  end.

(** What the demangler reads from [left_par + 1] on: up to the NUL that stands where the plus sign was. *)
Definition mangled_name (s : list byte) (left_par plus : Z) : list byte :=
  if left_par <? plus then zslice (left_par + 1) (plus - left_par - 1) s else zdrop (left_par + 1) s.

Definition frame_line `{StackFrames} (demangle : bool) (s : list byte) : list byte :=
  let verbatim := s ++ [Byte.x0a] in
  if demangle then
    match scan_frame s 0 None None with
    | (Some left_par, Some plus) =>
        match cxa_demangle (mangled_name s left_par plus) with
        | Some demangled => ztake (left_par + 1) s ++ demangled ++ zdrop plus s ++ [Byte.x0a]
        | None => verbatim
        end
    | _ => verbatim
    end
  else verbatim.

(** [stackTrace]: the first frame is its own. *)
Definition stackTrace `{StackFrames} (demangle : bool) : list byte :=
  match backtrace_symbols with
  | Some strings => concat (map (frame_line demangle) (zdrop 1 (ztake max_frames strings)))
  | None => []
  end.

(** The scan over a part without either character. *)
Definition plain (l : list byte) : Prop := Forall (λ c, c ≠ left_parenthesis ∧ c ≠ plus_sign) l.

Lemma scan_plain l r i lp pl : plain l → scan_frame (l ++ r) i lp pl = scan_frame r (i + zlen l) lp pl.
Proof.
  intros P. revert i. induction P as [|c l [Hl Hp] _ IH]; intros i; cbn; [f_equal; zlia|].
  rewrite !bool_decide_eq_false_2 by done. rewrite IH. f_equal. zlia.
Qed.

(** A frame of the usual form: file, mangled name between the parenthesis and the plus sign, rest. *)
Lemma frame_line_demangled `{StackFrames} file name rest :
  plain name → plain rest → Forall (λ c, c ≠ left_parenthesis) file →
  frame_line true (file ++ [left_parenthesis] ++ name ++ [plus_sign] ++ rest) =
  match cxa_demangle name with
  | Some d => file ++ [left_parenthesis] ++ d ++ [plus_sign] ++ rest ++ [Byte.x0a]
  | None => file ++ [left_parenthesis] ++ name ++ [plus_sign] ++ rest ++ [Byte.x0a]
  end.
Proof.
  intros Pn Pr Pf. unfold frame_line.
  assert (Hfile : ∀ r i lp pl, ∃ pl', scan_frame (file ++ [left_parenthesis] ++ r) i lp pl =
    scan_frame r (i + zlen file + 1) (Some (i + zlen file)) pl').
  { intros r. induction Pf as [|c l Hc _ IH]; intros i lp pl; cbn.
    - exists pl. f_equal; [zlia|f_equal; zlia].
    - rewrite bool_decide_eq_false_2 by done. destruct (bool_decide (c = plus_sign)).
      + destruct (IH (i + 1) lp (Some i)) as [pl' E]. exists pl'. cbn in E. rewrite E.
        f_equal; [zlia|f_equal; zlia].
      + destruct (IH (i + 1) lp pl) as [pl' E]. exists pl'. cbn in E. rewrite E.
        f_equal; [zlia|f_equal; zlia]. }
  destruct (Hfile (name ++ [plus_sign] ++ rest) 0 None None) as [pl' ->].
  rewrite scan_plain by done. cbn [app scan_frame]. rewrite bool_decide_eq_false_2, bool_decide_eq_true_2 by done.
  rewrite <- (app_nil_r rest) at 1. rewrite scan_plain by done. cbn [scan_frame].
  pose proof (zlen_nonneg name). pose proof (zlen_nonneg file).
  unfold mangled_name. rewrite (proj2 (Z.ltb_lt _ _)) by lia.
  set (whole := file ++ left_parenthesis :: name ++ plus_sign :: rest).
  assert (E : whole = (file ++ [left_parenthesis]) ++ name ++ (plus_sign :: rest)) by (unfold whole; by rewrite <- app_assoc).
  assert (Hl : zlen (file ++ [left_parenthesis]) = 0 + zlen file + 1) by (rewrite zlen_app; done).
  assert (Ename : zslice (0 + zlen file + 1) (0 + zlen file + 1 + zlen name - (0 + zlen file) - 1) whole = name).
  { rewrite E. unfold zslice. rewrite zdrop_app_len by done. apply ztake_app_len. lia. }
  rewrite Ename. destruct (cxa_demangle name) as [d|].
  - rewrite E, (ztake_app_len (file ++ [left_parenthesis])) by done.
    assert (Et : zdrop (0 + zlen file + 1 + zlen name) ((file ++ [left_parenthesis]) ++ name ++ plus_sign :: rest) = plus_sign :: rest).
    { rewrite (app_assoc _ name). apply zdrop_app_len. rewrite (zlen_app _ name), Hl. lia. }
    by rewrite Et, <- !app_assoc.
  - unfold whole. rewrite <- !app_assoc. cbn. by rewrite <- !app_assoc.
Qed.

(** Without demangling every frame is one line, verbatim. *)
Lemma stackTrace_verbatim `{StackFrames} strings :
  backtrace_symbols = Some strings →
  stackTrace false = concat (map (λ s, s ++ [Byte.x0a]) (zdrop 1 (ztake max_frames strings))).
Proof. unfold stackTrace. by intros ->. Qed.

(** * Exception *)
Record Exception := mkException {
  message_ : list byte;
  stack_ : list byte
}.

(** [Exception::Exception]: the trace is taken where the exception is built, without demangling. *)
Definition new_Exception `{StackFrames} (msg : list byte) : Exception := mkException msg (stackTrace false).

(** [what] and [Exception::stackTrace] hand out C strings. *)
Definition what (ex : Exception) : list byte := until_nul (message_ ex).
Definition exception_stackTrace (ex : Exception) : list byte := until_nul (stack_ ex).
