(* ===== verification/MutexLock.v ===== *)
(** Mutual exclusion: networker/base/MutexLock.h and Condition.h, and the threads that use them.

    Every user of a lock in the program has the same form: a [MutexLockGuard] for a scope,
    perhaps a wait on a condition at its start, accesses to the guarded data, perhaps a
    notification at its end.  A thread is a list of such sections.  [perform] executes one
    primitive action of one thread (an access to [holder_], to the data, or one call of
    pthreads); [replay] executes a whole section at once, as the other files of this
    development do.  MutexFacts.v relates the two. *)
From S2P Require Import Prelude.

(** * MutexLock *)
Record MutexLock := mkMutex {
  mutex : option Z;        (** the thread that owns the [pthread_mutex_t] *)
  holder_ : Z
}.

Definition new_MutexLock : MutexLock := mkMutex None 0.
Definition mutex_dtor (m : MutexLock) : outcome unit := require (holder_ m =? 0).

Definition isLockedByThisThread (tid : Z) (m : MutexLock) : bool := holder_ m =? tid.
Definition assertLocked (tid : Z) (m : MutexLock) : outcome unit := require (isLockedByThisThread tid m).

Definition assignHolder (tid : Z) (m : MutexLock) : MutexLock := mkMutex (mutex m) tid.
Definition unassignHolder (m : MutexLock) : MutexLock := mkMutex (mutex m) 0.

(** pthread_mutex_lock(3) returns when the mutex is free. *)
Definition pthread_mutex_lock (tid : Z) (m : MutexLock) : option MutexLock :=
  match mutex m with None => Some (mkMutex (Some tid) (holder_ m)) | Some _ => None end.
Definition pthread_mutex_unlock (m : MutexLock) : MutexLock := mkMutex None (holder_ m).

(** [lock] and [unlock] without an interleaving. *)
Definition lock (tid : Z) (m : MutexLock) : option MutexLock := assignHolder tid <$> pthread_mutex_lock tid m.
Definition unlock (m : MutexLock) : MutexLock := pthread_mutex_unlock (unassignHolder m).

(** * Guarded sections *)

(** [Condition::notify] and [notifyAll]. *)
Inductive wakeup := NoNotify | Notify | NotifyAll.

(** The wait of a section: none, [while (p) cond.wait()], or [if (p) cond.waitForSeconds(n)]. *)
Inductive waiting (D : Type) :=
| WaitNot
| WaitWhile (p : D → bool)
| WaitOnceIf (p : D → bool).
Arguments WaitNot {D}. Arguments WaitWhile {D}. Arguments WaitOnceIf {D}.

(** [waitForSeconds]: [now] is the CLOCK_REALTIME, seconds and nanoseconds; [timedwait] is what
    pthread_cond_timedwait(3) answers to a deadline. *)
Definition ETIMEDOUT : Z := 110.
Definition waitForSeconds (now : Z * Z) (seconds : Z) (timedwait : Z * Z → Z) : bool :=
  let abstime := (now.1 + seconds, now.2) in
  ETIMEDOUT =? timedwait abstime.

Record section (D : Type) := mkSection {
  wait_for : waiting D;
  body : list (D → D);             (** the accesses to the data, one after the other *)
  notification : D → wakeup        (** decided on the data as the body left it *)
}.
Arguments mkSection {D}. Arguments wait_for {D}. Arguments body {D}. Arguments notification {D}.

Definition must_wait {D} (s : section D) (d : D) : bool :=
  match wait_for s with WaitNot => false | WaitWhile p | WaitOnceIf p => p d end.

(** What is left of a section once its thread has woken. *)
Definition after_wait {D} (s : section D) : section D :=
  match wait_for s with
  | WaitOnceIf _ => mkSection WaitNot (body s) (notification s)
  | _ => s
  end.

Definition run_body {D} (fs : list (D → D)) (d : D) : D := foldl (λ d f, f d) d fs.

(** What a thread can do next. *)
Inductive event :=
| ELock | EAssign
| EWait                      (** the condition holds: the mutex is given up *)
| EEnter                     (** it does not: on to the body *)
| ESpurious                  (** a wait ends without a notification: by itself or by its timeout *)
| EReacquire
| EAccess
| ENotify (u : option Z)     (** the end of the body; the thread that [notify] chose *)
| EUnassign | EUnlock.

#[export] Instance event_eq_dec : EqDecision event.
Proof. solve_decision. Defined.

Section monitor.
  Context {D : Type}.
  Implicit Types (d : D) (s : section D) (ss : list (section D)) (t u : Z).

(** * The primitive actions *)

(** Where a thread is. *)
Inductive thread :=
| Ready (ss : list (section D))                    (** outside; what it will still do *)
| Locked s ss                                      (** owns the mutex; [assignHolder] is next *)
| Testing s ss                                     (** about to test the condition of the wait *)
| Asleep s ss                                      (** in pthread_cond_wait(3) *)
| Woken s ss                                       (** there too, about to get the mutex again *)
| Body (fs : list (D → D)) s ss                    (** [fs] is left of the body of [s] *)
| Leaving ss                                       (** [~MutexLockGuard]: [unassignHolder] is next *)
| Unassigned ss.                                   (** pthread_mutex_unlock is next *)

Record system := mkSystem { data : D; lock_ : MutexLock; threads : gmap Z thread }.

Definition put t (th : thread) (sys : system) : system :=
  mkSystem (data sys) (lock_ sys) (<[t := th]> (threads sys)).
Definition set_lock (m : MutexLock) (sys : system) : system := mkSystem (data sys) m (threads sys).
Definition set_data d (sys : system) : system := mkSystem d (lock_ sys) (threads sys).

Definition wake (th : thread) : thread :=
  match th with Asleep s ss => Woken (after_wait s) ss | _ => th end.
Definition asleep (th : thread) : bool := match th with Asleep _ _ => true | _ => false end.

(** The threads after a notification: [notify] wakes one of those asleep, if there is one. *)
Definition deliver (n : wakeup) (u : option Z) (ths : gmap Z thread) : option (gmap Z thread) :=
  match n, u with
  | NoNotify, None => Some ths
  | NotifyAll, None => Some (wake <$> ths)
  | Notify, None => if bool_decide (map_Forall (λ _ th, asleep th = false) ths) then Some ths else None
  | Notify, Some u =>
      match ths !! u with
      | Some (Asleep s ss) => Some (<[u := Woken (after_wait s) ss]> ths)
      | _ => None
      end
  | _, _ => None
  end.

(** One action of thread [t]; [None] when it cannot perform it now. *)
Definition perform t (e : event) (sys : system) : option system :=
  th ← threads sys !! t;
  match e, th with
  | ELock, Ready (s :: ss) => m ← pthread_mutex_lock t (lock_ sys); Some (put t (Locked s ss) (set_lock m sys))
  | EAssign, Locked s ss => Some (put t (Testing s ss) (set_lock (assignHolder t (lock_ sys)) sys))
  | EWait, Testing s ss =>
      if must_wait s (data sys)
      then Some (put t (Asleep s ss) (set_lock (pthread_mutex_unlock (lock_ sys)) sys)) else None
  | EEnter, Testing s ss =>
      if must_wait s (data sys) then None else Some (put t (Body (body s) s ss) sys)
  | ESpurious, Asleep s ss => Some (put t (Woken (after_wait s) ss) sys)
  | EReacquire, Woken s ss => m ← pthread_mutex_lock t (lock_ sys); Some (put t (Testing s ss) (set_lock m sys))
  | EAccess, Body (f :: fs) s ss => Some (put t (Body fs s ss) (set_data (f (data sys)) sys))
  | ENotify u, Body [] s ss =>
      ths ← deliver (notification s (data sys)) u (<[t := Leaving ss]> (threads sys));
      Some (mkSystem (data sys) (lock_ sys) ths)
  | EUnassign, Leaving ss => Some (put t (Unassigned ss) (set_lock (unassignHolder (lock_ sys)) sys))
  | EUnlock, Unassigned ss => Some (put t (Ready ss) (set_lock (pthread_mutex_unlock (lock_ sys)) sys))
  | _, _ => None
  end.

(** An execution: the actions in their order, each with its thread. *)
Definition act (m : option system) (te : Z * event) : option system := m ≫= perform te.1 te.2.
Definition execute (tr : list (Z * event)) (sys : system) : option system := foldl act (Some sys) tr.

(** A fresh lock over [d], and threads with what each will do. *)
Definition initial d (ps : gmap Z (list (section D))) : system := mkSystem d new_MutexLock (Ready <$> ps).

(** * Whole sections at once *)
Inductive athread :=
| AReady ss
| AAsleep s ss.

Record asystem := mkASystem { adata : D; athreads : gmap Z athread }.

Inductive aevent := ASection (u : option Z) | ASpurious.

Definition awake (th : athread) : athread :=
  match th with AAsleep s ss => AReady (after_wait s :: ss) | _ => th end.
Definition aasleep (th : athread) : bool := match th with AAsleep _ _ => true | _ => false end.

Definition adeliver (n : wakeup) (u : option Z) (ths : gmap Z athread) : option (gmap Z athread) :=
  match n, u with
  | NoNotify, None => Some ths
  | NotifyAll, None => Some (awake <$> ths)
  | Notify, None => if bool_decide (map_Forall (λ _ th, aasleep th = false) ths) then Some ths else None
  | Notify, Some u =>
      match ths !! u with
      | Some (AAsleep s ss) => Some (<[u := AReady (after_wait s :: ss)]> ths)
      | _ => None
      end
  | _, _ => None
  end.

Definition aperform t (e : aevent) (a : asystem) : option asystem :=
  th ← athreads a !! t;
  match e, th with
  | ASection u, AReady (s :: ss) =>
      if must_wait s (adata a) then
        match u with None => Some (mkASystem (adata a) (<[t := AAsleep s ss]> (athreads a))) | Some _ => None end
      else
        let d := run_body (body s) (adata a) in
        ths ← adeliver (notification s d) u (<[t := AReady ss]> (athreads a));
        Some (mkASystem d ths)
  | ASpurious, AAsleep s ss => Some (mkASystem (adata a) (<[t := AReady (after_wait s :: ss)]> (athreads a)))
  | _, _ => None
  end.

Definition aact (m : option asystem) (te : Z * aevent) : option asystem := m ≫= aperform te.1 te.2.
Definition replay (tr : list (Z * aevent)) (a : asystem) : option asystem := foldl aact (Some a) tr.

Definition ainitial d (ps : gmap Z (list (section D))) : asystem := mkASystem d (AReady <$> ps).
End monitor.
Arguments thread : clear implicits.
Arguments system : clear implicits.
Arguments athread : clear implicits.
Arguments asystem : clear implicits.
