(* ===== verification/MutexFacts.v ===== *)
(** Facts about MutexLock.v: exclusion, the holder field, and sections as atomic steps; executions
    end, and nothing but a wait stops a thread. *)
From S2P Require Import Prelude.
From S2P Require Import MutexLock.

(** The owner of the mutex is at one of these places. *)
Definition inside {D} (th : thread D) : bool :=
  match th with Locked _ _ | Testing _ _ | Body _ _ _ | Leaving _ | Unassigned _ => true | _ => false end.

(** The thread is past [lock()] and before [unlock()], and not in a wait. *)
Definition holding {D} (th : thread D) : bool :=
  match th with Testing _ _ | Body _ _ _ | Leaving _ => true | _ => false end.

(** A thread that can look at [holder_]: one that is not blocked in pthreads. *)
Definition running {D} (th : thread D) : bool :=
  match th with Asleep _ _ | Woken _ _ => false | _ => true end.

(** * What the threads did *)

(** The events since the last [lock()] of thread [t], that one excluded. *)
Definition after_event (t : Z) (acc : list (Z * event)) (te : Z * event) : list (Z * event) :=
  match te with (u, EAssign) => if u =? t then [] else acc ++ [te] | _ => acc ++ [te] end.
Definition since_lock (t : Z) (tr : list (Z * event)) : list (Z * event) := foldl (after_event t) [] tr.

(** The two events that write [holder_]. *)
Definition writes_holder (e : event) : Prop := e = EAssign ∨ e = EUnassign.

(** The atomic steps of an execution: a section happens where its thread starts to wait, or at
    the end of its body. *)
Definition commit (te : Z * event) : option (Z * aevent) :=
  match te with
  | (t, EWait) => Some (t, ASection None)
  | (t, ENotify u) => Some (t, ASection u)
  | (t, ESpurious) => Some (t, ASpurious)
  | _ => None
  end.
Definition commits (tr : list (Z * event)) : list (Z * aevent) := omap commit tr.

(** What a thread still has to do, in whole sections. *)
Definition abs_thread {D} (th : thread D) : athread D :=
  match th with
  | Ready ss | Leaving ss | Unassigned ss => AReady ss
  | Locked s ss | Testing s ss | Woken s ss | Body _ s ss => AReady (s :: ss)
  | Asleep s ss => AAsleep s ss
  end.

Section facts.
  Context {D : Type}.
  Implicit Types (sys : system D) (th : thread D) (s : section D) (ss : list (section D)) (t u : Z).

(** * The actions as a relation *)
Inductive action t : event → system D → system D → Prop :=
| action_lock s ss sys :
    threads sys !! t = Some (Ready (s :: ss)) → mutex (lock_ sys) = None →
    action t ELock sys (put t (Locked s ss) (set_lock (mkMutex (Some t) (holder_ (lock_ sys))) sys))
| action_assign s ss sys :
    threads sys !! t = Some (Locked s ss) →
    action t EAssign sys (put t (Testing s ss) (set_lock (assignHolder t (lock_ sys)) sys))
| action_wait s ss sys :
    threads sys !! t = Some (Testing s ss) → must_wait s (data sys) = true →
    action t EWait sys (put t (Asleep s ss) (set_lock (pthread_mutex_unlock (lock_ sys)) sys))
| action_enter s ss sys :
    threads sys !! t = Some (Testing s ss) → must_wait s (data sys) = false →
    action t EEnter sys (put t (Body (body s) s ss) sys)
| action_spurious s ss sys :
    threads sys !! t = Some (Asleep s ss) →
    action t ESpurious sys (put t (Woken (after_wait s) ss) sys)
| action_reacquire s ss sys :
    threads sys !! t = Some (Woken s ss) → mutex (lock_ sys) = None →
    action t EReacquire sys (put t (Testing s ss) (set_lock (mkMutex (Some t) (holder_ (lock_ sys))) sys))
| action_access f fs s ss sys :
    threads sys !! t = Some (Body (f :: fs) s ss) →
    action t EAccess sys (put t (Body fs s ss) (set_data (f (data sys)) sys))
| action_notify (w : option Z) s ss sys ths :
    threads sys !! t = Some (Body [] s ss) →
    deliver (notification s (data sys)) w (<[t := Leaving ss]> (threads sys)) = Some ths →
    action t (ENotify w) sys (mkSystem (data sys) (lock_ sys) ths)
| action_unassign ss sys :
    threads sys !! t = Some (Leaving ss) →
    action t EUnassign sys (put t (Unassigned ss) (set_lock (unassignHolder (lock_ sys)) sys))
| action_unlock ss sys :
    threads sys !! t = Some (Unassigned ss) →
    action t EUnlock sys (put t (Ready ss) (set_lock (pthread_mutex_unlock (lock_ sys)) sys)).

Lemma perform_action t e sys sys' : perform t e sys = Some sys' → action t e sys sys'.
Proof.
  unfold perform. destruct (threads sys !! t) as [th|] eqn:E; cbn; [|done].
  unfold pthread_mutex_lock.
  destruct e, th as [[|]| | | | |[|]| |]; intros Hp; try discriminate;
    repeat (case_match; try discriminate); cbn in Hp; simplify_eq; try (by econstructor).
  destruct (deliver _ _ _) eqn:Ed; cbn in Hp; simplify_eq. by econstructor.
Qed.

Lemma action_perform t e sys sys' : action t e sys sys' → perform t e sys = Some sys'.
Proof.
  destruct 1; unfold perform, pthread_mutex_lock;
    repeat match goal with E : ?l = _ |- context [?l] => rewrite E; clear E; cbn end; done.
Qed.

(** * Executions *)
Lemma execute_snoc tr te sys sys' :
  execute (tr ++ [te]) sys = Some sys' ↔
  ∃ sys1, execute tr sys = Some sys1 ∧ action te.1 te.2 sys1 sys'.
Proof.
  unfold execute. rewrite foldl_snoc. unfold act.
  destruct (foldl _ (Some sys) tr) as [sys1|]; cbn; [|naive_solver].
  split; [intros E; apply perform_action in E; eauto|intros (x & [= <-] & E); by apply action_perform].
Qed.

Lemma execute_ind sys0 (P : list (Z * event) → system D → Prop) :
  P [] sys0 →
  (∀ tr sys t e sys', execute tr sys0 = Some sys → P tr sys → action t e sys sys' → P (tr ++ [(t, e)]) sys') →
  ∀ tr sys, execute tr sys0 = Some sys → P tr sys.
Proof.
  intros H0 Hs tr. induction tr as [|[t e] tr IH] using rev_ind; intros sys E.
  - cbn in E. by injection E as <-.
  - apply execute_snoc in E as (sys1 & E & A). eauto.
Qed.

(** * Notifications *)
Lemma deliver_lookup n (w : option Z) (ths ths' : gmap Z (thread D)) :
  deliver n w ths = Some ths' → ∀ x,
    ths' !! x = ths !! x ∨
    ∃ s ss, ths !! x = Some (Asleep s ss) ∧ ths' !! x = Some (Woken (after_wait s) ss).
Proof.
  unfold deliver. intros E x. destruct n, w as [u|]; simplify_eq; auto.
  - destruct (ths !! u) as [[| | |s ss| | | |]|] eqn:Eu; simplify_eq.
    destruct (decide (x = u)) as [->|]; [|left; by rewrite lookup_insert_ne].
    right. exists s, ss. by rewrite lookup_insert_eq.
  - case_bool_decide; simplify_eq. auto.
  - rewrite lookup_fmap. destruct (ths !! x) as [[]|]; cbn; eauto.
Qed.

Lemma deliver_some n (w : option Z) (ths ths' : gmap Z (thread D)) x th :
  deliver n w ths = Some ths' → ths !! x = Some th → asleep th = false → ths' !! x = Some th.
Proof.
  intros E Hx Ha. destruct (deliver_lookup _ _ _ _ E x) as [Ex|(s & ss & Es & _)]; [congruence|].
  rewrite Hx in Es. by simplify_eq.
Qed.

(** The atomic threads are notified in the same way. *)
Lemma abs_wake th : abs_thread (wake th) = awake (abs_thread th).
Proof. by destruct th. Qed.

Lemma abs_asleep th : aasleep (abs_thread th) = asleep th.
Proof. by destruct th. Qed.

Lemma deliver_abs n (w : option Z) (ths ths' : gmap Z (thread D)) :
  deliver n w ths = Some ths' → adeliver n w (abs_thread <$> ths) = Some (abs_thread <$> ths').
Proof.
  unfold deliver, adeliver. destruct n, w as [u|]; intros E; simplify_eq; auto.
  - rewrite lookup_fmap. destruct (ths !! u) as [[]|]; cbn; simplify_eq. by rewrite fmap_insert.
  - case_bool_decide as Hn; simplify_eq. rewrite bool_decide_eq_true_2; [done|].
    apply map_Forall_fmap. intros x th Hx. cbn. rewrite abs_asleep. by apply (Hn x).
  - f_equal. rewrite <- !map_fmap_compose. apply map_fmap_ext. intros x th _. cbn. by rewrite abs_wake.
Qed.
(** * Who owns the mutex *)
Definition inside_at (ths : gmap Z (thread D)) t : bool := default false (inside <$> ths !! t).

Definition owned sys : Prop := ∀ t, mutex (lock_ sys) = Some t ↔ inside_at (threads sys) t = true.

Lemma inside_at_insert t th ths x :
  inside_at (<[t := th]> ths) x = if decide (x = t) then inside th else inside_at ths x.
Proof. unfold inside_at. case_decide as E; [subst; by rewrite lookup_insert_eq|by rewrite lookup_insert_ne]. Qed.

Lemma inside_at_lookup t th ths : ths !! t = Some th → inside_at ths t = inside th.
Proof. unfold inside_at. by intros ->. Qed.

Lemma inside_at_deliver n (w : option Z) ths ths' x :
  deliver n w ths = Some ths' → inside_at ths' x = inside_at ths x.
Proof.
  intros E. unfold inside_at. destruct (deliver_lookup _ _ _ _ E x) as [->|(s & ss & -> & ->)]; done.
Qed.

Lemma owned_action t e sys sys' : action t e sys sys' → owned sys → owned sys'.
Proof.
  intros A Ho x. pose proof (Ho x) as Hx. pose proof (Ho t) as Ht.
  destruct A as [? ? ? E Em|? ? ? E|? ? ? E|? ? ? E|? ? ? E|? ? ? E Em|? ? ? ? ? E|? ? ? ? ths E Ed|? ? E|? ? E];
    cbn; rewrite ?(inside_at_deliver _ _ _ _ _ Ed), inside_at_insert;
    rewrite (inside_at_lookup _ _ _ E) in Ht; cbn in Ht;
    case_decide; subst; cbn; naive_solver congruence.
Qed.

Lemma owned_initial d ps : owned (initial d ps).
Proof.
  intros t. cbn. unfold inside_at. rewrite lookup_fmap. by destruct (ps !! t).
Qed.

Lemma owned_execute d ps tr sys : execute tr (initial d ps) = Some sys → owned sys.
Proof.
  revert tr sys. apply (execute_ind _ (λ _ sys, owned sys)); [apply owned_initial|]. intros. by eapply owned_action.
Qed.

Lemma owned_unique sys t u th th' :
  owned sys → threads sys !! t = Some th → threads sys !! u = Some th' →
  inside th = true → inside th' = true → t = u.
Proof.
  intros Ho Et Eu It Iu.
  assert (mutex (lock_ sys) = Some t) by (apply Ho; by rewrite (inside_at_lookup _ _ _ Et)).
  assert (mutex (lock_ sys) = Some u) by (apply Ho; by rewrite (inside_at_lookup _ _ _ Eu)).
  congruence.
Qed.

(** * What [holder_] shows *)

(** Past [lock()] and before [unlock()]. *)
Definition keeping th : bool := holding th || negb (running th).

(** [holder_] is 0 or the id of a thread in or at a wait of its section. *)
Definition holder_known sys : Prop :=
  holder_ (lock_ sys) = 0 ∨
  ∃ th, threads sys !! holder_ (lock_ sys) = Some th ∧ keeping th = true.

(** A thread leaves such a place only by [unassignHolder]. *)
Lemma keeping_action t e sys sys' x th :
  action t e sys sys' → (x = t → e ≠ EUnassign) → threads sys !! x = Some th → keeping th = true →
  ∃ th', threads sys' !! x = Some th' ∧ keeping th' = true.
Proof.
  intros A Hne Ex Hk. destruct (decide (x = t)) as [->|Hx].
  - destruct A as [? ? ? E|? ? ? E|? ? ? E|? ? ? E|? ? ? E|? ? ? E|? ? ? ? ? E|? ? ? ? ths E Ed|? ? E|? ? E];
      rewrite E in Ex; injection Ex as <-; cbn in *; try done; try (by rewrite lookup_insert_eq; eauto).
    + exists (Leaving ss). split; [|done]. eapply deliver_some; [done|by rewrite lookup_insert_eq|done].
    + by destruct Hne.
  - destruct A as [| | | | | | |? ? ? ? ths E Ed| |]; cbn; rewrite ?lookup_insert_ne by done; eauto.
    destruct (deliver_lookup _ _ _ _ Ed x) as [->|(s1 & ss1 & _ & ->)]; [|by eexists].
    rewrite lookup_insert_ne by done. eauto.
Qed.

(** Only two actions write [holder_]. *)
Lemma holder_action t e sys sys' :
  action t e sys sys' →
  holder_ (lock_ sys') =
    match e with EAssign => t | EUnassign => 0 | _ => holder_ (lock_ sys) end.
Proof. by destruct 1. Qed.

Lemma holder_known_action t e sys sys' : action t e sys sys' → holder_known sys → holder_known sys'.
Proof.
  intros A Hk. unfold holder_known. rewrite (holder_action _ _ _ _ A).
  assert (Hkeep : e ≠ EUnassign → holder_known sys → holder_ (lock_ sys) = 0 ∨
    ∃ th, threads sys' !! holder_ (lock_ sys) = Some th ∧ keeping th = true).
  { intros Hne [->|(th & Eh & Ek)]; [by left|right]. by eapply keeping_action. }
  destruct e; auto. right. inversion A; subst. cbn. rewrite lookup_insert_eq. by eexists.
Qed.

Lemma holder_known_execute d ps tr sys : execute tr (initial d ps) = Some sys → holder_known sys.
Proof.
  revert tr sys. apply (execute_ind _ (λ _ sys, holder_known sys)); [by left|].
  intros. by eapply holder_known_action.
Qed.

Lemma since_lock_snoc t tr te : since_lock t (tr ++ [te]) = after_event t (since_lock t tr) te.
Proof. unfold since_lock. by rewrite foldl_snoc. Qed.

(** Another thread wrote [holder_] since [t] locked the mutex. *)
Definition overwritten t (tr : list (Z * event)) : Prop :=
  ∃ u e, u ≠ t ∧ (u, e) ∈ since_lock t tr ∧ writes_holder e.

#[export] Instance writes_holder_dec e : Decision (writes_holder e).
Proof. unfold writes_holder. apply _. Defined.

#[export] Instance overwritten_dec t tr : Decision (overwritten t tr).
Proof.
  refine (cast_if (decide (Exists (λ te, te.1 ≠ t ∧ writes_holder te.2) (since_lock t tr)))).
  - abstract (apply list.Exists_exists in e as ([u e] & Hin & Hu & Hw); by exists u, e).
  - abstract (intros (u & e & Hu & Hin & Hw); apply n, list.Exists_exists; by exists (u, e)).
Defined.

Lemma overwritten_snoc t tr u e :
  overwritten t (tr ++ [(u, e)]) ↔
  (u = t ∧ e ≠ EAssign ∧ overwritten t tr) ∨ (u ≠ t ∧ (overwritten t tr ∨ writes_holder e)).
Proof.
  unfold overwritten. rewrite since_lock_snoc.
  assert (Hmem : ∀ acc, (∃ v f, v ≠ t ∧ (v, f) ∈ acc ++ [(u, e)] ∧ writes_holder f) ↔
    (∃ v f, v ≠ t ∧ (v, f) ∈ acc ∧ writes_holder f) ∨ u ≠ t ∧ writes_holder e).
  { intros acc. split.
    - intros (v & f & Hv & [Hin|Hin%list_elem_of_singleton]%elem_of_app & Hw); [left; eauto|].
      injection Hin as -> ->. by right.
    - intros [(v & f & Hv & Hin & Hw)|[Hu Hw]].
      + exists v, f. rewrite elem_of_app. auto.
      + exists u, e. rewrite elem_of_app, list_elem_of_singleton. auto. }
  unfold after_event. destruct (decide (e = EAssign)) as [->|Hne].
  - destruct (Z.eqb_spec u t) as [->|Hu].
    + split; [intros (v & f & _ & Hin & _); by apply elem_of_nil in Hin|naive_solver].
    + rewrite Hmem. naive_solver.
  - assert (Ha : (match e with EAssign => if u =? t then [] else since_lock t tr ++ [(u, e)]
        | _ => since_lock t tr ++ [(u, e)] end) = since_lock t tr ++ [(u, e)]) by (by destruct e).
    rewrite Ha, Hmem. destruct (decide (u = t)); naive_solver.
Qed.

(** While a thread is between [lock()] and [unlock()], [holder_] shows it unless another thread has
    written it since. *)
Definition holder_exact t (tr : list (Z * event)) sys : Prop :=
  (overwritten t tr → holder_ (lock_ sys) ≠ t) ∧
  (∀ th, threads sys !! t = Some th → keeping th = true → ¬ overwritten t tr → holder_ (lock_ sys) = t).

Lemma holder_exact_action t tr u e sys sys' :
  t ≠ 0 → action u e sys sys' → holder_exact t tr sys → holder_exact t (tr ++ [(u, e)]) sys'.
Proof.
  intros H0 A [Hov Hno]. unfold holder_exact. rewrite (holder_action _ _ _ _ A), overwritten_snoc.
  unfold writes_holder in *.
  split.
  - intros [(-> & Hne & Ho)|[Hu [Ho|[-> | ->]]]]; [|destruct e; auto|done|congruence].
    destruct e; auto; congruence.
  - intros th' Et' Hk' Hn. rewrite ?overwritten_snoc in Hn. unfold writes_holder in Hn.
    assert (Hback : e ≠ EAssign → ∃ th, threads sys !! t = Some th ∧ keeping th = true).
    { intros Hne. destruct (decide (t = u)) as [->|Htu].
      - destruct A as [? ? ? E|? ? ? E|? ? ? E|? ? ? E|? ? ? E|? ? ? E|? ? ? ? ? E|? ? ? ? ths E Ed|? ? E|? ? E];
          try (by exfalso; apply Hne); try (by eexists; split; [exact E|]);
          cbn in Et'; rewrite lookup_insert_eq in Et'; by injection Et' as <-.
      - destruct A as [| | | | | | |? ? ? ? ths E Ed| |]; cbn in Et'; rewrite ?lookup_insert_ne in Et' by done; eauto.
        destruct (deliver_lookup _ _ _ _ Ed t) as [Ex|(s1 & ss1 & Ex & _)].
        + rewrite Ex, lookup_insert_ne in Et' by done. eauto.
        + rewrite lookup_insert_ne in Ex by done. eauto. }
    destruct (decide (e = EAssign)) as [->|Hne].
    + destruct (decide (u = t)) as [->|Hu]; [done|]. exfalso. apply Hn. right. auto.
    + destruct (Hback Hne) as (th & Et & Hk).
      assert (Hn' : ¬ overwritten t tr).
      { intros Ho. apply Hn. destruct (decide (u = t)); naive_solver. }
      pose proof (Hno _ Et Hk Hn') as Eh. destruct e; auto; [done|].
      exfalso. destruct (decide (u = t)) as [->|Hu]; [|apply Hn; naive_solver].
      inversion A; subst. cbn in Et'. rewrite lookup_insert_eq in Et'. by injection Et' as <-.
Qed.

Lemma holder_exact_execute d ps tr sys t :
  t ≠ 0 → execute tr (initial d ps) = Some sys → holder_exact t tr sys.
Proof.
  intros H0. revert tr sys. apply (execute_ind _ (holder_exact t)).
  - split; [intros (u & e & _ & Hin & _); by apply elem_of_nil in Hin|].
    intros th Et. cbn in Et. rewrite lookup_fmap in Et. destruct (ps !! t); cbn in Et; by simplify_eq.
  - intros. by eapply holder_exact_action.
Qed.
(** A thread that has not waited since its [lock()] owned the mutex all the time, so nobody else
    wrote [holder_]. *)
Definition unwaited t (tr : list (Z * event)) sys : Prop :=
  ∀ th, threads sys !! t = Some th → keeping th = true → (t, EWait) ∉ since_lock t tr →
    holding th = true ∧ ¬ overwritten t tr.

Lemma elem_since_snoc t tr te x : x ∈ since_lock t tr → te ≠ (t, EAssign) → x ∈ since_lock t (tr ++ [te]).
Proof.
  intros Hx Hne. rewrite since_lock_snoc. destruct te as [u e]. unfold after_event.
  assert (Ha : x ∈ since_lock t tr ++ [(u, e)]) by (rewrite elem_of_app; by left).
  destruct e; try done. destruct (Z.eqb_spec u t) as [->|]; done.
Qed.

Lemma wait_since_snoc t tr : (t, EWait) ∈ since_lock t (tr ++ [(t, EWait)]).
Proof. rewrite since_lock_snoc. unfold after_event. rewrite elem_of_app, list_elem_of_singleton. by right. Qed.

(** The place of the thread before the action. *)
Lemma keeping_before t u e sys sys' th' :
  action u e sys sys' → (u, e) ≠ (t, EAssign) → threads sys' !! t = Some th' → keeping th' = true →
  ∃ th, threads sys !! t = Some th ∧ keeping th = true ∧
    (holding th = true → (u, e) ≠ (t, EWait) → holding th' = true) ∧ (u ≠ t → holding th' = holding th).
Proof.
  intros A Hne Et' Hk. destruct (decide (t = u)) as [->|Htu].
  - destruct A as [? ? ? E|? ? ? E|? ? ? E|? ? ? E|? ? ? E|? ? ? E|? ? ? ? ? E|? ? ? ? ths E Ed|? ? E|? ? E];
      try done; try (cbn in Et'; rewrite lookup_insert_eq in Et'; injection Et' as <-); try done;
      (eexists; split_and!; [exact E|done|try done|done]).
    intros _ _. cbn in Et'. rewrite (deliver_some _ _ _ _ u (Leaving ss) Ed) in Et' by (by rewrite ?lookup_insert_eq).
    by injection Et' as <-.
  - destruct A as [| | | | | | |? ? ? ? ths E Ed| |]; cbn in Et'; rewrite ?lookup_insert_ne in Et' by done;
      try (exists th'; by split_and!).
    destruct (deliver_lookup _ _ _ _ Ed t) as [Ex|(s1 & ss1 & Ex & Ew)].
    + rewrite Ex, lookup_insert_ne in Et' by done. exists th'. by split_and!.
    + rewrite lookup_insert_ne in Ex by done. rewrite Ew in Et'. injection Et' as <-.
      exists (Asleep s1 ss1). by split_and!.
Qed.

Lemma holding_inside th : holding th = true → inside th = true.
Proof. by destruct th. Qed.

Lemma unwaited_action t tr u e sys sys' :
  owned sys → action u e sys sys' → unwaited t tr sys → unwaited t (tr ++ [(u, e)]) sys'.
Proof.
  intros Ho A IH th' Et' Hk' Hw. destruct (decide ((u, e) = (t, EAssign))) as [[= -> ->]|Hne].
  - inversion A; subst. cbn in Et'. rewrite lookup_insert_eq in Et'. injection Et' as <-.
    split; [done|]. rewrite overwritten_snoc. naive_solver.
  - destruct (keeping_before _ _ _ _ _ _ A Hne Et' Hk') as (th & Et & Hk & Hh & _).
    destruct (IH th Et Hk) as [Hth Hov]; [intros Hin; by apply Hw, elem_since_snoc|].
    split; [apply Hh; [done|]; intros [= -> ->]; by apply Hw, wait_since_snoc|].
    rewrite overwritten_snoc. intros [(_ & _ & ?)|[Hu [?|Hwr]]]; [done..|].
    apply Hu. apply holding_inside in Hth. destruct Hwr as [-> | ->]; inversion A; subst;
      eapply (owned_unique sys u t); eauto.
Qed.

Lemma unwaited_execute d ps tr sys t : execute tr (initial d ps) = Some sys → unwaited t tr sys.
Proof.
  revert tr sys. apply (execute_ind _ (unwaited t)).
  - intros th Et. cbn in Et. rewrite lookup_fmap in Et. destruct (ps !! t); cbn in Et; by simplify_eq.
  - intros tr sys u e sys' E IH A. eapply unwaited_action; [|done..]. by eapply owned_execute.
Qed.

(** The threads are the initial ones. *)
Lemma ids_action u e sys sys' t : action u e sys sys' → threads sys !! t = None → threads sys' !! t = None.
Proof.
  intros A Et. destruct A as [| | | | | | |? ? ? ? ths E Ed| |]; cbn; try (apply lookup_insert_None; naive_solver congruence).
  destruct (deliver_lookup _ _ _ _ Ed t) as [->|(s2 & ss2 & Ex & _)]; [apply lookup_insert_None; naive_solver congruence|].
  apply lookup_insert_Some in Ex. naive_solver congruence.
Qed.

Lemma ids_execute d ps tr sys t : execute tr (initial d ps) = Some sys → ps !! t = None → threads sys !! t = None.
Proof.
  intros E Ht. revert tr sys E. apply (execute_ind _ (λ _ sys, threads sys !! t = None)).
  - cbn. by rewrite lookup_fmap, Ht.
  - intros. by eapply ids_action.
Qed.
End facts.

(** * Sums over the threads *)
Definition total {A} (f : A → nat) (m : gmap Z A) : nat := map_fold (λ _ x n, f x + n)%nat 0%nat m.

Section total.
  Context {A : Type} (f : A → nat).
  Implicit Types m : gmap Z A.

Lemma total_empty : total f ∅ = 0%nat.
Proof. apply map_fold_empty. Qed.

Lemma total_insert_new t x m : m !! t = None → total f (<[t := x]> m) = (f x + total f m)%nat.
Proof. intros E. unfold total. rewrite map_fold_insert_L; [done|intros; lia|done]. Qed.

Lemma total_insert t x y m : m !! t = Some y → (total f (<[t := x]> m) + f y = f x + total f m)%nat.
Proof.
  intros E. rewrite <- insert_delete_eq, total_insert_new by apply lookup_delete_eq.
  unfold total at 2. rewrite (map_fold_delete_L _ _ t y m) by (intros; lia || done). fold (total f (delete t m)). lia.
Qed.

(** A map that raises each summand by at most [c]. *)
Lemma total_fmap_le (g : A → A) c m :
  (∀ x, f (g x) ≤ f x + c)%nat → (total f (g <$> m) ≤ total f m + c * size m)%nat.
Proof.
  intros Hg. induction m as [|t x m E _ IH] using map_first_key_ind.
  - rewrite fmap_empty, total_empty. lia.
  - rewrite fmap_insert, !total_insert_new, map_size_insert_None by (rewrite ?lookup_fmap, ?E; done).
    specialize (Hg x). lia.
Qed.
End total.

(** Is the thread between the accesses of a body? *)
Definition in_body {D} (th : thread D) : bool := match th with Body _ _ _ => true | _ => false end.

Section run.
  Context {D : Type}.
  Implicit Types (sys : system D) (th : thread D) (s : section D) (ss : list (section D)) (t u : Z) (d : D).

(** * Sections are atomic *)
Definition no_body (ths : gmap Z (thread D)) : Prop := ∀ x th, ths !! x = Some th → in_body th = false.

(** [d] is the data as whole sections have left it: the data of [sys], but for the accesses that
    a body has already made. *)
Definition agrees sys d : Prop :=
  (∀ t fs s ss, threads sys !! t = Some (Body fs s ss) →
     must_wait s d = false ∧ ∃ gs, body s = gs ++ fs ∧ data sys = run_body gs d) ∧
  (no_body (threads sys) → data sys = d).

Lemma agrees_no_body sys d : no_body (threads sys) → data sys = d → agrees sys d.
Proof. intros Hn E. split; [|done]. intros t fs s ss Et. by apply Hn in Et. Qed.

Lemma no_body_free sys : owned sys → mutex (lock_ sys) = None → no_body (threads sys).
Proof.
  intros Ho Em x th Ex. destruct th; try done.
  enough (mutex (lock_ sys) = Some x) by congruence. apply Ho. by rewrite (inside_at_lookup _ _ _ Ex).
Qed.

(** While a thread owns the mutex, the others are not in a body. *)
Lemma no_body_but sys t th x th' :
  owned sys → threads sys !! t = Some th → inside th = true → x ≠ t → threads sys !! x = Some th' →
  in_body th' = false.
Proof.
  intros Ho Et Hi Hx Ex. destruct th'; try done. destruct Hx. by eapply (owned_unique sys x t).
Qed.

Lemma no_body_insert sys t th th' :
  owned sys → threads sys !! t = Some th → inside th = true → in_body th' = false →
  no_body (<[t := th']> (threads sys)).
Proof.
  intros Ho Et Hi Hb x thx [[<- <-]|[Hx Ex]]%lookup_insert_Some; [done|]. by eapply (no_body_but sys t th x).
Qed.

Lemma no_body_self sys t th :
  owned sys → threads sys !! t = Some th → inside th = true → in_body th = false → no_body (threads sys).
Proof.
  intros Ho Et Hi Hb x thx Ex. destruct (decide (x = t)) as [->|Hx]; [congruence|by eapply (no_body_but sys t th x)].
Qed.

Lemma no_body_deliver n (w : option Z) ths ths' : deliver n w ths = Some ths' → no_body ths → no_body ths'.
Proof.
  intros E Hn x th Ex. destruct (deliver_lookup _ _ _ _ E x) as [Es|(s & ss & _ & Es)].
  - rewrite Es in Ex. by apply Hn in Ex.
  - rewrite Es in Ex. by injection Ex as <-.
Qed.

Lemma no_body_insert_free ths t th : no_body ths → in_body th = false → no_body (<[t := th]> ths).
Proof. intros Hn Hb x thx [[<- <-]|[_ Ex]]%lookup_insert_Some; [done|by apply Hn in Ex]. Qed.

Definition abs_system d sys : asystem D := mkASystem d (abs_thread <$> threads sys).

(** One action is a step of whole sections, or none that they see. *)
Lemma action_commits t e sys sys' d :
  action t e sys sys' → owned sys → agrees sys d →
  match commit (t, e) with
  | Some te => ∃ d', aact (Some (abs_system d sys)) te = Some (abs_system d' sys') ∧ agrees sys' d'
  | None => abs_thread <$> threads sys' = abs_thread <$> threads sys ∧ agrees sys' d
  end.
Proof.
  intros A Ho [Hb Hd].
  assert (Hkeep : ∀ th', (abs_thread <$> threads sys !! t) = Some (abs_thread th') →
    abs_thread <$> <[t := th']> (threads sys) = abs_thread <$> threads sys).
  { intros th' E. rewrite fmap_insert. apply insert_id. by rewrite lookup_fmap. }
  destruct A as [s ss sys E Em|s ss sys E|s ss sys E Ew|s ss sys E Ew|s ss sys E|s ss sys E Em
    |f fs s ss sys E|w s ss sys ths E Ed|ss sys E|ss sys E]; cbn.
  - split; [apply Hkeep; by rewrite E|]. pose proof (no_body_free _ Ho Em) as Hn.
    apply agrees_no_body; [by apply no_body_insert_free|auto].
  - split; [apply Hkeep; by rewrite E|].
    apply agrees_no_body; [by apply (no_body_insert sys t _ _ Ho E)|]. apply Hd. exact (no_body_self sys t _ Ho E eq_refl eq_refl).
  - assert (data sys = d) as <- by (apply Hd; by eapply no_body_self).
    exists (data sys). split.
    + unfold aact, abs_system, aperform. cbn. rewrite lookup_fmap, E. cbn. by rewrite Ew, fmap_insert.
    + apply agrees_no_body; [by apply (no_body_insert sys t _ _ Ho E)|done].
  - split; [apply Hkeep; by rewrite E|].
    assert (data sys = d) as <- by (apply Hd; by eapply no_body_self).
    split; cbn.
    + intros x fs s' ss' [[<- [= <- <- <-]]|[Hx Ex]]%lookup_insert_Some; [by split; [|exists []]|].
      by apply (no_body_but sys t _ x _ Ho E) in Ex.
    + intros Hn. specialize (Hn t _ (lookup_insert_eq _ _ _)). done.
  - exists d. split.
    + unfold aact, abs_system, aperform. cbn. rewrite lookup_fmap, E. cbn. by rewrite fmap_insert.
    + split; cbn.
      * intros x fs s' ss' [[_ [=]]|[Hx Ex]]%lookup_insert_Some. by eapply Hb.
      * intros Hn. apply Hd. intros x thx Ex. destruct (decide (x = t)) as [->|Hx].
        { rewrite E in Ex. by injection Ex as <-. }
        apply (Hn x). by rewrite lookup_insert_ne.
  - split; [apply Hkeep; by rewrite E|]. pose proof (no_body_free _ Ho Em) as Hn.
    apply agrees_no_body; [by apply no_body_insert_free|auto].
  - split; [apply Hkeep; by rewrite E|]. destruct (Hb _ _ _ _ E) as (Hw & gs & Es & Ed). split; cbn.
    + intros x fs' s' ss' [[<- [= <- <- <-]]|[Hx Ex]]%lookup_insert_Some.
      * split; [done|]. exists (gs ++ [f]). rewrite <- app_assoc. split; [done|].
        unfold run_body in *. by rewrite foldl_snoc, <- Ed.
      * by apply (no_body_but sys t _ x _ Ho E) in Ex.
    + intros Hn. specialize (Hn t _ (lookup_insert_eq _ _ _)). done.
  - destruct (Hb _ _ _ _ E) as (Hw & gs & Es & Edata). rewrite app_nil_r in Es. subst gs.
    exists (data sys). split.
    + unfold aact, abs_system, aperform. cbn. rewrite lookup_fmap, E. cbn. rewrite Hw, <- Edata.
      apply deliver_abs in Ed. rewrite fmap_insert in Ed. cbn in Ed. by rewrite Ed.
    + apply agrees_no_body; [|done]. eapply no_body_deliver; [done|]. by apply (no_body_insert sys t _ _ Ho E).
  - split; [apply Hkeep; by rewrite E|].
    apply agrees_no_body; [by apply (no_body_insert sys t _ _ Ho E)|]. apply Hd. exact (no_body_self sys t _ Ho E eq_refl eq_refl).
  - split; [apply Hkeep; by rewrite E|].
    apply agrees_no_body; [by apply (no_body_insert sys t _ _ Ho E)|]. apply Hd. exact (no_body_self sys t _ Ho E eq_refl eq_refl).
Qed.

Lemma commits_snoc tr te : commits (tr ++ [te]) = commits tr ++ option_list (commit te).
Proof. unfold commits. rewrite omap_app. cbn. by destruct (commit te). Qed.

Lemma replay_snoc tr te (a : asystem D) : replay (tr ++ [te]) a = aact (replay tr a) te.
Proof. unfold replay. by rewrite foldl_snoc. Qed.

Lemma execute_replays d0 ps tr sys :
  execute tr (initial d0 ps) = Some sys →
  ∃ d, replay (commits tr) (ainitial d0 ps) = Some (abs_system d sys) ∧ agrees sys d.
Proof.
  revert tr sys. apply (execute_ind _ (λ tr sys, ∃ d, replay (commits tr) (ainitial d0 ps) = Some (abs_system d sys) ∧ agrees sys d)).
  - exists d0. split.
    + unfold abs_system, ainitial. cbn. by rewrite <- map_fmap_compose.
    + apply agrees_no_body; [|done]. intros x th Ex. cbn in Ex. rewrite lookup_fmap in Ex.
      destruct (ps !! x); cbn in Ex; by simplify_eq.
  - intros tr sys t e sys' Er (d & IH & Hag) A.
    pose proof (action_commits _ _ _ _ _ A (owned_execute _ _ _ _ Er) Hag) as Hc.
    rewrite commits_snoc. destruct (commit (t, e)) as [te|]; cbn.
    + destruct Hc as (d' & Ha & Hag'). exists d'. by rewrite replay_snoc, IH.
    + destruct Hc as [Ha Hag']. exists d. rewrite app_nil_r, IH. unfold abs_system. by rewrite Ha.
Qed.
(** * Executions are short *)

(** The actions left to a thread among [n], each notification counted as [2 * n] more. *)
Definition cost (n : nat) s : nat := 2 * n + length (body s) + 10.
Definition costs (n : nat) ss : nat := sum_list_with (cost n) ss.
Definition left (n : nat) th : nat :=
  match th with
  | Ready ss => costs n ss
  | Locked s ss => 2 * n + length (body s) + 9 + costs n ss
  | Testing s ss => 2 * n + length (body s) + 8 + costs n ss
  | Asleep s ss => 2 * n + length (body s) + 7 + costs n ss
  | Woken s ss => 2 * n + length (body s) + 9 + costs n ss
  | Body fs s ss => 2 * n + length fs + 3 + costs n ss
  | Leaving ss => 2 + costs n ss
  | Unassigned ss => 1 + costs n ss
  end.

Definition is_spurious (te : Z * event) : nat := match te.2 with ESpurious => 1 | _ => 0 end.
Definition spurious (tr : list (Z * event)) : nat := sum_list_with is_spurious tr.

Lemma body_after_wait s : body (after_wait s) = body s.
Proof. unfold after_wait. by destruct (wait_for s). Qed.

Lemma left_wake n th : (left n (wake th) ≤ left n th + 2)%nat.
Proof. destruct th; cbn; rewrite ?body_after_wait; lia. Qed.

Lemma deliver_size k (w : option Z) (ths ths' : gmap Z (thread D)) :
  deliver k w ths = Some ths' → size ths' = size ths.
Proof.
  unfold deliver. destruct k, w as [u|]; intros E; simplify_eq; auto.
  - destruct (ths !! u) as [[]|] eqn:Eu; simplify_eq. by rewrite map_size_insert_Some.
  - case_bool_decide; by simplify_eq.
  - apply map_size_fmap.
Qed.

Lemma deliver_left n k (w : option Z) (ths ths' : gmap Z (thread D)) :
  deliver k w ths = Some ths' → size ths = n → (total (left n) ths' ≤ total (left n) ths + 2 * n)%nat.
Proof.
  unfold deliver. intros E <-. destruct k, w as [u|]; simplify_eq; try lia.
  - destruct (ths !! u) as [[| | |s ss| | | |]|] eqn:Eu; simplify_eq.
    pose proof (total_insert (left (size ths)) u (Woken (after_wait s) ss) _ _ Eu) as Ht. cbn in Ht.
    rewrite body_after_wait in Ht.
    assert (size ths ≠ 0%nat) by (intros Es%map_size_empty_inv; subst; by rewrite lookup_empty in Eu). lia.
  - case_bool_decide; simplify_eq. lia.
  - apply total_fmap_le. apply left_wake.
Qed.

Lemma action_size t e sys sys' : action t e sys sys' → size (threads sys') = size (threads sys).
Proof.
  destruct 1 as [| | | | | | |w s ss sys ths E Ed| |]; cbn; try by rewrite map_size_insert_Some.
  rewrite (deliver_size _ _ _ _ Ed). by rewrite map_size_insert_Some.
Qed.

Lemma action_left n t e sys sys' :
  action t e sys sys' → size (threads sys) = n →
  (total (left n) (threads sys') + 1 ≤ total (left n) (threads sys) + 3 * is_spurious (t, e))%nat.
Proof.
  intros A Hn.
  destruct A as [s ss sys E Em|s ss sys E|s ss sys E Ew|s ss sys E Ew|s ss sys E|s ss sys E Em
    |f fs s ss sys E|w s ss sys ths E Ed|ss sys E|ss sys E]; unfold is_spurious; cbn;
    try (match goal with |- context [<[t := ?th]> (threads sys)] =>
           pose proof (total_insert (left n) t th _ _ E) as Ht; cbn in Ht; rewrite ?body_after_wait in Ht end;
         unfold costs, cost in *; cbn in *; lia).
  pose proof (total_insert (left n) t (Leaving ss) _ _ E) as Ht. cbn in Ht.
  apply (deliver_left n) in Ed; [lia|]. by rewrite map_size_insert_Some.
Qed.

Lemma execute_left d0 ps tr sys :
  execute tr (initial d0 ps) = Some sys →
  size (threads sys) = size ps ∧
  (length tr + total (left (size ps)) (threads sys) ≤
   total (left (size ps)) (threads (initial d0 ps)) + 3 * spurious tr)%nat.
Proof.
  revert tr sys. apply (execute_ind _ (λ tr sys, size (threads sys) = size ps ∧
    (length tr + total (left (size ps)) (threads sys) ≤
     total (left (size ps)) (threads (initial d0 ps)) + 3 * spurious tr)%nat)).
  - split; [apply map_size_fmap|unfold spurious; cbn [length sum_list_with]; lia].
  - intros tr sys t e sys' _ [Hs IH] A. split; [by rewrite (action_size _ _ _ _ A)|].
    pose proof (action_left (size ps) t e sys sys' A Hs) as Hl.
    unfold spurious in *. rewrite length_app, sum_list_with_app. cbn [length sum_list_with]. lia.
Qed.

(** * Only a wait stops a thread *)
Definition stopped th : bool := match th with Ready [] | Asleep _ _ => true | _ => false end.

Lemma deliver_possible k (ths : gmap Z (thread D)) : ∃ w ths', deliver k w ths = Some ths'.
Proof.
  destruct k; [by exists None; eexists| |by exists None; eexists].
  destruct (decide (map_Forall (λ _ th, asleep th = false) ths)) as [Hn|Hn].
  - exists None. unfold deliver. rewrite bool_decide_eq_true_2 by done. by eexists.
  - apply map_not_Forall in Hn as (u & th & Eu & Ha); [|apply _].
    destruct th; try done. exists (Some u). unfold deliver. rewrite Eu. by eexists.
Qed.

Lemma progress sys :
  owned sys →
  (∃ t e sys', e ≠ ESpurious ∧ perform t e sys = Some sys') ∨
  map_Forall (λ _ th, stopped th = true) (threads sys).
Proof.
  intros Ho. destruct (mutex (lock_ sys)) as [t|] eqn:Em.
  - left. exists t. pose proof (proj1 (Ho t) Em) as Hi. unfold inside_at in Hi.
    destruct (threads sys !! t) as [th|] eqn:Et; [|done]. cbn in Hi.
    destruct th as [|s ss|s ss| | |[|f fs] s ss|ss|ss]; try done.
    + exists EAssign. eexists. split; [done|]. apply action_perform. by econstructor.
    + destruct (must_wait s (data sys)) eqn:Ew.
      * exists EWait. eexists. split; [done|]. apply action_perform. by econstructor.
      * exists EEnter. eexists. split; [done|]. apply action_perform. by econstructor.
    + destruct (deliver_possible (notification s (data sys)) (<[t := Leaving ss]> (threads sys))) as (w & ths' & E).
      exists (ENotify w). eexists. split; [done|]. apply action_perform. by econstructor.
    + exists EAccess. eexists. split; [done|]. apply action_perform. by econstructor.
    + exists EUnassign. eexists. split; [done|]. apply action_perform. by econstructor.
    + exists EUnlock. eexists. split; [done|]. apply action_perform. by econstructor.
  - destruct (decide (map_Forall (λ _ th, stopped th = true) (threads sys))) as [Hs|Hs]; [by right|left].
    apply map_not_Forall in Hs as (t & th & Et & Hns); [|apply _]. exists t.
    assert (Hi : inside th = false).
    { apply not_true_iff_false. intros Hi. enough (mutex (lock_ sys) = Some t) by congruence.
      apply Ho. by rewrite (inside_at_lookup _ _ _ Et). }
    destruct th as [[|s ss]| | | |s ss| | |]; try done.
    + exists ELock. eexists. split; [done|]. apply action_perform. by econstructor.
    + exists EReacquire. eexists. split; [done|]. apply action_perform. by econstructor.
Qed.
End run.
