(* ===== verification/CountDownLatch.v ===== *)
(** networker/base/CountDownLatch.h and CountDownLatch.cpp: the guarded sections of a latch, and
    threads that use one. *)
From S2P Require Import Prelude.
From S2P Require Import MutexLock.
From S2P Require Import MutexFacts.

(** The guarded data is [count_]. *)
Definition latch_blocks (count : Z) : bool := 0 <? count.

(** The new count, and whether the waiting threads are woken. *)
Definition countDown (count : Z) : Z * bool := (count - 1, count - 1 =? 0).

(** [CountDownLatch::wait] and [CountDownLatch::countDown] as guarded sections. *)
Definition wait_section : section Z := mkSection (WaitWhile latch_blocks) [] (λ _, NoNotify).
Definition countDown_section : section Z :=
  mkSection WaitNot [λ count, count - 1] (λ count, if count =? 0 then NotifyAll else NoNotify).

(** A whole section is the operation that the rest of this development uses. *)
Lemma countDown_section_spec count :
  run_body (body countDown_section) count = (countDown count).1 ∧
  notification countDown_section (countDown count).1 = if (countDown count).2 then NotifyAll else NoNotify.
Proof. done. Qed.

(** A thread that counts down [k] times and then perhaps waits. *)
Definition program (kw : nat * bool) : list (section Z) :=
  replicate kw.1 countDown_section ++ (if kw.2 then [wait_section] else []).

(** The countdowns in a thread's remaining sections. *)
Definition pending_section (s : section Z) : nat := Z.to_nat (- run_body (body s) 0).
Definition pending (th : athread Z) : nat :=
  match th with AReady ss => sum_list_with pending_section ss | AAsleep s ss => sum_list_with pending_section (s :: ss) end.

Lemma pending_program kw : sum_list_with pending_section (program kw) = kw.1.
Proof.
  destruct kw as [k w]. unfold program. cbn. induction k as [|k IH]; cbn; [by destruct w|].
  change (pending_section countDown_section) with 1%nat. lia.
Qed.

Section latch.
  (** What each thread does, and the initial count. *)
  Variables (spec : gmap Z (nat * bool)) (n : Z).

(** Where a thread can be when the count is [d]. *)
Definition place (d : Z) (kw : nat * bool) (th : athread Z) : Prop :=
  (∃ j, th = AReady (program (j, kw.2))) ∨
  kw.2 = true ∧ th = AReady [] ∧ d ≤ 0 ∨
  kw.2 = true ∧ th = AAsleep wait_section [] ∧ 0 < d.

Record latch_inv (a : asystem Z) : Prop := {
  li_place : ∀ x th, athreads a !! x = Some th → ∃ kw, spec !! x = Some kw ∧ place (adata a) kw th;
  li_count : adata a = n - Z.of_nat (total fst spec) + Z.of_nat (total pending (athreads a))
}.

Lemma program_cons kw s ss :
  program kw = s :: ss →
  s = countDown_section ∧ (∃ k, kw.1 = S k ∧ ss = program (k, kw.2)) ∨ kw = (0%nat, true) ∧ s = wait_section ∧ ss = [].
Proof.
  destruct kw as [[|k] w]; unfold program; cbn.
  - destruct w; [|done]. intros [= <- <-]. auto.
  - intros [= <- <-]. left. eauto.
Qed.

Lemma latch_initial : 0 ≤ n → latch_inv (ainitial n (program <$> spec)).
Proof.
  intros Hn. split; cbn; rewrite <- map_fmap_compose.
  - intros x th. rewrite lookup_fmap. destruct (spec !! x) as [[k w]|]; cbn; intros [= <-].
    exists (k, w). split; [done|]. left. by exists k.
  - enough (total pending (AReady ∘ program <$> spec) = total fst spec) by lia. clear.
    induction spec as [|x kw m E _ IH] using map_first_key_ind; [done|].
    rewrite fmap_insert, !total_insert_new by (rewrite ?lookup_fmap, ?E; done). cbn. rewrite pending_program. lia.
Qed.

(** A countdown, with its notification. *)
Lemma latch_countDown x j kw w d ths ths' :
  spec !! x = Some kw → ths !! x = Some (AReady (program (S j, kw.2))) → latch_inv (mkASystem d ths) →
  adeliver (notification countDown_section (d - 1)) w (<[x := AReady (program (j, kw.2))]> ths) = Some ths' →
  latch_inv (mkASystem (d - 1) ths').
Proof.
  intros Ex Et [Hp Hc] Ed. cbn [adata athreads] in Hp, Hc.
  set (ths1 := <[x := AReady (program (j, kw.2))]> ths) in *.
  assert (Hc1 : d - 1 = n - Z.of_nat (total fst spec) + Z.of_nat (total pending ths1)).
  { pose proof (total_insert pending x (AReady (program (j, kw.2))) _ _ Et) as Ht. fold ths1 in Ht.
    cbn [pending] in Ht. rewrite !pending_program in Ht. cbn [fst] in Ht. lia. }
  assert (Hp1 : ∀ y th, ths1 !! y = Some th →
    ∃ kw, spec !! y = Some kw ∧ (place (d - 1) kw th ∨ aasleep th = true ∧ th = AAsleep wait_section [] ∧ kw.2 = true ∧ d - 1 = 0)).
  { intros y th [[<- <-]|[Hy Ey]]%lookup_insert_Some.
    - exists kw. split; [done|]. left. left. by exists j.
    - destruct (Hp _ _ Ey) as (kw' & Es & [Hq|[(A & B & C)|(A & -> & C)]]); exists kw'; (split; [done|]).
      + left. by left.
      + left. right. left. split_and!; auto with lia.
      + destruct (decide (d - 1 = 0)); [by right|]. left. right. right. split_and!; auto. lia. }
  destruct (Z.eqb_spec (d - 1) 0) as [E0|E0].
  - unfold adeliver, countDown_section in Ed. cbn in Ed. rewrite E0 in Ed. cbn in Ed. destruct w; [done|].
    injection Ed as <-. split; cbn.
    + intros y th. rewrite lookup_fmap. destruct (ths1 !! y) as [th1|] eqn:Ey; [|done]. cbn. intros [= <-].
      destruct (Hp1 _ _ Ey) as (kw' & Es & [Hq|(_ & -> & Hw & _)]); exists kw'; (split; [done|]).
      * destruct Hq as [[i ->]|[(A & -> & C)|(A & -> & C)]]; [left; by exists i|right; left; by split_and!|lia].
      * left. exists 0%nat. unfold program. cbn. by rewrite Hw.
    + rewrite Hc1. do 2 f_equal. clear. induction ths1 as [|y th m E _ IH] using map_first_key_ind; [done|].
      rewrite fmap_insert, !total_insert_new by (rewrite ?lookup_fmap, ?E; done). rewrite <- IH. f_equal.
      destruct th as [|s ss]; [done|]. cbn. unfold pending_section. by rewrite body_after_wait.
  - unfold adeliver, countDown_section in Ed. cbn in Ed. rewrite (proj2 (Z.eqb_neq _ _) E0) in Ed. destruct w; [done|].
    injection Ed as <-. split; cbn; [|done].
    intros y th Ey. destruct (Hp1 _ _ Ey) as (kw' & Es & [Hq|(_ & _ & _ & ?)]); [eauto|done].
Qed.

Lemma latch_step x e a a' : aperform x e a = Some a' → latch_inv a → latch_inv a'.
Proof.
  destruct a as [d ths]. intros E Hi. pose proof Hi as [Hp Hc]. cbn in *. unfold aperform in E. cbn in E.
  destruct (ths !! x) as [th|] eqn:Et; [|done]. cbn in E.
  destruct (Hp _ _ Et) as (kw & Ex & Hq).
  destruct e as [w|], th as [[|s ss]|s ss]; try done.
  - destruct Hq as [[j Ej]|[(A & B & C)|(A & B & C)]]; try done. injection Ej as Ej. symmetry in Ej.
    apply program_cons in Ej as [(-> & k & Ek & ->)|(Ekw & -> & ->)].
    + cbn in E, Ek. subst j. destruct (adeliver _ _ _) as [ths'|] eqn:Ed; cbn in E; [|done]. injection E as <-.
      exact (latch_countDown x k kw w d ths ths' Ex Et Hi Ed).
    + injection Ekw as -> Ew. unfold must_wait in E. cbn in E. unfold latch_blocks in E.
      destruct (Z.ltb_spec 0 d) as [Hd|Hd]; destruct w; cbn in E; simplify_eq; split; cbn.
      * intros y th [[<- <-]|[Hy Ey]]%lookup_insert_Some; [|by apply Hp].
        exists kw. split; [done|]. right. right. by rewrite Ew.
      * pose proof (total_insert pending x (AAsleep wait_section []) _ _ Et) as Ht. cbn [pending sum_list_with] in Ht.
        change (pending_section wait_section) with 0%nat in Ht. lia.
      * intros y th [[<- <-]|[Hy Ey]]%lookup_insert_Some; [|by apply Hp].
        exists kw. split; [done|]. right. left. by rewrite Ew.
      * pose proof (total_insert pending x (AReady []) _ _ Et) as Ht. cbn [pending sum_list_with] in Ht.
        change (pending_section wait_section) with 0%nat in Ht. lia.
  - injection E as <-. destruct Hq as [[j Ej]|[(A & B & C)|(A & B & C)]]; try done. injection B as -> ->.
    split; cbn.
    + intros y th [[<- <-]|[Hy Ey]]%lookup_insert_Some; [|by apply Hp].
      exists kw. split; [done|]. left. exists 0%nat. unfold program. cbn. by rewrite A.
    + pose proof (total_insert pending x (AReady [wait_section]) _ _ Et) as Ht. cbn [pending sum_list_with] in Ht.
      change (pending_section wait_section) with 0%nat in Ht. lia.
Qed.

Lemma latch_replay tr a : 0 ≤ n → replay tr (ainitial n (program <$> spec)) = Some a → latch_inv a.
Proof.
  intros Hn. revert a. induction tr as [|[x e] tr IH] using rev_ind; intros a E.
  - cbn in E. injection E as <-. by apply latch_initial.
  - rewrite replay_snoc in E. destruct (replay tr _) as [a1|]; [|done]. cbn in E. eapply latch_step; eauto.
Qed.

(** What an execution of the primitive actions makes of the latch. *)
Lemma latch_execute tr sys :
  0 ≤ n → execute tr (initial n (program <$> spec)) = Some sys →
  ∃ a, latch_inv a ∧ athreads a = abs_thread <$> threads sys ∧ agrees sys (adata a).
Proof.
  intros Hn E. destruct (execute_replays _ _ _ _ E) as (d & Er & Hag).
  eexists. split; [by eapply latch_replay|]. done.
Qed.

(** A thread is past its wait only when the count has come down. *)
Lemma latch_passed tr sys x k :
  0 ≤ n → execute tr (initial n (program <$> spec)) = Some sys →
  spec !! x = Some (k, true) → threads sys !! x = Some (Ready []) → data sys ≤ 0.
Proof.
  intros Hn E Ex Et. destruct (latch_execute _ _ Hn E) as (a & [Hp _] & Ea & Hag).
  assert (Ha : athreads a !! x = Some (AReady [])) by (by rewrite Ea, lookup_fmap, Et).
  assert (Hd : adata a ≤ 0).
  { destruct (Hp _ _ Ha) as ([k' w] & Es & Hq). rewrite Ex in Es. injection Es as <- <-.
    destruct Hq as [[j Ej]|[(_ & _ & ?)|(_ & ? & _)]]; [|done..].
    injection Ej as Ej. unfold program in Ej. cbn in Ej. by destruct j. }
  destruct Hag as [Hb Hnb].
  destruct (decide (map_Forall (λ _ th, in_body th = false) (threads sys))) as [Hf|Hf].
  - rewrite Hnb; [done|]. exact Hf.
  - apply map_not_Forall in Hf as (y & th & Ey & Hth); [|apply _].
    destruct th as [| | | | |fs s ss| |]; try done. destruct (Hb _ _ _ _ Ey) as (_ & gs & Es & ->).
    assert (Hy : athreads a !! y = Some (AReady (s :: ss))) by (by rewrite Ea, lookup_fmap, Ey).
    destruct (Hp _ _ Hy) as (kw & _ & [[j Ej]|[(_ & Ej & _)|(_ & Ej & _)]]); try done.
    injection Ej as Ej. symmetry in Ej. apply program_cons in Ej as [[-> _]|(_ & -> & _)]; cbn in Es.
    + destruct gs as [|g [|]]; cbn in *; [lia| |by destruct fs]. injection Es as <- _. lia.
    + by destruct gs.
Qed.

(** When nothing but spurious wake-ups can happen, everybody has finished. *)
Lemma latch_finished tr sys :
  0 ≤ n → n ≤ Z.of_nat (total fst spec) → execute tr (initial n (program <$> spec)) = Some sys →
  map_Forall (λ _ th, stopped th = true) (threads sys) → map_Forall (λ _ th, th = Ready []) (threads sys).
Proof.
  intros Hn Hk E Hs. destruct (latch_execute _ _ Hn E) as (a & [Hp Hc] & Ea & Hag).
  assert (H0 : total pending (athreads a) = 0%nat).
  { rewrite Ea in Hp |- *. clear Ea Hc E Hag. revert Hp Hs. generalize (threads sys). intros m.
    induction m as [|x th m Em _ IH] using map_first_key_ind; intros Hp Hs; [done|].
    rewrite fmap_insert, total_insert_new by (by rewrite lookup_fmap, Em).
    rewrite IH.
    - pose proof (Hs x th (lookup_insert_eq _ _ _)) as Hth.
      specialize (Hp x (abs_thread th)). rewrite lookup_fmap, lookup_insert_eq in Hp.
      destruct (Hp eq_refl) as (kw & _ & Hq). destruct th as [[|]| | |s ss| | | |]; try done.
      destruct Hq as [[j Ej]|[(_ & Ej & _)|(_ & Ej & _)]]; try done. by injection Ej as -> ->.
    - intros y thy Ey. destruct (decide (y = x)) as [->|Hne]; [by rewrite lookup_fmap, Em in Ey|].
      apply (Hp y). by rewrite fmap_insert, lookup_insert_ne.
    - intros y thy Ey. apply (Hs y). apply lookup_insert_Some. right. split; [congruence|done]. }
  assert (Hd : adata a ≤ 0) by lia.
  intros x th Ex. pose proof (Hs x th Ex) as Hth. destruct th as [[|]| | |s ss| | | |]; try done. exfalso.
  assert (Ha : athreads a !! x = Some (AAsleep s ss)) by (by rewrite Ea, lookup_fmap, Ex).
  destruct (Hp _ _ Ha) as (kw & _ & [[j Ej]|[(_ & Ej & _)|(_ & _ & ?)]]); done || lia.
Qed.
End latch.

(** The sections of a latch have at most one access. *)
Lemma left_program N kw : (left N (Ready (program kw)) ≤ (2 * N + 11) * length (program kw))%nat.
Proof.
  destruct kw as [k w]. unfold program, left, costs. cbn. induction k as [|k IH]; cbn.
  - destruct w; cbn; lia.
  - unfold cost in *. cbn in *. lia.
Qed.

Lemma latch_steps spec n tr sys :
  execute tr (initial n (program <$> spec)) = Some sys →
  (length tr ≤ (2 * size spec + 11) * total (λ kw, length (program kw)) spec + 3 * spurious tr)%nat.
Proof.
  intros E. destruct (execute_left _ _ _ _ E) as [_ Hl]. rewrite map_size_fmap in Hl.
  enough (total (left (size spec)) (threads (initial n (program <$> spec))) ≤
    (2 * size spec + 11) * total (λ kw, length (program kw)) spec)%nat by lia.
  unfold initial. cbn [threads]. generalize (size spec). intros N. clear.
  induction spec as [|x kw m Em _ IH] using map_first_key_ind; [rewrite !fmap_empty, !total_empty; lia|].
  rewrite !fmap_insert, !total_insert_new by (rewrite ?lookup_fmap, ?Em; done).
  pose proof (left_program N kw). lia.
Qed.
