(* ===== verification/WeakCallback.v ===== *)
(** A callback that does not keep its object alive: networker/base/WeakCallback.h.

    The objects of a class are on a heap with their numbers of [shared_ptr]s; [destroy] is the
    destructor, which runs when the last of them goes.  TcpConnection::forceCloseWithDelay gives a
    timer such a callback of [forceClose]. *)
From S2P Require Import Prelude.

(** An object with its [use_count()]. *)
Record counted (C : Type) := mkCounted { use_count : nat; object : C }.
Arguments mkCounted {C}. Arguments use_count {C}. Arguments object {C}.

Section weak.
  Context {C A : Type}.
  Variable destroy : C → outcome unit.
  Notation heap := (gmap Z (counted C)).
  Implicit Types (h : heap) (p : Z) (a : A).

(** [weak_ptr::lock]: one more [shared_ptr], unless the object has gone. *)
Definition lock p h : option heap :=
  match h !! p with
  | Some o => if (0 <? use_count o)%nat then Some (<[p := mkCounted (S (use_count o)) (object o)]> h) else None
  | None => None
  end.

(** A [shared_ptr] goes. *)
Definition drop_ref p h : outcome heap :=
  match h !! p with
  | Some (mkCounted (S (S n)) c) => Ok (<[p := mkCounted (S n) c]> h)
  | Some (mkCounted 1 c) => _ ← destroy c; Ok (delete p h)
  | _ => Fail UndefinedBehaviour
  end.

Record WeakCallback := mkWeak {
  object_ : Z;                              (** the [weak_ptr] *)
  function_ : Z → A → heap → outcome heap   (** called with the plain pointer *)
}.

Definition makeWeakCallback p (function : Z → A → heap → outcome heap) : WeakCallback := mkWeak p function.

(** [operator()]. *)
Definition weak_call (cb : WeakCallback) a h : outcome heap :=
  match lock (object_ cb) h with
  | Some h => h ← function_ cb (object_ cb) a h; drop_ref (object_ cb) h
  | None => Ok h
  end.

(** Objects are alive as long as there are pointers to them. *)
Definition heap_ok h : Prop := map_Forall (λ _ o, (0 < use_count o)%nat) h.

(** What a called function may do to the object of a callback: change it, and the number of its
    pointers, but for the one that the caller holds. *)
Definition respects (f : Z → A → heap → outcome heap) p : Prop :=
  ∀ a h o, heap_ok h → h !! p = Some o → (1 < use_count o)%nat →
    safely (f p a h) (λ h', heap_ok h' ∧ is_Some (h' !! p)).

Lemma drop_ref_ok p h o :
  heap_ok h → h !! p = Some o → (∀ c, safely (destroy c) (λ _, True)) →
  safely (drop_ref p h) (λ h', heap_ok h' ∧ (1 < use_count o → is_Some (h' !! p))%nat).
Proof.
  intros Hh Hp Hd. pose proof (Hh p o Hp) as Hc. unfold drop_ref. rewrite Hp.
  destruct o as [[|[|n]] c]; cbn in *; [lia| |].
  - apply safely_bind. eapply safely_mono; [apply Hd|]. intros [] _. cbn. split; [|lia]. by apply map_Forall_delete.
  - split; [|rewrite lookup_insert_eq; by eexists]. apply map_Forall_insert_2; [cbn; lia|done].
Qed.

(** A weak callback does nothing once its object has gone, and calls its function on a living
    object otherwise, whoever else gives the object up. *)
Lemma weak_call_ok p f a h :
  heap_ok h → respects f p → (∀ c, safely (destroy c) (λ _, True)) →
  (h !! p = None → weak_call (makeWeakCallback p f) a h = Ok h) ∧
  safely (weak_call (makeWeakCallback p f) a h) heap_ok.
Proof.
  intros Hh Hf Hd. unfold weak_call, lock. cbn [object_ function_ makeWeakCallback]. destruct (h !! p) as [o|] eqn:Ho; [|done]. split; [done|].
  pose proof (Hh p o Ho) as Hc. cbn in Hc. rewrite (proj2 (Nat.ltb_lt _ _)) by done. apply safely_bind.
  eapply safely_mono; [eapply Hf; [|apply lookup_insert_eq|cbn; lia]|].
  - apply map_Forall_insert_2; [cbn; lia|done].
  - intros h' [Hh' [o' Ho']]. eapply safely_mono; [by eapply drop_ref_ok|]. by intros h2 [? _].
Qed.
End weak.
