(* ===== verification/Channel.v ===== *)
(** One file descriptor's events and callbacks: networker/net/Channel.h and Channel.cpp.

    A [Channel*] is an address; the object is found through whoever owns the
    heap of channels (class [ChannelOwner], implemented by the event loop).
    Callbacks are values of a type [CB] (the [std::bind] expressions the
    library installs); running one is the client's business. *)
From S2P Require Import Prelude.
From S2P Require Import CurrentThread.

(** poll(2) event bits on Linux; the static_asserts of EPollPoller.cpp say that
    epoll(7) uses the same values. *)
Definition POLLIN : Z := 1.
Definition POLLPRI : Z := 2.
Definition POLLOUT : Z := 4.
Definition POLLERR : Z := 8.
Definition POLLHUP : Z := 16.
Definition POLLNVAL : Z := 32.
Definition POLLRDHUP : Z := 8192.

Definition kNoneEvent : Z := 0.
Definition kReadEvent : Z := Z.lor POLLIN POLLPRI.
Definition kWriteEvent : Z := POLLOUT.

(** A [Channel*]. *)
Abbreviation ChannelPtr := Z.

Record Channel (CB : Type) := mkChannel {
  fd_ : Z;
  events_ : Z;
  revents_ : Z;
  index_ : Z;
  logHup_ : bool;
  tied_ : bool;
  eventHandling_ : bool;
  addedToLoop_ : bool;
  readCallback_ : option CB;
  writeCallback_ : option CB;
  closeCallback_ : option CB;
  errorCallback_ : option CB
}.
Arguments mkChannel {CB}.
Arguments fd_ {CB}. Arguments events_ {CB}. Arguments revents_ {CB}. Arguments index_ {CB}.
Arguments logHup_ {CB}. Arguments tied_ {CB}. Arguments eventHandling_ {CB}.
Arguments addedToLoop_ {CB}. Arguments readCallback_ {CB}. Arguments writeCallback_ {CB}.
Arguments closeCallback_ {CB}. Arguments errorCallback_ {CB}.

Section channel.
  Context {CB : Type}.
  Implicit Types ch : Channel CB.

(** [Channel::Channel(loop, fd)]. *)
Definition new_channel (fd__ : Z) : Channel CB :=
  mkChannel fd__ 0 0 (-1) true false false false None None None None.

(** * Field updates *)
Definition set_events (v : Z) ch : Channel CB :=
  mkChannel (fd_ ch) v (revents_ ch) (index_ ch) (logHup_ ch) (tied_ ch) (eventHandling_ ch)
    (addedToLoop_ ch) (readCallback_ ch) (writeCallback_ ch) (closeCallback_ ch) (errorCallback_ ch).
Definition set_revents (revt : Z) ch : Channel CB :=
  mkChannel (fd_ ch) (events_ ch) revt (index_ ch) (logHup_ ch) (tied_ ch) (eventHandling_ ch)
    (addedToLoop_ ch) (readCallback_ ch) (writeCallback_ ch) (closeCallback_ ch) (errorCallback_ ch).
Definition set_index (idx : Z) ch : Channel CB :=
  mkChannel (fd_ ch) (events_ ch) (revents_ ch) idx (logHup_ ch) (tied_ ch) (eventHandling_ ch)
    (addedToLoop_ ch) (readCallback_ ch) (writeCallback_ ch) (closeCallback_ ch) (errorCallback_ ch).
Definition set_addedToLoop (v : bool) ch : Channel CB :=
  mkChannel (fd_ ch) (events_ ch) (revents_ ch) (index_ ch) (logHup_ ch) (tied_ ch) (eventHandling_ ch)
    v (readCallback_ ch) (writeCallback_ ch) (closeCallback_ ch) (errorCallback_ ch).
Definition set_eventHandling (v : bool) ch : Channel CB :=
  mkChannel (fd_ ch) (events_ ch) (revents_ ch) (index_ ch) (logHup_ ch) (tied_ ch) v
    (addedToLoop_ ch) (readCallback_ ch) (writeCallback_ ch) (closeCallback_ ch) (errorCallback_ ch).
Definition doNotLogHup ch : Channel CB :=
  mkChannel (fd_ ch) (events_ ch) (revents_ ch) (index_ ch) false (tied_ ch) (eventHandling_ ch)
    (addedToLoop_ ch) (readCallback_ ch) (writeCallback_ ch) (closeCallback_ ch) (errorCallback_ ch).
Definition tie ch : Channel CB :=
  mkChannel (fd_ ch) (events_ ch) (revents_ ch) (index_ ch) (logHup_ ch) true (eventHandling_ ch)
    (addedToLoop_ ch) (readCallback_ ch) (writeCallback_ ch) (closeCallback_ ch) (errorCallback_ ch).
Definition setReadCallback (cb : CB) ch : Channel CB :=
  mkChannel (fd_ ch) (events_ ch) (revents_ ch) (index_ ch) (logHup_ ch) (tied_ ch) (eventHandling_ ch)
    (addedToLoop_ ch) (Some cb) (writeCallback_ ch) (closeCallback_ ch) (errorCallback_ ch).
Definition setWriteCallback (cb : CB) ch : Channel CB :=
  mkChannel (fd_ ch) (events_ ch) (revents_ ch) (index_ ch) (logHup_ ch) (tied_ ch) (eventHandling_ ch)
    (addedToLoop_ ch) (readCallback_ ch) (Some cb) (closeCallback_ ch) (errorCallback_ ch).
Definition setCloseCallback (cb : CB) ch : Channel CB :=
  mkChannel (fd_ ch) (events_ ch) (revents_ ch) (index_ ch) (logHup_ ch) (tied_ ch) (eventHandling_ ch)
    (addedToLoop_ ch) (readCallback_ ch) (writeCallback_ ch) (Some cb) (errorCallback_ ch).
Definition setErrorCallback (cb : CB) ch : Channel CB :=
  mkChannel (fd_ ch) (events_ ch) (revents_ ch) (index_ ch) (logHup_ ch) (tied_ ch) (eventHandling_ ch)
    (addedToLoop_ ch) (readCallback_ ch) (writeCallback_ ch) (closeCallback_ ch) (Some cb).

(** * Queries *)
Definition has_bit (v mask : Z) : bool := negb (Z.land v mask =? 0).
Definition isNoneEvent ch : bool := events_ ch =? kNoneEvent.
Definition isWriting ch : bool := has_bit (events_ ch) kWriteEvent.
Definition isReading ch : bool := has_bit (events_ ch) kReadEvent.

(** [eventsToString(fd, ev)]. *)
Definition eventsToString (fd ev : Z) : string :=
  (pretty fd +:+ ": " +:+
   (if has_bit ev POLLIN then "IN " else "") +:+
   (if has_bit ev POLLPRI then "PRI " else "") +:+
   (if has_bit ev POLLOUT then "OUT " else "") +:+
   (if has_bit ev POLLHUP then "HUP " else "") +:+
   (if has_bit ev POLLRDHUP then "RDHUP " else "") +:+
   (if has_bit ev POLLERR then "ERR " else "") +:+
   (if has_bit ev POLLNVAL then "NVAL " else ""))%string.
End channel.

(** The names of the event masks a method computes. *)
Definition enable (mask ev : Z) : Z := Z.lor ev mask.
Definition disable (mask ev : Z) : Z := Z.land ev (Z.lnot mask).

(** * What a channel needs from its loop *)
Class ChannelOwner (CB W : Type) := {
  get_channel : ChannelPtr → W → option (Channel CB);
  put_channel : ChannelPtr → Channel CB → W → W;
  loop_updateChannel `{!CurrentThread} : ChannelPtr → W → outcome W;
  loop_removeChannel `{!CurrentThread} : ChannelPtr → W → outcome W
}.

Section methods.
  Context {CB W : Type} `{!ChannelOwner CB W} `{!CurrentThread}.

(** Dereferencing a [Channel*]. *)
Definition deref (c : ChannelPtr) (w : W) : outcome (Channel CB) :=
  match get_channel c w with Some ch => Ok ch | None => Fail UndefinedBehaviour end.

Definition modify (c : ChannelPtr) (f : Channel CB → Channel CB) (w : W) : outcome W :=
  ch ← deref c w; Ok (put_channel c (f ch) w).

(** [Channel::update]. *)
Definition update (c : ChannelPtr) (w : W) : outcome W :=
  w ← modify c (set_addedToLoop true) w;
  loop_updateChannel c w.

(** [Channel::remove]. *)
Definition remove (c : ChannelPtr) (w : W) : outcome W :=
  ch ← deref c w;
  _ ← require (isNoneEvent ch);
  w ← modify c (set_addedToLoop false) w;
  loop_removeChannel c w.

Definition enableReading (c : ChannelPtr) (w : W) : outcome W :=
  w ← modify c (λ ch, set_events (enable kReadEvent (events_ ch)) ch) w; update c w.
Definition disableReading (c : ChannelPtr) (w : W) : outcome W :=
  w ← modify c (λ ch, set_events (disable kReadEvent (events_ ch)) ch) w; update c w.
Definition enableWriting (c : ChannelPtr) (w : W) : outcome W :=
  w ← modify c (λ ch, set_events (enable kWriteEvent (events_ ch)) ch) w; update c w.
Definition disableWriting (c : ChannelPtr) (w : W) : outcome W :=
  w ← modify c (λ ch, set_events (disable kWriteEvent (events_ ch)) ch) w; update c w.
Definition disableAll (c : ChannelPtr) (w : W) : outcome W :=
  w ← modify c (set_events kNoneEvent) w; update c w.

  (** What the installed callbacks do, and whether the object the channel is tied
      to still exists ([tie_.lock()]). *)
  Variable run_callback : CB → W → outcome W.
  Variable tie_alive : W → bool.

Definition call (cb : option CB) (w : W) : outcome W :=
  match cb with Some f => run_callback f w | None => Ok w end.

(** One [if (revents_ & ...) if (callback) callback()] of [handleEventWithGuard]. *)
Definition dispatch (c : ChannelPtr) (fires : Z → bool) (slot : Channel CB → option CB) (w : W)
  : outcome W :=
  ch ← deref c w;
  if fires (revents_ ch) then call (slot ch) w else Ok w.

Definition close_fires (rev : Z) : bool := has_bit rev POLLHUP && negb (has_bit rev POLLIN).
Definition error_fires (rev : Z) : bool := has_bit rev (Z.lor POLLERR POLLNVAL).
Definition read_fires (rev : Z) : bool := has_bit rev (Z.lor (Z.lor POLLIN POLLPRI) POLLRDHUP).
Definition write_fires (rev : Z) : bool := has_bit rev POLLOUT.

Definition handleEventWithGuard (c : ChannelPtr) (w : W) : outcome W :=
  w ← modify c (set_eventHandling true) w;
  w ← dispatch c close_fires closeCallback_ w;
  w ← dispatch c error_fires errorCallback_ w;
  w ← dispatch c read_fires readCallback_ w;
  w ← dispatch c write_fires writeCallback_ w;
  modify c (set_eventHandling false) w.

Definition handleEvent (c : ChannelPtr) (w : W) : outcome W :=
  ch ← deref c w;
  if tied_ ch
  then if tie_alive w then handleEventWithGuard c w else Ok w
  else handleEventWithGuard c w.
End methods.

(** [Channel::~Channel]: the asserts of the destructor. *)
Definition channel_dtor {CB} (in_loop_thread has_channel : bool) (ch : Channel CB) : outcome unit :=
  _ ← require (negb (eventHandling_ ch));
  _ ← require (negb (addedToLoop_ ch));
  if in_loop_thread then require (negb has_channel) else Ok tt.

(** * Event masks *)

(** The masks reachable by the five methods are the subsets of read/write. *)
Definition mask_ok (ev : Z) : Prop :=
  ev = 0 ∨ ev = kReadEvent ∨ ev = kWriteEvent ∨ ev = Z.lor kReadEvent kWriteEvent.

Lemma mask_ok_enable_read ev : mask_ok ev → mask_ok (enable kReadEvent ev).
Proof. intros [->|[->|[->| ->]]]; unfold mask_ok; cbn; auto. Qed.
Lemma mask_ok_enable_write ev : mask_ok ev → mask_ok (enable kWriteEvent ev).
Proof. intros [->|[->|[->| ->]]]; unfold mask_ok; cbn; auto. Qed.
Lemma mask_ok_disable_read ev : mask_ok ev → mask_ok (disable kReadEvent ev).
Proof. intros [->|[->|[->| ->]]]; unfold mask_ok; cbn; auto. Qed.
Lemma mask_ok_disable_write ev : mask_ok ev → mask_ok (disable kWriteEvent ev).
Proof. intros [->|[->|[->| ->]]]; unfold mask_ok; cbn; auto. Qed.
Lemma mask_ok_none : mask_ok kNoneEvent.
Proof. by left. Qed.

Lemma enable_write_bit ev : mask_ok ev → has_bit (enable kWriteEvent ev) kWriteEvent = true.
Proof. by intros [->|[->|[->| ->]]]. Qed.
Lemma disable_write_bit ev : mask_ok ev → has_bit (disable kWriteEvent ev) kWriteEvent = false.
Proof. by intros [->|[->|[->| ->]]]. Qed.
Lemma enable_read_bit ev : mask_ok ev → has_bit (enable kReadEvent ev) kReadEvent = true.
Proof. by intros [->|[->|[->| ->]]]. Qed.
Lemma enable_read_keeps_write ev :
  mask_ok ev → has_bit (enable kReadEvent ev) kWriteEvent = has_bit ev kWriteEvent.
Proof. by intros [->|[->|[->| ->]]]. Qed.
Lemma write_keeps_read ev :
  mask_ok ev → has_bit (enable kWriteEvent ev) kReadEvent = has_bit ev kReadEvent ∧
               has_bit (disable kWriteEvent ev) kReadEvent = has_bit ev kReadEvent.
Proof. by intros [->|[->|[->| ->]]]. Qed.

#[export] Hint Resolve mask_ok_enable_read mask_ok_enable_write mask_ok_disable_read
  mask_ok_disable_write mask_ok_none : net_db.
