(* ===== verification/Timestamp.v ===== *)
(** Points in time: networker/base/Timestamp.h and Timestamp.cpp.

    A [Timestamp] is its one field, microseconds since the epoch in an int64_t.
    Seconds given as [double] are IEEE binary64 numbers (Stdlib's SpecFloat). *)
From Stdlib Require Import Floats.SpecFloat.
From S2P Require Import Prelude.
From S2P Require Import Format.

Definition kMicroSecondsPerSecond : Z := 1000 * 1000.

(** * binary64 *)
Abbreviation double := spec_float.
Definition prec : Z := 53.
Definition emax : Z := 1024.

Definition double_of_Z (z : Z) : double := binary_normalize prec emax z 0 false.
Definition double_mul (x y : double) : double := SFmul prec emax x y.
Definition double_div (x y : double) : double := SFdiv prec emax x y.
Definition double_lt (x y : double) : bool := SFltb x y.

(** [static_cast<int64_t>] of a double: towards zero, undefined out of range. *)
Definition double_to_int64 (x : double) : outcome Z :=
  match x with
  | S754_zero _ => Ok 0
  | S754_finite s m e =>
      let a := if 0 <=? e then Z.pos m * 2 ^ e else Z.pos m / 2 ^ (- e) in
      let v := if s then - a else a in
      _ ← defined ((- 2 ^ 63 <=? v) && (v <? 2 ^ 63)); Ok v
  | _ => Fail UndefinedBehaviour
  end.

(** * Timestamp *)
Abbreviation Timestamp := Z.

(** Signed 64-bit arithmetic: overflow is undefined. *)
Definition int64 (z : Z) : outcome Z :=
  _ ← defined ((- 2 ^ 63 <=? z) && (z <? 2 ^ 63)); Ok z.

Definition invalid : Timestamp := 0.
Definition valid (t : Timestamp) : bool := 0 <? t.
Definition secondsSinceEpoch (t : Timestamp) : Z := Z.quot t kMicroSecondsPerSecond.
Definition fromUnixTime (t microseconds : Z) : outcome Timestamp :=
  s ← int64 (t * kMicroSecondsPerSecond); int64 (s + microseconds).
Definition timestamp_lt (lhs rhs : Timestamp) : bool := lhs <? rhs.
Definition timestamp_eq (lhs rhs : Timestamp) : bool := lhs =? rhs.

(** [Timestamp::now]: [tv] is what gettimeofday(2) stored. *)
Definition now (tv_sec tv_usec : Z) : outcome Timestamp :=
  s ← int64 (tv_sec * kMicroSecondsPerSecond); int64 (s + tv_usec).

Definition timeDifference (high low : Timestamp) : outcome double :=
  diff ← int64 (high - low);
  Ok (double_div (double_of_Z diff) (double_of_Z kMicroSecondsPerSecond)).

Definition addTime (timestamp : Timestamp) (seconds : double) : outcome Timestamp :=
  delta ← double_to_int64 (double_mul seconds (double_of_Z kMicroSecondsPerSecond));
  int64 (timestamp + delta).

(** [Timestamp::toString]: ["%" PRId64 ".%06" PRId64] into [char buf[32]]. *)
Definition toString (t : Timestamp) : list byte :=
  let seconds := Z.quot t kMicroSecondsPerSecond in
  let microseconds := Z.rem t kMicroSecondsPerSecond in
  (snprintf 32 (decimal seconds ++ [Byte.x2e] ++ format_0d 6 microseconds)).1.

(** [Timestamp::toFormattedString]; [localtime_r] is the C library's conversion. *)
Definition toFormattedString (localtime_r : Z → tm) (showMicroseconds : bool) (t : Timestamp) : list byte :=
  let f := localtime_r (Z.quot t kMicroSecondsPerSecond) in
  let date := format_d 4 (tm_year f + 1900) ++ format_0d 2 (tm_mon f + 1) ++ format_0d 2 (tm_mday f) in
  let time := format_0d 2 (tm_hour f) ++ [Byte.x3a] ++ format_0d 2 (tm_min f) ++ [Byte.x3a]
              ++ format_0d 2 (tm_sec f) in
  let s := date ++ [Byte.x20] ++ time in
  if showMicroseconds
  then (snprintf 64 (s ++ [Byte.x2e] ++ format_0d 6 (i32 (Z.rem t kMicroSecondsPerSecond)))).1
  else (snprintf 64 s).1.

(** * Facts *)
Lemma int64_ok z : in_i64 z → int64 z = Ok z.
Proof.
  unfold in_i64. intros. unfold int64. rewrite defined_true; [done|].
  rewrite andb_true_iff, Z.leb_le, Z.ltb_lt. lia.
Qed.

Lemma int64_inv z r : int64 z = Ok r → r = z ∧ in_i64 z.
Proof.
  unfold int64, in_i64. intros H. inv_ok. rewrite andb_true_iff, Z.leb_le, Z.ltb_lt in *. lia.
Qed.

(** A time is its seconds and its microseconds, also before the epoch. *)
Lemma seconds_decompose t :
  t = secondsSinceEpoch t * kMicroSecondsPerSecond + Z.rem t kMicroSecondsPerSecond.
Proof. unfold secondsSinceEpoch. pose proof (Z.quot_rem' t kMicroSecondsPerSecond). lia. Qed.

(** [addTime] of a whole number of milliseconds, for instance, is exact. *)
Example addTime_half : addTime 1000000 (SFdiv prec emax (double_of_Z 1) (double_of_Z 2)) = Ok 1500000.
Proof. by vm_compute. Qed.
Example toString_now : toString 1500000000000042 = bytes_of_string "1500000000.000042".
Proof. by vm_compute. Qed.
