(* ===== verification/FileUtil.v ===== *)
(** Files: networker/base/FileUtil.h and FileUtil.cpp.

    stdio and the read side of a descriptor are parameters ([Stdio], [ReadFd]); the
    laws say what fwrite(3) and read(2) promise.  [io] is the history of the bytes
    that were accepted for files, in order. *)
From S2P Require Import Prelude.
From S2P Require Import StringPiece.
From S2P Require Import Buffer.

(** * stdio *)
Class Stdio := {
  os : Type;                                         (** what is outside the process *)
  FILE : Type;
  fopen_append : list byte → os → os * option FILE;  (** [fopen(name, "ae")] *)
  fwrite_unlocked : FILE → list byte → os → os * Z;
  ferror : FILE → os → bool;
  fflush : FILE → os → os;
  fclose : FILE → os → os;
  io : os → list (FILE * byte);
  fwrite_law f d o o' n :
    fwrite_unlocked f d o = (o', n) → 0 ≤ n ≤ zlen d ∧ io o' = io o ++ map (pair f) (ztake n d);
  fopen_io name o : io (fopen_append name o).1 = io o;
  fflush_io f o : io (fflush f o) = io o;
  fclose_io f o : io (fclose f o) = io o
}.

Section append_file.
  Context `{!Stdio}.
  Implicit Types o : os.

(** * AppendFile *)
Record AppendFile := mkAppendFile { fp_ : FILE; writtenBytes_ : Z }.

(** [setbuffer] on the result of a failed [fopen] is undefined. *)
Definition new_AppendFile (filename : list byte) o : outcome (AppendFile * os) :=
  let '(o, fp) := fopen_append (until_nul filename) o in
  match fp with
  | Some fp => Ok (mkAppendFile fp 0, o)
  | None => Fail UndefinedBehaviour
  end.

Definition append_file_dtor (f : AppendFile) o : os := fclose (fp_ f) o.

(** [write(logline + n, len)]. *)
Definition file_write (f : AppendFile) (logline : list byte) (n len : Z) o : outcome (os * Z) :=
  d ← load n len logline; Ok (fwrite_unlocked (fp_ f) d o).

(** The [while (remain > 0)]. *)
Fixpoint append_loop (fuel : nat) (f : AppendFile) (logline : list byte) (len n remain : Z) o : outcome os :=
  if 0 <? remain then
    match fuel with
    | O => Fail UndefinedBehaviour
    | S fuel =>
        '(o, x) ← file_write f logline n remain o;
        if x =? 0 then Ok o
        else append_loop fuel f logline len (u64 (n + x)) (u64 (len - u64 (n + x))) o
    end
  else Ok o.

(** Every round but the last writes something. *)
Definition file_append (f : AppendFile) (logline : list byte) (len : Z) o : outcome (AppendFile * os) :=
  '(o, n) ← file_write f logline 0 len o;
  o ← append_loop (Z.to_nat len) f logline len n (u64 (len - n)) o;
  Ok (mkAppendFile (fp_ f) (i64 (writtenBytes_ f + len)), o).

Definition file_flush (f : AppendFile) o : os := fflush (fp_ f) o.

(** * What [append] does *)
Lemma append_loop_ok fuel f logline len n o :
  zlen logline = len → len < 2 ^ 63 → 0 ≤ n ≤ len → len - n ≤ Z.of_nat fuel →
  ∃ o' k, append_loop fuel f logline len n (len - n) o = Ok o' ∧ n ≤ k ≤ len ∧
    io o' = io o ++ map (pair (fp_ f)) (zslice n (k - n) logline) ∧
    (k < len → ∃ o1 o2 d, fwrite_unlocked (fp_ f) d o1 = (o2, 0) ∧ d ≠ []).
Proof.
  intros Hl Hlen. revert n o. induction fuel as [|fuel IH]; intros n o Hn Hf; cbn [append_loop].
  all: destruct (Z.ltb_spec 0 (len - n)) as [Hr|Hr];
    [|exists o, len; split_and!; try done; try lia; rewrite zslice_0 by lia; by rewrite app_nil_r].
  - lia.
  - unfold file_write. rewrite load_ok, bind_Ok by lia. cbn [mbind outcome_bind].
    destruct (fwrite_unlocked _ _ o) as [o1 x] eqn:Ew. destruct (fwrite_law _ _ _ _ _ Ew) as [Hx Hio].
    rewrite zlen_zslice in Hx by lia. destruct (Z.eqb_spec x 0) as [->|Hx0].
    + exists o1, n. split_and!; try done; try lia.
      * rewrite Hio. by rewrite (ztake_0 0), (zslice_0 n) by lia.
      * intros _. exists o, o1, (zslice n (len - n) logline). split; [done|].
        intros E. assert (zlen (zslice n (len - n) logline) = 0) as E0 by (by rewrite E).
        rewrite zlen_zslice in E0; lia.
    + rewrite !u64_small by (rewrite ?u64_small; lia).
      destruct (IH (n + x) o1) as (o' & k & E & Hk & Hio' & Hend); [lia..|].
      exists o', k. split_and!; try done; try lia.
      rewrite Hio', Hio, <- app_assoc, <- map_app. do 2 f_equal.
      replace (k - n) with (x + (k - (n + x))) by lia. rewrite zslice_app_take by lia. f_equal.
      unfold zslice. rewrite ztake_ztake by lia. done.
Qed.

Lemma file_append_ok f logline o :
  zlen logline < 2 ^ 63 →
  ∃ o' k, file_append f logline (zlen logline) o = Ok (mkAppendFile (fp_ f) (i64 (writtenBytes_ f + zlen logline)), o') ∧
    0 ≤ k ≤ zlen logline ∧ io o' = io o ++ map (pair (fp_ f)) (ztake k logline) ∧
    (k < zlen logline → ∃ o1 o2 d, fwrite_unlocked (fp_ f) d o1 = (o2, 0) ∧ d ≠ []).
Proof.
  intros Hl. pose proof (zlen_nonneg logline). unfold file_append, file_write.
  rewrite load_ok, !bind_Ok by lia. rewrite zslice_zlen_0 by lia. rewrite (ztake_all (zlen logline)) by lia.
  destruct (fwrite_unlocked _ _ o) as [o1 n] eqn:Ew. destruct (fwrite_law _ _ _ _ _ Ew) as [Hn Hio].
  rewrite u64_small by lia.
  destruct (append_loop_ok (Z.to_nat (zlen logline)) f logline (zlen logline) n o1)
    as (o' & k & E & Hk & Hio' & Hend); [done|done|lia|lia|].
  exists o', k. rewrite E, bind_Ok. split_and!; try done; [lia|lia|].
  rewrite Hio', Hio, <- app_assoc, <- map_app. do 2 f_equal.
  replace k with (n + (k - n)) at 2 by lia. unfold zslice, ztake, zdrop.
  rewrite (Z2Nat.inj_add n (k - n)) by lia. by rewrite take_take_drop.
Qed.
End append_file.

(** * ReadSmallFile *)
Record stat := mkStat { st_size : Z; st_mtime : Z; st_ctime : Z; st_isdir : bool }.

(** A descriptor open for reading; [rest] is what lies beyond its offset. *)
Class ReadFd := {
  rfd : Type;
  read_fd : rfd → Z → rfd * read_result;
  pread_fd : rfd → Z → read_result;                 (** from offset 0 *)
  fstat_fd : rfd → option stat;
  rest : rfd → list byte;
  whole : rfd → list byte;
  read_law r n r' bs : 0 ≤ n → read_fd r n = (r', ReadBytes bs) →
    rest r = bs ++ rest r' ∧ zlen bs ≤ n ∧ (bs = [] → n = 0 ∨ rest r = []);
  pread_law r n bs : 0 ≤ n → pread_fd r n = ReadBytes bs → bs `prefix_of` whole r ∧ zlen bs ≤ n
}.

Definition kBufferSize : Z := 64 * 1024.
Definition EISDIR : Z := 21.

Section read_small_file.
  Context `{!ReadFd}.

Record ReadSmallFile := mkRead { rsf_fd : option rfd; err_ : Z; buf_ : list byte }.

(** [opened] is what open(2) answered: a descriptor or an errno; [junk] the array before
    the constructor. *)
Definition new_ReadSmallFile (opened : rfd + Z) (junk : list byte) : ReadSmallFile :=
  let buf := zblit 0 [Byte.x00] junk in
  match opened with inl r => mkRead (Some r) 0 buf | inr err => mkRead None err buf end.

(** The reading loop: content, descriptor, [err]. *)
Fixpoint read_loop (fuel : nat) (maxSize : Z) (content : list byte) (r : rfd) (err : Z)
  : outcome (list byte * rfd * Z) :=
  if zlen content <? u64 maxSize then
    match fuel with
    | O => Fail UndefinedBehaviour
    | S fuel =>
        let toRead := u64 (u64 maxSize - zlen content) `min` kBufferSize in
        match read_fd r toRead with
        | (r, ReadBytes bs) =>
            if 0 <? zlen bs then read_loop fuel maxSize (content ++ bs) r err else Ok (content, r, err)
        | (r, ReadError e) => Ok (content, r, e)
        end
    end
  else Ok (content, r, err).

Record read_info := mkInfo { fileSize : option Z; modifyTime : option Z; createTime : option Z }.

(** The part under [if (fileSize)]: [want_*] say which pointers are not NULL; [junk] is the
    uninitialised [statbuf], [errno] the value left by earlier calls. *)
Definition stat_part (want_size want_mtime want_ctime : bool) (junk : stat) (errno maxSize err : Z) (r : rfd)
  : outcome (Z * read_info) :=
  if want_size then
    '(st, size, err) ←
      match fstat_fd r with
      | Some st =>
          (* [reserve] of the minimum, as an [int] converted to [size_t] *)
          if max_string_size <? u64 (i32 (maxSize `min` st_size st)) then Fail LengthError
          else Ok (st, Some (st_size st), err)
      | None => Ok (junk, None, if st_isdir junk then EISDIR else err)
      end;
    Ok (err, mkInfo size (if want_mtime then Some (st_mtime st) else None)
                         (if want_ctime then Some (st_ctime st) else None))
  else Ok (errno, mkInfo None None None).

(** [readToString]; [content] is the string before the call. *)
Definition readToString (maxSize : Z) (want_size want_mtime want_ctime : bool) (junk : stat) (errno : Z)
    (content : list byte) (f : ReadSmallFile) : outcome (Z * list byte * read_info * ReadSmallFile) :=
  match rsf_fd f with
  | None => Ok (err_ f, content, mkInfo None None None, f)
  | Some r =>
      '(err, info) ← stat_part want_size want_mtime want_ctime junk errno maxSize (err_ f) r;
      '(content, r, err) ← read_loop (Z.to_nat (u64 maxSize)) maxSize [] r err;
      Ok (err, content, info, mkRead (Some r) (err_ f) (buf_ f))
  end.

(** [readToBuffer]: the error, the size if it was written, the object. *)
Definition readToBuffer (f : ReadSmallFile) : outcome (Z * option Z * ReadSmallFile) :=
  match rsf_fd f with
  | None => Ok (err_ f, None, f)
  | Some r =>
      match pread_fd r (kBufferSize - 1) with
      | ReadBytes bs =>
          buf ← store 0 (bs ++ [Byte.x00]) (buf_ f);
          Ok (err_ f, Some (i32 (zlen bs)), mkRead (Some r) (err_ f) buf)
      | ReadError e => Ok (e, None, f)
      end
  end.

(** [readFile], with the default NULL pointers. *)
Definition readFile (opened : rfd + Z) (junk : list byte) (sjunk : stat) (errno maxSize : Z) (content : list byte)
  : outcome (Z * list byte) :=
  '(err, content, _, _) ← readToString maxSize false false false sjunk errno content (new_ReadSmallFile opened junk);
  Ok (err, content).

(** * What the reading loop does *)
Lemma read_loop_ok fuel maxSize content r err :
  0 ≤ maxSize < 2 ^ 31 → zlen content ≤ maxSize → maxSize - zlen content ≤ Z.of_nat fuel →
  ∃ c r' e, read_loop fuel maxSize content r err = Ok (content ++ c, r', e) ∧
    c `prefix_of` rest r ∧ zlen (content ++ c) ≤ maxSize ∧
    (e = err ∧ c = ztake (maxSize - zlen content) (rest r) ∨ ∃ r1 n r2, read_fd r1 n = (r2, ReadError e)).
Proof.
  intros Hm. revert content r err. induction fuel as [|fuel IH]; intros content r err Hc Hf; cbn [read_loop].
  all: rewrite (u64_small maxSize) by lia;
    destruct (Z.ltb_spec (zlen content) maxSize) as [Hlt|Hge].
  1: lia.
  1,3: exists [], r, err; rewrite app_nil_r; split_and!; try done; [apply prefix_nil|];
      left; split; [done|]; by rewrite ztake_0 by lia.
  pose proof (zlen_nonneg content). rewrite u64_small by lia. unfold kBufferSize.
  destruct (read_fd r _) as [r1 [bs|e]] eqn:Er.
  - apply read_law in Er as (Hrest & Hle & Hnil); [|lia].
    destruct (Z.ltb_spec 0 (zlen bs)) as [Hpos|Hz].
    + destruct (IH (content ++ bs) r1 err) as (c & r' & e & E & Hpre & Hbound & Hcase); [rewrite zlen_app; lia|rewrite zlen_app; lia|].
      exists (bs ++ c), r', e. rewrite app_assoc. split_and!; [done| |done|].
      * rewrite Hrest. by apply prefix_app.
      * destruct Hcase as [[-> Ec]|He]; [left|by right]. split; [done|].
        rewrite Hrest, Ec, zlen_app. replace (maxSize - zlen content) with (zlen bs + (maxSize - (zlen content + zlen bs))) by lia.
        assert (0 ≤ maxSize - (zlen content + zlen bs)) by lia. unfold ztake.
        rewrite Z2Nat.inj_add by lia. assert (Z.to_nat (zlen bs) = length bs) as -> by (unfold zlen; lia).
        by rewrite take_app_add.
    + assert (bs = []) as -> by (apply zlen_zero_nil; pose proof (zlen_nonneg bs); lia). destruct (Hnil eq_refl) as [Hn|Hn]; [exfalso; lia|].
      exists [], r1, err. rewrite app_nil_r. split_and!; try done; [apply prefix_nil|].
      left. unfold ztake. by rewrite Hn, take_nil.
  - exists [], r1, e. rewrite app_nil_r. split_and!; try done; [apply prefix_nil|]. right. eauto.
Qed.
End read_small_file.
