(* ===== verification/ProcessInfo.v ===== *)
(** What the process knows about itself: networker/base/ProcessInfo.h and ProcessInfo.cpp.

    The system calls are parameters given by their results: the buffer gethostname(2)
    filled, the entry getpwuid_r(3) found, the names scandir(3) lists.  Theorems: the name
    in a /proc/pid/stat line is found whatever characters it holds, and [threads] is the
    sorted list of the numeric names. *)
From stdpp Require Import sorting.
From S2P Require Import Prelude.
From S2P Require Import Format.
From S2P Require Import Timestamp.
From S2P Require Import StringPiece.
From S2P Require Import Buffer.
From S2P Require Import FileUtil.
From S2P Require Import CurrentThread.

(** * The C library *)
Definition isdigit (c : byte) : bool := (48 <=? byte_val c) && (byte_val c <=? 57).
Definition isspace (c : byte) : bool := (byte_val c =? 32) || ((9 <=? byte_val c) && (byte_val c <=? 13)).

Fixpoint skip_space (s : list byte) : list byte :=
  match s with c :: s' => if isspace c then skip_space s' else s | [] => [] end.

Fixpoint digits_value (acc : Z) (s : list byte) : Z :=
  match s with
  | c :: s' => if isdigit c then digits_value (10 * acc + (byte_val c - 48)) s' else acc
  | [] => acc
  end.

(** atoi(3): undefined when the value is not an [int]. *)
Definition atoi (s : list byte) : outcome Z :=
  let s := skip_space s in
  let v := match s with
           | c :: s' => if byte_val c =? 45 then - digits_value 0 s'
                        else if byte_val c =? 43 then digits_value 0 s' else digits_value 0 s
           | [] => 0
           end in
  _ ← defined ((- 2 ^ 31 <=? v) && (v <? 2 ^ 31)); Ok v.

(** [string::find(c)] and [string::rfind(c)]. *)
Fixpoint find_char (c : byte) (s : list byte) : option Z :=
  match s with
  | [] => None
  | x :: s' => if decide (x = c) then Some 0 else Z.succ <$> find_char c s'
  end.

Fixpoint rfind_char (c : byte) (s : list byte) : option Z :=
  match s with
  | [] => None
  | x :: s' => match rfind_char c s' with
               | Some i => Some (Z.succ i)
               | None => if decide (x = c) then Some 0 else None
               end
  end.

(** * Directories *)

(** The first character of a name that is not empty. *)
Definition numeric (d_name : list byte) : bool := match d_name with c :: _ => isdigit c | [] => false end.

Definition fdDirFilter (t_numOpenedFiles : Z) (d_name : list byte) : Z :=
  if numeric d_name then t_numOpenedFiles + 1 else t_numOpenedFiles.

Definition taskDirFilter (t_pids : list Z) (d_name : list byte) : outcome (list Z) :=
  if numeric d_name then pid ← atoi d_name; Ok (t_pids ++ [pid]) else Ok t_pids.

(** [scanDir]: the filter is applied to every entry and selects none; [entries] are the names,
    or nothing when the directory cannot be read; [namelist_null] is the assert's condition. *)
Definition scanDir {A} (namelist_null : bool) (entries : option (list (list byte)))
    (filter : A → list byte → outcome A) (a : A) : outcome A :=
  a ← foldl (λ m d, a ← m; filter a d) (Ok a) (default [] entries);
  _ ← require namelist_null;
  Ok a.

Definition openedFiles (namelist_null : bool) (entries : option (list (list byte))) : outcome Z :=
  scanDir namelist_null entries (λ n d, Ok (fdDirFilter n d)) 0.

Definition threads (namelist_null : bool) (entries : option (list (list byte))) : outcome (list Z) :=
  result ← scanDir namelist_null entries taskDirFilter [];
  Ok (merge_sort Z.le result).

(** [getrlimit]'s soft limit, or its failure. *)
Definition maxOpenFiles (rlim_cur : option Z) (namelist_null : bool) (entries : option (list (list byte))) : outcome Z :=
  match rlim_cur with
  | None => openedFiles namelist_null entries
  | Some n => Ok (i32 n)
  end.

(** * Names and numbers *)
Definition pidString (pid : Z) : outcome (list byte) :=
  let '(buf, _) := snprintf 32 (decimal pid) in Ok (until_nul buf).

Definition username (pw_name : option (list byte)) : list byte :=
  match pw_name with Some name => name | None => bytes_of_string "unknownuser" end.

(** [gethostname] filled all of [buf], or failed. *)
Definition hostname (buf : option (list byte)) : outcome (list byte) :=
  match buf with
  | Some buf => buf ← store 255 [Byte.x00] buf; Ok (until_nul buf)
  | None => Ok (bytes_of_string "unknownhost")
  end.

(** [procname(stat)]: between the first [(] and the last [)]. *)
Definition procname (stat : list byte) : StringPiece :=
  match find_char Byte.x28 stat, rfind_char Byte.x29 stat with
  | Some lp, Some rp =>
      if lp <? rp then set_piece (zdrop (lp + 1) (string_data stat)) (i32 (rp - lp - 1)) empty_piece
      else empty_piece
  | _, _ => empty_piece
  end.

(** [readlink] into a buffer of 1024 bytes. *)
Definition exePath (target : option (list byte)) : list byte :=
  match target with
  | Some t => if 0 <? zlen t then ztake 1024 t else []
  | None => []
  end.

(** The statics that hold what sysconf(3) answered before [main]. *)
Definition clockTicksPerSecond (sysconf_CLK_TCK : Z) : Z := i32 sysconf_CLK_TCK.
Definition pageSize (sysconf_PAGE_SIZE : Z) : Z := i32 sysconf_PAGE_SIZE.

(** [ndbug]: the macro NDBUG is defined; no build of the repository defines it. *)
Definition isDebugBuild (ndbug : bool) : bool := if ndbug then false else true.

Record CpuTime := mkCpuTime { userSeconds : double; systemSeconds : double }.

(** times(2)'s two counters in clock ticks, unless it fails. *)
Definition cpuTime (clockTicks : Z) (tms : option (Z * Z)) : CpuTime :=
  let hz := double_of_Z clockTicks in
  match tms with
  | Some (utime, stime) => mkCpuTime (double_div (double_of_Z utime) hz) (double_div (double_of_Z stime) hz)
  | None => mkCpuTime (double_of_Z 0) (double_of_Z 0)
  end.

Section proc_files.
  Context `{!ReadFd} `{!CurrentThread}.
  (** open(2), the uninitialised objects on the stack and the current [errno]. *)
  Variable open_file : list byte → rfd + Z.
  Variables (junk : list byte) (sjunk : stat) (errno : Z).

Definition proc_file (name : list byte) (maxSize : Z) : outcome (list byte) :=
  '(_, result) ← readFile (open_file name) junk sjunk errno maxSize []; Ok result.

Definition procStatus : outcome (list byte) := proc_file (bytes_of_string "/proc/self/status") 65535.
Definition procStat : outcome (list byte) := proc_file (bytes_of_string "/proc/self/stat") 65535.
Definition threadStat (t : thread_locals) : outcome (list byte) :=
  let '(buf, _) := snprintf 64 (bytes_of_string "/proc/self/task/" ++ decimal (tid t).1 ++ bytes_of_string "/stat") in
  proc_file (until_nul buf) 65536.

(** [numThreads]: the number after "Threads:" in the status file. *)
Definition numThreads : outcome Z :=
  status ← procStatus;
  let pos := search_from (bytes_of_string "Threads:") status 0 (-1) in
  if pos =? -1 then Ok 0 else atoi (zdrop (pos + 8) status).
End proc_files.

(** * The name in a stat line *)
Lemma find_char_ok c s t : c ∉ s → find_char c (s ++ c :: t) = Some (zlen s).
Proof.
  induction s as [|x s IH]; intros Hn; cbn [app find_char]; [by rewrite decide_True|].
  apply not_elem_of_cons in Hn as [Hne Hn]. rewrite decide_False by congruence.
  rewrite IH by done. cbn. f_equal. rewrite zlen_cons. lia.
Qed.

Lemma rfind_char_none c s : c ∉ s → rfind_char c s = None.
Proof.
  induction s as [|x s IH]; intros Hn; cbn; [done|]. apply not_elem_of_cons in Hn as [Hne Hn].
  rewrite IH by done. by rewrite decide_False by congruence.
Qed.

Lemma rfind_char_ok c s t : c ∉ t → rfind_char c (s ++ c :: t) = Some (zlen s).
Proof.
  intros Hn. induction s as [|x s IH]; cbn [app rfind_char].
  - rewrite rfind_char_none by done. by rewrite decide_True.
  - rewrite IH. f_equal. rewrite zlen_cons. lia.
Qed.

(** The process name may hold any characters, parentheses included. *)
Lemma procname_ok pid comm fields :
  Byte.x28 ∉ pid → Byte.x29 ∉ fields → zlen comm < 2 ^ 31 →
  let name := procname (pid ++ Byte.x28 :: comm ++ Byte.x29 :: fields) in
  valid name ∧ view name = comm.
Proof.
  intros Hp Hf Hc. cbv zeta. unfold procname. rewrite find_char_ok by done.
  assert (rfind_char Byte.x29 (pid ++ Byte.x28 :: comm ++ Byte.x29 :: fields) = Some (zlen pid + 1 + zlen comm)) as ->.
  { replace (pid ++ Byte.x28 :: comm ++ Byte.x29 :: fields) with ((pid ++ Byte.x28 :: comm) ++ Byte.x29 :: fields)
      by (by rewrite <- app_assoc). rewrite rfind_char_ok by done. f_equal. zlia. }
  rewrite (proj2 (Z.ltb_lt _ _)) by zlia.
  replace (zlen pid + 1 + zlen comm - zlen pid - 1) with (zlen comm) by lia.
  rewrite i32_small by (unfold in_i32; zlia). unfold set_piece, valid, view. cbn [length_ ptr_].
  assert (E : zdrop (zlen pid + 1) (string_data (pid ++ Byte.x28 :: comm ++ Byte.x29 :: fields))
              = comm ++ Byte.x29 :: fields ++ [Byte.x00]).
  { unfold string_data. rewrite <- app_assoc. rewrite zdrop_app_ge by lia.
    replace (zlen pid + 1 - zlen pid) with 1 by lia. cbn. by rewrite <- app_assoc. }
  rewrite E. split; [zlia|]. by apply ztake_app_len.
Qed.

(** * Numbers *)
Lemma digit_char d :
  (d < 10)%N → byte_val (Ascii.byte_of_ascii (pretty_N_char d)) = 48 + Z.of_N d.
Proof.
  intros Hd. assert (d = 0 ∨ d = 1 ∨ d = 2 ∨ d = 3 ∨ d = 4 ∨ d = 5 ∨ d = 6 ∨ d = 7 ∨ d = 8 ∨ d = 9)%N
    as H by lia. repeat (destruct H as [->|H]; [by vm_compute|]). subst d. by vm_compute.
Qed.

Lemma isdigit_char d : (d < 10)%N → isdigit (Ascii.byte_of_ascii (pretty_N_char d)) = true.
Proof. intros Hd. unfold isdigit. rewrite digit_char by done. bsolve. Qed.

Lemma digits_value_pretty n s :
  digits_value 0 (bytes_of_string (pretty_N_go n s)) = digits_value (Z.of_N n) (bytes_of_string s).
Proof.
  revert s. induction (N.lt_wf_0 n) as [n _ IH]; intros s.
  destruct (decide (n = 0)%N) as [->|]; [by rewrite pretty_N_go_0|]. rewrite pretty_N_go_step by lia.
  rewrite IH by (apply N.div_lt; lia).
  change (bytes_of_string (String ?c s)) with (Ascii.byte_of_ascii c :: bytes_of_string s).
  cbn [digits_value]. assert (Hd : (n mod 10 < 10)%N) by (apply N.mod_lt; lia).
  rewrite isdigit_char, digit_char by done. f_equal.
  rewrite N2Z.inj_div, N2Z.inj_mod. dlia.
Qed.

Lemma digits_pretty n s :
  Forall (λ c, isdigit c = true) (bytes_of_string s) →
  Forall (λ c, isdigit c = true) (bytes_of_string (pretty_N_go n s)).
Proof.
  revert s. induction (N.lt_wf_0 n) as [n _ IH]; intros s Hs.
  destruct (decide (n = 0)%N) as [->|]; [by rewrite pretty_N_go_0|]. rewrite pretty_N_go_step by lia.
  apply IH; [apply N.div_lt; lia|].
  change (bytes_of_string (String ?c s)) with (Ascii.byte_of_ascii c :: bytes_of_string s).
  constructor; [|done]. assert (Hd : (n mod 10 < 10)%N) by (apply N.mod_lt; lia).
  by apply isdigit_char.
Qed.

(** [atoi] reads back what "%d" prints, and stops at the first other character. *)
Lemma atoi_decimal p : 0 ≤ p < 2 ^ 31 → atoi (decimal p) = Ok p ∧ numeric (decimal p) = true.
Proof.
  intros Hp. destruct p as [|p|p]; [by vm_compute| |lia].
  pose proof (digits_value_pretty (N.pos p) "") as Ev. pose proof (digits_pretty (N.pos p) "" ltac:(done)) as Hd.
  unfold decimal. change (pretty (Z.pos p)) with (pretty_N_go (N.pos p) "").
  destruct (bytes_of_string (pretty_N_go (N.pos p) "")) as [|c s]; [done|].
  apply list.Forall_cons in Hd as [Hc _]. split; [|exact Hc]. unfold atoi. cbn [skip_space].
  unfold isdigit in Hc. bool_prop.
  assert (isspace c = false) as ->.
  { unfold isspace. by rewrite (proj2 (Z.eqb_neq _ 32)), (proj2 (Z.leb_gt _ 13)), andb_false_r by lia. }
  rewrite (proj2 (Z.eqb_neq _ 45)), (proj2 (Z.eqb_neq _ 43)) by lia. rewrite Ev. cbn [digits_value bytes_of_string].
  change (digits_value (Z.of_N (N.pos p)) _) with (Z.pos p). rewrite defined_true by bsolve. done.
Qed.

(** On the names of a task directory, [threads] returns the thread ids in order. *)
Lemma threads_total pids others :
  Forall (λ p, 0 ≤ p < 2 ^ 31) pids → Forall (λ d, numeric d = false) others →
  ∃ r, threads true (Some (others ++ map decimal pids)) = Ok r ∧ r ≡ₚ pids ∧ Sorted Z.le r.
Proof.
  intros Hp Ho.
  assert (E : foldl (λ m d, a ← m; taskDirFilter a d) (Ok []) (others ++ map decimal pids) = Ok pids).
  { assert (E1 : ∀ acc, foldl (λ m d, a ← m; taskDirFilter a d) (Ok acc) others = Ok acc).
    { intros acc. induction Ho as [|d ds Hd _ IH]; [done|]. cbn. unfold taskDirFilter at 2. by rewrite Hd. }
    rewrite foldl_app, E1. change pids with ([] ++ pids) at 2. generalize (@nil Z).
    induction Hp as [|p ps Hp _ IH]; intros acc; cbn; [by rewrite app_nil_r|].
    destruct (atoi_decimal p Hp) as [Ea En]. unfold taskDirFilter at 2. rewrite En, Ea. cbn.
    rewrite IH. by rewrite <- app_assoc. }
  unfold threads, scanDir. cbn [default]. unfold id. rewrite E. cbn. eexists. split; [done|].
  split; [apply merge_sort_Permutation|apply Sorted_merge_sort; intros x y; lia].
Qed.
