(* ===== verification/Date.v ===== *)
(** Calendar dates: networker/base/Date.h and Date.cpp.

    A [Date] is a Julian day number in an [int]; the conversions are integer
    arithmetic on [int], whose overflow is undefined: every operation states the
    intermediate results it computes.  The reference is the Gregorian calendar
    walked day by day ([next_day]). *)
From S2P Require Import Prelude.
From S2P Require Import Format.

(** The intermediate results of an [int] expression all fit in an [int]. *)
Definition int_range (z : Z) : bool := (- 2 ^ 31 <=? z) && (z <? 2 ^ 31).
Definition ints (zs : list Z) : outcome unit := defined (forallb int_range zs).

Record YearMonthDay := mkYMD { year : Z; month : Z; day : Z }.

Record Date := mkDate { julianDayNumber_ : Z }.

Definition kDaysPerWeek : Z := 7.

Definition getJulianDayNumber (year month day : Z) : outcome Z :=
  _ ← ints [14 - month];
  let a := Z.quot (14 - month) 12 in
  _ ← ints [year + 4800; year + 4800 - a];
  let y := year + 4800 - a in
  _ ← ints [12 * a; month + 12 * a; month + 12 * a - 3];
  let m := month + 12 * a - 3 in
  let t := Z.quot (153 * m + 2) 5 in
  _ ← ints [153 * m; 153 * m + 2; y * 365; day + t; day + t + y * 365;
            day + t + y * 365 + Z.quot y 4; day + t + y * 365 + Z.quot y 4 - Z.quot y 100;
            day + t + y * 365 + Z.quot y 4 - Z.quot y 100 + Z.quot y 400;
            day + t + y * 365 + Z.quot y 4 - Z.quot y 100 + Z.quot y 400 - 32045];
  Ok (day + t + y * 365 + Z.quot y 4 - Z.quot y 100 + Z.quot y 400 - 32045).

Definition getYearMonthDay (julianDayNumber : Z) : outcome YearMonthDay :=
  _ ← ints [julianDayNumber + 32044];
  let a := julianDayNumber + 32044 in
  _ ← ints [4 * a; 4 * a + 3];
  let b := Z.quot (4 * a + 3) 146097 in
  _ ← ints [b * 146097];
  let c := a - Z.quot (b * 146097) 4 in
  _ ← ints [c; 4 * c; 4 * c + 3];
  let d := Z.quot (4 * c + 3) 1461 in
  _ ← ints [1461 * d];
  let e := c - Z.quot (1461 * d) 4 in
  _ ← ints [e; 5 * e; 5 * e + 2];
  let m := Z.quot (5 * e + 2) 153 in
  _ ← ints [153 * m; 153 * m + 2; e - Z.quot (153 * m + 2) 5; e - Z.quot (153 * m + 2) 5 + 1;
            m + 3; 12 * Z.quot m 10; m + 3 - 12 * Z.quot m 10;
            b * 100; b * 100 + d; b * 100 + d - 4800; b * 100 + d - 4800 + Z.quot m 10];
  Ok (mkYMD (b * 100 + d - 4800 + Z.quot m 10) (m + 3 - 12 * Z.quot m 10)
            (e - Z.quot (153 * m + 2) 5 + 1)).

(** [getJulianDayNumber(1970, 1, 1)] is evaluated when the program starts. *)
Definition kJulianDayOf1970_01_01 : outcome Z := getJulianDayNumber 1970 1 1.

(** The constructors. *)
Definition Date_default : Date := mkDate 0.
Definition Date_of_ymd (y m d : Z) : outcome Date := j ← getJulianDayNumber y m d; Ok (mkDate j).
Definition Date_of_julian (julianDayNum : Z) : Date := mkDate julianDayNum.
Definition Date_of_tm (t : tm) : outcome Date :=
  _ ← ints [tm_year t + 1900; tm_mon t + 1];
  Date_of_ymd (tm_year t + 1900) (tm_mon t + 1) (tm_mday t).

Definition valid_date (d : Date) : bool := 0 <? julianDayNumber_ d.
Definition yearMonthDay (d : Date) : outcome YearMonthDay := getYearMonthDay (julianDayNumber_ d).
Definition weekDay (d : Date) : outcome Z :=
  _ ← ints [julianDayNumber_ d + 1]; Ok (Z.rem (julianDayNumber_ d + 1) kDaysPerWeek).
Definition date_lt (x y : Date) : bool := julianDayNumber_ x <? julianDayNumber_ y.
Definition date_eq (x y : Date) : bool := julianDayNumber_ x =? julianDayNumber_ y.

(** ["%4d-%02d-%02d"] into [char buf[32]]. *)
Definition toIsoString (d : Date) : outcome (list byte) :=
  ymd ← yearMonthDay d;
  Ok (snprintf 32 (format_d 4 (year ymd) ++ [Byte.x2d] ++ format_0d 2 (month ymd) ++ [Byte.x2d]
                   ++ format_0d 2 (day ymd))).1.

(** * The calendar *)
Definition leap (y : Z) : bool :=
  ((y mod 4 =? 0) && negb (y mod 100 =? 0)) || (y mod 400 =? 0).

Definition days_in_month (y m : Z) : Z :=
  if m =? 2 then if leap y then 29 else 28
  else if (m =? 4) || (m =? 6) || (m =? 9) || (m =? 11) then 30 else 31.

Definition calendar_date (y m d : Z) : Prop := 1 ≤ m ≤ 12 ∧ 1 ≤ d ≤ days_in_month y m.

Definition next_day (t : YearMonthDay) : YearMonthDay :=
  if day t <? days_in_month (year t) (month t) then mkYMD (year t) (month t) (day t + 1)
  else if month t <? 12 then mkYMD (year t) (month t + 1) 1
  else mkYMD (year t + 1) 1 1.

(** The closed form, over the integers. *)
Definition julian (y m d : Z) : Z :=
  let a := if m <=? 2 then 1 else 0 in
  let yy := y + 4800 - a in
  d + (153 * (m + 12 * a - 3) + 2) / 5 + yy * 365 + yy / 4 - yy / 100 + yy / 400 - 32045.

(** The years whose conversions stay inside [int]. *)
Definition year_ok (y : Z) : Prop := - 4799 ≤ y ≤ 1000000.

Lemma ints_ok zs : Forall in_i32 zs → ints zs = Ok tt.
Proof.
  intros H. unfold ints. apply defined_true, forallb_forall. intros z Hz.
  apply list.Forall_forall with (x := z) in H; [|by apply list_elem_of_In].
  unfold in_i32, int_range in *. rewrite andb_true_iff, Z.leb_le, Z.ltb_lt. lia.
Qed.

Lemma ints_then {A} zs (k : unit → outcome A) r :
  Forall in_i32 zs → k tt = r → (ints zs ≫= k) = r.
Proof. intros H <-. by rewrite ints_ok. Qed.

Ltac all_ints :=
  apply ints_then;
  [rewrite ?list.Forall_cons, ?list.Forall_nil; unfold in_i32; split_and?; first [exact I|lia|dlia]|].

Lemma Zquot_div a b : 0 ≤ a → 0 < b → Z.quot a b = a / b.
Proof. intros. apply Z.quot_div_nonneg; dlia. Qed.

Lemma month_shift m : 1 ≤ m ≤ 12 → Z.quot (14 - m) 12 = if m <=? 2 then 1 else 0.
Proof. intros. rewrite Zquot_div by dlia. destruct (Z.leb_spec m 2); dlia. Qed.

Lemma getJulianDayNumber_ok y m d :
  year_ok y → 1 ≤ m ≤ 12 → 1 ≤ d ≤ 31 → getJulianDayNumber y m d = Ok (julian y m d).
Proof.
  unfold year_ok. intros Hy Hm Hd. unfold getJulianDayNumber, julian.
  all_ints. rewrite month_shift by dlia. cbv zeta. set (a := if m <=? 2 then 1 else 0).
  assert (Ha : 0 ≤ a ≤ 1 ∧ 0 ≤ m + 12 * a - 3) by (unfold a; destruct (Z.leb_spec m 2); dlia).
  clearbody a. all_ints. all_ints.
  rewrite !Zquot_div by dlia. all_ints. done.
Qed.

(** March-based years and months: the day number splits into four digits. *)
Lemma julian_split y m d :
  ∃ b d' k m',
    julian y m d = d + (153 * m' + 2) / 5 + 365 * d' + d' / 4 + 36524 * b + b / 4 - 32045 ∧
    0 ≤ d' < 100 ∧ k = (if m <=? 2 then 1 else 0) ∧ b * 100 + d' = y + 4800 - k ∧ m' = m + 12 * k - 3.
Proof.
  set (k := if m <=? 2 then 1 else 0). exists ((y + 4800 - k) / 100), ((y + 4800 - k) mod 100), k, (m + 12 * k - 3).
  unfold julian. fold k. cbv zeta. generalize (y + 4800 - k). intros yy. split_and!; dlia.
Qed.

Lemma ymd_digits b d' m' d :
  0 ≤ b → 0 ≤ d' < 100 → 0 ≤ m' ≤ 11 → 1 ≤ d →
  (d + (153 * m' + 2) / 5 ≤ (153 * (m' + 1) + 2) / 5) →
  d + (153 * m' + 2) / 5 ≤ 365 + (if (d' mod 4 =? 3) && (negb (d' =? 99) || (b mod 4 =? 3)) then 1 else 0) →
  let e := d + (153 * m' + 2) / 5 - 1 in
  let c := e + 365 * d' + d' / 4 in
  let a := c + 36524 * b + b / 4 in
  (4 * a + 3) / 146097 = b ∧ a - (b * 146097) / 4 = c ∧
  (4 * c + 3) / 1461 = d' ∧ c - (1461 * d') / 4 = e ∧ (5 * e + 2) / 153 = m'.
Proof.
  intros Hb Hd' Hm Hd Hmonth Hyear e c a.
  assert (He : 0 ≤ e ≤ 365) by (subst e; destruct (_ && _); dlia).
  assert (Ec : e = 365 → d' mod 4 = 3 ∧ (d' ≠ 99 ∨ b mod 4 = 3)).
  { subst e. intros. destruct (Z.eqb_spec (d' mod 4) 3), (Z.eqb_spec d' 99), (Z.eqb_spec (b mod 4) 3); cbn in *; dlia. }
  assert (E4 : (1461 * d') / 4 = 365 * d' + d' / 4) by dlia.
  assert (E1 : (b * 146097) / 4 = 36524 * b + b / 4) by dlia.
  assert (Hc : 0 ≤ c ≤ 36524) by (subst c; dlia).
  assert (Hc' : c = 36524 → b mod 4 = 3) by (subst c; dlia).
  assert (Hm' : (5 * e + 2) / 153 = m') by (subst e; clear -Hm Hd Hmonth; dlia).
  assert (Hd2 : (4 * c + 3) / 1461 = d').
  { subst c. clearbody e. clear -He Ec Hd'. symmetry. apply Z.div_unique_pos with (4 * (e + d' / 4) + 3 - d').
    all: dlia. }
  split_and!; [|subst a; lia|done|subst c; lia|done].
  subst a. clearbody c. symmetry.
  apply Z.div_unique_pos with (4 * (c + b / 4) + 3 - b); dlia.
Qed.

Lemma month_cases m : 1 ≤ m ≤ 12 →
  m = 1 ∨ m = 2 ∨ m = 3 ∨ m = 4 ∨ m = 5 ∨ m = 6 ∨ m = 7 ∨ m = 8 ∨ m = 9 ∨ m = 10 ∨ m = 11 ∨ m = 12.
Proof. lia. Qed.

(** A statement about months, month by month. *)
Ltac by_month H := destruct (month_cases _ H) as [->|[->|[->|[->|[->|[->|[->|[->|[->|[->|[->| ->]]]]]]]]]]]; cbn.

Lemma days_in_month_bound y m : 28 ≤ days_in_month y m ≤ 31.
Proof. unfold days_in_month. repeat case_match; lia. Qed.

Lemma leap_digits y b d' :
  0 ≤ d' < 100 → b * 100 + d' = y + 4800 - 1 →
  leap y = (d' mod 4 =? 3) && (negb (d' =? 99) || (b mod 4 =? 3)).
Proof.
  intros Hd E. unfold leap.
  assert (E4 : (y mod 4 =? 0) = (d' mod 4 =? 3)).
  { destruct (Z.eqb_spec (y mod 4) 0), (Z.eqb_spec (d' mod 4) 3); try done; dlia. }
  assert (E100 : (y mod 100 =? 0) = (d' =? 99)).
  { destruct (Z.eqb_spec (y mod 100) 0), (Z.eqb_spec d' 99); try done; dlia. }
  rewrite E4, E100. destruct (Z.eqb_spec d' 99) as [->|]; cbn.
  - destruct (Z.eqb_spec (y mod 400) 0), (Z.eqb_spec (b mod 4) 3); try done; dlia.
  - rewrite (proj2 (Z.eqb_neq (y mod 400) 0)) by dlia. by destruct (d' mod 4 =? 3).
Qed.

(** The days of a month that starts in March are numbered consecutively. *)
Lemma month_lengths y m b d' :
  1 ≤ m ≤ 12 → 0 ≤ d' < 100 → b * 100 + d' = y + 4800 - (if m <=? 2 then 1 else 0) →
  let m' := m + 12 * (if m <=? 2 then 1 else 0) - 3 in
  days_in_month y m + (153 * m' + 2) / 5 =
  if m =? 2 then 365 + (if (d' mod 4 =? 3) && (negb (d' =? 99) || (b mod 4 =? 3)) then 1 else 0)
  else (153 * (m' + 1) + 2) / 5.
Proof.
  intros Hm Hd E. unfold days_in_month. destruct (Z.eqb_spec m 2) as [->|Hne].
  - cbn in *. rewrite (leap_digits y b d') by lia. by destruct (_ && _).
  - revert E Hne. by_month Hm; done.
Qed.

Lemma julian_digits y m d :
  year_ok y → calendar_date y m d →
  ∃ a b c d' e m',
    a = julian y m d + 32044 ∧ b = (4 * a + 3) / 146097 ∧ c = a - (b * 146097) / 4 ∧
    d' = (4 * c + 3) / 1461 ∧ e = c - (1461 * d') / 4 ∧ m' = (5 * e + 2) / 153 ∧
    (0 ≤ a ≤ 2 ^ 29 - 1 ∧ 0 ≤ b ≤ 11000 ∧ 0 ≤ c ≤ 36524 ∧ 0 ≤ d' < 100 ∧ 0 ≤ e ≤ 365 ∧ 0 ≤ m' ≤ 11) ∧
    y = b * 100 + d' - 4800 + m' / 10 ∧ m = m' + 3 - 12 * (m' / 10) ∧ d = e - (153 * m' + 2) / 5 + 1.
Proof.
  intros Hy [Hm Hd]. destruct (julian_split y m d) as (b & d' & k & m' & Ej & Hd' & -> & Ey & Em).
  pose proof (month_lengths y m b d' Hm Hd' Ey) as HL. cbv zeta in HL. rewrite <- Em in HL.
  pose proof (days_in_month_bound y m) as HB. unfold year_ok in Hy.
  assert (Hk : 0 ≤ m' ≤ 11 ∧ (m =? 2) = (m' =? 11) ∧
          m = m' + 3 - 12 * (m' / 10) ∧ (if m <=? 2 then 1 else 0) = m' / 10).
  { subst m'. clear -Hm. by_month Hm; by split_and!. }
  destruct Hk as (Hm' & E2 & Emm & Ek). rewrite Ek in Ey. clear Ek Em.
  destruct (ymd_digits b d' m' d) as (H1 & H2 & H3 & H4 & H5); try dlia.
  { rewrite E2 in HL. destruct (Z.eqb_spec m' 11) as [->|]; [destruct (_ && _); dlia|lia]. }
  { rewrite E2 in HL. destruct (Z.eqb_spec m' 11) as [->|]; [destruct (_ && _); dlia|].
    destruct (_ && _); dlia. }
  assert (He : 0 ≤ d + (153 * m' + 2) / 5 - 1 ≤ 365).
  { rewrite E2 in HL. destruct (Z.eqb_spec m' 11) as [->|]; [destruct (_ && _); dlia|dlia]. }
  set (e := d + (153 * m' + 2) / 5 - 1) in *. set (c := e + 365 * d' + d' / 4) in *.
  exists (c + 36524 * b + b / 4), b, c, d', e, m'. clear HL E2 HB.
  assert (0 ≤ c ≤ 36524) by (subst c; dlia).
  split_and!; first [by symmetry|lia|dlia].
Qed.

Lemma getYearMonthDay_julian y m d :
  year_ok y → calendar_date y m d → getYearMonthDay (julian y m d) = Ok (mkYMD y m d).
Proof.
  intros Hy Hd. destruct (julian_digits y m d Hy Hd)
    as (a & b & c & d' & e & m' & Ea & Eb & Ec & Ed & Ee & Em & (? & ? & ? & ? & ? & ?) & -> & -> & ->).
  unfold getYearMonthDay. rewrite <- Ea. clear Ea Hy Hd.
  all_ints. all_ints. rewrite (Zquot_div (4 * a + 3)) by lia. rewrite <- Eb.
  all_ints. rewrite (Zquot_div (b * _)) by lia. rewrite <- Ec.
  all_ints. rewrite (Zquot_div (4 * c + 3)) by lia. rewrite <- Ed.
  all_ints. rewrite (Zquot_div (1461 * d')) by lia. rewrite <- Ee.
  all_ints. rewrite (Zquot_div (5 * e + 2)) by lia. rewrite <- Em.
  rewrite (Zquot_div (153 * m' + 2)), (Zquot_div m' 10) by lia. clear Eb Ec Ed Ee Em.
  assert (0 ≤ (153 * m' + 2) / 5 ≤ 400) by dlia. assert (0 ≤ m' / 10 ≤ 1) by dlia.
  generalize dependent ((153 * m' + 2) / 5). generalize dependent (m' / 10). intros q ? t ?.
  all_ints. done.
Qed.

(** Decides the comparisons between constants. *)
Ltac compare_months :=
  repeat match goal with |- context [?a <=? ?b] =>
    let v := eval vm_compute in (a <=? b) in
    lazymatch v with true => idtac | false => idtac end; change (a <=? b) with v
  end; cbv iota.

(** The calendar's next day has the next number, so the numbers count days. *)
Lemma julian_first_of_month y m :
  1 ≤ m < 12 → julian y m (days_in_month y m) + 1 = julian y (m + 1) 1.
Proof.
  intros Hm. assert (Hm' : 1 ≤ m ≤ 12) by lia.
  pose proof (days_in_month_bound y m) as HB. destruct (Z.eqb_spec m 2) as [->|Hne].
  - unfold julian, days_in_month, leap. cbn [Z.eqb Pos.eqb]. compare_months.
    destruct (Z.eqb_spec (y mod 4) 0), (Z.eqb_spec (y mod 100) 0), (Z.eqb_spec (y mod 400) 0); cbn; dlia.
  - revert Hm Hne HB. unfold julian, days_in_month. by_month Hm'; compare_months; intros; dlia.
Qed.

Lemma julian_next t :
  calendar_date (year t) (month t) (day t) →
  let t' := next_day t in
  julian (year t') (month t') (day t') = julian (year t) (month t) (day t) + 1 ∧
  calendar_date (year t') (month t') (day t').
Proof.
  destruct t as [y m d]. cbn. intros [Hm Hd]. unfold next_day, calendar_date. cbn.
  destruct (Z.ltb_spec d (days_in_month y m)) as [H|H]; cbn; [split; [unfold julian; cbn; lia|lia]|].
  assert (d = days_in_month y m) as -> by lia.
  destruct (Z.ltb_spec m 12) as [H'|H']; cbn.
  - pose proof (days_in_month_bound y (m + 1)). rewrite julian_first_of_month by lia. lia.
  - assert (m = 12) as -> by lia. pose proof (days_in_month_bound (y + 1) 1).
    unfold julian, days_in_month; cbn. compare_months. split; [dlia|lia].
Qed.

Lemma julian_epoch : julian 1970 1 1 = 2440588 ∧ kJulianDayOf1970_01_01 = Ok 2440588.
Proof. by vm_compute. Qed.

Lemma julian_year_lower y m d :
  calendar_date y m d → - 4799 ≤ y → 365 * (y + 4799) - 31738 ≤ julian y m d + 365.
Proof.
  intros [Hm Hd] Hy. unfold julian.
  assert (0 ≤ (if m <=? 2 then 1 else 0) ≤ 1 ∧ 0 ≤ (153 * (m + 12 * (if m <=? 2 then 1 else 0) - 3) + 2) / 5).
  { destruct (Z.leb_spec m 2); dlia. }
  destruct (m <=? 2); dlia.
Qed.

(** The first day of the range, and the number of the last day that is certainly in it. *)
Definition first_day : Z := julian (-4799) 1 1.
Definition last_day : Z := 360000000.

(** Every day number from [first_day] on is the number of a calendar day. *)
Lemma julian_onto j :
  first_day ≤ j → ∃ t, calendar_date (year t) (month t) (day t) ∧ julian (year t) (month t) (day t) = j ∧
                       - 4799 ≤ year t.
Proof.
  intros Hj. replace j with (first_day + (j - first_day)) by lia.
  assert (Hn : 0 ≤ j - first_day) by lia. revert Hn. generalize (j - first_day). clear j Hj.
  apply natlike_ind; [exists (mkYMD (-4799) 1 1); by split_and!|].
  intros n Hn (t & Ht & E & Hy). exists (next_day t). destruct (julian_next t Ht) as [E' Ht'].
  split_and!; [done|lia|]. unfold next_day. repeat case_match; cbn; lia.
Qed.

Lemma julian_day_ok j :
  first_day ≤ j ≤ last_day →
  ∃ t, getYearMonthDay j = Ok t ∧ calendar_date (year t) (month t) (day t) ∧ year_ok (year t) ∧
       julian (year t) (month t) (day t) = j.
Proof.
  intros [Hl Hu]. destruct (julian_onto j Hl) as (t & Ht & E & Hy).
  pose proof (julian_year_lower _ _ _ Ht Hy). unfold last_day in Hu.
  assert (year_ok (year t)) by (unfold year_ok; lia).
  exists t. split_and!; [|done..]. rewrite <- E. rewrite getYearMonthDay_julian by done. by destruct t.
Qed.

Lemma calendar_day_31 y m d : calendar_date y m d → 1 ≤ m ≤ 12 ∧ 1 ≤ d ≤ 31.
Proof. intros [Hm Hd]. pose proof (days_in_month_bound y m). lia. Qed.

(** A date's own number: the two conversions invert each other. *)
Lemma ymd_roundtrip y m d :
  year_ok y → calendar_date y m d →
  (d' ← Date_of_ymd y m d; yearMonthDay d') = Ok (mkYMD y m d).
Proof.
  intros Hy Hd. pose proof (calendar_day_31 _ _ _ Hd). unfold Date_of_ymd.
  rewrite getJulianDayNumber_ok by tauto. cbn. by apply getYearMonthDay_julian.
Qed.

(** [weekDay] advances by one each day and wraps after Saturday. *)
Lemma weekDay_ok j :
  0 ≤ j < 2 ^ 31 - 1 →
  weekDay (mkDate j) = Ok ((j + 1) mod 7).
Proof.
  intros Hj. unfold weekDay. cbn. apply ints_then.
  - rewrite list.Forall_cons, list.Forall_nil. unfold in_i32. lia.
  - by rewrite Z.rem_mod_nonneg by (unfold kDaysPerWeek; lia).
Qed.

Example iso_2024 : (d ← Date_of_ymd 2024 2 29; toIsoString d) = Ok (bytes_of_string "2024-02-29").
Proof. by vm_compute. Qed.
