(* ===== verification/TimeZone.v ===== *)
(** Time zones: networker/base/TimeZone.h and TimeZone.cpp.

    The zone file is a byte string (or missing); the reader threads what is left
    of the file and the [Data] being filled, so that an exception leaves [Data] as
    it was at the throw.  [gmtime_r]/[timegm] belong to the C library.  A returned
    [const Localtime*] is the record it points to; forming it outside the vector is
    [UndefinedBehaviour]. *)
From S2P Require Import Prelude.
From S2P Require Import Endian.
From S2P Require Import Format.
From S2P Require Import StringPiece.
From S2P Require Import Timestamp.
From S2P Require Import Date.

Record Transition := mkTransition { gmttime : Z; localtime : Z; localtimeIdx : Z }.

Record Localtime := mkLocaltime { gmtOffset : Z; isDst : bool; arrbIdx : Z }.

Record Data := mkData {
  transitions : list Transition;
  localtimes : list Localtime;
  names : list (list byte);
  abbreviation : list byte
}.

Definition new_Data : Data := mkData [] [] [] [].

(** [Comp]: the order on transitions, by UTC or by local time. *)
Record Comp := mkComp { compareGmt : bool }.

Definition comp_less (c : Comp) (lhs rhs : Transition) : bool :=
  if compareGmt c then gmttime lhs <? gmttime rhs else localtime lhs <? localtime rhs.

Definition comp_equal (c : Comp) (lhs rhs : Transition) : bool :=
  if compareGmt c then gmttime lhs =? gmttime rhs else localtime lhs =? localtime rhs.

Definition kSecondsPerDay : Z := 24 * 60 * 60.

(** [fillHMS]: the argument is [unsigned]. *)
Definition fillHMS (seconds : Z) (utc : tm) : tm :=
  let minutes := seconds / 60 in
  mkTm (tm_year utc) (tm_mon utc) (tm_mday utc) (minutes / 60) (minutes mod 60) (seconds mod 60)
       (tm_wday utc) (tm_yday utc) (tm_isdst utc) (tm_gmtoff utc) (tm_zone utc).

(** * Reading a zone file *)

(** What is left of the file, and the data; an error keeps both. *)
Definition reader (A : Type) : Type := list byte * Data → list byte * Data * outcome A.

#[export] Instance reader_ret : MRet reader := λ A a s, (s, Ok a).
#[export] Instance reader_bind : MBind reader := λ A B k m s,
  match m s with
  | (s', Ok a) => k a s'
  | (s', Fail f) => (s', Fail f)
  end.

Definition raise {A} (f : fault) : reader A := λ s, (s, Fail f).
Definition get_data : reader Data := λ s, (s, Ok s.2).
Definition put_data (d : Data) : reader unit := λ s, ((s.1, d), Ok tt).

(** [fread(buf, 1, n, fp_)] at the end of a file reads less, and consumes it. *)
Definition fread (n : Z) : reader (list byte) := λ s,
  ((zdrop n s.1, s.2), Ok (ztake n s.1)).

Definition readBytes (n : Z) : reader (list byte) :=
  if n <? 0 then raise UndefinedBehaviour
  else
    buf ← fread n;
    if negb (zlen buf =? n) then raise LogicError else mret buf.

Section reading.
  Context `{Host}.

Definition readInt32 : reader Z :=
  x ← fread 4;
  if negb (zlen x =? 4) then raise LogicError
  else mret (i32 (betoh 4 (object_value x))).

Definition readUInt8 : reader Z :=
  x ← fread 1;
  if negb (zlen x =? 1) then raise LogicError else mret (object_value x).

(** [for (int i = 0; i < n; ++i)] around one read, and around a push to [Data]. *)
Fixpoint times {A} (n : nat) (m : reader A) : reader (list A) :=
  match n with
  | O => mret []
  | S n' => x ← m; xs ← times n' m; mret (x :: xs)
  end.

(** [trans.reserve(timecnt)]: the count is converted to [size_t]. *)
Definition reserve (n : Z) : reader unit :=
  if u64 n <=? (2 ^ 63 - 1) / 4 then mret tt else raise LengthError.

Definition push_localtime (l : Localtime) : reader unit :=
  d ← get_data;
  put_data (mkData (transitions d) (localtimes d ++ [l]) (names d) (abbreviation d)).

Definition push_transition (t : Transition) : reader unit :=
  d ← get_data;
  put_data (mkData (transitions d ++ [t]) (localtimes d) (names d) (abbreviation d)).

Definition read_ttinfo : reader unit :=
  gmtoff ← readInt32;
  isdst ← readUInt8;
  abbrind ← readUInt8;
  push_localtime (mkLocaltime gmtoff (negb (isdst =? 0)) abbrind).

(** The loop that pairs the transition times with their types. *)
Fixpoint pair_transitions (trans locals : list Z) : reader unit :=
  match trans, locals with
  | t :: trans', localIdx :: locals' =>
      d ← get_data;
      match localtimes d !! Z.to_nat localIdx with
      | None => raise UndefinedBehaviour
      | Some l =>
          _ ← push_transition (mkTransition t (t + gmtOffset l) localIdx);
          pair_transitions trans' locals'
      end
  | _, _ => mret tt
  end.

(** The body of the [try]. *)
Definition read_zone : reader unit :=
  head ← readBytes 4;
  if negb (bool_decide (head = bytes_of_string "TZif")) then raise LogicError
  else
    version ← readBytes 1;
    _ ← readBytes 15;
    isgmtcnt ← readInt32;
    isstdcnt ← readInt32;
    leapcnt ← readInt32;
    timecnt ← readInt32;
    typecnt ← readInt32;
    charcnt ← readInt32;
    _ ← reserve timecnt;
    trans ← times (Z.to_nat timecnt) readInt32;
    locals ← times (Z.to_nat timecnt) readUInt8;
    _ ← times (Z.to_nat typecnt) read_ttinfo;
    _ ← pair_transitions trans locals;
    abbr ← readBytes charcnt;
    d ← get_data;
    put_data (mkData (transitions d) (localtimes d) (names d) abbr).

(** [catch (logic_error&)]: [length_error] derives from it. *)
Definition readTimeZoneFile (zonefile : option (list byte)) (data : Data) : outcome (bool * Data) :=
  match zonefile with
  | None => Ok (true, data)
  | Some file =>
      match read_zone (file, data) with
      | ((_, d), Ok _) | ((_, d), Fail LogicError) | ((_, d), Fail LengthError) => Ok (true, d)
      | (_, Fail f) => Fail f
      end
  end.

(** [TimeZone(zonefile)]: the shared pointer is reset when the reading fails. *)
Definition TimeZone_of_file (zonefile : option (list byte)) : outcome (option Data) :=
  r ← readTimeZoneFile zonefile new_Data;
  Ok (if (r.1 : bool) then Some r.2 else None).
End reading.

Definition TimeZone_fixed (eastOfUtc : Z) (name : list byte) : option Data :=
  Some (mkData [] [mkLocaltime eastOfUtc false 0] [] name).

Definition TimeZone_default : option Data := None.
Definition tz_valid (data_ : option Data) : bool := match data_ with Some _ => true | None => false end.

(** * Looking up the local time in force *)

(** [std::lower_bound]: binary search in [len] elements from [first]. *)
Fixpoint lower_bound {A} (fuel : nat) (below : A → bool) (l : list A) (first len : nat) : outcome nat :=
  match fuel with
  | O => Ok first
  | S fuel' =>
      match len with
      | O => Ok first
      | _ =>
          let half := Nat.div2 len in
          match l !! (first + half)%nat with
          | None => Fail UndefinedBehaviour
          | Some middle =>
              if below middle
              then lower_bound fuel' below l (first + half + 1)%nat (len - half - 1)%nat
              else lower_bound fuel' below l first half
          end
      end
  end.

Definition at_index {A} (i : Z) (l : list A) : outcome A :=
  if i <? 0 then Fail UndefinedBehaviour
  else match l !! Z.to_nat i with Some x => Ok x | None => Fail UndefinedBehaviour end.

Definition findLocaltime (data : Data) (sentry : Transition) (comp : Comp) : outcome Localtime :=
  match transitions data with
  | [] => at_index 0 (localtimes data)
  | front :: _ =>
      if comp_less comp sentry front then at_index 0 (localtimes data)
      else
        let n := length (transitions data) in
        i ← lower_bound (S n) (λ t, comp_less comp t sentry) (transitions data) 0 n;
        if (i =? n)%nat
        then
          back ← at_index (Z.of_nat n - 1) (transitions data);
          at_index (localtimeIdx back) (localtimes data)
        else
          transI ← at_index (Z.of_nat i) (transitions data);
          if negb (comp_equal comp sentry transI)
          then
            _ ← require (negb (i =? 0)%nat);
            previous ← at_index (Z.of_nat i - 1) (transitions data);
            at_index (localtimeIdx previous) (localtimes data)
          else at_index (localtimeIdx transI) (localtimes data)
  end.

(** * Conversions *)

(** The C library's calendar: gmtime_r(3) (NULL when the year does not fit) and
    timegm(3), its inverse, which looks at the six calendar fields only. *)
Class CLibrary := {
  gmtime_r : Z → option tm;
  timegm : tm → Z;
  timegm_gmtime t u : gmtime_r t = Some u → timegm u = t;
  timegm_fields u v :
    (tm_year u, tm_mon u, tm_mday u, tm_hour u, tm_min u, tm_sec u) =
    (tm_year v, tm_mon v, tm_mday v, tm_hour v, tm_min v, tm_sec v) → timegm u = timegm v
}.

(** The string [&abbreviation[i]] points to. *)
Definition zone_name (abbr : list byte) (i : Z) : outcome (list byte) :=
  _ ← defined ((0 <=? i) && (i <=? zlen abbr)); Ok (until_nul (zdrop i abbr)).

Section conversions.
  Context `{!CLibrary}.

Definition toLocalTime (data_ : option Data) (seconds : Z) : outcome tm :=
  match data_ with
  | None => Fail AssertFailure
  | Some data =>
      let sentry := mkTransition seconds 0 0 in
      local ← findLocaltime data sentry (mkComp true);
      localSeconds ← int64 (seconds + gmtOffset local);
      let localTime := default tm_zero (gmtime_r localSeconds) in
      zone ← zone_name (abbreviation data) (arrbIdx local);
      Ok (mkTm (tm_year localTime) (tm_mon localTime) (tm_mday localTime)
               (tm_hour localTime) (tm_min localTime) (tm_sec localTime)
               (tm_wday localTime) (tm_yday localTime)
               (if isDst local then 1 else 0) (gmtOffset local) (Some zone))
  end.

Definition fromLocalTime (data_ : option Data) (localTm : tm) : outcome Z :=
  match data_ with
  | None => Fail AssertFailure
  | Some data =>
      let seconds := timegm localTm in
      let sentry := mkTransition 0 seconds 0 in
      local ← findLocaltime data sentry (mkComp false);
      seconds ←
        (if negb (tm_isdst localTm =? 0)
         then
           s ← int64 (seconds - gmtOffset local);
           tryTm ← toLocalTime data_ s;
           if (tm_isdst tryTm =? 0) && (tm_hour tryTm =? tm_hour localTm)
              && (tm_min tryTm =? tm_min localTm)
           then int64 (seconds - 3600)
           else Ok seconds
         else Ok seconds);
      int64 (seconds - gmtOffset local)
  end.
End conversions.

(** [static_cast<int>] wraps; [memZero] and the zone ["GMT"] first. *)
Definition toUtcTime (secondsSinceEpoch : Z) (yday : bool) : outcome tm :=
  let utc := mkTm 0 0 0 0 0 0 0 0 0 0 (Some (bytes_of_string "GMT")) in
  let seconds := i32 (Z.rem secondsSinceEpoch kSecondsPerDay) in
  let days := i32 (Z.quot secondsSinceEpoch kSecondsPerDay) in
  '(seconds, days) ←
    (if seconds <? 0
     then _ ← ints [seconds + kSecondsPerDay; days - 1]; Ok (seconds + kSecondsPerDay, days - 1)
     else Ok (seconds, days));
  let utc := fillHMS (u32 seconds) utc in
  epoch ← kJulianDayOf1970_01_01;
  _ ← ints [days + epoch];
  let date := mkDate (days + epoch) in
  ymd ← yearMonthDay date;
  _ ← ints [year ymd - 1900; month ymd - 1];
  wday ← weekDay date;
  yd ←
    (if yday
     then startOfYear ← Date_of_ymd (year ymd) 1 1;
          _ ← ints [julianDayNumber_ date - julianDayNumber_ startOfYear];
          Ok (julianDayNumber_ date - julianDayNumber_ startOfYear)
     else Ok (tm_yday utc));
  Ok (mkTm (year ymd - 1900) (month ymd - 1) (day ymd) (tm_hour utc) (tm_min utc) (tm_sec utc)
           wday yd (tm_isdst utc) (tm_gmtoff utc) (tm_zone utc)).

(** [fromUtcTime] of the six numbers, and of a [struct tm]. *)
Definition fromUtcTime_of (year month day hour minute seconds : Z) : outcome Z :=
  date ← Date_of_ymd year month day;
  _ ← ints [hour * 3600; minute * 50; hour * 3600 + minute * 50; hour * 3600 + minute * 50 + seconds];
  let secondsInDay := hour * 3600 + minute * 50 + seconds in
  epoch ← kJulianDayOf1970_01_01;
  _ ← ints [julianDayNumber_ date - epoch];
  let days := julianDayNumber_ date - epoch in
  int64 (days * kSecondsPerDay + secondsInDay).

Definition fromUtcTime (utc : tm) : outcome Z :=
  _ ← ints [tm_year utc + 1900; tm_mon utc + 1];
  fromUtcTime_of (tm_year utc + 1900) (tm_mon utc + 1) (tm_mday utc) (tm_hour utc) (tm_min utc) (tm_sec utc).
