(* ===== verification/TimeZoneFacts.v ===== *)
(** Facts about the time zones: the calendar conversions, the lookup of the local
    time in force, and the zone-file reader against an encoder of the format. *)
From S2P Require Import Prelude.
From S2P Require Import Endian.
From S2P Require Import Format.
From S2P Require Import StringPiece.
From S2P Require Import Timestamp.
From S2P Require Import Date.
From S2P Require Import TimeZone.

(** * UTC *)

(** The second a calendar time stands for. *)
Definition utc_seconds (y m d hour minute second : Z) : Z :=
  (julian y m d - 2440588) * 86400 + hour * 3600 + minute * 60 + second.

Definition seconds_of_tm (u : tm) : Z :=
  utc_seconds (tm_year u + 1900) (tm_mon u + 1) (tm_mday u) (tm_hour u) (tm_min u) (tm_sec u).

Definition clock_ok (u : tm) : Prop := 0 ≤ tm_hour u < 24 ∧ 0 ≤ tm_min u < 60 ∧ 0 ≤ tm_sec u < 60.

(** The seconds whose day has a number in the range of [Date]. *)
Definition seconds_ok (t : Z) : Prop := 1 - 2440588 ≤ t / 86400 ∧ t / 86400 + 2440588 ≤ last_day.

(** Quotient towards zero plus the correction is the floor. *)
Lemma day_and_second t :
  seconds_ok t →
  (if i32 (Z.rem t kSecondsPerDay) <? 0
   then _ ← ints [i32 (Z.rem t kSecondsPerDay) + kSecondsPerDay; i32 (Z.quot t kSecondsPerDay) - 1];
        Ok (i32 (Z.rem t kSecondsPerDay) + kSecondsPerDay, i32 (Z.quot t kSecondsPerDay) - 1)
   else Ok (i32 (Z.rem t kSecondsPerDay), i32 (Z.quot t kSecondsPerDay)))
  = Ok (t mod 86400, t / 86400).
Proof.
  unfold seconds_ok, last_day, kSecondsPerDay. change (24 * 60 * 60) with 86400. intros Ht.
  assert (Hq : in_i32 (Z.quot t 86400) ∧ in_i32 (Z.rem t 86400)) by (unfold in_i32; split; dlia).
  destruct Hq as [Hq Hr]. rewrite !i32_small by done. destruct (Z.ltb_spec (Z.rem t 86400) 0).
  - apply ints_then; [|do 2 f_equal; dlia].
    rewrite !list.Forall_cons, list.Forall_nil. unfold in_i32 in *. split_and!; [dlia..|done].
  - do 2 f_equal; dlia.
Qed.

(** [toUtcTime] produces the calendar time of [t]. *)
Lemma toUtcTime_ok t yday :
  seconds_ok t →
  ∃ u, toUtcTime t yday = Ok u ∧
    calendar_date (tm_year u + 1900) (tm_mon u + 1) (tm_mday u) ∧ year_ok (tm_year u + 1900) ∧ clock_ok u ∧
    seconds_of_tm u = t ∧ tm_wday u = (t / 86400 + 4) mod 7 ∧
    tm_yday u = (if yday then t / 86400 + 2440588 - julian (tm_year u + 1900) 1 1 else 0) ∧
    tm_isdst u = 0 ∧ tm_zone u = Some (bytes_of_string "GMT").
Proof.
  intros Ht. unfold toUtcTime. rewrite day_and_second, bind_Ok by done.
  rewrite (proj2 julian_epoch), bind_Ok. unfold seconds_ok, last_day in Ht.
  assert (Hs : 0 ≤ t mod 86400 < 86400) by (apply Z.mod_pos_bound; lia).
  destruct (julian_day_ok (t / 86400 + 2440588)) as (ymd & E & Hd & Hy & Ej).
  { unfold last_day. change first_day with (-31738). lia. }
  destruct ymd as [y m d]. cbn in Hd, Hy, Ej. unfold yearMonthDay. cbn [julianDayNumber_].
  pose proof (calendar_day_31 _ _ _ Hd) as [Hm31 _]. unfold year_ok in *.
  assert (Hyd : (if yday then startOfYear ← Date_of_ymd y 1 1;
                              _ ← ints [t / 86400 + 2440588 - julianDayNumber_ startOfYear];
                              Ok (t / 86400 + 2440588 - julianDayNumber_ startOfYear)
                 else Ok 0) = Ok (if yday then t / 86400 + 2440588 - julian y 1 1 else 0)).
  { destruct yday; [|done]. unfold Date_of_ymd. rewrite getJulianDayNumber_ok by (done || lia).
    apply ints_then; [|done]. cbn.
    assert (calendar_date y 1 1) as HJ by (split; [lia|unfold days_in_month; cbn; lia]).
    pose proof (julian_year_lower y 1 1 HJ ltac:(lia)).
    rewrite list.Forall_cons, list.Forall_nil. unfold in_i32.
    assert (julian y 1 1 ≤ 400000000) by (unfold julian; cbn; dlia). lia. }
  eexists. split.
  { all_ints. rewrite E, bind_Ok. cbn [year month day]. all_ints.
    rewrite weekDay_ok, bind_Ok by lia. cbn [julianDayNumber_].
    unfold fillHMS. cbn [tm_yday]. rewrite Hyd, bind_Ok. rewrite u32_small by lia. reflexivity. }
  cbn [tm_year tm_mon tm_mday tm_hour tm_min tm_sec tm_wday tm_yday tm_isdst tm_zone].
  replace (y - 1900 + 1900) with y by lia. replace (m - 1 + 1) with m by lia.
  split_and!; try done; try lia.
  - unfold clock_ok. cbn. split_and!; dlia.
  - unfold seconds_of_tm, utc_seconds. cbn. replace (y - 1900 + 1900) with y by lia.
    replace (m - 1 + 1) with m by lia. rewrite Ej. dlia.
  - dlia.
Qed.

(** [fromUtcTime] counts fifty seconds to the minute. *)
Lemma fromUtcTime_ok u :
  calendar_date (tm_year u + 1900) (tm_mon u + 1) (tm_mday u) → year_ok (tm_year u + 1900) → clock_ok u →
  fromUtcTime u = Ok (seconds_of_tm u - 10 * tm_min u).
Proof.
  intros Hd Hy Hc. pose proof (calendar_day_31 _ _ _ Hd). unfold fromUtcTime, fromUtcTime_of.
  unfold year_ok in *. destruct Hc as (Hh & Hmi & Hs).
  pose proof (julian_year_lower _ _ _ Hd ltac:(lia)) as HL.
  assert (HU : julian (tm_year u + 1900) (tm_mon u + 1) (tm_mday u) ≤ 400000000).
  { unfold julian. destruct (tm_mon u + 1 <=? 2); dlia. }
  all_ints. unfold Date_of_ymd. rewrite getJulianDayNumber_ok by (done || lia). rewrite !bind_Ok.
  all_ints. rewrite (proj2 julian_epoch), bind_Ok. cbn [julianDayNumber_]. all_ints.
  unfold kSecondsPerDay. change (24 * 60 * 60) with 86400. rewrite int64_ok by (unfold in_i64; lia).
  f_equal. unfold seconds_of_tm, utc_seconds. lia.
Qed.

(** * The lookup *)

(** The [k] first elements are below the key, the others are not. *)
Definition partitioned {A} (below : A → bool) (l : list A) (k : nat) : Prop :=
  (k ≤ length l)%nat ∧ ∀ i x, l !! i = Some x → below x = true ↔ (i < k)%nat.

Lemma lower_bound_spec {A} (below : A → bool) l k fuel first len :
  partitioned below l k → (first ≤ k ≤ first + len)%nat → (first + len ≤ length l)%nat →
  (len < fuel)%nat → lower_bound fuel below l first len = Ok k.
Proof.
  intros Hp. revert first len. induction fuel as [|fuel IH]; intros first len Hk Hl Hf; [lia|].
  cbn [lower_bound]. destruct len as [|len']; [f_equal; lia|]. set (len := S len') in *.
  assert (Hpos : (0 < len)%nat) by (subst len; lia). clearbody len.
  assert (Hhalf : (Nat.div2 len < len)%nat) by (apply Nat.lt_div2; lia).
  set (half := Nat.div2 len) in *. clearbody half.
  destruct (lookup_lt_is_Some_2 l (first + half)%nat) as [x Hx]; [lia|]. rewrite Hx.
  pose proof (proj2 Hp _ _ Hx) as Hb. destruct (below x).
  - assert (first + half < k)%nat by (by apply Hb). apply IH; lia.
  - assert (¬ (first + half < k)%nat) by (intros H%Hb; done). apply IH; lia.
Qed.

(** A sorted table is partitioned by every key. *)
Definition key (c : Comp) (t : Transition) : Z := if compareGmt c then gmttime t else localtime t.

Definition increasing (c : Comp) (l : list Transition) : Prop :=
  ∀ i j x y, l !! i = Some x → l !! j = Some y → (i < j)%nat → key c x < key c y.

Lemma comp_less_key c a b : comp_less c a b = (key c a <? key c b).
Proof. unfold comp_less, key. by destruct (compareGmt c). Qed.
Lemma comp_equal_key c a b : comp_equal c a b = (key c a =? key c b).
Proof. unfold comp_equal, key. by destruct (compareGmt c). Qed.

(** How many transitions are not after the sentry. *)
Definition passed (c : Comp) (sentry : Transition) (l : list Transition) : nat :=
  length (filter (λ t, key c t ≤ key c sentry) l).

(** The local time in force: that of the last transition not after the sentry, and
    before the first transition the first local time. *)
Definition in_force (data : Data) (sentry : Transition) (c : Comp) : option Localtime :=
  match list.last (filter (λ t, key c t ≤ key c sentry) (transitions data)) with
  | Some t => if localtimeIdx t <? 0 then None else localtimes data !! Z.to_nat (localtimeIdx t)
  | None => list.head (localtimes data)
  end.

Lemma increasing_tail c x l : increasing c (x :: l) → increasing c l ∧ ∀ y, y ∈ l → key c x < key c y.
Proof.
  intros H. split; [intros i j a b Ha Hb Hij; by apply (H (S i) (S j)); [..|lia]|].
  intros y (i & Hy)%list_elem_of_lookup_1. by apply (H 0%nat (S i)); [..|lia].
Qed.

Lemma filter_prefix c s l :
  increasing c l →
  filter (λ t, key c t ≤ key c s) l = take (passed c s l) l ∧
  ∀ i x, l !! i = Some x → (key c x ≤ key c s ↔ (i < passed c s l)%nat).
Proof.
  unfold passed. induction l as [|t l IH]; intros H; [by split|].
  apply increasing_tail in H as [Hl Ht]. destruct (IH Hl) as [IH1 IH2].
  destruct (decide (key c t ≤ key c s)) as [Hle|Hgt].
  - rewrite filter_cons_True by done. cbn [length take]. split; [by f_equal|].
    intros [|i] x; cbn; [intros [= <-]; split; [lia|done]|].
    intros Hx. rewrite IH2 by done. lia.
  - assert (E : filter (λ t, key c t ≤ key c s) l = []).
    { apply list.elem_of_nil_inv. intros x [Hx Hin]%list_elem_of_filter. specialize (Ht x Hin). lia. }
    rewrite filter_cons_False, E by done. split; [done|]. cbn.
    intros i x Hx. split; [|lia]. intros Hle. exfalso. destruct i; cbn in Hx; [by injection Hx as ->|].
    apply list_elem_of_lookup_2 in Hx. specialize (Ht x Hx). lia.
Qed.

(** The element of a vector, or undefined behaviour. *)
Definition deref {A} (o : option A) : outcome A :=
  match o with Some x => Ok x | None => Fail UndefinedBehaviour end.

Lemma at_index_nat {A} (i : nat) (l : list A) : at_index (Z.of_nat i) l = deref (l !! i).
Proof. unfold at_index. rewrite (proj2 (Z.ltb_ge _ _)), Nat2Z.id by lia. by destruct (l !! i). Qed.

Lemma at_index_0 {A} (l : list A) : at_index 0 l = deref (list.head l).
Proof. by destruct l. Qed.

Lemma in_force_last data s c t :
  list.last (filter (λ t, key c t ≤ key c s) (transitions data)) = Some t →
  at_index (localtimeIdx t) (localtimes data) = deref (in_force data s c).
Proof.
  intros E. unfold in_force, at_index. rewrite E. destruct (localtimeIdx t <? 0); [done|].
  by destruct (localtimes data !! _).
Qed.

Lemma last_take {A} (l : list A) (k : nat) x : l !! k = Some x → list.last (take (S k) l) = Some x.
Proof. intros H. by rewrite (take_S_r l k x H), last_snoc. Qed.

(** Where the binary search ends: at the last passed transition if its time is the
    sentry's, after it otherwise. *)
Lemma insertion_point c s ts p :
  increasing c ts → (0 < passed c s ts)%nat → ts !! (passed c s ts - 1)%nat = Some p →
  partitioned (λ t, comp_less c t s) ts
    (if (key c p =? key c s)%Z then passed c s ts - 1 else passed c s ts)%nat.
Proof.
  intros Hinc Hk0 Hp. destruct (filter_prefix c s _ Hinc) as [_ HP].
  assert (Hkn : (passed c s ts ≤ length ts)%nat) by apply length_filter.
  assert (Hpk : key c p ≤ key c s) by (apply (HP (passed c s ts - 1)%nat); [done|lia]).
  set (k := passed c s ts) in *. clearbody k.
  split; [case_match; lia|]. intros i x Hx. rewrite comp_less_key, Z.ltb_lt.
  pose proof (HP i x Hx) as Hi.
  assert (Hbefore : (i < k - 1)%nat → key c x < key c p) by (intros H; by apply (Hinc i (k - 1)%nat)).
  assert (Hat : i = (k - 1)%nat → x = p) by (intros ->; congruence).
  assert (Hcase : (i < k - 1)%nat ∨ i = (k - 1)%nat ∨ (k ≤ i)%nat) by lia.
  destruct (Z.eqb_spec (key c p) (key c s)) as [E|E]; destruct Hcase as [H|[H|H]].
  - specialize (Hbefore H). lia.
  - rewrite (Hat H). lia.
  - split; intros H'; [|lia]. assert (i < k)%nat by (apply Hi; lia). lia.
  - specialize (Hbefore H). lia.
  - rewrite (Hat H). lia.
  - split; intros H'; [|lia]. assert (i < k)%nat by (apply Hi; lia). lia.
Qed.

(** [findLocaltime] on a sorted table: the local time in force; the assert holds. *)
Lemma findLocaltime_ok data s c :
  increasing c (transitions data) → findLocaltime data s c = deref (in_force data s c).
Proof.
  intros Hinc. destruct (filter_prefix c s _ Hinc) as [HF HP].
  assert (Hnone : passed c s (transitions data) = 0%nat → at_index 0 (localtimes data) = deref (in_force data s c)).
  { intros Hk. unfold in_force. rewrite HF, Hk. cbn. apply at_index_0. }
  pose proof (in_force_last data s c) as Hlast. pose proof (insertion_point c s (transitions data)) as HI.
  unfold findLocaltime. remember (transitions data) as ts eqn:Ets. clear Ets.
  destruct ts as [|front ts']; [by apply Hnone|].
  pose proof (HP 0%nat front eq_refl) as H0. set (ts := front :: ts') in *. clearbody ts. clear ts'.
  rewrite comp_less_key. destruct (Z.ltb_spec (key c s) (key c front)) as [Hlt|Hge].
  { apply Hnone. lia. }
  assert (Hk0 : (0 < passed c s ts)%nat) by lia.
  assert (Hkn : (passed c s ts ≤ length ts)%nat) by apply length_filter.
  destruct (lookup_lt_is_Some_2 ts (passed c s ts - 1)%nat) as [p Hp]; [lia|].
  specialize (HI p Hinc Hk0 Hp). specialize (Hlast p).
  rewrite HF in Hlast. rewrite <- Hlast; clear Hlast.
  2: { rewrite <- (last_take ts (passed c s ts - 1) p Hp). do 2 f_equal. lia. }
  rewrite (lower_bound_spec _ _ _ _ _ _ HI), bind_Ok by (destruct HI; lia || case_match; lia).
  assert (Hat : at_index (Z.of_nat (passed c s ts - 1)) ts = Ok p) by (by rewrite at_index_nat, Hp).
  set (k := passed c s ts) in *. clearbody k.
  destruct (Z.eqb_spec (key c p) (key c s)) as [E|E].
  - rewrite (proj2 (Nat.eqb_neq _ _)) by lia. rewrite Hat, bind_Ok, comp_equal_key.
    by rewrite (proj2 (Z.eqb_eq _ _)) by done.
  - destruct (Nat.eqb_spec k (length ts)) as [En|En].
    + replace (Z.of_nat (length ts) - 1) with (Z.of_nat (k - 1)) by lia. by rewrite Hat.
    + destruct (lookup_lt_is_Some_2 ts k) as [x Hx]; [lia|]. pose proof (HP k x Hx).
      rewrite at_index_nat, Hx. cbn [deref]. rewrite bind_Ok, comp_equal_key.
      rewrite (proj2 (Z.eqb_neq _ _)) by lia. cbn [negb]. rewrite (proj2 (Nat.eqb_neq _ _)) by lia.
      replace (Z.of_nat k - 1) with (Z.of_nat (k - 1)) by lia. by rewrite Hat.
Qed.

(** * Local times and back *)
Section local.
  Context `{!CLibrary}.

Definition sane (d : Data) : Prop :=
  increasing (mkComp true) (transitions d) ∧ increasing (mkComp false) (transitions d) ∧
  ∀ l, l ∈ localtimes d → in_i32 (gmtOffset l) ∧ 0 ≤ arrbIdx l ≤ zlen (abbreviation d).

Lemma in_force_elem d s c l : in_force d s c = Some l → l ∈ localtimes d.
Proof.
  unfold in_force. destruct (list.last _); [case_match; [done|]|];
    intros E; [by apply list_elem_of_lookup_2 in E|].
  destruct (localtimes d); [done|]. injection E as ->. left.
Qed.

Lemma toLocalTime_ok d t l u :
  sane d → - 2 ^ 62 ≤ t ≤ 2 ^ 62 → in_force d (mkTransition t 0 0) (mkComp true) = Some l →
  gmtime_r (t + gmtOffset l) = Some u →
  ∃ v, toLocalTime (Some d) t = Ok v ∧ timegm v = t + gmtOffset l ∧
       tm_isdst v = (if isDst l then 1 else 0) ∧ tm_gmtoff v = gmtOffset l ∧
       (tm_hour v, tm_min v) = (tm_hour u, tm_min u) ∧
       tm_zone v = Some (until_nul (zdrop (arrbIdx l) (abbreviation d))).
Proof.
  intros (H1 & H2 & H3) Ht Hl Hu. destruct (H3 l (in_force_elem _ _ _ _ Hl)) as [Ho Ha].
  unfold in_i32 in Ho. unfold toLocalTime. rewrite findLocaltime_ok, Hl by done. cbn [deref].
  rewrite bind_Ok, int64_ok, bind_Ok, Hu by (unfold in_i64; lia). cbn [default].
  unfold zone_name. run_checks. eexists. split; [done|]. split_and!; try done.
  rewrite <- (timegm_gmtime _ _ Hu). by apply timegm_fields.
Qed.

(** If the local clock at [t] shows a time that the table attributes to the same
    local time, the way back finds [t], daylight saving or not. *)
Lemma local_roundtrip d t l u :
  sane d → - 2 ^ 62 ≤ t ≤ 2 ^ 62 → in_force d (mkTransition t 0 0) (mkComp true) = Some l →
  gmtime_r (t + gmtOffset l) = Some u →
  in_force d (mkTransition 0 (t + gmtOffset l) 0) (mkComp false) = Some l →
  (v ← toLocalTime (Some d) t; fromLocalTime (Some d) v) = Ok t.
Proof.
  intros Hs Ht Hl Hu Hb. destruct (toLocalTime_ok d t l u Hs Ht Hl Hu) as (v & Ev & Tv & Dv & _).
  rewrite Ev, bind_Ok. unfold fromLocalTime. rewrite Tv. destruct Hs as (H1 & H2 & H3).
  destruct (H3 l (in_force_elem _ _ _ _ Hl)) as [Ho _]. unfold in_i32 in Ho.
  rewrite findLocaltime_ok, Hb by done. cbn [deref]. rewrite bind_Ok, Dv.
  assert (E : t + gmtOffset l - gmtOffset l = t) by lia.
  assert (Hi : in_i64 t) by (unfold in_i64; lia).
  destruct (isDst l) eqn:Edst; cbn [Z.eqb negb].
  - rewrite E, (int64_ok t Hi), bind_Ok. rewrite Ev, bind_Ok, Dv. cbn. rewrite E. by apply int64_ok.
  - rewrite bind_Ok, E. by apply int64_ok.
Qed.

Lemma fixed_sane off name : in_i32 off → sane (mkData [] [mkLocaltime off false 0] [] name).
Proof.
  intros Ho. assert (HN : ∀ c, increasing c []) by (intros c i j x y Hx; by rewrite lookup_nil in Hx).
  split_and!; [apply HN..|]. intros l Hl. apply list_elem_of_singleton in Hl as ->. cbn. split; [done|zlia].
Qed.

Lemma fixed_roundtrip off name t u :
  in_i32 off → - 2 ^ 62 ≤ t ≤ 2 ^ 62 → gmtime_r (t + off) = Some u →
  (v ← toLocalTime (TimeZone_fixed off name) t; fromLocalTime (TimeZone_fixed off name) v) = Ok t.
Proof. intros Ho Ht Hu. apply (local_roundtrip _ t (mkLocaltime off false 0) u); by try apply fixed_sane. Qed.

(** A zone whose file is missing counts as valid, and has no local time at all. *)
Lemma missing_file `{!Host} t :
  ∃ z, TimeZone_of_file None = Ok z ∧ tz_valid z = true ∧ toLocalTime z t = Fail UndefinedBehaviour.
Proof. by eexists. Qed.
End local.

(** * The file format *)
Section format.
  Context `{!Host}.

Definition be32 (z : Z) : list byte := be_bytes 4 (u32 z).

Definition zone_header (version : byte) (reserved : list byte) (isgmt isstd leap : Z) (d : Data) : list byte :=
  bytes_of_string "TZif" ++ [version] ++ reserved ++ be32 isgmt ++ be32 isstd ++ be32 leap ++
  be32 (zlen (transitions d)) ++ be32 (zlen (localtimes d)) ++ be32 (zlen (abbreviation d)).

Definition ttinfo (l : Localtime) : list byte :=
  be32 (gmtOffset l) ++ [byte_of (if isDst l then 1 else 0); byte_of (arrbIdx l)].

(** The version-1 block of tzfile(5) for the tables [d]. *)
Definition zone_file (version : byte) (reserved : list byte) (isgmt isstd leap : Z) (d : Data) : list byte :=
  zone_header version reserved isgmt isstd leap d ++
  mjoin (map (λ t, be32 (gmttime t)) (transitions d)) ++
  map (λ t, byte_of (localtimeIdx t)) (transitions d) ++
  mjoin (map ttinfo (localtimes d)) ++ abbreviation d.

(** Tables the format can express. *)
Definition expressible (d : Data) : Prop :=
  names d = [] ∧ zlen (transitions d) < 2 ^ 31 ∧ zlen (localtimes d) < 2 ^ 31 ∧ zlen (abbreviation d) < 2 ^ 31 ∧
  (∀ l, l ∈ localtimes d → in_i32 (gmtOffset l) ∧ 0 ≤ arrbIdx l < 256) ∧
  (∀ t, t ∈ transitions d → in_i32 (gmttime t) ∧ 0 ≤ localtimeIdx t < 256 ∧
     ∃ l, localtimes d !! Z.to_nat (localtimeIdx t) = Some l ∧ localtime t = gmttime t + gmtOffset l).

(** [m] reads [bs], changes the data to [d'] and returns [a]. *)
Definition reads {A} (m : reader A) (bs : list byte) (d d' : Data) (a : A) : Prop :=
  ∀ rest, m (bs ++ rest, d) = ((rest, d'), Ok a).

Lemma reads_bind {A B} (m : reader A) (k : A → reader B) bs1 bs2 d1 d2 d3 a b :
  reads m bs1 d1 d2 a → reads (k a) bs2 d2 d3 b → reads (m ≫= k) (bs1 ++ bs2) d1 d3 b.
Proof. intros H1 H2 rest. unfold mbind, reader_bind. rewrite <- app_assoc, H1. apply H2. Qed.

Lemma reads_ret {A} (a : A) d : reads (mret a) [] d d a.
Proof. by intros rest. Qed.

Lemma reads_fread n bs d : zlen bs = n → reads (fread n) bs d d bs.
Proof. intros E rest. unfold fread. cbn. by rewrite zdrop_app_len, ztake_app_len. Qed.

Lemma reads_readBytes n bs d : zlen bs = n → reads (readBytes n) bs d d bs.
Proof.
  intros E rest. unfold readBytes. rewrite (proj2 (Z.ltb_ge _ _)) by zlia.
  unfold mbind, reader_bind. rewrite (reads_fread n bs d E rest).
  by rewrite (proj2 (Z.eqb_eq _ _)) by done.
Qed.

Lemma reads_int32 x d : in_i32 x → reads readInt32 (be32 x) d d x.
Proof.
  intros Hx rest. assert (EL : length (be32 x) = 4%nat) by apply length_be_bytes.
  unfold readInt32, mbind, reader_bind. rewrite (reads_fread 4 (be32 x) d) by (by unfold zlen; rewrite EL).
  rewrite (proj2 (Z.eqb_eq _ _)) by (by unfold zlen; rewrite EL). cbn [negb].
  rewrite betoh_object_value by done. unfold be32. rewrite be_value_bytes.
  unfold mret, reader_ret. do 2 f_equal. change (256 ^ Z.of_nat 4) with (2 ^ 32). unfold u32.
  rewrite Z.mod_mod by lia. unfold i32. rewrite Zplus_mod_idemp_l. by apply i32_small.
Qed.

Lemma object_value_one b : object_value [b] = byte_val b.
Proof.
  unfold object_value. destruct host; cbn; [lia|]. unfold be_value. cbn. lia.
Qed.

Lemma reads_uint8 x d : 0 ≤ x < 256 → reads readUInt8 [byte_of x] d d x.
Proof.
  intros Hx rest. unfold readUInt8, mbind, reader_bind. rewrite (reads_fread 1 [_] d) by done.
  cbn. rewrite object_value_one, byte_val_of, Z.mod_small by done. done.
Qed.

Lemma reads_times {A B} (m : reader A) (f : B → list byte) (g : B → A) xs d :
  (∀ x, x ∈ xs → reads m (f x) d d (g x)) →
  reads (times (length xs) m) (mjoin (map f xs)) d d (map g xs).
Proof.
  induction xs as [|x xs IH]; intros Hm; [apply reads_ret|].
  cbn [length times map mjoin list_join]. eapply reads_bind; [apply Hm; left|].
  rewrite <- (app_nil_r (mjoin _)). eapply reads_bind; [apply IH; intros; apply Hm; by right|].
  apply reads_ret.
Qed.

Definition add_localtimes (ls : list Localtime) (d : Data) : Data :=
  mkData (transitions d) (localtimes d ++ ls) (names d) (abbreviation d).
Definition add_transitions (ts : list Transition) (d : Data) : Data :=
  mkData (transitions d ++ ts) (localtimes d) (names d) (abbreviation d).

Lemma reads_ttinfo l d :
  in_i32 (gmtOffset l) → 0 ≤ arrbIdx l < 256 → reads read_ttinfo (ttinfo l) d (add_localtimes [l] d) tt.
Proof.
  intros Ho Ha. unfold read_ttinfo, ttinfo.
  eapply reads_bind; [by apply reads_int32|].
  change [?a; ?b] with ([a] ++ [b]).
  eapply reads_bind; [apply reads_uint8; by destruct (isDst l)|].
  rewrite <- (app_nil_r [byte_of (arrbIdx l)]).
  eapply reads_bind; [by apply reads_uint8|].
  intros rest. destruct l as [o [] a]; done.
Qed.

Lemma reads_ttinfos ls d :
  (∀ l, l ∈ ls → in_i32 (gmtOffset l) ∧ 0 ≤ arrbIdx l < 256) →
  ∃ us, reads (times (length ls) read_ttinfo) (mjoin (map ttinfo ls)) d (add_localtimes ls d) us.
Proof.
  revert d. induction ls as [|l ls IH]; intros d Hl.
  - exists []. intros rest. unfold add_localtimes. cbn. rewrite app_nil_r. by destruct d.
  - destruct (IH (add_localtimes [l] d)) as [us Hus]; [intros; apply Hl; by right|].
    exists (tt :: us). cbn [length times map mjoin list_join].
    destruct (Hl l ltac:(left)) as [Ho Ha]. eapply reads_bind; [by apply reads_ttinfo|].
    rewrite <- (app_nil_r (mjoin _)). eapply reads_bind; [exact Hus|].
    intros rest. unfold add_localtimes. cbn. by rewrite <- app_assoc.
Qed.

Lemma reads_pairs ts d :
  (∀ t, t ∈ ts → 0 ≤ localtimeIdx t ∧
     ∃ l, localtimes d !! Z.to_nat (localtimeIdx t) = Some l ∧ localtime t = gmttime t + gmtOffset l) →
  reads (pair_transitions (map gmttime ts) (map localtimeIdx ts)) [] d (add_transitions ts d) tt.
Proof.
  revert d. induction ts as [|t ts IH]; intros d Ht.
  - intros rest. unfold add_transitions. cbn. rewrite app_nil_r. by destruct d.
  - destruct (Ht t ltac:(left)) as (_ & l & El & Eg). intros rest. cbn. unfold mbind, reader_bind, get_data.
    cbn. rewrite El. cbn. rewrite <- Eg.
    specialize (IH (add_transitions [t] d) ltac:(intros; apply Ht; by right) rest). cbn in IH.
    destruct t as [g lo i]. cbn in *. unfold add_transitions in *. cbn in *.
    rewrite <- app_assoc in IH. exact IH.
Qed.

(** The reader inverts the encoder. *)
Lemma zone_file_read version reserved isgmt isstd leap d rest :
  expressible d → zlen reserved = 15 → in_i32 isgmt → in_i32 isstd → in_i32 leap →
  readTimeZoneFile (Some (zone_file version reserved isgmt isstd leap d ++ rest)) new_Data = Ok (true, d).
Proof.
  intros (HN & HT & HL & HA & Hls & Hts) Hr H1 H2 H3.
  assert (R : reads read_zone (zone_file version reserved isgmt isstd leap d) new_Data d tt).
  2: { unfold readTimeZoneFile. by rewrite R. }
  destruct (reads_ttinfos (localtimes d) new_Data Hls) as [us Rtt].
  unfold read_zone, zone_file, zone_header. rewrite <- !app_assoc.
  assert (HI : ∀ {A} (l : list A), zlen l < 2 ^ 31 → in_i32 (zlen l)) by (unfold in_i32; intros; zlia).
  eapply reads_bind; [by apply reads_readBytes|]. rewrite bool_decide_eq_true_2 by done. cbn [negb].
  eapply reads_bind; [by apply (reads_readBytes 1)|].
  eapply reads_bind; [by apply reads_readBytes|].
  do 3 (eapply reads_bind; [by apply reads_int32|]).
  do 3 (eapply reads_bind; [by apply reads_int32, HI|]).
  rewrite <- (app_nil_l (mjoin _ ++ _)). eapply reads_bind.
  { unfold reserve. rewrite (proj2 (Z.leb_le _ _)); [apply reads_ret|].
    rewrite u64_small by zlia. change ((2 ^ 63 - 1) / 4) with (2 ^ 61 - 1). lia. }
  unfold zlen. rewrite !Nat2Z.id.
  eapply reads_bind; [apply (reads_times _ _ gmttime); intros t Ht; apply reads_int32; by apply Hts|].
  eapply reads_bind.
  { replace (map _ (transitions d)) with (mjoin (map (λ t, [byte_of (localtimeIdx t)]) (transitions d))).
    - apply (reads_times _ _ localtimeIdx). intros t Ht. apply reads_uint8. by apply Hts.
    - clear. induction (transitions d) as [|t ts IH]; [done|]. cbn. by f_equal. }
  eapply reads_bind; [exact Rtt|].
  rewrite <- (app_nil_l (abbreviation d)). eapply reads_bind.
  { apply reads_pairs. intros t Ht. destruct (Hts t Ht) as (_ & ? & ?). cbn. split; [lia|done]. }
  cbn [app]. rewrite <- (app_nil_r (abbreviation d)) at 2. eapply reads_bind; [by apply reads_readBytes|].
  intros s. cbn. destruct d; cbn in *. by rewrite HN.
Qed.
End format.

(** A C library for the examples: the calendar of [toUtcTime], inverted by counting. *)
Definition demo_gmtime (t : Z) : option tm :=
  if (1 - 2440588 <=? t / 86400) && (t / 86400 + 2440588 <=? last_day)
  then match toUtcTime t false with Ok u => Some u | Fail _ => None end else None.

#[export] Instance demo_clibrary : CLibrary.
Proof.
  refine {| gmtime_r := demo_gmtime; timegm := seconds_of_tm |}.
  - intros t u. unfold demo_gmtime. case_match eqn:Hb; [|done]. bool_prop.
    destruct (toUtcTime_ok t false) as (u' & -> & _ & _ & _ & Es & _); [split; lia|]. by intros [= <-].
  - intros u v [= E1 E2 E3 E4 E5 E6]. unfold seconds_of_tm. congruence.
Defined.
