(* ===== verification/Logging.v ===== *)
(** The front end of logging: networker/base/Logging.h and Logging.cpp.

    A LOG_ statement builds a [Logger] on the stack, streams items into it and destroys it.  The
    thread-local variables and the globals are explicit; what leaves the program (calls of the
    output and flush functions, [std::cout], [abort]) is a list of effects. *)
From S2P Require Import Prelude.
From S2P Require Import Format.
From S2P Require Import StringPiece.
From S2P Require Import Buffer.
From S2P Require Import CurrentThread.
From S2P Require Import Timestamp.
From S2P Require Import Date.
From S2P Require Import TimeZone.
From S2P Require Import LogStream.

Inductive LogLevel := TRACE | DEBUG | INFO | WARN | ERROR | FATAL.

#[export] Instance LogLevel_eq_dec : EqDecision LogLevel.
Proof. solve_decision. Defined.

(** The value of the enumerator. *)
Definition level_num (l : LogLevel) : Z :=
  match l with TRACE => 0 | DEBUG => 1 | INFO => 2 | WARN => 3 | ERROR => 4 | FATAL => 5 end.

Definition LogLevelName (l : LogLevel) : list byte :=
  string_data (bytes_of_string
    match l with
    | TRACE => "TRACE " | DEBUG => "DEBUG " | INFO => "INFO  "
    | WARN => "WARN  " | ERROR => "ERROR " | FATAL => "FATAL "
    end).

(** * Globals *)

(** The functions a [g_output] or [g_flush] points to. *)
Inductive LogFunc := defaultLogFunc | UserLogFunc (p : Z).

Record log_globals := mkGlobals {
  g_logLevel : LogLevel;
  g_output : LogFunc;
  g_flush : LogFunc;
  g_logTimeZone : option Data;
  logFileName_ : list byte
}.

(** [initLogLevel]: which of the variables the environment has. *)
Definition initLogLevel (env_LOG_TRACE env_LOG_DEBUG : bool) : LogLevel :=
  if env_LOG_TRACE then TRACE else if env_LOG_DEBUG then DEBUG else INFO.

Definition initial_globals (env_LOG_TRACE env_LOG_DEBUG : bool) (fileName : list byte) : log_globals :=
  mkGlobals (initLogLevel env_LOG_TRACE env_LOG_DEBUG) defaultLogFunc defaultLogFunc TimeZone_default fileName.

Definition setLogLevel (level : LogLevel) (g : log_globals) : log_globals :=
  mkGlobals level (g_output g) (g_flush g) (g_logTimeZone g) (logFileName_ g).
Definition setOutput (out : LogFunc) (g : log_globals) : log_globals :=
  mkGlobals (g_logLevel g) out (g_flush g) (g_logTimeZone g) (logFileName_ g).
Definition setFlush (flush : LogFunc) (g : log_globals) : log_globals :=
  mkGlobals (g_logLevel g) (g_output g) flush (g_logTimeZone g) (logFileName_ g).
Definition setTimeZone (tz : option Data) (g : log_globals) : log_globals :=
  mkGlobals (g_logLevel g) (g_output g) (g_flush g) tz (logFileName_ g).
Definition setLogFileName (fileName : list byte) (g : log_globals) : log_globals :=
  mkGlobals (g_logLevel g) (g_output g) (g_flush g) (g_logTimeZone g) fileName.

(** The thread-local variables of Logging.cpp, and those of CurrentThread. *)
Record log_locals := mkLogLocals {
  tls : thread_locals;
  t_time : list byte;
  t_lastSecond : Z
}.

Definition initial_log_locals : log_locals := mkLogLocals initial_locals (replicate 64 Byte.x00) 0.

(** * SourceFile *)

(** [strrchr(s, c)]: the offset of the last [c] of a C string, if it has one. *)
Fixpoint strrchr (s : list byte) (c : byte) : outcome (option Z) :=
  match s with
  | [] => Fail UndefinedBehaviour
  | b :: s =>
      if decide (b = Byte.x00) then Ok (if decide (c = Byte.x00) then Some 0 else None)
      else
        r ← strrchr s c;
        Ok (match r with Some i => Some (i + 1) | None => if decide (b = c) then Some 0 else None end)
  end.

(** [data_] is the memory from the pointer on. *)
Record SourceFile := mkSource { sf_data : list byte; sf_size : Z }.

(** The constructor for an array of [N] characters: a string literal and [__FILE__]. *)
Definition SourceFile_of_array (arr : list byte) : outcome SourceFile :=
  slash ← strrchr arr Byte.x2f;
  Ok (match slash with
      | Some i => mkSource (zdrop (i + 1) arr) (i32 (i + 1))
      | None => mkSource arr (i32 (zlen arr - 1))
      end).

Definition SourceFile_of_name (filename : list byte) : outcome SourceFile :=
  slash ← strrchr filename Byte.x2f;
  let data := match slash with Some i => zdrop (i + 1) filename | None => filename end in
  n ← strlen data;
  Ok (mkSource data (i32 n)).

(** * The record of a line *)

(** [T(str, len)] and its [operator<<]. *)
Definition stream_T (str : list byte) (len : Z) (s : FixedBuffer) : outcome FixedBuffer :=
  n ← strlen str;
  _ ← require (n =? len);
  fixed_append str (u64 (i32 len)) s.

(** What strerror_r(3) of the GNU library returns: the memory its result points to. *)
Class StrError := {
  strerror_tl : Z → list byte;
  strerror_string e : Byte.x00 ∈ strerror_tl e ∧ zlen (strerror_tl e) < 2 ^ 31
}.

Record RecordBlock := mkRecordBlock {
  time_ : Timestamp;
  stream_ : FixedBuffer;
  level_ : LogLevel;
  line_ : Z;
  basename_ : SourceFile
}.

Definition set_stream (s : FixedBuffer) (r : RecordBlock) : RecordBlock :=
  mkRecordBlock (time_ r) s (level_ r) (line_ r) (basename_ r).

Section logging.
  Context `{!CLibrary} `{!CurrentThread} `{!StrError}.
  Implicit Types g : log_globals.
  Implicit Types t : log_locals.

(** The broken-down time of a second. *)
Definition tm_of_second g (seconds : Z) : outcome tm :=
  if tz_valid (g_logTimeZone g) then toLocalTime (g_logTimeZone g) seconds
  else match gmtime_r seconds with Some u => Ok u | None => Fail UndefinedBehaviour end.

(** ["%4d%02d%02d %02d:%02d:%02d"]. *)
Definition time_text (u : tm) : list byte :=
  format_d 4 (tm_year u + 1900) ++ format_0d 2 (tm_mon u + 1) ++ format_0d 2 (tm_mday u) ++
  [Byte.x20] ++ format_0d 2 (tm_hour u) ++ [Byte.x3a] ++ format_0d 2 (tm_min u) ++ [Byte.x3a] ++ format_0d 2 (tm_sec u).

(** The part of [formatTime] that keeps [t_time] up to date. *)
Definition refresh_time g (seconds : Z) t : outcome log_locals :=
  if negb (seconds =? t_lastSecond t) then
    tm_time ← tm_of_second g seconds;
    _ ← ints [tm_year tm_time + 1900; tm_mon tm_time + 1];
    let '(buf, len) := snprintf 64 (time_text tm_time) in
    _ ← require (len =? 17);
    Ok (mkLogLocals (tls t) (zblit 0 (buf ++ [Byte.x00]) (t_time t)) seconds)
  else Ok t.

(** Streaming a [Fmt] through [T(us.data(), n)], after [assert(us.length() == n)]. *)
Definition stream_us (text : list byte) (n : Z) (s : FixedBuffer) : outcome FixedBuffer :=
  us ← new_Fmt text;
  match us with
  | LFmt data length => _ ← require (length =? n); stream_T data n s
  | _ => Fail UndefinedBehaviour
  end.

Definition formatTime g (r : RecordBlock) t : outcome (RecordBlock * log_locals) :=
  let microSecondsSinceEpoch := time_ r in
  let seconds := Z.quot microSecondsSinceEpoch kMicroSecondsPerSecond in
  let microseconds := i32 (Z.rem microSecondsSinceEpoch kMicroSecondsPerSecond) in
  t ← refresh_time g seconds t;
  s ← stream_T (t_time t) 17 (stream_ r);
  s ← (if tz_valid (g_logTimeZone g)
       then stream_us ([Byte.x2e] ++ format_0d 6 microseconds ++ [Byte.x20]) 8 s
       else stream_us ([Byte.x2e] ++ format_0d 6 microseconds ++ bytes_of_string "Z ") 9 s);
  Ok (set_stream s r, t).

(** [RecordBlock::RecordBlock]; [tv_sec] and [tv_usec] are what gettimeofday(2) stored, [memory]
    is the uninitialised array of the stream. *)
Definition new_RecordBlock g (level : LogLevel) (savedErrno : Z) (file : SourceFile) (line : Z)
    (tv_sec tv_usec : Z) (memory : list byte) t : outcome (RecordBlock * log_locals) :=
  time ← now tv_sec tv_usec;
  '(r, t) ← formatTime g (mkRecordBlock time (new_FixedBuffer memory) level line file) t;
  let t := mkLogLocals (CurrentThread.tid (tls t)).2 (t_time t) (t_lastSecond t) in
  s ← stream_T (t_tidString (tls t)) (t_tidStringLength (tls t)) (stream_ r);
  s ← put (LChar Byte.x20) s;
  s ← stream_T (LogLevelName level) 6 s;
  s ← (if negb (savedErrno =? 0)
       then put_all [LCString (Some (strerror_tl savedErrno)); LCString (Some (string_data (bytes_of_string " (errno=")));
                     LInt savedErrno; LCString (Some (string_data (bytes_of_string ") ")))] s
       else Ok s);
  Ok (set_stream s r, t).

Definition finish (r : RecordBlock) : outcome RecordBlock :=
  s ← put_all [LCString (Some (string_data (bytes_of_string " - "))); LCString (Some (sf_data (basename_ r)));
               LChar Byte.x3a; LInt (line_ r); LChar Byte.x0a] (stream_ r);
  Ok (set_stream s r).

(** * Logger *)

(** The four constructors. *)
Inductive logger_args :=
| Logger_info
| Logger_func (level : LogLevel) (func : list byte)
| Logger_level (level : LogLevel)
| Logger_sys (toAbort : bool).

Definition new_Logger g (args : logger_args) (errno : Z) (file : SourceFile) (line : Z)
    (tv_sec tv_usec : Z) (memory : list byte) t : outcome (RecordBlock * log_locals) :=
  match args with
  | Logger_info => new_RecordBlock g INFO 0 file line tv_sec tv_usec memory t
  | Logger_func level func =>
      '(r, t) ← new_RecordBlock g level 0 file line tv_sec tv_usec memory t;
      s ← put_all [LCString (Some func); LChar Byte.x20] (stream_ r);
      Ok (set_stream s r, t)
  | Logger_level level => new_RecordBlock g level 0 file line tv_sec tv_usec memory t
  | Logger_sys toAbort =>
      new_RecordBlock g (if toAbort then FATAL else ERROR) errno file line tv_sec tv_usec memory t
  end.

(** What a [Logger] does to the outside. *)
Inductive effect :=
| Output (f : LogFunc) (msg : list byte)   (** [g_output(msg, len)] *)
| Cout (s : list byte)                     (** [std::cout << s << std::endl] *)
| Flush (f : LogFunc)                      (** [g_flush()] *)
| Aborts.                                  (** [abort()] *)

(** [Logger::~Logger]. *)
Definition logger_dtor g (r : RecordBlock) : outcome (list effect) :=
  r ← finish r;
  let buf := stream_ r in
  msg ← load 0 (length_of buf) (data_ buf);
  if decide (level_ r = FATAL) then
    n ← strlen (data_ buf);
    Ok [Output (g_output g) msg; Cout (ztake n (data_ buf)); Flush (g_flush g); Aborts]
  else Ok [Output (g_output g) msg].

(** * The macros *)
Inductive statement :=
| LOG_TRACE (func : list byte) | LOG_DEBUG (func : list byte) | LOG_INFO
| LOG_WARN | LOG_ERROR | LOG_FATAL | LOG_SYSERR | LOG_SYSFATAL.

(** The condition of the [if] in front of the first three. *)
Definition enabled g (st : statement) : bool :=
  match st with
  | LOG_TRACE _ => level_num (g_logLevel g) <=? level_num TRACE
  | LOG_DEBUG _ => level_num (g_logLevel g) <=? level_num DEBUG
  | LOG_INFO => level_num (g_logLevel g) <=? level_num INFO
  | _ => true
  end.

Definition macro_args (st : statement) : logger_args :=
  match st with
  | LOG_TRACE func => Logger_func TRACE func
  | LOG_DEBUG func => Logger_func DEBUG func
  | LOG_INFO => Logger_info
  | LOG_WARN => Logger_level WARN
  | LOG_ERROR => Logger_level ERROR
  | LOG_FATAL => Logger_level FATAL
  | LOG_SYSERR => Logger_sys false
  | LOG_SYSFATAL => Logger_sys true
  end.

(** A whole statement [LOG_XXX << x1 << x2 ...;] in the file and line given. *)
Definition log_statement g (st : statement) (file : list byte) (line : Z) (errno tv_sec tv_usec : Z)
    (memory : list byte) (xs : list item) t : outcome (list effect * log_locals) :=
  if enabled g st then
    source ← SourceFile_of_array file;
    '(r, t) ← new_Logger g (macro_args st) errno source line tv_sec tv_usec memory t;
    s ← put_all xs (stream_ r);
    es ← logger_dtor g (set_stream s r);
    Ok (es, t)
  else Ok ([], t).
End logging.
