(* ===== verification/LoggingFacts.v ===== *)
(** Facts about Logging.v: the parts of a line, the thread's cached time, and the whole line. *)
From S2P Require Import Prelude.
From S2P Require Import Format.
From S2P Require Import StringPiece.
From S2P Require Import Buffer.
From S2P Require Import CurrentThread.
From S2P Require Import Timestamp.
From S2P Require Import Date.
From S2P Require Import TimeZone.
From S2P Require Import LogStream.
From S2P Require Import Logging.

(** * C strings in memory *)

(** The memory [m] holds the string [s], ended by its NUL. *)
Definition c_string (m s : list byte) : Prop := ∃ rest, m = s ++ Byte.x00 :: rest ∧ Byte.x00 ∉ s.

Lemma c_string_mem m s : c_string m s → Byte.x00 ∈ m ∧ until_nul m = s ∧ strlen m = Ok (zlen s) ∧ zlen s < zlen m.
Proof.
  intros (rest & -> & Hs). assert (Hin : Byte.x00 ∈ s ++ Byte.x00 :: rest) by (apply elem_of_app; right; left).
  assert (Eu : until_nul (s ++ Byte.x00 :: rest) = s).
  { clear Hin. induction s as [|b s IH]; [done|]. cbn. rewrite decide_False by (intros ->; apply Hs; left).
    f_equal. apply IH. intros Hin. apply Hs. by right. }
  split; [done|]. split; [done|]. destruct (strlen_until_nul_mem _ Hin) as (E & _). rewrite E, Eu. split; [done|zlia].
Qed.

Lemma c_string_literal s : Byte.x00 ∉ s → c_string (string_data s) s.
Proof. intros Hs. by exists []. Qed.

Lemma c_string_take m s : c_string m s → ztake (zlen s) m = s.
Proof. intros (rest & -> & _). by apply ztake_app_len. Qed.

(** Storing a string with its NUL at the start of an array. *)
Lemma c_string_store s m : Byte.x00 ∉ s → c_string (zblit 0 (s ++ [Byte.x00]) m) s.
Proof.
  intros Hs. exists (zdrop (0 + zlen (s ++ [Byte.x00])) m). split; [|done].
  unfold zblit. rewrite ztake_0 by lia. cbn [app]. by rewrite <- app_assoc.
Qed.

(** * SourceFile *)
Lemma strrchr_none s rest c :
  c ≠ Byte.x00 → Byte.x00 ∉ s → c ∉ s → strrchr (s ++ Byte.x00 :: rest) c = Ok None.
Proof.
  intros Hc. induction s as [|b s IH]; intros Hs Hn; cbn.
  { destruct (decide (c = Byte.x00)); [done|done]. }
  apply not_elem_of_cons in Hs as [? Hs], Hn as [? Hn]. rewrite decide_False by done. rewrite IH by done.
  cbn. by rewrite decide_False by done.
Qed.

Lemma strrchr_last d s rest c :
  c ≠ Byte.x00 → Byte.x00 ∉ d → Byte.x00 ∉ s → c ∉ s → strrchr (d ++ c :: s ++ Byte.x00 :: rest) c = Ok (Some (zlen d)).
Proof.
  intros Hc Hd Hs Hn. induction d as [|b d IH]; cbn.
  - rewrite decide_False by done. rewrite strrchr_none by done. cbn. by rewrite decide_True.
  - apply not_elem_of_cons in Hd as [? Hd]. rewrite decide_False by done. rewrite IH by done.
    cbn. rewrite zlen_cons. do 2 f_equal. lia.
Qed.

(** A path: directories, each with its slash, and the name of the file. *)
Definition path (dir base : list byte) : Prop :=
  Byte.x00 ∉ dir ++ base ∧ Byte.x2f ∉ base ∧ (dir = [] ∨ ∃ d, dir = d ++ [Byte.x2f]).

(** [data_] points to the name without directories. *)
Lemma source_base dir base :
  path dir base → ∃ f, SourceFile_of_array (string_data (dir ++ base)) = Ok f ∧ sf_data f = string_data base.
Proof.
  intros (Hn & Hb & Hd). rewrite elem_of_app in Hn. unfold SourceFile_of_array, string_data.
  destruct Hd as [->|[d ->]].
  - cbn [app]. rewrite strrchr_none by naive_solver. by eexists.
  - rewrite <- !app_assoc. cbn [app]. rewrite strrchr_last; [|done|set_solver|naive_solver|done].
    cbn. eexists. split; [done|]. cbn. rewrite (cons_middle _ d), app_assoc. apply zdrop_app_len. zlia.
Qed.

(** * Printed numbers *)
Lemma pretty_no_nul n s : Byte.x00 ∉ bytes_of_string s → Byte.x00 ∉ bytes_of_string (pretty_N_go n s).
Proof.
  revert s. induction (N.lt_wf_0 n) as [n _ IH]; intros s Hs.
  destruct (decide (n = 0)%N) as [->|]; [by rewrite pretty_N_go_0|]. rewrite pretty_N_go_step by lia.
  apply IH; [apply N.div_lt; lia|]. unfold bytes_of_string in *. cbn. rewrite elem_of_cons. intros [E|]; [|done].
  assert (Hd : (n mod 10 < 10)%N) by (apply N.mod_lt; lia).
  assert (Hc : ∀ d, (d < 10)%N → bool_decide (Byte.x00 = Ascii.byte_of_ascii (pretty_N_char d)) = false).
  { intros d Hd'. assert (d = 0 ∨ d = 1 ∨ d = 2 ∨ d = 3 ∨ d = 4 ∨ d = 5 ∨ d = 6 ∨ d = 7 ∨ d = 8 ∨ d = 9)%N
      as Hc by lia. repeat (destruct Hc as [->|Hc]; [by vm_compute|]). subst d. by vm_compute. }
  by apply (bool_decide_eq_false_1 _ (Hc _ Hd)).
Qed.

Lemma decimal_no_nul z : Byte.x00 ∉ decimal z.
Proof.
  unfold decimal. destruct z as [|p|p].
  - by apply (bool_decide_eq_false_1 _).
  - change (pretty (Z.pos p)) with (pretty_N_go (N.pos p) ""). apply pretty_no_nul, not_elem_of_nil.
  - change (bytes_of_string (pretty (Z.neg p))) with (Byte.x2d :: bytes_of_string (pretty_N_go (N.pos p) "")).
    rewrite elem_of_cons. intros [|Hin]; [done|]. revert Hin. apply pretty_no_nul, not_elem_of_nil.
Qed.

Lemma replicate_no_nul n b : b ≠ Byte.x00 → Byte.x00 ∉ replicate n b.
Proof. intros Hb Hin. apply elem_of_replicate in Hin as [E _]. by symmetry in E. Qed.

Lemma format_d_text k z :
  0 ≤ z < 10 ^ Z.of_nat k → (0 < k)%nat → zlen (format_d (Z.of_nat k) z) = Z.of_nat k ∧ Byte.x00 ∉ format_d (Z.of_nat k) z.
Proof.
  intros Hz Hk. pose proof (decimal_digits k z Hz Hk). unfold format_d, pad_left. split; [zlia|].
  rewrite elem_of_app. intros [Hin|Hin]; [by apply replicate_no_nul in Hin|by apply decimal_no_nul in Hin].
Qed.

Lemma format_0d_text k z :
  0 ≤ z < 10 ^ Z.of_nat k → (0 < k)%nat → zlen (format_0d (Z.of_nat k) z) = Z.of_nat k ∧ Byte.x00 ∉ format_0d (Z.of_nat k) z.
Proof.
  intros Hz Hk. pose proof (decimal_digits k z Hz Hk). unfold format_0d. rewrite (proj2 (Z.ltb_ge _ _)), Z.abs_eq by lia.
  cbn [app]. split; [zlia|].
  rewrite elem_of_app. intros [Hin|Hin]; [by apply replicate_no_nul in Hin|by apply decimal_no_nul in Hin].
Qed.

(** A thread id, right-justified in five columns, takes at most ten. *)
Lemma tid_text z : 0 ≤ z < 2 ^ 31 → 0 < zlen (format_d 5 z) < 32 ∧ Byte.x00 ∉ format_d 5 z.
Proof.
  intros Hz. pose proof (decimal_digits 10 z ltac:(change (10 ^ Z.of_nat 10) with 10000000000; lia) ltac:(lia)).
  unfold format_d, pad_left. split; [zlia|].
  rewrite elem_of_app. intros [Hin|Hin]; [by apply replicate_no_nul in Hin|by apply decimal_no_nul in Hin].
Qed.

(** * Streaming *)

(** [m] streams the items [xs] into [b]. *)
Definition streams (xs : list item) (b : FixedBuffer) (m : outcome FixedBuffer) : Prop :=
  ∃ b', m = Ok b' ∧ fixed_ok b' ∧ zlen (data_ b') = zlen (data_ b) ∧
        logged b' = fold_left (spec_put (zlen (data_ b))) xs (logged b).

Lemma streams_put_all xs b : fixed_ok b → Forall item_ok xs → streams xs b (put_all xs b).
Proof. apply put_all_ok. Qed.

Lemma streams_put x b : fixed_ok b → item_ok x → streams [x] b (put x b).
Proof. apply put_ok. Qed.

Lemma streams_bind xs ys b m k :
  streams xs b m → (∀ b', fixed_ok b' → streams ys b' (k b')) → streams (xs ++ ys) b (m ≫= k).
Proof.
  intros (b1 & -> & I1 & E1 & L1) Hk. destruct (Hk b1 I1) as (b2 & E & I2 & E2 & L2).
  exists b2. cbn. split_and!; [done|done|congruence|]. by rewrite fold_left_app, L2, E1, L1.
Qed.

(** Items that print the same text in the same room are alike to the stream. *)
Lemma streams_alike xs ys b m :
  map prints xs = map prints ys → map needs xs = map needs ys → streams xs b m → streams ys b m.
Proof.
  intros E1 E2 (b' & -> & I & E & L). exists b'. split_and!; try done. rewrite L. generalize (logged b) as q.
  clear - E1 E2. revert ys E1 E2. induction xs as [|x xs IH]; intros [|y ys] E1 E2 q; try done.
  cbn in *. injection E1 as Ex E1. injection E2 as Ey E2. rewrite (IH ys) by done. unfold spec_put at 2.
  by rewrite Ex, Ey.
Qed.

Lemma cstring_item m : (∃ s, c_string m s) → zlen m < 2 ^ 31 → item_ok (LCString (Some m)).
Proof. intros [s Hs] Hl. split; [by apply (c_string_mem m s)|done]. Qed.

Lemma literal_item s : bool_decide (Byte.x00 ∉ bytes_of_string s ∧ zlen (bytes_of_string s) < 100) = true →
  item_ok (LCString (Some (string_data (bytes_of_string s)))).
Proof.
  intros [Hn Hl]%bool_decide_eq_true_1. apply cstring_item; [by eexists; apply c_string_literal|].
  unfold string_data. rewrite zlen_app. change (zlen [Byte.x00]) with 1. lia.
Qed.

(** A piece of text. *)
Lemma streams_T m s b : fixed_ok b → c_string m s → zlen s < 32 → streams [LString s] b (stream_T m (zlen s) b).
Proof.
  intros I Hs Hl. destruct (c_string_mem m s Hs) as (_ & _ & E & Hlt). pose proof (zlen_nonneg s).
  unfold stream_T. rewrite E, bind_Ok, Z.eqb_refl. cbn [require]. rewrite bind_Ok.
  rewrite i32_small by (unfold in_i32; lia). apply (streams_alike [LFmt m (zlen s)]).
  - cbn. by rewrite c_string_take.
  - cbn. by rewrite c_string_take.
  - apply (streams_put (LFmt m (zlen s))); [done|]. cbn. lia.
Qed.

Lemma streams_us text b : fixed_ok b → Byte.x00 ∉ text → zlen text < 32 → streams [LString text] b (stream_us text (zlen text) b).
Proof.
  intros I Hn Hl. pose proof (zlen_nonneg text). unfold stream_us, new_Fmt. rewrite snprintf_fits by done.
  run_checks. rewrite u64_small by lia. run_checks. by apply streams_T; [|apply c_string_literal|].
Qed.

(** * What fits *)
Lemma needs_enough x : item_ok x → zlen (prints x) < needs x.
Proof.
  assert (Hd : ∀ v, - 2 ^ 64 < v < 2 ^ 64 → zlen (decimal v) < 32) by (intros v Hv; pose proof (decimal_len v Hv); lia).
  destruct x as [v|v|v|v|v|v|v|p|g|c|[s|]|v|buf len]; cbn [item_ok prints needs]; try lia; unfold in_i32, in_i64; intros Hx; try (apply Hd; lia).
  destruct (convertHex_ok p Hx) as (h & Eh & _ & Lh). rewrite u64_small by done. rewrite Eh. zlia.
Qed.

Lemma spec_put_bound size xs q :
  Forall (λ x, zlen (prints x) < needs x) xs → zlen q < size → zlen (fold_left (spec_put size) xs q) < size.
Proof.
  revert q. induction xs as [|x xs IH]; intros q Hx Hq; [done|]. apply list.Forall_cons in Hx as [Hx Hxs].
  cbn [fold_left]. apply IH; [done|]. unfold spec_put.
  destruct (Z.leb_spec (needs x) (size - zlen q)); zlia.
Qed.

Lemma needs_bound x : needs x ≤ zlen (prints x) + 32.
Proof. destruct x as [v|v|v|v|v|v|v|p|g|c|[s|]|v|buf len]; cbn [needs]; zlia. Qed.

(** If everything fits, everything is there. *)
Lemma spec_put_fits size xs q :
  zlen q + zlen (concat (map prints xs)) + 32 ≤ size → fold_left (spec_put size) xs q = q ++ concat (map prints xs).
Proof.
  revert q. induction xs as [|x xs IH]; intros q Hq; cbn in *; [by rewrite app_nil_r|].
  pose proof (needs_bound x). autorewrite with net_len in Hq.
  assert (E : spec_put size q x = q ++ prints x).
  { unfold spec_put. destruct (Z.leb_spec (needs x) (size - zlen q)); [done|zlia]. }
  rewrite E, IH, app_assoc; [done|zlia].
Qed.

(** * A thread that logs *)
Section thread.
  Context `{!CLibrary} `{!CurrentThread} `{!StrError}.
  Implicit Types g : log_globals.
  Implicit Types t : log_locals.

(** A date whose fields have the columns the format gives them. *)
Definition tm_printable (u : tm) : Prop :=
  0 ≤ tm_year u + 1900 < 10000 ∧ 0 ≤ tm_mon u + 1 < 100 ∧ 0 ≤ tm_mday u < 100 ∧
  0 ≤ tm_hour u < 100 ∧ 0 ≤ tm_min u < 100 ∧ 0 ≤ tm_sec u < 100.

(** The cached time is the one of [t_lastSecond], in the time zone of the logs. *)
Definition cache_ok g t : Prop :=
  t_lastSecond t = 0 ∨ ∃ u, tm_of_second g (t_lastSecond t) = Ok u ∧ tm_printable u ∧ c_string (t_time t) (time_text u).

(** The cached text of the thread's id. *)
Definition tid_ok (l : thread_locals) : Prop :=
  t_cachedTid l = 0 ∨
  t_cachedTid l = gettid ∧ t_tidStringLength l = zlen (format_d 5 gettid) ∧ c_string (t_tidString l) (format_d 5 gettid).

Definition thread_ok g t : Prop := cache_ok g t ∧ tid_ok (tls t).

Lemma thread_ok_initial g : thread_ok g initial_log_locals.
Proof. by split; left. Qed.

(** All fields printable, the text has 17 characters. *)
Lemma time_text_17 u : tm_printable u → zlen (time_text u) = 17 ∧ Byte.x00 ∉ time_text u.
Proof.
  intros (Hy & Hmo & Hd & Hh & Hmi & Hs). unfold time_text.
  destruct (format_d_text 4 (tm_year u + 1900)) as [L1 N1]; [done|lia|].
  destruct (format_0d_text 2 (tm_mon u + 1)) as [L2 N2]; [done|lia|].
  destruct (format_0d_text 2 (tm_mday u)) as [L3 N3]; [done|lia|].
  destruct (format_0d_text 2 (tm_hour u)) as [L4 N4]; [done|lia|].
  destruct (format_0d_text 2 (tm_min u)) as [L5 N5]; [done|lia|].
  destruct (format_0d_text 2 (tm_sec u)) as [L6 N6]; [done|lia|].
  change (Z.of_nat 4) with 4 in *. change (Z.of_nat 2) with 2 in *.
  split; [rewrite !zlen_app, L1, L2, L3, L4, L5, L6; done|].
  rewrite !not_elem_of_app, !list_elem_of_singleton. done.
Qed.

Lemma refresh_time_ok g seconds t u :
  cache_ok g t → seconds ≠ 0 → tm_of_second g seconds = Ok u → tm_printable u →
  ∃ t', refresh_time g seconds t = Ok t' ∧ cache_ok g t' ∧ tls t' = tls t ∧ c_string (t_time t') (time_text u).
Proof.
  intros Hc Hs Hu Hp. unfold refresh_time. destruct (Z.eqb_spec seconds (t_lastSecond t)) as [->|Hne]; cbn [negb].
  - exists t. split_and!; try done. destruct Hc as [|(u' & Hu' & _ & Hc)]; [done|]. congruence.
  - destruct (time_text_17 u Hp) as [Hl Hn]. rewrite Hu, bind_Ok.
    apply (ex_intro _ (mkLogLocals (tls t) (zblit 0 (time_text u ++ [Byte.x00]) (t_time t)) seconds)). split.
    + unfold tm_printable in Hp. all_ints. rewrite snprintf_fits, Hl by lia. cbn. done.
    + split_and!; [right; exists u; split_and!|..]; try done; by apply c_string_store.
Qed.

Lemma tid_ok_call l :
  tid_ok l → 0 < gettid < 2 ^ 31 →
  tid_ok (CurrentThread.tid l).2 ∧ t_tidStringLength (CurrentThread.tid l).2 = zlen (format_d 5 gettid) ∧
  c_string (t_tidString (CurrentThread.tid l).2) (format_d 5 gettid).
Proof.
  intros Hl Hg. assert (Hg' : 0 ≤ gettid < 2 ^ 31) by lia. destruct (tid_text gettid Hg') as [Ht Hn].
  assert (HR : ∀ l', t_cachedTid l' = gettid ∧ t_tidStringLength l' = zlen (format_d 5 gettid) ∧
     c_string (t_tidString l') (format_d 5 gettid) →
     tid_ok l' ∧ t_tidStringLength l' = zlen (format_d 5 gettid) ∧ c_string (t_tidString l') (format_d 5 gettid))
    by (intros l' Hl'; split; [by right|apply Hl']).
  apply HR. unfold CurrentThread.tid, cacheTid. destruct (Z.eqb_spec (t_cachedTid l) 0) as [E|E]; cbn [snd].
  - rewrite snprintf_fits by lia. cbn. split_and!; try done. by apply c_string_store.
  - destruct Hl as [|Hl]; [done|exact Hl].
Qed.

(** * The line *)

(** The microseconds, with the letter that marks universal time. *)
Definition us_text g (usec : Z) : list byte :=
  [Byte.x2e] ++ format_0d 6 usec ++ bytes_of_string (if tz_valid (g_logTimeZone g) then " " else "Z ").

Definition level_text (l : LogLevel) : list byte :=
  bytes_of_string
    match l with
    | TRACE => "TRACE " | DEBUG => "DEBUG " | INFO => "INFO  "
    | WARN => "WARN  " | ERROR => "ERROR " | FATAL => "FATAL "
    end.

Definition error_items (errno : Z) : list item :=
  if errno =? 0 then []
  else [LString (until_nul (strerror_tl errno)); LString (bytes_of_string " (errno="); LInt errno; LString (bytes_of_string ") ")].

(** What the record's constructor writes, and what its end writes. *)
Definition record_items g (u : tm) (usec : Z) (level : LogLevel) (errno : Z) : list item :=
  [LString (time_text u); LString (us_text g usec); LString (format_d 5 gettid); LChar Byte.x20; LString (level_text level)]
  ++ error_items errno.

Definition finish_items (base : list byte) (line : Z) : list item :=
  [LString (bytes_of_string " - "); LString base; LChar Byte.x3a; LInt line; LChar Byte.x0a].

(** [formatTime] at this time finds, or makes, the text of [u] in the cache; [t'] are the thread's
    variables then. *)
Definition cache_shows g (sec usec : Z) (u : tm) t t' : Prop :=
  0 < sec < 2 ^ 40 ∧ 0 ≤ usec < 1000000 ∧ tm_printable u ∧
  refresh_time g sec t = Ok t' ∧ tls t' = tls t ∧ c_string (t_time t') (time_text u).

Lemma formatTime_ok g sec usec level line f memory t t' u :
  cache_shows g sec usec u t t' → zlen memory = kSmallBuffer →
  let r := mkRecordBlock (sec * 1000000 + usec) (new_FixedBuffer memory) level line f in
  ∃ s, formatTime g r t = Ok (set_stream s r, t') ∧
    streams [LString (time_text u); LString (us_text g usec)] (new_FixedBuffer memory) (Ok s).
Proof.
  intros (Hs & Hus & Hp & Er1 & _ & Hstr) Hm r. unfold formatTime. cbn [time_ r stream_].
  assert (Eq : Z.quot (sec * 1000000 + usec) kMicroSecondsPerSecond = sec)
    by (unfold kMicroSecondsPerSecond; change (1000 * 1000) with 1000000; rewrite Zquot_div; dlia).
  assert (Er : Z.rem (sec * 1000000 + usec) kMicroSecondsPerSecond = usec)
    by (unfold kMicroSecondsPerSecond; change (1000 * 1000) with 1000000; rewrite Z.rem_mod_nonneg; dlia).
  rewrite Eq, Er, i32_small by (unfold in_i32; lia).
  rewrite Er1, bind_Ok. destruct (time_text_17 u Hp) as [H17 _]. destruct (format_0d_text 6 usec) as [L6 N6]; [done|lia|].
  change (Z.of_nat 6) with 6 in *.
  assert (I0 : fixed_ok (new_FixedBuffer memory)) by (unfold fixed_ok, kSmallBuffer in *; cbn; lia).
  assert (Hus_n : Byte.x00 ∉ us_text g usec).
  { unfold us_text. rewrite !not_elem_of_app, list_elem_of_singleton. split_and!; [done|done|].
    destruct (tz_valid _); by apply (bool_decide_eq_false_1 _). }
  assert (Hus_l : zlen (us_text g usec) = if tz_valid (g_logTimeZone g) then 8 else 9).
  { unfold us_text. rewrite !zlen_app, L6. by destruct (tz_valid _). }
  assert (St : streams ([LString (time_text u)] ++ [LString (us_text g usec)]) (new_FixedBuffer memory)
     (s ← stream_T (t_time t') 17 (new_FixedBuffer memory);
      if tz_valid (g_logTimeZone g) then stream_us ([Byte.x2e] ++ format_0d 6 usec ++ [Byte.x20]) 8 s
      else stream_us ([Byte.x2e] ++ format_0d 6 usec ++ bytes_of_string "Z ") 9 s)).
  { apply streams_bind; [rewrite <- H17; apply streams_T; [done|done|lia]|]. intros b I.
    pose proof (streams_us (us_text g usec) b I Hus_n) as SU. rewrite Hus_l in SU.
    unfold us_text in *. destruct (tz_valid _); apply SU; done. }
  destruct St as (s & Es & St). exists s.
  apply bind_ok in Es as (s1 & E1 & E2). rewrite E1, bind_Ok, E2. cbn [mbind outcome_bind].
  split_and!; try done. by exists s.
Qed.

Lemma stream_chain xs ys b m k s :
  streams xs b m → (∀ b', fixed_ok b' → streams ys b' (k b')) → (m ≫= k) = Ok s → streams (xs ++ ys) b (Ok s).
Proof. intros Hm Hk <-. by apply streams_bind. Qed.

Lemma streams_Ok xs b m : streams xs b m → ∃ s, m = Ok s ∧ streams xs b (Ok s).
Proof. intros (s & -> & Hs). exists s. split; [done|]. by exists s. Qed.

Lemma streams_ok xs b s : streams xs b (Ok s) → fixed_ok s.
Proof. intros (? & [= <-] & I & _). done. Qed.

(** Going on from a stream that was written to. *)
Lemma streams_then xs ys b s m :
  streams xs b (Ok s) → streams ys s m → ∃ s', m = Ok s' ∧ streams (xs ++ ys) b (Ok s').
Proof.
  intros Hs Hm. apply streams_Ok. destruct Hs as (s1 & [= <-] & I & E & L). destruct Hm as (s2 & -> & I2 & E2 & L2).
  exists s2. split_and!; [done|done|congruence|]. by rewrite fold_left_app, L2, E, L.
Qed.

Lemma streams_errno errno s :
  fixed_ok s → in_i32 errno →
  streams (error_items errno) s
    (if negb (errno =? 0)
     then put_all [LCString (Some (strerror_tl errno)); LCString (Some (string_data (bytes_of_string " (errno=")));
                   LInt errno; LCString (Some (string_data (bytes_of_string ") ")))] s
     else Ok s).
Proof.
  intros I He. unfold error_items. destruct (errno =? 0); cbn [negb]; [by exists s|].
  pose proof (strerror_string errno).
  eapply streams_alike; [| |apply (streams_put_all _ s I)]; [reflexivity..|].
  apply list.Forall_cons; split; [done|]. apply list.Forall_cons; split; [by apply literal_item|].
  apply list.Forall_cons; split; [exact He|]. apply list.Forall_cons; split; [by apply literal_item|constructor].
Qed.

(** The cached time of [t1], with the thread's id cached. *)
Definition same_time t1 t' : Prop :=
  tid_ok (tls t') ∧ t_time t' = t_time t1 ∧ t_lastSecond t' = t_lastSecond t1.

Lemma new_RecordBlock_ok g level errno f line sec usec memory t t1 u :
  tid_ok (tls t) → cache_shows g sec usec u t t1 → zlen memory = kSmallBuffer → 0 < gettid < 2 ^ 31 → in_i32 errno →
  ∃ s t', new_RecordBlock g level errno f line sec usec memory t
      = Ok (mkRecordBlock (sec * 1000000 + usec) s level line f, t') ∧
    same_time t1 t' ∧ streams (record_items g u usec level errno) (new_FixedBuffer memory) (Ok s).
Proof.
  intros Htl Hc Hm Hg He. pose proof Hc as (Hs & Hus & _ & _ & Et1 & _). unfold new_RecordBlock, now.
  assert (Ei : in_i64 (sec * 1000000) ∧ in_i64 (sec * 1000000 + usec)) by (unfold in_i64; lia).
  unfold kMicroSecondsPerSecond at 1. change (1000 * 1000) with 1000000.
  rewrite int64_ok, bind_Ok, int64_ok, bind_Ok by apply Ei.
  destruct (formatTime_ok g sec usec level line f memory t t1 u Hc Hm) as (s1 & E1 & St1).
  rewrite E1, bind_Ok. cbn [stream_ set_stream].
  destruct (tid_ok_call (tls t) Htl Hg) as (Htl2 & Hlen & Hstr). rewrite Et1. cbn [tls t_time t_lastSecond].
  assert (Hg' : 0 ≤ gettid < 2 ^ 31) by lia. destruct (tid_text gettid Hg') as [Htid _].
  destruct (streams_then _ [LString (format_d 5 gettid)] _ _ (stream_T (t_tidString (CurrentThread.tid (tls t)).2)
    (t_tidStringLength (CurrentThread.tid (tls t)).2) s1) St1) as (s2 & E2 & St2).
  { rewrite Hlen. apply streams_T; [by eapply streams_ok|done|lia]. }
  rewrite E2, bind_Ok.
  destruct (streams_then _ _ _ _ _ St2 (streams_put (LChar Byte.x20) s2 (streams_ok _ _ _ St2) I)) as (s3 & E3 & St3).
  rewrite E3, bind_Ok.
  destruct (streams_then _ [LString (level_text level)] _ _ (stream_T (LogLevelName level) 6 s3) St3) as (s4 & E4 & St4).
  { assert (El : 6 = zlen (level_text level)) by (by destruct level). rewrite El.
    apply streams_T; [by eapply streams_ok|apply c_string_literal|by destruct level].
    destruct level; by apply (bool_decide_eq_false_1 _). }
  rewrite E4, bind_Ok.
  destruct (streams_then _ _ _ _ _ St4 (streams_errno errno s4 (streams_ok _ _ _ St4) He)) as (s5 & E5 & St5).
  rewrite E5, bind_Ok. eexists s5, _. split; [reflexivity|]. split; [by split_and!|].
  by rewrite <- !app_assoc in St5.
Qed.

(** The level a statement logs at, and what its constructor adds. *)
Definition statement_level (st : statement) : LogLevel :=
  match st with
  | LOG_TRACE _ => TRACE | LOG_DEBUG _ => DEBUG | LOG_INFO => INFO | LOG_WARN => WARN
  | LOG_ERROR | LOG_SYSERR => ERROR | LOG_FATAL | LOG_SYSFATAL => FATAL
  end.

Definition statement_errno (st : statement) (errno : Z) : Z :=
  match st with LOG_SYSERR | LOG_SYSFATAL => errno | _ => 0 end.

Definition func_items (st : statement) : list item :=
  match st with LOG_TRACE func | LOG_DEBUG func => [LCString (Some func); LChar Byte.x20] | _ => [] end.

Definition func_ok (st : statement) : Prop :=
  match st with LOG_TRACE func | LOG_DEBUG func => Byte.x00 ∈ func ∧ zlen func < 2 ^ 31 | _ => True end.

(** All a statement writes, in order. *)
Definition line_items g (u : tm) (usec : Z) (st : statement) (errno : Z) (xs : list item) (base : list byte) (line : Z) : list item :=
  record_items g u usec (statement_level st) (statement_errno st errno) ++ func_items st ++ xs ++ finish_items base line.

(** Every item asks for more room than it takes. *)
Lemma line_items_room g u usec st errno xs base line :
  in_i32 line → in_i32 errno → func_ok st → Forall item_ok xs →
  Forall (λ x, zlen (prints x) < needs x) (line_items g u usec st errno xs base line).
Proof.
  intros Hl He Hf Hxs. unfold line_items, record_items, finish_items, error_items.
  assert (Ht : ∀ s, zlen (prints (LString s)) < needs (LString s)) by (intros s; cbn [needs]; lia).
  assert (Hc : ∀ c, zlen (prints (LChar c)) < needs (LChar c)) by (intros c; cbn [needs]; lia).
  rewrite !list.Forall_app. split_and!.
  - repeat (apply list.Forall_cons; split; [first [apply Ht|apply Hc]|]). constructor.
  - destruct (_ =? 0) eqn:E; [constructor|].
    do 2 (apply list.Forall_cons; split; [apply Ht|]). apply list.Forall_cons; split; [|apply list.Forall_cons; split; [apply Ht|constructor]].
    apply needs_enough. destruct st; cbn in E |- *; try done.
  - destruct st; try constructor; [cbn [needs]; lia|apply list.Forall_singleton, Hc|cbn [needs]; lia|apply list.Forall_singleton, Hc].
  - eapply list.Forall_impl; [exact Hxs|]. apply needs_enough.
  - do 3 (apply list.Forall_cons; split; [first [apply Ht|apply Hc]|]).
    apply list.Forall_cons; split; [by apply needs_enough|]. apply list.Forall_singleton, Hc.
Qed.

Lemma new_Logger_ok g st errno f line sec usec memory t t1 u :
  tid_ok (tls t) → cache_shows g sec usec u t t1 → zlen memory = kSmallBuffer → 0 < gettid < 2 ^ 31 → in_i32 errno → func_ok st →
  ∃ s t', new_Logger g (macro_args st) errno f line sec usec memory t
      = Ok (mkRecordBlock (sec * 1000000 + usec) s (statement_level st) line f, t') ∧
    same_time t1 t' ∧
    streams (record_items g u usec (statement_level st) (statement_errno st errno) ++ func_items st) (new_FixedBuffer memory) (Ok s).
Proof.
  intros Ht Hc Hm Hg He Hf. assert (E0 : in_i32 (statement_errno st errno)) by (destruct st; cbn; try done; unfold in_i32; lia).
  destruct (new_RecordBlock_ok g (statement_level st) _ f line sec usec memory t t1 u Ht Hc Hm Hg E0) as (s & t' & E & Ht' & St).
  destruct st as [func|func| | | | | |]; cbn [func_items]; rewrite ?app_nil_r; try by exists s, t'.
  all: destruct (streams_then _ _ _ _ _ St (streams_put_all [LCString (Some func); LChar Byte.x20] s (streams_ok _ _ _ St)
         ltac:(repeat (apply list.Forall_cons; split); try done; apply Hf))) as (s2 & E2 & St2).
  all: exists s2, t'; split; [|split; [done|exact St2]].
  all: cbn [new_Logger macro_args]; cbn [statement_level statement_errno] in E; rewrite E, bind_Ok; cbn [stream_]; rewrite E2; done.
Qed.

Definition output_of g (level : LogLevel) (msg data : list byte) : outcome (list effect) :=
  if decide (level = FATAL) then
    n ← strlen data; Ok [Output (g_output g) msg; Cout (ztake n data); Flush (g_flush g); Aborts]
  else Ok [Output (g_output g) msg].

(** A whole statement. *)
Lemma log_statement_shows g st dir base line errno sec usec memory xs t t1 u :
  tid_ok (tls t) → cache_shows g sec usec u t t1 → 0 < gettid < 2 ^ 31 → zlen memory = kSmallBuffer →
  path dir base → zlen base < 2 ^ 30 → in_i32 line → in_i32 errno → func_ok st → Forall item_ok xs → enabled g st = true →
  ∃ t' tail, same_time t1 t' ∧
    let msg := fold_left (spec_put kSmallBuffer) (line_items g u usec st errno xs base line) [] in
    zlen (msg ++ tail) = kSmallBuffer ∧
    log_statement g st (string_data (dir ++ base)) line errno sec usec memory xs t =
      (es ← output_of g (statement_level st) msg (msg ++ tail); Ok (es, t')).
Proof.
  intros Ht Hc Hg Hm Hpath Hb Hl He Hf Hxs Hen. destruct (source_base dir base Hpath) as (f & Ef & Eb).
  destruct (new_Logger_ok g st errno f line sec usec memory t t1 u Ht Hc Hm Hg He Hf) as (s & t' & E & Ht' & St).
  destruct (streams_then _ _ _ _ _ St (streams_put_all xs s (streams_ok _ _ _ St) Hxs)) as (s2 & E2 & St2).
  destruct (streams_then _ (finish_items base line) _ _ (put_all
     [LCString (Some (string_data (bytes_of_string " - "))); LCString (Some (string_data base)); LChar Byte.x3a; LInt line; LChar Byte.x0a] s2) St2)
    as (s3 & E3 & St3).
  { destruct Hpath as (Hn & _ & _). apply not_elem_of_app in Hn as [_ Hn].
    destruct (c_string_mem _ _ (c_string_literal _ Hn)) as (_ & Eu & _).
    eapply streams_alike; [| |apply (streams_put_all _ s2 (streams_ok _ _ _ St2))].
    - cbn [map prints]. by rewrite Eu.
    - cbn [map prints needs]. by rewrite Eu.
    - apply list.Forall_cons; split; [by apply literal_item|].
      apply list.Forall_cons; split; [apply cstring_item; [by exists base; apply c_string_literal|]|].
      { unfold string_data. rewrite zlen_app. change (zlen [Byte.x00]) with 1. lia. }
      apply list.Forall_cons; split; [exact I|]. apply list.Forall_cons; split; [exact Hl|].
      apply list.Forall_cons; split; [exact I|constructor]. }
  exists t', (zdrop (cur_ s3) (data_ s3)). split; [done|].
  destruct St3 as (s3' & [= <-] & I3 & Ed3 & L3). cbn [new_FixedBuffer data_] in Ed3, L3.
  change (logged (new_FixedBuffer memory)) with (@nil byte) in L3. rewrite Hm in L3, Ed3.
  assert (Em : fold_left (spec_put kSmallBuffer) (line_items g u usec st errno xs base line) [] = logged s3)
    by (unfold line_items; by rewrite L3, <- !app_assoc).
  cbv zeta. rewrite Em. unfold logged. rewrite ztake_zdrop. split; [by rewrite Ed3|].
  unfold log_statement. rewrite Hen, Ef, bind_Ok, E, bind_Ok. cbn [stream_]. rewrite E2, bind_Ok.
  unfold logger_dtor, finish, set_stream. cbn [stream_ basename_ line_]. rewrite Eb, E3, bind_Ok. cbn [stream_ level_].
  pose proof I3 as [Hcur Hlen]. unfold length_of. unfold kSmallBuffer in *.
  rewrite bind_Ok. cbn [stream_ level_]. rewrite i32_small by (unfold in_i32; lia).
  rewrite load_ok, bind_Ok by lia. by rewrite zslice_zlen_0.
Qed.

(** A time of the clock that the format can show: its second reads as [u]. *)
Definition clock_shows g (sec usec : Z) (u : tm) : Prop :=
  0 < sec < 2 ^ 40 ∧ 0 ≤ usec < 1000000 ∧ tm_of_second g sec = Ok u ∧ tm_printable u.

Lemma clock_cache g sec usec u t :
  cache_ok g t → clock_shows g sec usec u → ∃ t', cache_shows g sec usec u t t' ∧ cache_ok g t'.
Proof.
  intros Hc (Hs & Hus & Hu & Hp).
  destruct (refresh_time_ok g sec t u Hc ltac:(lia) Hu Hp) as (t' & E & Hc' & Et & Hstr).
  exists t'. by split_and!.
Qed.

Lemma same_time_ok g t1 t' : cache_ok g t1 → same_time t1 t' → thread_ok g t'.
Proof. intros Hc (Ht & E1 & E2). split; [|done]. unfold cache_ok. by rewrite E1, E2. Qed.

(** In the second for which the cache was filled, any zone is as good as the right one. *)
Lemma stale_cache g tz sec usec u t :
  cache_ok g t → t_lastSecond t = sec → clock_shows g sec usec u → cache_shows (setTimeZone tz g) sec usec u t t.
Proof.
  intros Hc E (Hs & Hus & Hu & Hp). unfold cache_shows. split_and!; try done; try lia.
  - unfold refresh_time. by rewrite E, Z.eqb_refl.
  - destruct Hc as [|(u' & Hu' & _ & Hc)]; [lia|]. congruence.
Qed.
End thread.
