(* ===== verification/LogFile.v ===== *)
(** The rolling log file: networker/base/LogFile.h and LogFile.cpp.

    The mutex only excludes other threads, so [append] and [append_unlocked] are one
    operation.  The clock, rename(2) and the host name are parameters ([LogEnv]).

    On a healthy system every line appended is written whole to one file, and no line is lost,
    repeated or overtaken by rolling. *)
From S2P Require Import Prelude.
From S2P Require Import Format.
From S2P Require Import StringPiece.
From S2P Require Import Buffer.
From S2P Require Import TimeZone.
From S2P Require Import FileUtil.
From S2P Require Import ProcessInfo.

Class LogEnv `{!Stdio} := {
  time : os → os * Z;
  rename : list byte → list byte → os → os;
  gethostname : os → option (list byte);   (** the 256 bytes it filled *)
  time_io o : io (time o).1 = io o;
  rename_io a b o : io (rename a b o) = io o
}.

Definition kRollPerSeconds_ : Z := 60 * 60 * 24.

Section log_file.
  Context `{!Stdio, !LogEnv, !CLibrary}.
  Implicit Types o : os.

Record LogFile := mkLogFile {
  basename_ : list byte;
  rollSize_ : Z;
  flushInterval_ : Z;
  checkEveryN_ : Z;
  count_ : Z;
  file_ : option AppendFile;
  startOfPeriod_ : Z;
  lastRoll_ : Z;
  lastFlush_ : Z
}.
Implicit Types f : LogFile.

(** * Field updates *)
Definition set_count (n : Z) f : LogFile :=
  mkLogFile (basename_ f) (rollSize_ f) (flushInterval_ f) (checkEveryN_ f) n (file_ f)
    (startOfPeriod_ f) (lastRoll_ f) (lastFlush_ f).
Definition set_file (a : AppendFile) f : LogFile :=
  mkLogFile (basename_ f) (rollSize_ f) (flushInterval_ f) (checkEveryN_ f) (count_ f) (Some a)
    (startOfPeriod_ f) (lastRoll_ f) (lastFlush_ f).
Definition set_lastFlush (t : Z) f : LogFile :=
  mkLogFile (basename_ f) (rollSize_ f) (flushInterval_ f) (checkEveryN_ f) (count_ f) (file_ f)
    (startOfPeriod_ f) (lastRoll_ f) t.
Definition set_rolled (start now : Z) f : LogFile :=
  mkLogFile (basename_ f) (rollSize_ f) (flushInterval_ f) (checkEveryN_ f) (count_ f) (file_ f)
    start now now.

(** * Names *)

(** strftime(3) leaves the array undefined when the result does not fit. *)
Definition strftime (size : Z) (s : list byte) : outcome (list byte) :=
  if zlen s <? size then Ok s else Fail UndefinedBehaviour.

(** ["%Y%m%d"] and ["%H%M%S"]. *)
Definition format_day (u : tm) : list byte :=
  decimal (tm_year u + 1900) ++ format_0d 2 (tm_mon u + 1) ++ format_0d 2 (tm_mday u).
Definition format_clock (u : tm) : list byte :=
  format_0d 2 (tm_hour u) ++ format_0d 2 (tm_min u) ++ format_0d 2 (tm_sec u).

(** [getLogFileName]: the name, [*now] and what happened outside. *)
Definition getLogFileName (basename : list byte) (isRoll : bool) o : outcome (list byte * Z * os) :=
  let '(o, now) := time o in
  match gmtime_r now with
  | None => Fail UndefinedBehaviour
  | Some u =>
      timebuf ← strftime 32 (format_day u ++ bytes_of_string ".");
      host ← hostname (gethostname o);
      let filename := basename ++ timebuf ++ host ++ bytes_of_string ".log" in
      if isRoll then
        timebuf ← strftime 32 (bytes_of_string "-" ++ format_day u ++ bytes_of_string "_" ++ format_clock u);
        let newname := filename ++ timebuf ++ bytes_of_string ".roll" in
        Ok (filename, now, rename (until_nul filename) (until_nul newname) o)
      else Ok (filename, now, o)
  end.

(** [file_.reset(new AppendFile(filename))]. *)
Definition reset_file (filename : list byte) f o : outcome (LogFile * os) :=
  '(a, o) ← new_AppendFile filename o;
  Ok (set_file a f, match file_ f with Some old => append_file_dtor old o | None => o end).

Definition rollFile (isRoll : bool) f o : outcome (LogFile * bool * os) :=
  '(filename, now, o) ← getLogFileName (basename_ f) isRoll o;
  let start := Z.quot now kRollPerSeconds_ * kRollPerSeconds_ in
  if lastRoll_ f <? now then
    '(f, o) ← reset_file filename (set_rolled start now f) o;
    Ok (f, true, o)
  else Ok (f, false, o).

(** [LogFile::LogFile]. *)
Definition new_LogFile (basename : list byte) (rollSize flushInterval checkEveryN : Z) o : outcome (LogFile * os) :=
  let f := mkLogFile basename rollSize flushInterval checkEveryN 0 None 0 0 0 in
  '(f, _, o) ← rollFile false f o;
  Ok (f, o).

(** * Appending *)
Definition log_flush f o : outcome os :=
  match file_ f with Some a => Ok (file_flush a o) | None => Fail UndefinedBehaviour end.

(** The check every [checkEveryN_] lines. *)
Definition periodic_check f o : outcome (LogFile * os) :=
  let f := set_count 0 f in
  let '(o, now) := time o in
  let thisPeriod := Z.quot now kRollPerSeconds_ * kRollPerSeconds_ in
  if negb (thisPeriod =? startOfPeriod_ f) then
    '(f, _, o) ← rollFile true f o; Ok (f, o)
  else if flushInterval_ f <? now - lastFlush_ f then
    let f := set_lastFlush now f in
    o ← log_flush f o; Ok (f, o)
  else Ok (f, o).

Definition append_unlocked (logline : list byte) (len : Z) f o : outcome (LogFile * os) :=
  match file_ f with
  | None => Fail UndefinedBehaviour
  | Some a =>
      '(a, o) ← file_append a logline (u64 len) o;
      let f := set_file a f in
      if rollSize_ f <? writtenBytes_ a then
        '(f, _, o) ← rollFile true f o; Ok (f, o)
      else
        let f := set_count (i32 (count_ f + 1)) f in
        if checkEveryN_ f <=? count_ f then periodic_check f o else Ok (f, o)
  end.

Fixpoint append_lines (ls : list (list byte)) f o : outcome (LogFile * os) :=
  match ls with
  | [] => Ok (f, o)
  | l :: ls => '(f, o) ← append_unlocked l (zlen l) f o; append_lines ls f o
  end.
End log_file.

(** A system on which files can be opened and written and the clock shows a time
    strftime can print: files stay open, disks do not fill. *)
Class Healthy `{!Stdio, !LogEnv, !CLibrary} := {
  healthy : os → Prop;
  healthy_open name o : healthy o → healthy (fopen_append name o).1 ∧ is_Some (fopen_append name o).2;
  healthy_write f d o o' n : healthy o → fwrite_unlocked f d o = (o', n) → healthy o' ∧ n = zlen d;
  healthy_flush f o : healthy o → healthy (fflush f o);
  healthy_close f o : healthy o → healthy (fclose f o);
  healthy_rename a b o : healthy o → healthy (rename a b o);
  healthy_time o : healthy o →
    healthy (time o).1 ∧ 0 < (time o).2 ∧
    ∃ u, gmtime_r (time o).2 = Some u ∧ zlen (format_day u) < 15 ∧ zlen (format_clock u) < 15;
  healthy_host o : healthy o → match gethostname o with Some b => zlen b = 256 | None => True end
}.

Section log_file.
  Context `{!Stdio, !LogEnv, !CLibrary, !Healthy}.
  Implicit Types (o : os) (f : LogFile).

Lemma strftime_fits size s : zlen s < size → strftime size s = Ok s.
Proof. intros Hs. unfold strftime. by rewrite (proj2 (Z.ltb_lt _ _)). Qed.

Lemma getLogFileName_ok base roll o :
  healthy o →
  ∃ name now o', getLogFileName base roll o = Ok (name, now, o') ∧ healthy o' ∧ io o' = io o ∧
    now = (time o).2 ∧ 0 < now ∧
    o' = if roll then rename (until_nul name) (until_nul (name ++ bytes_of_string "-" ++
           match gmtime_r now with Some u => format_day u ++ bytes_of_string "_" ++ format_clock u | None => [] end
           ++ bytes_of_string ".roll")) (time o).1 else (time o).1.
Proof.
  intros Ho. destruct (healthy_time o Ho) as (Ho1 & Hpos & u & Eu & Hd & Hk).
  unfold getLogFileName. destruct (time o) as [o1 now] eqn:Et. cbn [fst snd] in *. rewrite Eu.
  assert (Hio : io o1 = io o) by (pose proof (time_io o) as E; by rewrite Et in E).
  rewrite (strftime_fits 32 (format_day u ++ _)), bind_Ok by (rewrite zlen_app; change (zlen (bytes_of_string ".")) with 1; lia).
  assert (∃ h, hostname (gethostname o1) = Ok h) as (h & Eh).
  { pose proof (healthy_host o1 Ho1) as Hh. unfold hostname. destruct (gethostname o1) as [b|]; [|by eexists].
    rewrite store_ok by (change (zlen [Byte.x00]) with 1; lia). by eexists. }
  rewrite Eh, bind_Ok. destruct roll.
  - rewrite strftime_fits, bind_Ok.
    2: { rewrite !zlen_app. change (zlen (bytes_of_string "-")) with 1. change (zlen (bytes_of_string "_")) with 1. lia. }
    do 3 eexists. split; [done|]. rewrite rename_io. split_and!; try done; [by apply healthy_rename|].
    by rewrite Eu, <- !app_assoc.
  - do 3 eexists. by split_and!.
Qed.

Lemma reset_file_ok name f o :
  healthy o → ∃ a o', reset_file name f o = Ok (set_file a f, o') ∧ healthy o' ∧ io o' = io o ∧ writtenBytes_ a = 0.
Proof.
  intros Ho. destruct (healthy_open (until_nul name) o Ho) as [Ho1 [g Hg]].
  unfold reset_file, new_AppendFile. pose proof (fopen_io (until_nul name) o) as Hio.
  destruct (fopen_append _ o) as [o1 r]. cbn in *. subst r. rewrite bind_Ok.
  do 2 eexists. split; [done|]. destruct (file_ f) as [old|]; [|done].
  unfold append_file_dtor. rewrite fclose_io. split_and!; try done. by apply healthy_close.
Qed.

(** What rolling leaves of the object. *)
Lemma rollFile_ok roll f o :
  healthy o → ∃ f' b o', rollFile roll f o = Ok (f', b, o') ∧ healthy o' ∧ io o' = io o ∧
    b = (lastRoll_ f <? (time o).2) ∧
    count_ f' = count_ f ∧ checkEveryN_ f' = checkEveryN_ f ∧ rollSize_ f' = rollSize_ f ∧
    (is_Some (file_ f) ∨ b = true → is_Some (file_ f')) ∧ (b = false → f' = f) ∧
    (b = true → lastRoll_ f' = (time o).2 ∧ ∃ a, file_ f' = Some a ∧ writtenBytes_ a = 0).
Proof.
  intros Ho. unfold rollFile. destruct (getLogFileName_ok (basename_ f) roll o Ho)
    as (name & now & o1 & -> & Ho1 & Hio & Enow & Hpos & _).
  rewrite bind_Ok. rewrite <- Enow. destruct (Z.ltb_spec (lastRoll_ f) now).
  - destruct (reset_file_ok name (set_rolled (Z.quot now kRollPerSeconds_ * kRollPerSeconds_) now f) o1 Ho1)
      as (a & o2 & -> & Ho2 & Hio2 & Ea). rewrite bind_Ok.
    do 3 eexists. split; [done|]. rewrite Hio2. split_and!; try done. intros _. split; [done|]. by exists a.
  - do 3 eexists. split; [done|]. split_and!; try done. by intros [?|?].
Qed.

Definition file_open f : Prop := is_Some (file_ f).

Lemma periodic_check_ok f o :
  healthy o → file_open f →
  ∃ f' o', periodic_check f o = Ok (f', o') ∧ healthy o' ∧ io o' = io o ∧ file_open f'.
Proof.
  intros Ho Hf. unfold periodic_check. destruct (healthy_time o Ho) as (Ho1 & _).
  destruct (time o) as [o1 now] eqn:Et. cbn [fst snd] in Ho1.
  assert (Hio : io o1 = io o) by (pose proof (time_io o) as E; by rewrite Et in E).
  destruct (negb _).
  - destruct (rollFile_ok true (set_count 0 f) o1 Ho1) as (f' & b & o2 & -> & Ho2 & Hio2 & _ & _ & _ & _ & Hfile & _).
    rewrite bind_Ok. exists f', o2. rewrite Hio2. split_and!; try done. apply Hfile. by left.
  - destruct (_ <? _); [|by exists (set_count 0 f), o1].
    destruct Hf as [a Ea]. unfold log_flush. cbn. rewrite Ea. cbn.
    do 2 eexists. split; [done|]. unfold file_flush. rewrite fflush_io. split_and!; try done.
    + by apply healthy_flush.
    + unfold file_open. cbn. eauto.
Qed.

(** Writing to the open file takes the line whole. *)
Lemma file_append_healthy a l o :
  healthy o → zlen l < 2 ^ 63 →
  ∃ o', file_append a l (zlen l) o = Ok (mkAppendFile (fp_ a) (i64 (writtenBytes_ a + zlen l)), o') ∧
    healthy o' ∧ io o' = io o ++ map (pair (fp_ a)) l.
Proof.
  intros Ho Hl. pose proof (zlen_nonneg l). unfold file_append, file_write.
  rewrite load_ok, !bind_Ok by lia. rewrite zslice_zlen_0 by lia. rewrite (ztake_all (zlen l)) by lia.
  destruct (fwrite_unlocked (fp_ a) l o) as [o1 n] eqn:Ew.
  destruct (healthy_write _ _ _ _ _ Ho Ew) as [Ho1 ->]. destruct (fwrite_law _ _ _ _ _ Ew) as [_ Hio].
  rewrite ztake_all in Hio by lia. rewrite Z.sub_diag. change (u64 0) with 0.
  exists o1. split; [by destruct (Z.to_nat (zlen l))|]. done.
Qed.

Lemma append_unlocked_ok l f o :
  healthy o → file_open f → zlen l < 2 ^ 31 →
  ∃ a f' o', file_ f = Some a ∧ append_unlocked l (zlen l) f o = Ok (f', o') ∧ healthy o' ∧ file_open f' ∧
    io o' = io o ++ map (pair (fp_ a)) l.
Proof.
  intros Ho [a Ea] Hl. pose proof (zlen_nonneg l). exists a. unfold append_unlocked. rewrite Ea.
  rewrite u64_small by lia. destruct (file_append_healthy a l o Ho) as (o1 & -> & Ho1 & Hio); [lia|].
  rewrite bind_Ok. set (a' := mkAppendFile _ _). destruct (_ <? _).
  - destruct (rollFile_ok true (set_file a' f) o1 Ho1) as (f' & b & o2 & -> & Ho2 & Hio2 & _ & _ & _ & _ & Hfile & _).
    rewrite bind_Ok. exists f', o2. rewrite Hio2. split_and!; try done. apply Hfile. left. by eexists.
  - destruct (_ <=? _).
    + destruct (periodic_check_ok (set_count (i32 (count_ (set_file a' f) + 1)) (set_file a' f)) o1 Ho1)
        as (f' & o2 & E & Ho2 & Hio2 & Hf'); [by eexists|]. exists f', o2. rewrite Hio2. by split_and!.
    + do 2 eexists. split_and!; try done. by eexists.
Qed.

(** Each line is in one file, in order. *)
Lemma append_lines_ok ls f o :
  healthy o → file_open f → Forall (λ l, zlen l < 2 ^ 31) ls →
  ∃ f' o' gs, append_lines ls f o = Ok (f', o') ∧ healthy o' ∧ file_open f' ∧ length gs = length ls ∧
    io o' = io o ++ concat (zip_with (λ g l, map (pair g) l) gs ls).
Proof.
  intros Ho Hf Hls. revert f o Ho Hf. induction Hls as [|l ls Hl _ IH]; intros f o Ho Hf; cbn [append_lines].
  - exists f, o, []. cbn. by rewrite app_nil_r.
  - destruct (append_unlocked_ok l f o Ho Hf Hl) as (a & f1 & o1 & _ & -> & Ho1 & Hf1 & Hio1).
    rewrite bind_Ok. destruct (IH f1 o1 Ho1 Hf1) as (f2 & o2 & gs & -> & Ho2 & Hf2 & Hlen & Hio2).
    exists f2, o2, (fp_ a :: gs). cbn. split_and!; try done; [by rewrite Hlen|].
    by rewrite Hio2, Hio1, <- app_assoc.
Qed.

Lemma new_LogFile_ok base size interval n o :
  healthy o → ∃ f o', new_LogFile base size interval n o = Ok (f, o') ∧ healthy o' ∧ file_open f ∧ io o' = io o.
Proof.
  intros Ho. unfold new_LogFile. destruct (healthy_time o Ho) as (_ & Hpos & _).
  destruct (rollFile_ok false (mkLogFile base size interval n 0 None 0 0 0) o Ho)
    as (f & b & o1 & -> & Ho1 & Hio & Eb & _ & _ & _ & Hfile & _).
  cbn in Eb. rewrite (proj2 (Z.ltb_lt _ _)) in Eb by done. rewrite bind_Ok.
  exists f, o1. split_and!; try done. apply Hfile. by right.
Qed.

(** A file over its size within the second it was opened in: it is renamed, and the lines that
    follow go to the renamed file. *)
Lemma roll_same_second l f a o :
  healthy o → file_ f = Some a → zlen l < 2 ^ 31 →
  (∀ o' n, fwrite_unlocked (fp_ a) l o = (o', n) → (time o').2 ≤ lastRoll_ f) →
  rollSize_ f < i64 (writtenBytes_ a + zlen l) →
  ∃ o1 name stamp, append_unlocked l (zlen l) f o =
    Ok (set_file (mkAppendFile (fp_ a) (i64 (writtenBytes_ a + zlen l))) f,
        rename (until_nul name) (until_nul (name ++ stamp)) o1).
Proof.
  intros Ho Ea Hl Hclock Hsize. pose proof (zlen_nonneg l). unfold append_unlocked. rewrite Ea.
  rewrite u64_small by lia. unfold file_append, file_write.
  rewrite load_ok, !bind_Ok by lia. rewrite zslice_zlen_0 by lia. rewrite (ztake_all (zlen l)) by lia.
  destruct (fwrite_unlocked (fp_ a) l o) as [o1 n] eqn:Ew.
  destruct (healthy_write _ _ _ _ _ Ho Ew) as [Ho1 ->]. rewrite Z.sub_diag. change (u64 0) with 0.
  assert (append_loop (Z.to_nat (zlen l)) a l (zlen l) (zlen l) 0 o1 = Ok o1) as -> by (by destruct (Z.to_nat (zlen l))).
  rewrite !bind_Ok. cbn [writtenBytes_]. rewrite (proj2 (Z.ltb_lt (rollSize_ _) _)) by done.
  unfold rollFile. cbn [basename_ set_file].
  destruct (getLogFileName_ok (basename_ f) true o1 Ho1) as (name & now & o2 & -> & _ & _ & -> & _ & ->).
  rewrite !bind_Ok. rewrite (proj2 (Z.ltb_ge _ _)) by (by eapply Hclock). rewrite !bind_Ok. by do 3 eexists.
Qed.
End log_file.
