(* ===== verification/BaseTheorems.v ===== *)
(** Properties of dates and time zones (Date.v, TimeZone.v). *)
From S2P Require Import Prelude.
From S2P Require Import Endian.
From S2P Require Import Format.
From S2P Require Import StringPiece.
From S2P Require Import Timestamp.
From S2P Require Import Date.
From S2P Require Import TimeZone.
From S2P Require Import TimeZoneFacts.

(** Julian day numbers count the days of the Gregorian calendar.  For every date of the
    years -4799 to 1,000,000 no [int] overflows, [yearMonthDay] gives the date back, the
    next day of the calendar has the next number, and 1970-01-01 is number 2440588. *)
Theorem julian_days_count t :
  year_ok (year t) → year_ok (year (next_day t)) → calendar_date (year t) (month t) (day t) →
  ∃ j, getJulianDayNumber (year t) (month t) (day t) = Ok j ∧ getYearMonthDay j = Ok t ∧
    getJulianDayNumber (year (next_day t)) (month (next_day t)) (day (next_day t)) = Ok (j + 1) ∧
    kJulianDayOf1970_01_01 = Ok 2440588.
Proof.
  intros Hy Hy' Hd. destruct (julian_next t Hd) as [En Hd']. exists (julian (year t) (month t) (day t)).
  destruct (calendar_day_31 _ _ _ Hd). destruct (calendar_day_31 _ _ _ Hd').
  split_and!; [by apply getJulianDayNumber_ok| | |apply julian_epoch].
  - rewrite getYearMonthDay_julian by done. by destruct t.
  - rewrite <- En. by apply getJulianDayNumber_ok.
Qed.

Lemma julian_days_count_witness :
  ∃ j, getJulianDayNumber 2000 2 28 = Ok j ∧ getYearMonthDay j = Ok (mkYMD 2000 2 28) ∧
    getJulianDayNumber 2000 2 29 = Ok (j + 1) ∧ kJulianDayOf1970_01_01 = Ok 2440588.
Proof. apply (julian_days_count (mkYMD 2000 2 28)); by vm_compute. Defined.

(** [TimeZone::toUtcTime] is gmtime(3): for every second whose day number is between 1 and
    360,000,000, before or after the epoch, the fields are a calendar date and a time of day, they
    stand for that second, and the day of the week and of the year are right. *)
Theorem toUtcTime_correct t yday :
  seconds_ok t →
  ∃ u, toUtcTime t yday = Ok u ∧
    calendar_date (tm_year u + 1900) (tm_mon u + 1) (tm_mday u) ∧ clock_ok u ∧
    utc_seconds (tm_year u + 1900) (tm_mon u + 1) (tm_mday u) (tm_hour u) (tm_min u) (tm_sec u) = t ∧
    tm_wday u = (t / 86400 + 4) mod 7 ∧
    tm_yday u = (if yday then t / 86400 + 2440588 - julian (tm_year u + 1900) 1 1 else 0).
Proof.
  intros Ht. destruct (toUtcTime_ok t yday Ht) as (u & E & Hd & Hy & Hc & Es & Hw & Hyd & _).
  exists u. by split_and!.
Qed.

Lemma toUtcTime_correct_witness :
  ∃ u, toUtcTime (-1) true = Ok u ∧
    calendar_date (tm_year u + 1900) (tm_mon u + 1) (tm_mday u) ∧ clock_ok u ∧
    utc_seconds (tm_year u + 1900) (tm_mon u + 1) (tm_mday u) (tm_hour u) (tm_min u) (tm_sec u) = -1 ∧
    tm_wday u = (-1 / 86400 + 4) mod 7 ∧
    tm_yday u = -1 / 86400 + 2440588 - julian (tm_year u + 1900) 1 1.
Proof. apply (toUtcTime_correct (-1) true). split; by vm_compute. Defined.

(** [TimeZone::fromUtcTime] is not its inverse: it counts fifty seconds to the minute, so
    the way back from [toUtcTime] is exact only when the minutes are zero. *)
Theorem fromUtcTime_loses_minutes t :
  seconds_ok t →
  ∃ u, toUtcTime t false = Ok u ∧ fromUtcTime u = Ok (t - 10 * tm_min u) ∧
       (fromUtcTime u = Ok t ↔ tm_min u = 0).
Proof.
  intros Ht. destruct (toUtcTime_ok t false Ht) as (u & E & Hd & Hy & Hc & Es & _).
  exists u. rewrite (fromUtcTime_ok u Hd Hy Hc), Es. split_and!; [done..|].
  split; [intros [= H]; lia|intros ->; f_equal; lia].
Qed.

Lemma fromUtcTime_loses_minutes_witness :
  ∃ u, toUtcTime 90 false = Ok u ∧ fromUtcTime u = Ok (90 - 10 * tm_min u) ∧ (fromUtcTime u = Ok 90 ↔ tm_min u = 0).
Proof. apply fromUtcTime_loses_minutes. split; by vm_compute. Defined.

(** C37: [findLocaltime], a binary search, finds in a table sorted by the compared time the local
    time of the last transition that is not later than the sentry, and the first local time before
    all transitions; its assert holds. *)
Theorem findLocaltime_is_last_transition data sentry c :
  increasing c (transitions data) →
  findLocaltime data sentry c =
  deref (match list.last (filter (λ t, key c t ≤ key c sentry) (transitions data)) with
         | Some t => if localtimeIdx t <? 0 then None else localtimes data !! Z.to_nat (localtimeIdx t)
         | None => list.head (localtimes data)
         end).
Proof. apply findLocaltime_ok. Qed.

(** Standard time, summer time from 1000 on, standard time again from 50000 on. *)
Definition demo_zone : Data :=
  mkData [mkTransition 1000 8200 1; mkTransition 50000 53600 0]
         [mkLocaltime 3600 false 0; mkLocaltime 7200 true 4] []
         (bytes_of_string "CET" ++ [Byte.x00] ++ bytes_of_string "CEST" ++ [Byte.x00]).

Lemma demo_zone_increasing b : increasing (mkComp b) (transitions demo_zone).
Proof.
  intros [|[|i]] [|[|j]] x y; cbn; intros; simplify_eq; try lia; destruct b; cbn; lia.
Qed.

Lemma findLocaltime_is_last_transition_witness :
  findLocaltime demo_zone (mkTransition 3000 0 0) (mkComp true) = Ok (mkLocaltime 7200 true 4).
Proof.
  rewrite (findLocaltime_is_last_transition demo_zone (mkTransition 3000 0 0) (mkComp true)
             (demo_zone_increasing true)). by vm_compute.
Defined.

(** Reading a zone file.  On any file made of the version-1 block of tzfile(5) for some
    tables, followed by anything, [readTimeZoneFile] returns exactly these tables, on hosts of
    either byte order. *)
Theorem zone_file_roundtrip `{!Host} version reserved isgmt isstd leap d rest :
  expressible d → zlen reserved = 15 → in_i32 isgmt → in_i32 isstd → in_i32 leap →
  readTimeZoneFile (Some (zone_file version reserved isgmt isstd leap d ++ rest)) new_Data = Ok (true, d).
Proof. apply zone_file_read. Qed.

Lemma demo_zone_expressible : expressible demo_zone.
Proof.
  split; [done|]. split; [done|]. split; [done|]. split; [done|]. split.
  - intros l Hl. cbn in Hl. rewrite !elem_of_cons, elem_of_nil in Hl.
    destruct Hl as [->|[->|[]]]; unfold in_i32; cbn; lia.
  - intros t Ht. cbn in Ht. rewrite !elem_of_cons, elem_of_nil in Ht.
    destruct Ht as [->|[->|[]]]; (split; [unfold in_i32; cbn; lia|]; split; [cbn; lia|]; by eexists).
Qed.

Lemma zone_file_roundtrip_witness :
  @readTimeZoneFile LittleEndian
    (Some (@zone_file Byte.x32 (replicate 15 Byte.x00) 0 0 0 demo_zone ++ [])) new_Data = Ok (true, demo_zone).
Proof.
  apply (@zone_file_roundtrip LittleEndian Byte.x32 (replicate 15 Byte.x00) 0 0 0 demo_zone []);
    [apply demo_zone_expressible|done|unfold in_i32; lia..].
Defined.

(** Local time and back.  When the tables attribute the local clock reading of [t] to the
    local time in force at [t] (everywhere except around a change of the clock), [fromLocalTime] of
    [toLocalTime] is [t], in summer time as well; in particular always for a fixed offset. *)
Theorem localtime_roundtrip `{!CLibrary} d t l u :
  sane d → - 2 ^ 62 ≤ t ≤ 2 ^ 62 → gmtime_r (t + gmtOffset l) = Some u →
  in_force d (mkTransition t 0 0) (mkComp true) = Some l →
  in_force d (mkTransition 0 (t + gmtOffset l) 0) (mkComp false) = Some l →
  (v ← toLocalTime (Some d) t; fromLocalTime (Some d) v) = Ok t.
Proof. intros Hs Ht Hu H1 H2. by eapply local_roundtrip. Qed.

Lemma localtime_roundtrip_witness :
  (v ← toLocalTime (Some demo_zone) 3000; fromLocalTime (Some demo_zone) v) = Ok 3000.
Proof.
  apply (localtime_roundtrip demo_zone 3000 (mkLocaltime 7200 true 4)
           (match demo_gmtime 10200 with Some u => u | None => tm_zero end)).
  - split; [apply demo_zone_increasing|]. split; [apply demo_zone_increasing|].
    intros l Hl. cbn in Hl. rewrite !elem_of_cons, elem_of_nil in Hl.
    destruct Hl as [->|[->|[]]]; (split; [unfold in_i32; cbn; lia|by vm_compute]).
  - lia.
  - by vm_compute.
  - by vm_compute.
  - by vm_compute.
Defined.
