(* ===== verification/LogTheorems.v ===== *)
(** Properties of the logging stack: formatting (LogStream.v), log statements (Logging.v), hand-over between threads
    (AsyncLogging.v), files (FileUtil.v, LogFile.v) and process information (ProcessInfo.v). *)
From stdpp Require Import sorting.
From S2P Require Import Prelude.
From S2P Require Import Format.
From S2P Require Import Timestamp.
From S2P Require Import StringPiece.
From S2P Require Import Buffer.
From S2P Require Import TimeZone.
From S2P Require Import TimeZoneFacts.
From S2P Require Import LogStream.
From S2P Require Import FileUtil.
From S2P Require Import ProcessInfo.
From S2P Require Import LogFile.
From S2P Require Import AsyncLogging.
From S2P Require Import AsyncLoggingFacts.
From S2P Require Import CurrentThread.
From S2P Require Import Logging.
From S2P Require Import LoggingFacts.

(** * Formatting *)

(** C36: a log stream is a bounded log.  Whatever is streamed into a buffer, no write leaves the
    array, and the text is exactly that of the items in order, where an item that finds less
    room than it asks for (32 bytes for a number) is left out completely. *)
Theorem log_stream_takes_whole_items xs b :
  fixed_ok b → Forall item_ok xs →
  ∃ b', put_all xs b = Ok b' ∧ fixed_ok b' ∧ zlen (data_ b') = zlen (data_ b) ∧
        logged b' = fold_left (spec_put (zlen (data_ b))) xs (logged b).
Proof. apply put_all_ok. Qed.

Lemma log_stream_takes_whole_items_witness :
  let b := new_FixedBuffer (replicate 40 Byte.x00) in
  let xs := [LInt (-7); LCString (Some (bytes_of_string "x" ++ [Byte.x00])); LBool true; LInt 5] in
  ∃ b', put_all xs b = Ok b' ∧ fixed_ok b' ∧ zlen (data_ b') = zlen (data_ b) ∧
        logged b' = fold_left (spec_put (zlen (data_ b))) xs (logged b).
Proof.
  cbv zeta. apply log_stream_takes_whole_items; [by unfold fixed_ok; vm_compute|].
  repeat (apply list.Forall_cons; split); [unfold item_ok, in_i32; lia| |done|unfold item_ok, in_i32; lia|constructor].
  split; [right; left|by vm_compute].
Defined.

(** Integers print correctly.  The library's [convert] gives the decimal digits printf
    gives, for every signed or unsigned 64-bit value, the most negative one included, in at most 21
    characters; [convertHex] gives hexadecimal digits of the same value, at most 16. *)
Theorem integers_print v :
  - 2 ^ 63 ≤ v < 2 ^ 64 →
  convert v = Ok (decimal v) ∧ 0 < zlen (decimal v) ≤ 21 ∧
  ∃ s, convertHex (u64 v) = Ok s ∧ hex_value s = u64 v ∧ 0 < zlen s ≤ 16.
Proof.
  intros Hv. split; [apply convert_decimal; lia|]. split; [apply decimal_len; lia|].
  apply convertHex_ok. apply u64_range.
Qed.

Lemma integers_print_witness : convert (- 2 ^ 63) = Ok (bytes_of_string "-9223372036854775808").
Proof. destruct (integers_print (- 2 ^ 63)) as [E _]; [lia|]. rewrite E. by vm_compute. Defined.

(** * Asynchronous logging *)

(** C14: nothing is lost or reordered between the threads.  In every interleaving of any number
    of appending threads, the back end and [stop], as long as no flood of more than 25 buffers
    forced a drop, the lines appended so far are in order what the log file was given, what the back
    end holds and what the front end holds; only a line as large as a whole buffer is left out. *)
Theorem async_nothing_lost s :
  reachable s → floods s = 0%nat →
  concat (map kept (submitted s)) = concat (output s) ++ taken (back s) ++ collected (async s).
Proof. intros Hs. apply reachable_consistent in Hs. apply Hs. Qed.

(** The asserts of the logger hold.  In every interleaving an [append] returns, the back end
    finds both of its spare buffers empty at the top of its loop, always has buffers to refill them
    from, and no null [BufferPtr] is used, floods included. *)
Theorem async_asserts_hold s :
  reachable s →
  (∀ junk line, buffer_memory junk → zlen line < 2 ^ 31 → is_ok (append junk line (zlen line) (async s)) = true) ∧
  match back s with
  | BStart => running_ (async s) = true
  | BTop b => top_asserts b = Ok tt
  | BLock b | BWait b => is_ok (swap_buffers (async s) b) = true
  | BWrite b => ∀ now, is_ok (write_round now b) = true
  | BDone => True
  end.
Proof. apply no_failure. Qed.


(** Memory for the buffers of the examples. *)
Lemma memory_exists : ∃ junk, buffer_memory junk.
Proof.
  exists (replicate (Z.to_nat kLargeBuffer) Byte.x00). unfold buffer_memory.
  rewrite zlen_replicate. apply Z2Nat.id. by vm_compute.
Qed.

(** A logger that was started and given one line [l], the back end at the top of its loop. *)
Definition one_line : list byte := bytes_of_string "hello".

Lemma one_line_state :
  ∃ a b, reachable (mkSystem a (BTop b) [one_line] [] 0) ∧ running_ a = true ∧ buffers_ a = [].
Proof.
  destruct memory_exists as [zeros zeros_memory].
  set (a0 := set_running true (new_AsyncLogging zeros zeros)).
  pose proof (started_intro zeros zeros zeros_memory zeros_memory) as Hst. fold a0 in Hst.
  pose proof (co_async _ (started_consistent _ Hst)) as Ha. cbn in Ha.
  destruct Ha as [(cur & Ec & Hg) _ _ _]. injection Ec as <-.
  destruct (fixed_append_fits (fixed_bzero (new_FixedBuffer zeros)) one_line Hg) as (cur' & Ea & _).
  { rewrite avail_ok by apply Hg. destruct Hg as [_ ->]. by vm_compute. }
  exists (mkAsync true (Some cur') (nextBuffer_ a0) []), (new_Backend zeros zeros). split; [|done].
  eexists. split; [exact Hst|].
  apply rtc_l with (mkSystem a0 (BTop (new_Backend zeros zeros)) [] [] 0).
  { right. apply back_start; [done|apply zeros_memory..]. }
  apply rtc_once. left. apply (front_append a0 _ [] [] 0 _ zeros one_line); [apply zeros_memory|by vm_compute|].
  unfold append, a0. cbn [currentBuffer_ set_running new_AsyncLogging ptr]. rewrite bind_Ok.
  rewrite (proj2 (Z.ltb_lt _ _)); [by rewrite Ea|].
  rewrite avail_ok by apply Hg. destruct Hg as [_ ->]. by vm_compute.
Qed.

Lemma async_nothing_lost_witness :
  ∃ s, reachable s ∧ submitted s = [one_line] ∧ output s = [] ∧ collected (async s) = one_line.
Proof.
  destruct one_line_state as (a & b & Hr & _ & _). eexists. split; [exact Hr|].
  split; [done|]. split; [done|]. pose proof (async_nothing_lost _ Hr eq_refl) as E. by symmetry.
Defined.

Lemma async_asserts_hold_witness : ∃ s b, reachable s ∧ back s = BTop b ∧ top_asserts b = Ok tt.
Proof.
  destruct one_line_state as (a & b & Hr & _ & _). eexists _, b. split; [exact Hr|]. split; [done|].
  apply (async_asserts_hold _ Hr).
Defined.


(** [stop] loses the last lines.  Once the back end has left its loop nothing more is given to
    the file, and it leaves without looking at the buffers again: a line appended before [stop] by the
    same thread, while the back end was writing, is never written. *)
Theorem stop_loses_last_lines :
  (∀ s s', back s = BDone → rtc step s s' → back s' = BDone ∧ output s' = output s) ∧
  ∃ s, reachable s ∧ back s = BDone ∧ submitted s = [one_line] ∧ floods s = 0%nat ∧ concat (output s) = [].
Proof.
  split.
  { intros s s' Hb Hr. induction Hr as [|x y z [H1|H1] _ IH]; [done| |].
    - destruct H1; cbn in *; by apply IH.
    - destruct H1; by cbn in *. }
  destruct memory_exists as [junk Hj]. pose proof (started_intro junk junk Hj Hj) as Hst.
  set (a0 := set_running true (new_AsyncLogging junk junk)) in *. set (b0 := new_Backend junk junk).
  pose proof (ready_new _ _ Hj Hj) as Hb0. pose proof (co_async _ (started_consistent _ Hst)) as Ha0. cbn in Ha0.
  destruct (swap_buffers_ok a0 b0 Ha0 Hb0) as (a1 & b1 & E1 & Ha1 & Hr1 & Hw1 & _ & Hch & Hlen).
  destruct (append_ok a1 junk one_line Ha1 Hj) as (a2 & E2 & _ & Hr2 & _); [by vm_compute|].
  destruct (write_round_ok [] b1 Hw1) as (lines & b2 & E3 & _ & Hlines & _).
  exists (mkSystem (set_running false a2) BDone [one_line] ([] ++ lines) (if 25 <? zlen (buffersToWrite b1) then 1 else 0)).
  assert (Hfl : (25 <? zlen (buffersToWrite b1)) = false) by (apply Z.ltb_ge; unfold zlen; rewrite Hlen; cbn; lia).
  split_and!; cbn; try done; [|by rewrite Hfl|].
  - eexists. split; [exact Hst|].
    eapply rtc_l; [right; apply (back_start a0 _ _ _ junk junk); done|].
    eapply rtc_l; [right; apply back_test; [done|by apply top_asserts_ok]|].
    eapply rtc_l; [right; by apply back_wait|].
    eapply rtc_l; [right; by apply back_wake|].
    eapply rtc_l; [left; apply (front_append a1 _ [] [] 0 a2 junk one_line); [done|by vm_compute|done]|].
    eapply rtc_l; [left; by apply front_stop|].
    eapply rtc_l; [right; by eapply back_write|].
    apply rtc_once. right. by apply back_end.
  - rewrite Hlines by (rewrite Hlen; cbn; lia). rewrite Hch. unfold collected, a0. cbn. apply fresh_logged.
    by apply fresh_bzero, fresh_new.
Qed.

Lemma stop_loses_last_lines_witness : ∃ s, back s = BDone ∧ submitted s = [one_line] ∧ concat (output s) = [].
Proof. destruct stop_loses_last_lines as [_ (s & _ & H1 & H2 & _ & H3)]. by exists s. Defined.

(** * Files *)
Section files.
  Context `{!Stdio}.

(** C35: appending to a file ends.  [AppendFile::append] returns for every answer of fwrite, short
    writes included; the file got a prefix of the line, all of it unless fwrite accepted nothing, yet
    [writtenBytes_] counts the whole line in either case. *)
Theorem append_file_writes f logline o :
  zlen logline < 2 ^ 63 →
  ∃ o' k, file_append f logline (zlen logline) o = Ok (mkAppendFile (fp_ f) (i64 (writtenBytes_ f + zlen logline)), o') ∧
    0 ≤ k ≤ zlen logline ∧ io o' = io o ++ map (pair (fp_ f)) (ztake k logline) ∧
    (k < zlen logline → ∃ o1 o2 d, fwrite_unlocked (fp_ f) d o1 = (o2, 0) ∧ d ≠ []).
Proof. apply file_append_ok. Qed.
End files.

Section reading.
  Context `{!ReadFd}.

(** Reading a small file.  [readFile] on an open file returns for every sequence of short reads;
    without a read error the string is the file's first [maxSize] bytes.  With the default null pointers the
    error it returns is whatever errno was before, unless a read failed. *)
Theorem read_file_reads r junk sjunk errno maxSize content :
  0 ≤ maxSize < 2 ^ 31 →
  ∃ err c, readFile (inl r) junk sjunk errno maxSize content = Ok (err, c) ∧ c `prefix_of` rest r ∧ zlen c ≤ maxSize ∧
    (err = errno ∧ c = ztake maxSize (rest r) ∨ ∃ r1 n r2, read_fd r1 n = (r2, ReadError err)).
Proof.
  intros Hm. unfold readFile, readToString, new_ReadSmallFile, stat_part. cbn [rsf_fd]. rewrite bind_Ok.
  destruct (read_loop_ok (Z.to_nat (u64 maxSize)) maxSize [] r errno) as (c & r' & e & E & Hpre & Hle & Hcase);
    [done|by change (zlen (@nil byte)) with 0; lia|rewrite u64_small by lia; change (zlen (@nil byte)) with 0; lia|].
  rewrite E. cbn [mbind outcome_bind]. exists e, c. cbn [app] in *. split_and!; try done.
  by rewrite Z.sub_0_r in Hcase.
Qed.
End reading.

Section log_file.
  Context `{!Stdio, !LogEnv, !CLibrary, !Healthy}.

(** C26: log lines reach the files whole and in order.  On a system where files open and writes
    succeed, a [LogFile] over any clock writes every line appended to it exactly once, completely into one
    file, in the order of the calls, whenever and however often it rolls. *)
Theorem log_lines_reach_files base size interval n ls o :
  healthy o → Forall (λ l, zlen l < 2 ^ 31) ls →
  ∃ f f' o1 o' gs, new_LogFile base size interval n o = Ok (f, o1) ∧ append_lines ls f o1 = Ok (f', o') ∧
    length gs = length ls ∧ io o' = io o ++ concat (zip_with (λ g l, map (pair g) l) gs ls).
Proof.
  intros Ho Hls. destruct (new_LogFile_ok base size interval n o Ho) as (f & o1 & E1 & Ho1 & Hf & Hio).
  destruct (append_lines_ok ls f o1 Ho1 Hf Hls) as (f' & o' & gs & E2 & _ & _ & Hlen & Hio2).
  exists f, f', o1, o', gs. split_and!; try done. by rewrite Hio2, Hio.
Qed.

(** Rolling twice within a second.  A file that exceeds its size in the second it was opened is
    renamed all the same, but no new file is opened: the lines that follow go to the renamed file. *)
Theorem roll_in_same_second l f a o :
  healthy o → file_ f = Some a → zlen l < 2 ^ 31 →
  (∀ o' n, fwrite_unlocked (fp_ a) l o = (o', n) → (time o').2 ≤ lastRoll_ f) →
  rollSize_ f < i64 (writtenBytes_ a + zlen l) →
  ∃ o1 name stamp, append_unlocked l (zlen l) f o =
    Ok (set_file (mkAppendFile (fp_ a) (i64 (writtenBytes_ a + zlen l))) f,
        rename (until_nul name) (until_nul (name ++ stamp)) o1).
Proof. apply roll_same_second. Qed.


End log_file.

(** * A concrete system: files take everything, the clock stands still *)
Record demo_os := mkOs { next_file : Z; bytes_out : list (Z * byte); names : list (list byte * list byte) }.

#[export] Instance demo_stdio : Stdio.
Proof.
  refine {| os := demo_os; FILE := Z;
            fopen_append _ o := (mkOs (next_file o + 1) (bytes_out o) (names o), Some (next_file o));
            fwrite_unlocked f d o := (mkOs (next_file o) (bytes_out o ++ map (pair f) d) (names o), zlen d);
            ferror _ _ := false; fflush _ o := o; fclose _ o := o; io := bytes_out |}; try done.
  intros f d o o' n [= <- <-]. split; [split; [apply zlen_nonneg|done]|]. cbn. by rewrite ztake_all by lia.
Defined.

#[export] Instance demo_log_env : LogEnv.
Proof.
  refine {| time o := (o, 1700000000); gethostname _ := None;
            rename a b o := mkOs (next_file o) (bytes_out o) (names o ++ [(a, b)]) |}; done.
Defined.

#[export] Instance demo_healthy : Healthy.
Proof.
  refine {| healthy _ := True |}; try done.
  - intros f d o o' n _ [= _ <-]. done.
  - intros o _. split; [done|]. split; [done|]. eexists. split; [by vm_compute|]. split; by vm_compute.
Defined.

Definition demo_disk : demo_os := mkOs 0 [] [].

(** Two lines, of which the first fills the file: both are in file 0, which was renamed twice. *)
Example demo_roll :
  match ('(f, o) ← new_LogFile (bytes_of_string "/tmp/x.") 4 3 1024 demo_disk;
         append_lines [bytes_of_string "hello"; bytes_of_string "!"] f o) with
  | Ok (_, o) => (io o, map snd (names o)) =
      (map (pair 0) (bytes_of_string "hello!"),
       replicate 2 (bytes_of_string "/tmp/x.20231114.unknownhost.log-20231114_221320.roll"))
  | Fail _ => False
  end.
Proof. by vm_compute. Qed.

Lemma append_file_writes_witness :
  ∃ o' k, file_append (@mkAppendFile demo_stdio 3 0) one_line 5 demo_disk = Ok (@mkAppendFile demo_stdio 3 5, o') ∧
    0 ≤ k ≤ 5 ∧ io o' = map (pair 3) (ztake k one_line).
Proof.
  destruct (@append_file_writes demo_stdio (@mkAppendFile demo_stdio 3 0) one_line demo_disk) as (o' & k & E & Hk & Hio & _); [by vm_compute|].
  by exists o', k.
Defined.

(** A descriptor that delivers three bytes at a time. *)
#[export] Instance demo_readfd : ReadFd.
Proof.
  refine {| rfd := list byte; read_fd r n := (zdrop (n `min` 3) r, ReadBytes (ztake (n `min` 3) r));
            pread_fd r n := ReadBytes (ztake n r); fstat_fd _ := None; rest r := r; whole r := r |}.
  - intros r n r' bs Hn [= <- <-]. split; [by rewrite ztake_zdrop|]. split.
    + destruct (Z.le_ge_cases (zlen r) (n `min` 3)).
      * rewrite ztake_all by done. lia.
      * rewrite zlen_ztake by lia. lia.
    + intros E. destruct r as [|b r]; [by right|left]. destruct (decide (n = 0)); [done|].
      unfold ztake in E. assert (∃ k, Z.to_nat (n `min` 3) = S k) as [k Ek] by (exists (Z.to_nat (n `min` 3 - 1)); lia).
      by rewrite Ek in E.
  - intros r n bs Hn [= <-]. split; [apply prefix_take|]. destruct (Z.le_ge_cases (zlen r) n).
    + rewrite ztake_all by done. lia.
    + rewrite zlen_ztake by lia. lia.
Defined.

Lemma read_file_reads_witness :
  @readFile demo_readfd (inl one_line) (replicate 8 Byte.x00) (mkStat 0 0 0 false) 7 4 [] = Ok (7, bytes_of_string "hell").
Proof.
  destruct (@read_file_reads demo_readfd one_line (replicate 8 Byte.x00) (mkStat 0 0 0 false) 7 4 []) as (err & c & E & _ & _ & H).
  { lia. }
  destruct H as [[-> ->]|(r1 & n & r2 & H)]; [exact E|discriminate H].
Defined.

Lemma log_lines_reach_files_witness :
  ∃ f f' o1 o' gs, new_LogFile [] 4 3 1024 demo_disk = Ok (f, o1) ∧
    append_lines [one_line; bytes_of_string "!"] f o1 = Ok (f', o') ∧ length gs = 2%nat ∧
    io o' = concat (zip_with (λ g l, map (pair g) l) gs [one_line; bytes_of_string "!"]).
Proof.
  apply (@log_lines_reach_files demo_stdio demo_log_env demo_clibrary demo_healthy [] 4 3 1024 [one_line; bytes_of_string "!"] demo_disk I).
  apply list.Forall_cons; split; [by vm_compute|apply list.Forall_singleton; by vm_compute].
Defined.

(** A log file that holds four bytes, opened in the second the clock shows. *)
Definition demo_log : LogFile := @mkLogFile demo_stdio [] 4 3 1024 0 (Some (@mkAppendFile demo_stdio 0 4)) 0 1700000000 0.

Lemma roll_in_same_second_witness :
  ∃ o1 name stamp, append_unlocked (bytes_of_string "!") 1 demo_log demo_disk =
    Ok (set_file (@mkAppendFile demo_stdio 0 5) demo_log, rename (until_nul name) (until_nul (name ++ stamp)) o1).
Proof.
  apply (@roll_in_same_second demo_stdio demo_log_env demo_clibrary demo_healthy (bytes_of_string "!") demo_log (@mkAppendFile demo_stdio 0 4) demo_disk I eq_refl);
    [by vm_compute| |by vm_compute]. intros o' n _. cbn. lia.
Defined.


(** * Process information *)

(** The process name.  [procname] finds the name in a line of /proc/pid/stat whatever characters
    the name holds: spaces, parentheses, anything. *)
Theorem procname_any_name pid comm fields :
  Byte.x28 ∉ pid → Byte.x29 ∉ fields → zlen comm < 2 ^ 31 →
  let name := procname (pid ++ Byte.x28 :: comm ++ Byte.x29 :: fields) in
  StringPiece.valid name ∧ view name = comm.
Proof. apply procname_ok. Qed.

Lemma procname_any_name_witness :
  view (procname (bytes_of_string "42 (a) (b)) S 1")) = bytes_of_string "a) (b)".
Proof.
  refine (proj2 (procname_any_name (bytes_of_string "42 ") (bytes_of_string "a) (b)") (bytes_of_string " S 1") _ _ _));
    [by apply (bool_decide_eq_true_1 _)|by apply (bool_decide_eq_true_1 _)|by vm_compute].
Defined.

(** The thread list.  On the names of /proc/self/task, [threads] returns the thread ids, each
    once, in increasing order, and skips every name that does not start with a digit. *)
Theorem threads_sorted pids others :
  Forall (λ p, 0 ≤ p < 2 ^ 31) pids → Forall (λ d, numeric d = false) others →
  ∃ r, threads true (Some (others ++ map decimal pids)) = Ok r ∧ r ≡ₚ pids ∧ Sorted Z.le r.
Proof. apply threads_total. Qed.

Lemma threads_sorted_witness :
  ∃ r, threads true (Some ([bytes_of_string "."; bytes_of_string ".."] ++ map decimal [10; 9])) = Ok r ∧
    r ≡ₚ [10; 9] ∧ Sorted Z.le r.
Proof.
  apply (threads_sorted [10; 9] [bytes_of_string "."; bytes_of_string ".."]);
    repeat (apply list.Forall_cons; split); try done; lia.
Defined.

Section logging.
  Context `{!CLibrary} `{!CurrentThread} `{!StrError}.

(** C28: what a log statement writes.  A statement that is enabled calls the output function once
    with one line: date, time and microseconds of the clock, the thread's id, the level, the error of
    LOG_SYSERR, the function of LOG_TRACE and LOG_DEBUG, the items streamed, the name of the source
    file without its directories and the line number, ended by a newline.  An item that finds no
    room in the 4000 bytes is left out, the rest comes out in order; the line is always shorter than
    that.  No assert fails, whatever the thread logged before.  A FATAL statement then prints the
    buffer on [std::cout] up to the first NUL, wherever that is, flushes and aborts. *)
Theorem log_line g st dir base line errno sec usec memory xs t u :
  thread_ok g t → clock_shows g sec usec u → 0 < gettid < 2 ^ 31 → zlen memory = kSmallBuffer →
  path dir base → zlen base < 2 ^ 30 → in_i32 line → in_i32 errno → func_ok st → Forall item_ok xs → enabled g st = true →
  ∃ t' tail, thread_ok g t' ∧
    let items := line_items g u usec st errno xs base line in
    let msg := fold_left (spec_put kSmallBuffer) items [] in
    zlen msg < kSmallBuffer ∧ zlen (msg ++ tail) = kSmallBuffer ∧
    (zlen (concat (map prints items)) + 32 ≤ kSmallBuffer → msg = concat (map prints items)) ∧
    log_statement g st (string_data (dir ++ base)) line errno sec usec memory xs t =
      if decide (statement_level st = FATAL) then
        n ← strlen (msg ++ tail);
        Ok ([Output (g_output g) msg; Cout (ztake n (msg ++ tail)); Flush (g_flush g); Aborts], t')
      else Ok ([Output (g_output g) msg], t').
Proof.
  intros [Hc Ht] Hclock Hg Hm Hp Hb Hl He Hf Hxs Hen.
  destruct (clock_cache g sec usec u t Hc Hclock) as (t1 & Hs & Hc1).
  destruct (log_statement_shows g st dir base line errno sec usec memory xs t t1 u Ht Hs Hg Hm Hp Hb Hl He Hf Hxs Hen)
    as (t' & tail & Hst & Hlen & E).
  exists t', tail. split; [by eapply same_time_ok|]. cbv zeta in *. split_and!; [|done| |].
  - by apply spec_put_bound; [apply line_items_room|].
  - intros Hfit. by rewrite spec_put_fits.
  - rewrite E. unfold output_of. destruct (decide _); [|done]. by destruct (strlen _).
Qed.

(** A new time zone comes late.  [setTimeZone] leaves the cached time alone: in a second in
    which the thread has logged before, its lines go on showing the old zone's time, now marked as
    the new zone's, whatever that zone is. *)
Theorem new_zone_comes_late g tz st dir base line errno sec usec memory xs t u :
  thread_ok g t → t_lastSecond t = sec → clock_shows g sec usec u → 0 < gettid < 2 ^ 31 → zlen memory = kSmallBuffer →
  path dir base → zlen base < 2 ^ 30 → in_i32 line → in_i32 errno → func_ok st → Forall item_ok xs → enabled g st = true →
  statement_level st ≠ FATAL →
  ∃ t', log_statement (setTimeZone tz g) st (string_data (dir ++ base)) line errno sec usec memory xs t =
    Ok ([Output (g_output g) (fold_left (spec_put kSmallBuffer)
           (line_items (setTimeZone tz g) u usec st errno xs base line) [])], t').
Proof.
  intros [Hc Ht] Esec Hclock Hg Hm Hp Hb Hl He Hf Hxs Hen Hfatal.
  pose proof (stale_cache g tz sec usec u t Hc Esec Hclock) as Hs.
  destruct (log_statement_shows (setTimeZone tz g) st dir base line errno sec usec memory xs t t u Ht Hs Hg Hm Hp Hb Hl He Hf Hxs)
    as (t' & tail & Hst & Hlen & E); [by destruct st|].
  exists t'. rewrite E. unfold output_of. by rewrite decide_False.
Qed.
End logging.

(** * Examples *)
#[local] Instance demo_tid : CurrentThread := {| gettid := 1234 |}.

#[local] Instance demo_strerror : StrError.
Proof.
  refine {| strerror_tl _ := string_data (bytes_of_string "Bad file descriptor") |}.
  intros e. split; [by apply (bool_decide_eq_true_1 _)|by vm_compute].
Defined.

Definition demo_globals : log_globals := initial_globals false false [].
Definition demo_memory : list byte := replicate 4000 Byte.x41.

(** The first line of a thread. *)
Example demo_output :
  fst <$> log_statement demo_globals LOG_SYSERR (string_data (bytes_of_string "net/Socket.cpp")) 17 9 1700000000 42
    demo_memory [LString (bytes_of_string "close")] initial_log_locals =
  Ok [Output defaultLogFunc (bytes_of_string "20231114 22:13:20.000042Z  1234 ERROR Bad file descriptor (errno=9) close - Socket.cpp:17" ++ [Byte.x0a])].
Proof. by vm_compute. Qed.

Lemma demo_clock : ∃ u, clock_shows demo_globals 1700000000 42 u.
Proof.
  eexists. split; [done|]. split; [done|]. split; [by vm_compute|].
  repeat split; by apply (bool_decide_eq_true_1 _).
Qed.

Lemma demo_path : path (bytes_of_string "net/") (bytes_of_string "Socket.cpp").
Proof.
  split; [by apply (bool_decide_eq_true_1 _)|]. split; [by apply (bool_decide_eq_true_1 _)|].
  right. by exists (bytes_of_string "net").
Qed.

Lemma log_line_witness :
  ∃ t' u tail,
    let msg := fold_left (spec_put kSmallBuffer) (line_items demo_globals u 42 LOG_INFO 0 [LInt 7] (bytes_of_string "Socket.cpp") 17) [] in
    thread_ok demo_globals t' ∧ zlen msg < kSmallBuffer ∧ zlen (msg ++ tail) = kSmallBuffer ∧
    log_statement demo_globals LOG_INFO (string_data (bytes_of_string "net/" ++ bytes_of_string "Socket.cpp")) 17 0 1700000000 42
      demo_memory [LInt 7] initial_log_locals = Ok ([Output defaultLogFunc msg], t').
Proof.
  destruct demo_clock as [u Hu].
  destruct (log_line demo_globals LOG_INFO (bytes_of_string "net/") (bytes_of_string "Socket.cpp") 17 0 1700000000 42
    demo_memory [LInt 7] initial_log_locals u (thread_ok_initial _) Hu) as (t' & tail & Ht & Hm & Hl & _ & E);
    [by vm_compute|by vm_compute|apply demo_path|by vm_compute|by vm_compute|by vm_compute|done| |done|].
  { apply list.Forall_singleton. by vm_compute. }
  exists t', u, tail. split; [exact Ht|]. split; [exact Hm|]. split; [exact Hl|exact E].
Defined.

(** A thread that has logged in that second, before the zone is set to one hour east. *)
Lemma new_zone_comes_late_witness :
  ∃ u t' tz, tz_valid tz = true ∧
    log_statement (setTimeZone tz demo_globals) LOG_INFO (string_data (bytes_of_string "net/" ++ bytes_of_string "Socket.cpp")) 17 0
      1700000000 42 demo_memory [] (mkLogLocals initial_locals (string_data (time_text u)) 1700000000) =
    Ok ([Output defaultLogFunc (fold_left (spec_put kSmallBuffer)
           (line_items (setTimeZone tz demo_globals) u 42 LOG_INFO 0 [] (bytes_of_string "Socket.cpp") 17) [])], t').
Proof.
  destruct demo_clock as [u Hu]. set (tz := TimeZone_fixed 3600 (string_data (bytes_of_string "CET"))).
  destruct (new_zone_comes_late demo_globals tz LOG_INFO (bytes_of_string "net/") (bytes_of_string "Socket.cpp") 17 0 1700000000 42
    demo_memory [] (mkLogLocals initial_locals (string_data (time_text u)) 1700000000) u) as (t' & E);
    [ |done|exact Hu|by vm_compute|by vm_compute|apply demo_path|by vm_compute|by vm_compute|by vm_compute|done|done|done|done| ].
  - split; [|by left]. right. exists u. pose proof Hu as (_ & _ & Hu1 & Hu2). split_and!; [done|done|].
    apply c_string_literal, time_text_17, Hu2.
  - exists u, t', tz. split; [done|exact E].
Defined.

(** LOG_FATAL prints the line again from the buffer, which is not ended by a NUL: it shows what the
    memory held before, and reads past the array if there is no NUL in it. *)
Theorem fatal_line_unterminated :
  let log memory := fst <$> log_statement demo_globals LOG_FATAL (string_data (bytes_of_string "a.cpp")) 1 0 1700000000 42
    memory [] initial_log_locals in
  log (replicate 4000 Byte.x41) = Fail UndefinedBehaviour ∧
  let msg := bytes_of_string "20231114 22:13:20.000042Z  1234 FATAL  - a.cpp:1" ++ [Byte.x0a] in
  log (replicate 60 Byte.x41 ++ replicate 3940 Byte.x00) =
    Ok [Output defaultLogFunc msg; Cout (msg ++ replicate 11 Byte.x41); Flush defaultLogFunc; Aborts].
Proof. split; by vm_compute. Qed.
