(* ===== verification/SocketsOps.v ===== *)
(** Socket calls and addresses: networker/net/SocketsOps.h and SocketsOps.cpp.

    A [sockaddr_in6] is its 28 bytes in memory; the casts between the address types
    reinterpret these bytes, so the family, the port and the addresses are read at their
    offsets.  The system calls are parameters (class [SocketKernel], with the current
    [errno]); inet_ntop(3) and inet_pton(3) are class [InetText]. *)
From S2P Require Import Prelude.
From S2P Require Import Endian.
From S2P Require Import Format.
From S2P Require Import StringPiece.
From S2P Require Import Buffer.

(** * Addresses in memory *)
Abbreviation sockaddr := (list byte).

Definition AF_INET : Z := 2.
Definition AF_INET6 : Z := 10.
Definition INET_ADDRSTRLEN : Z := 16.
Definition INET6_ADDRSTRLEN : Z := 46.
Definition sizeof_in6 : Z := 28.
Definition sizeof_in : Z := 16.

Section memory.
  Context `{!Host}.

Definition field16 (off : Z) (a : sockaddr) : Z := object_value (zslice off 2 a).
Definition field32 (off : Z) (a : sockaddr) : Z := object_value (zslice off 4 a).
Definition put16 (off v : Z) (a : sockaddr) : sockaddr := zblit off (object_bytes 2 v) a.
Definition put32 (off v : Z) (a : sockaddr) : sockaddr := zblit off (object_bytes 4 v) a.

(** [sin_family] and [sin6_family], [sin_port] and [sin6_port] have the same offsets. *)
Definition sa_family : sockaddr → Z := field16 0.
Definition sin_port : sockaddr → Z := field16 2.
Definition sin_addr (a : sockaddr) : list byte := zslice 4 4 a.
Definition sin6_addr (a : sockaddr) : list byte := zslice 8 16 a.
Definition set_family (v : Z) : sockaddr → sockaddr := put16 0 v.
Definition set_port (v : Z) : sockaddr → sockaddr := put16 2 v.
Definition set_sin_addr (ip : list byte) : sockaddr → sockaddr := zblit 4 ip.
Definition set_sin6_addr (ip : list byte) : sockaddr → sockaddr := zblit 8 ip.

(** [memZero]. *)
Definition memZero (n : Z) (a : sockaddr) : sockaddr := zblit 0 (replicate (Z.to_nat n) Byte.x00) a.

(** A zeroed [sockaddr_in6]. *)
Definition zero_in6 : sockaddr := replicate 28 Byte.x00.

(** [sockaddr_cast], [sockaddr_in_cast], [sockaddr_in6_cast]: another pointer type to the same bytes. *)
Definition sockaddr_cast (addr : sockaddr) : sockaddr := addr.
End memory.

(** * The C library *)

(** The bytes of an address as text and back; [None] when the text is no address. *)
Class InetText := {
  ntop4 : list byte → list byte;
  ntop6 : list byte → list byte;
  pton4 : list byte → option (list byte);
  pton6 : list byte → option (list byte);
  ntop4_text ip : zlen ip = 4 → zlen (ntop4 ip) < INET_ADDRSTRLEN ∧ Byte.x00 ∉ ntop4 ip;
  ntop6_text ip : zlen ip = 16 → zlen (ntop6 ip) < INET6_ADDRSTRLEN ∧ Byte.x00 ∉ ntop6 ip;
  pton4_size s ip : pton4 s = Some ip → zlen ip = 4;
  pton6_size s ip : pton6 s = Some ip → zlen ip = 16;
  pton4_ntop4 ip : zlen ip = 4 → pton4 (ntop4 ip) = Some ip;
  pton6_ntop6 ip : zlen ip = 16 → pton6 (ntop6 ip) = Some ip
}.

Section text.
  Context `{!Host, !InetText}.

(** [toIp(buf, size, addr)]: what is in [buf] up to its NUL; [buf] starts as the string [old]. *)
Definition toIp (old : list byte) (size : Z) (a : sockaddr) : outcome (list byte) :=
  if sa_family a =? AF_INET then
    _ ← require (INET_ADDRSTRLEN <=? size); Ok (ntop4 (sin_addr a))
  else if sa_family a =? AF_INET6 then
    _ ← require (INET6_ADDRSTRLEN <=? size); Ok (ntop6 (sin6_addr a))
  else Ok old.

Definition toIpPort (old : list byte) (size : Z) (a : sockaddr) : outcome (list byte) :=
  ip ← toIp old size a;
  let end_ := zlen ip in
  let port := networkToHost16 (sin_port a) in
  _ ← require (end_ <? size);
  let '(s, _) := snprintf (size - end_) (bytes_of_string ":" ++ decimal port) in
  Ok (ip ++ s).

(** [fromIpPort]: on a text that is no address only the log says so. *)
Definition fromIpPort4 (ip : list byte) (port : Z) (a : sockaddr) : sockaddr :=
  let a := set_port (hostToNetwork16 port) (set_family AF_INET a) in
  match pton4 (until_nul ip) with Some bs => set_sin_addr bs a | None => a end.

Definition fromIpPort6 (ip : list byte) (port : Z) (a : sockaddr) : sockaddr :=
  let a := set_port (hostToNetwork16 port) (set_family AF_INET6 a) in
  match pton6 (until_nul ip) with Some bs => set_sin6_addr bs a | None => a end.
End text.

(** * System calls *)
Definition EPERM : Z := 1.
Definition EINTR : Z := 4.
Definition EBADF : Z := 9.
Definition EAGAIN : Z := 11.
Definition ENOMEM : Z := 12.
Definition EACCES : Z := 13.
Definition EFAULT : Z := 14.
Definition EINVAL : Z := 22.
Definition ENFILE : Z := 23.
Definition EMFILE : Z := 24.
Definition EPROTO : Z := 71.
Definition ENOTSOCK : Z := 88.
Definition EOPNOTSUPP : Z := 95.
Definition EAFNOSUPPORT : Z := 97.
Definition EADDRINUSE : Z := 98.
Definition EADDRNOTAVAIL : Z := 99.
Definition ENETUNREACH : Z := 101.
Definition ECONNABORTED : Z := 103.
Definition ENOBUFS : Z := 105.
Definition EISCONN : Z := 106.
Definition ECONNREFUSED : Z := 111.
Definition EALREADY : Z := 114.
Definition EINPROGRESS : Z := 115.

(** The options the library sets. *)
Inductive sockopt := SO_REUSEADDR | SO_REUSEPORT | SO_KEEPALIVE | TCP_NODELAY.

(** A call answers a non-negative number, or -1 and sets [errno].  [open_fds] are the
    descriptors of the process. *)
Class SocketKernel := {
  kernel : Type;
  errno : kernel → Z;
  open_fds : kernel → gset Z;
  k_socket : Z → kernel → kernel * Z;
  k_bind : Z → sockaddr → kernel → kernel * Z;
  k_listen : Z → kernel → kernel * Z;
  k_accept : Z → kernel → kernel * Z * sockaddr;   (** the descriptor and the peer's address *)
  k_connect : Z → sockaddr → kernel → kernel * Z;
  k_close : Z → kernel → kernel * Z;
  k_fcntl : Z → kernel → kernel;                   (** one fcntl(2) call on the descriptor *)
  k_setsockopt : Z → sockopt → Z → kernel → kernel * Z;
  k_shutdown : Z → kernel → kernel * Z;            (** shutdown(2) of the writing side *)
  k_open_null : kernel → kernel * Z;               (** [open("/dev/null")] *)
  k_so_error : Z → kernel → kernel * option Z;     (** [SO_ERROR], unless getsockopt fails *)
  k_getsockname : Z → kernel → option sockaddr;
  k_getpeername : Z → kernel → option sockaddr;
  open_fds_nonneg k fd : fd ∈ open_fds k → 0 ≤ fd;
  (** Descriptors are created by the calls that answer one and released by close. *)
  socket_law d k k' fd : k_socket d k = (k', fd) →
    0 ≤ fd ∧ fd ∉ open_fds k ∧ open_fds k' = {[fd]} ∪ open_fds k ∨ fd = -1 ∧ open_fds k' = open_fds k;
  accept_law s k k' fd a : k_accept s k = (k', fd, a) → zlen a = sizeof_in6 ∧
    (0 ≤ fd ∧ fd ∉ open_fds k ∧ open_fds k' = {[fd]} ∪ open_fds k ∨ fd = -1 ∧ open_fds k' = open_fds k);
  open_null_law k k' fd : k_open_null k = (k', fd) →
    0 ≤ fd ∧ fd ∉ open_fds k ∧ open_fds k' = {[fd]} ∪ open_fds k ∨ fd = -1 ∧ open_fds k' = open_fds k;
  close_law fd k : open_fds (k_close fd k).1 = open_fds k ∖ {[fd]};
  (** The other calls leave the descriptors alone; on a negative one they fail with [EBADF]. *)
  bind_fds fd a k : open_fds (k_bind fd a k).1 = open_fds k;
  listen_fds fd k : open_fds (k_listen fd k).1 = open_fds k;
  connect_fds fd a k : open_fds (k_connect fd a k).1 = open_fds k;
  fcntl_fds fd k : open_fds (k_fcntl fd k) = open_fds k;
  setsockopt_fds fd opt v k : open_fds (k_setsockopt fd opt v k).1 = open_fds k;
  shutdown_fds fd k : open_fds (k_shutdown fd k).1 = open_fds k;
  so_error_fds fd k : open_fds (k_so_error fd k).1 = open_fds k;
  fcntl_negative fd k : fd < 0 → errno (k_fcntl fd k) = EBADF;
  bind_negative fd a k : fd < 0 → (k_bind fd a k).2 = -1;
  connect_negative fd a k : fd < 0 → (k_connect fd a k).2 = -1 ∧ errno (k_connect fd a k).1 = EBADF;
  getsockname_size fd k a : k_getsockname fd k = Some a → zlen a = sizeof_in6;
  getpeername_size fd k a : k_getpeername fd k = Some a → zlen a = sizeof_in6
}.

Section calls.
  Context `{!Host, !SocketKernel}.
  Implicit Types k : kernel.

Definition setNonBlockAndCloseOnExec (sockfd : Z) k : kernel :=
  k_fcntl sockfd (k_fcntl sockfd (k_fcntl sockfd (k_fcntl sockfd k))).

(** A failure is only reported. *)
Definition shutdownWrite (sockfd : Z) k : kernel := (k_shutdown sockfd k).1.

(** [LOG_SYSERR] reports and goes on: the result may be -1. *)
Definition createNonblockingOrDie (family : Z) k : kernel * Z := k_socket family k.

Definition bindOrDie (sockfd : Z) (a : sockaddr) k : outcome kernel :=
  let '(k, ret) := k_bind sockfd a k in
  if ret <? 0 then Fail FatalLog else Ok k.

Definition listenOrDie (sockfd : Z) k : outcome kernel :=
  let '(k, ret) := k_listen sockfd k in
  if ret <? 0 then Fail FatalLog else Ok k.

(** The errors of accept(2) that are not fatal. *)
Definition accept_tolerates (e : Z) : bool :=
  bool_decide (e ∈ [EAGAIN; ECONNABORTED; EINTR; EPROTO; EPERM; EMFILE]).

(** [sockets::accept]: the descriptor and the peer's address; both groups of other errors are
    fatal. *)
Definition accept (sockfd : Z) k : outcome (kernel * Z * sockaddr) :=
  let '(k, connfd, a) := k_accept sockfd k in
  let k := setNonBlockAndCloseOnExec connfd k in
  if connfd <? 0 then
    let savedErrno := errno k in
    if accept_tolerates savedErrno then Ok (k, connfd, a) else Fail FatalLog
  else Ok (k, connfd, a).

Definition connect (sockfd : Z) (a : sockaddr) k : kernel * Z := k_connect sockfd a k.

(** [sockets::close] only reports a failure. *)
Definition close (sockfd : Z) k : kernel := (k_close sockfd k).1.

Definition getSocketError (sockfd : Z) k : kernel * Z :=
  let '(k, r) := k_so_error sockfd k in
  match r with Some optval => (k, optval) | None => (k, errno k) end.

Definition getLocalAddr (sockfd : Z) k : sockaddr := default zero_in6 (k_getsockname sockfd k).
Definition getPeerAddr (sockfd : Z) k : sockaddr := default zero_in6 (k_getpeername sockfd k).

Definition isSelfConnect (sockfd : Z) k : bool :=
  let localaddr := getLocalAddr sockfd k in
  let peeraddr := getPeerAddr sockfd k in
  if sa_family localaddr =? AF_INET then
    (sin_port localaddr =? sin_port peeraddr) && bool_decide (sin_addr localaddr = sin_addr peeraddr)
  else if sa_family localaddr =? AF_INET6 then
    (sin_port localaddr =? sin_port peeraddr) && bool_decide (sin6_addr localaddr = sin6_addr peeraddr)
  else false.

Lemma nonblock_fds fd k : open_fds (setNonBlockAndCloseOnExec fd k) = open_fds k.
Proof. unfold setNonBlockAndCloseOnExec. by rewrite !fcntl_fds. Qed.

(** Setting the flags of a failed accept's descriptor overwrites its errno: whatever the reason,
    the error is taken for EBADF and is fatal. *)
Lemma accept_error_fatal sockfd k k' a : k_accept sockfd k = (k', -1, a) → accept sockfd k = Fail FatalLog.
Proof.
  intros E. unfold accept. rewrite E. cbn [Z.ltb]. change (-1 <? 0) with true. cbv iota.
  unfold setNonBlockAndCloseOnExec. rewrite fcntl_negative by lia.
  by replace (accept_tolerates EBADF) with false by (by vm_compute).
Qed.

Lemma accept_ok sockfd k :
  safely (accept sockfd k) (λ r, 0 ≤ r.1.2 ∧ r.1.2 ∉ open_fds k ∧ open_fds r.1.1 = {[r.1.2]} ∪ open_fds k ∧
    zlen r.2 = sizeof_in6).
Proof.
  destruct (k_accept sockfd k) as [[k' fd] a] eqn:E. destruct (accept_law _ _ _ _ _ E) as [Hz [(Hfd & Hn & Ho)|(-> & Ho)]].
  - unfold accept. rewrite E. rewrite (proj2 (Z.ltb_ge _ _)) by done. cbn. rewrite nonblock_fds. by split_and!.
  - rewrite (accept_error_fatal _ _ _ _ E). by left.
Qed.
End calls.
