(* ===== verification/InetAddress.v ===== *)
(** End points: networker/net/InetAddress.h and InetAddress.cpp.

    The object is the union of a [sockaddr_in] and a [sockaddr_in6]: 28 bytes.  What a
    constructor does not write keeps the bytes the memory had ([junk]).
    Every way to make or change an address yields a whole address of one of the two families. *)
From S2P Require Import Prelude.
From S2P Require Import Endian.
From S2P Require Import Format.
From S2P Require Import StringPiece.
From S2P Require Import Buffer.
From S2P Require Import BufferFacts.
From S2P Require Import SocketsOps.

Section inet_address.
  Context `{!Host, !InetText}.

Definition kInaddrAny : Z := 0.
Definition kInaddrLoopback : Z := 2130706433.   (** 0x7f000001 *)

(** [in6addr_any] and [in6addr_loopback]. *)
Definition in6addr (loopback : bool) : list byte :=
  replicate 15 Byte.x00 ++ [if loopback then Byte.x01 else Byte.x00].

(** [InetAddress(port, loopbackOnly, ipv6)]. *)
Definition InetAddress_of_port (junk : sockaddr) (port : Z) (loopbackOnly ipv6 : bool) : sockaddr :=
  if ipv6 then
    let a := set_family AF_INET6 (memZero sizeof_in6 junk) in
    let a := set_sin6_addr (in6addr loopbackOnly) a in
    set_port (hostToNetwork16 port) a
  else
    let a := set_family AF_INET (memZero sizeof_in junk) in
    let ip := if loopbackOnly then kInaddrLoopback else kInaddrAny in
    let a := set_sin_addr (object_bytes 4 (hostToNetwork32 ip)) a in
    set_port (hostToNetwork16 port) a.

(** [InetAddress(ip, port, ipv6)]. *)
Definition InetAddress_of_ip (junk : sockaddr) (ip : list byte) (port : Z) (ipv6 : bool) : sockaddr :=
  if ipv6 then fromIpPort6 ip port (memZero sizeof_in6 junk)
  else fromIpPort4 ip port (memZero sizeof_in junk).

(** [InetAddress(const sockaddr_in&)] writes its 16 bytes of the union, the other constructor all. *)
Definition InetAddress_of_in (junk addr : sockaddr) : sockaddr := zblit 0 addr junk.
Definition InetAddress_of_in6 (addr6 : sockaddr) : sockaddr := addr6.

Definition family (a : sockaddr) : Z := sa_family a.

Definition getSockAddr (a : sockaddr) : sockaddr := sockaddr_cast a.
Definition setSockAddrInet6 (addr6 a : sockaddr) : sockaddr := zblit 0 addr6 a.

(** [toIpPort()] and [toIp()], through a buffer of 64 bytes that starts empty. *)
Definition address_toIpPort (a : sockaddr) : outcome (list byte) := toIpPort [] 64 (getSockAddr a).
Definition address_toIp (a : sockaddr) : outcome (list byte) := toIp [] 64 (getSockAddr a).

Definition ipNetEndian (a : sockaddr) : outcome Z :=
  _ ← require (family a =? AF_INET); Ok (field32 4 a).

Definition portNetEndian (a : sockaddr) : Z := sin_port a.
Definition toPort (a : sockaddr) : Z := networkToHost16 (portNetEndian a).

(** What gethostbyname_r(3) found: type and length of the address, and its bytes. *)
Record hostent := mkHostent { h_addrtype : Z; h_length : Z; h_addr : list byte }.

(** [resolve]: [he] is the entry, if the call succeeded with one. *)
Definition resolve (he : option hostent) (out : sockaddr) : outcome (bool * sockaddr) :=
  match he with
  | Some he =>
      _ ← require ((h_addrtype he =? AF_INET) && (h_length he =? 4));
      addr ← load 0 4 (h_addr he);
      Ok (true, set_sin_addr addr out)
  | None => Ok (false, out)
  end.

Definition setScopeId (scope_id : Z) (a : sockaddr) : sockaddr :=
  if family a =? AF_INET6 then put32 24 (u32 scope_id) a else a.

(** * Reading back what was written *)
Definition address_ok (a : sockaddr) : Prop := zlen a = sizeof_in6.

Lemma object_roundtrip n z : 0 ≤ z < 256 ^ Z.of_nat n → object_value (object_bytes n z) = z.
Proof.
  intros Hz. unfold object_value, object_bytes. destruct host.
  - rewrite le_value_bytes. by apply Z.mod_small.
  - rewrite be_value_bytes. by apply Z.mod_small.
Qed.

Lemma length_object_bytes n z : length (object_bytes n z) = n.
Proof. unfold object_bytes. destruct host; [apply length_le_bytes|apply length_be_bytes]. Qed.

Lemma zlen_object_bytes n z : zlen (object_bytes n z) = Z.of_nat n.
Proof. unfold zlen. by rewrite length_object_bytes. Qed.

(** A field is read back after it is written; fields that do not overlap do not matter. *)
Lemma zslice_zblit_apart i d j n (a : sockaddr) :
  0 ≤ i → 0 ≤ j → 0 ≤ n → i + zlen d ≤ zlen a → j + n ≤ i ∨ i + zlen d ≤ j →
  zslice j n (zblit i d a) = zslice j n a.
Proof. intros ???? [?|?]; [by apply zslice_zblit_before|by apply zslice_zblit_after]. Qed.

Lemma memZero_ok n a : 0 ≤ n ≤ zlen a → zlen (memZero n a) = zlen a.
Proof. intros. unfold memZero. apply zlen_zblit; [lia|]. rewrite zlen_replicate. lia. Qed.

Lemma port_roundtrip port : 0 ≤ port < 2 ^ 16 → networkToHost16 (hostToNetwork16 port) = port.
Proof.
  intros Hp. unfold networkToHost16, hostToNetwork16. unfold u16 at 2. rewrite Z.mod_small by lia.
  unfold u16. rewrite Z.mod_small; [by apply betoh_htobe|]. by apply (htobe_bound 2).
Qed.

(** The fields of an address after its three parts were written. *)
Record shows (fam off len port : Z) (ip : list byte) (a : sockaddr) : Prop := {
  sh_ok : address_ok a;
  sh_family : sa_family a = fam;
  sh_port : sin_port a = hostToNetwork16 port;
  sh_addr : zslice off len a = ip
}.

Lemma fields_written fam off port ip (a : sockaddr) :
  address_ok a → 0 ≤ fam < 2 ^ 16 → 4 ≤ off → off + zlen ip ≤ sizeof_in6 →
  shows fam off (zlen ip) port ip (zblit off ip (set_port (hostToNetwork16 port) (set_family fam a))) ∧
  shows fam off (zlen ip) port ip (set_port (hostToNetwork16 port) (zblit off ip (set_family fam a))).
Proof.
  intros Ha Hf Hoff Hend. unfold address_ok, sizeof_in6 in *. pose proof (zlen_nonneg ip).
  assert (Hp : 0 ≤ hostToNetwork16 port < 256 ^ Z.of_nat 2)
    by (apply (htobe_bound 2); unfold u16; by apply Z.mod_pos_bound).
  unfold set_port, set_family, put16.
  assert (H2 : ∀ v, zlen (object_bytes 2 v) = 2) by (intros; by rewrite zlen_object_bytes).
  assert (L1 : zlen (zblit 0 (object_bytes 2 fam) a) = 28) by (rewrite zlen_zblit; rewrite ?H2; lia).
  assert (L2 : zlen (zblit 2 (object_bytes 2 (hostToNetwork16 port)) (zblit 0 (object_bytes 2 fam) a)) = 28)
    by (rewrite zlen_zblit; rewrite ?H2; lia).
  assert (L3 : zlen (zblit off ip (zblit 0 (object_bytes 2 fam) a)) = 28) by (rewrite zlen_zblit; lia).
  assert (V2 : ∀ v, 0 ≤ v < 256 ^ Z.of_nat 2 → object_value (object_bytes 2 v) = v) by (intros; by apply object_roundtrip).
  split; split; unfold address_ok, sizeof_in6, sa_family, sin_port, field16.
  - rewrite zlen_zblit; lia.
  - rewrite !zslice_zblit_apart by (rewrite ?H2; lia). rewrite zslice_zblit_same by (rewrite ?H2; lia). by apply V2.
  - rewrite zslice_zblit_apart by lia. rewrite zslice_zblit_same by (rewrite ?H2; lia). by apply V2.
  - by rewrite zslice_zblit_same by lia.
  - rewrite zlen_zblit; rewrite ?H2; lia.
  - rewrite !zslice_zblit_apart by (rewrite ?H2; lia). rewrite zslice_zblit_same by (rewrite ?H2; lia). by apply V2.
  - rewrite zslice_zblit_same by (rewrite ?H2; lia). by apply V2.
  - rewrite zslice_zblit_apart by (rewrite ?H2; lia). by rewrite zslice_zblit_same by lia.
Qed.

(** An address made from the text and the port of an address shows them again. *)
Lemma of_ip4_shows junk ip port :
  address_ok junk → zlen ip = 4 → shows AF_INET 4 4 port ip (InetAddress_of_ip junk (ntop4 ip) port false).
Proof.
  intros Hj Hip. unfold InetAddress_of_ip, fromIpPort4. destruct (ntop4_text ip Hip) as [_ Hnul].
  rewrite until_nul_id, pton4_ntop4 by done. unfold set_sin_addr. rewrite <- Hip.
  apply fields_written; unfold AF_INET, sizeof_in6; try lia.
  unfold address_ok in *. unfold sizeof_in, sizeof_in6 in *. by rewrite memZero_ok by lia.
Qed.

Lemma of_ip6_shows junk ip port :
  address_ok junk → zlen ip = 16 → shows AF_INET6 8 16 port ip (InetAddress_of_ip junk (ntop6 ip) port true).
Proof.
  intros Hj Hip. unfold InetAddress_of_ip, fromIpPort6. destruct (ntop6_text ip Hip) as [_ Hnul].
  rewrite until_nul_id, pton6_ntop6 by done. unfold set_sin6_addr. rewrite <- Hip.
  apply fields_written; unfold AF_INET6, sizeof_in6; try lia.
  unfold address_ok in *. unfold sizeof_in6 in *. by rewrite memZero_ok by lia.
Qed.

(** [InetAddress(port)]: any address of the host. *)
Lemma of_port_shows junk port :
  address_ok junk → shows AF_INET 4 4 port (replicate 4 Byte.x00) (InetAddress_of_port junk port false false).
Proof.
  intros Hj. unfold InetAddress_of_port, set_sin_addr.
  assert (E : object_bytes 4 (hostToNetwork32 kInaddrAny) = replicate 4 Byte.x00)
    by (unfold object_bytes, hostToNetwork32, htobe; by destruct host).
  rewrite E. apply (fields_written AF_INET 4 port (replicate 4 Byte.x00)); unfold AF_INET, sizeof_in6; try lia; [|done].
  unfold address_ok in *. unfold sizeof_in, sizeof_in6 in *. by rewrite memZero_ok by lia.
Qed.

Lemma port_text port : 0 ≤ port < 2 ^ 16 → zlen (bytes_of_string ":" ++ decimal port) ≤ 6.
Proof.
  intros Hp. rewrite zlen_app. pose proof (decimal_digits 5 port ltac:(lia) ltac:(lia)).
  change (zlen (bytes_of_string ":")) with 1. lia.
Qed.

(** What the accessors of an address that shows these parts answer. *)
Lemma shows_toPort fam off len port ip a :
  0 ≤ port < 2 ^ 16 → shows fam off len port ip a → toPort a = port.
Proof. intros Hp [_ _ E _]. unfold toPort, portNetEndian. rewrite E. by apply port_roundtrip. Qed.

Lemma shows_text4 port ip a :
  0 ≤ port < 2 ^ 16 → zlen ip = 4 → shows AF_INET 4 4 port ip a →
  address_toIp a = Ok (ntop4 ip) ∧ address_toIpPort a = Ok (ntop4 ip ++ bytes_of_string ":" ++ decimal port).
Proof.
  intros Hp Hip [_ Ef Ep Ea]. pose proof (port_text port Hp). destruct (ntop4_text ip Hip) as [Hl _].
  unfold INET_ADDRSTRLEN in Hl. unfold sin_addr in *.
  assert (E1 : address_toIp a = Ok (ntop4 ip)) by (unfold address_toIp, toIp, getSockAddr, sockaddr_cast; rewrite Ef; cbn; unfold sin_addr; by rewrite Ea).
  split; [exact E1|]. unfold address_toIpPort, toIpPort. fold (address_toIp a). rewrite E1, bind_Ok. unfold getSockAddr, sockaddr_cast.
  rewrite require_true by bsolve. rewrite bind_Ok, Ep, port_roundtrip, snprintf_fits by (done || lia). done.
Qed.

Lemma shows_text6 port ip a :
  0 ≤ port < 2 ^ 16 → zlen ip = 16 → shows AF_INET6 8 16 port ip a →
  address_toIp a = Ok (ntop6 ip) ∧ address_toIpPort a = Ok (ntop6 ip ++ bytes_of_string ":" ++ decimal port).
Proof.
  intros Hp Hip [_ Ef Ep Ea]. pose proof (port_text port Hp). destruct (ntop6_text ip Hip) as [Hl _].
  unfold INET6_ADDRSTRLEN in Hl.
  assert (E1 : address_toIp a = Ok (ntop6 ip)) by (unfold address_toIp, toIp, getSockAddr, sockaddr_cast; rewrite Ef; cbn; unfold sin6_addr; by rewrite Ea).
  split; [exact E1|]. unfold address_toIpPort, toIpPort. fold (address_toIp a). rewrite E1, bind_Ok. unfold getSockAddr, sockaddr_cast.
  rewrite require_true by bsolve. rewrite bind_Ok, Ep, port_roundtrip, snprintf_fits by (done || lia). done.
Qed.

(** The text of any address, whatever its family, is at most 51 characters long. *)
Lemma networkToHost16_range z : 0 ≤ networkToHost16 z < 2 ^ 16.
Proof.
  unfold networkToHost16, betoh. destruct host; [|by apply Z.mod_pos_bound].
  pose proof (be_value_bound (le_bytes 2 (u16 z))) as Hb. unfold zlen in Hb. by rewrite length_le_bytes in Hb.
Qed.

Lemma toIpPort_ok a : address_ok a → ∃ s, address_toIpPort a = Ok s ∧ zlen s ≤ 51.
Proof.
  intros Ha. unfold address_ok, sizeof_in6 in Ha. unfold address_toIpPort, toIpPort, getSockAddr, sockaddr_cast.
  assert (Hip : ∃ ip, toIp [] 64 a = Ok ip ∧ zlen ip ≤ 45).
  { unfold toIp. destruct (_ =? AF_INET).
    - destruct (ntop4_text (sin_addr a)) as [Hl _]; [apply zlen_zslice; lia|]. unfold INET_ADDRSTRLEN in Hl.
      eexists. split; [done|lia].
    - destruct (_ =? AF_INET6); [|by exists []].
      destruct (ntop6_text (sin6_addr a)) as [Hl _]; [apply zlen_zslice; lia|]. unfold INET6_ADDRSTRLEN in Hl.
      eexists. split; [done|lia]. }
  destruct Hip as (ip & -> & Hl). rewrite bind_Ok, require_true by bsolve. rewrite bind_Ok.
  pose proof (port_text (networkToHost16 (sin_port a)) (networkToHost16_range _)) as Hp. pose proof (zlen_nonneg ip).
  rewrite snprintf_fits by lia. eexists. split; [done|]. rewrite zlen_app. lia.
Qed.
End inet_address.

(** * The type of an address *)
Section typing.
  Context `{!Host, !InetText}.
  Implicit Types a : sockaddr.

(** A [sockaddr_in6] object whose family is [fam]. *)
Record typed (fam : Z) a : Prop := { ty_size : address_ok a; ty_family : family a = fam }.

Definition family_of (ipv6 : bool) : Z := if ipv6 then AF_INET6 else AF_INET.

(** The public ways to an address, with the family each promises. *)
Inductive made : Z → sockaddr → Prop :=
| made_of_port junk port loopbackOnly ipv6 :
    address_ok junk → made (family_of ipv6) (InetAddress_of_port junk port loopbackOnly ipv6)
| made_of_ip junk ip port ipv6 :
    address_ok junk → made (family_of ipv6) (InetAddress_of_ip junk ip port ipv6)
| made_of_in junk addr :
    address_ok junk → zlen addr = sizeof_in → sa_family addr = AF_INET → made AF_INET (InetAddress_of_in junk addr)
| made_of_in6 addr6 :
    zlen addr6 = sizeof_in6 → sa_family addr6 = AF_INET6 → made AF_INET6 (InetAddress_of_in6 addr6)
| made_set_in6 fam a addr6 :
    made fam a → zlen addr6 = sizeof_in6 → sa_family addr6 = AF_INET6 → made AF_INET6 (setSockAddrInet6 addr6 a)
| made_set_scope fam a scope_id : made fam a → made fam (setScopeId scope_id a)
| made_resolve fam a he ok a' : made fam a → resolve he a = Ok (ok, a') → made fam a'.

(** * Writes behind the family keep the type *)
Lemma typed_blit fam off d a : typed fam a → 2 ≤ off → off + zlen d ≤ sizeof_in6 → typed fam (zblit off d a).
Proof.
  intros [Hs Hf] Ho Hd. unfold address_ok, sizeof_in6 in *. split.
  - unfold address_ok, sizeof_in6. rewrite zlen_zblit; lia.
  - unfold family, sa_family, field16 in *. rewrite zslice_zblit_before by lia. done.
Qed.

Lemma typed_family fam a : address_ok a → 0 ≤ fam < 2 ^ 16 → typed fam (set_family fam a).
Proof.
  intros Hs Hf. unfold address_ok, sizeof_in6 in *. unfold set_family, put16.
  assert (H2 : zlen (object_bytes 2 fam) = 2) by (by rewrite zlen_object_bytes).
  split.
  - unfold address_ok, sizeof_in6. rewrite zlen_zblit; lia.
  - unfold family, sa_family, field16. rewrite zslice_zblit_same by lia. by apply object_roundtrip.
Qed.

Lemma typed_port fam port a : typed fam a → typed fam (set_port port a).
Proof.
  intros T. unfold set_port, put16. apply typed_blit; [done|lia|]. rewrite zlen_object_bytes. unfold sizeof_in6. lia.
Qed.

Lemma zero_typed n fam junk :
  address_ok junk → 0 ≤ n ≤ sizeof_in6 → 0 ≤ fam < 2 ^ 16 → typed fam (set_family fam (memZero n junk)).
Proof. intros Hj Hn Hf. apply typed_family; [|done]. unfold address_ok in *. by rewrite memZero_ok by lia. Qed.

Lemma zlen_in6addr loopback : zlen (in6addr loopback) = 16.
Proof. by destruct loopback. Qed.

Lemma of_port_typed junk port lo ipv6 :
  address_ok junk → typed (family_of ipv6) (InetAddress_of_port junk port lo ipv6).
Proof.
  intros Hj. unfold InetAddress_of_port, family_of, set_sin6_addr, set_sin_addr. destruct ipv6; apply typed_port.
  - apply typed_blit; [apply zero_typed; unfold AF_INET6, sizeof_in6; done || lia|lia|].
    rewrite zlen_in6addr. unfold sizeof_in6. lia.
  - apply typed_blit; [apply zero_typed; unfold AF_INET, sizeof_in6, sizeof_in; done || lia|lia|].
    rewrite zlen_object_bytes. unfold sizeof_in6. lia.
Qed.

Lemma of_ip_typed junk ip port ipv6 :
  address_ok junk → typed (family_of ipv6) (InetAddress_of_ip junk ip port ipv6).
Proof.
  intros Hj. unfold InetAddress_of_ip, family_of, fromIpPort4, fromIpPort6, set_sin6_addr, set_sin_addr.
  destruct ipv6.
  - assert (T : typed AF_INET6 (set_port (hostToNetwork16 port) (set_family AF_INET6 (memZero sizeof_in6 junk))))
      by (apply typed_port, zero_typed; unfold AF_INET6, sizeof_in6; done || lia).
    destruct (pton6 _) as [bs|] eqn:E; [|done]. apply pton6_size in E. apply typed_blit; [done|lia|].
    unfold sizeof_in6. lia.
  - assert (T : typed AF_INET (set_port (hostToNetwork16 port) (set_family AF_INET (memZero sizeof_in junk))))
      by (apply typed_port, zero_typed; unfold AF_INET, sizeof_in6, sizeof_in; done || lia).
    destruct (pton4 _) as [bs|] eqn:E; [|done]. apply pton4_size in E. apply typed_blit; [done|lia|].
    unfold sizeof_in6. lia.
Qed.

(** A whole address copied over the start of the object brings its family. *)
Lemma copy_typed fam addr a :
  address_ok a → 2 ≤ zlen addr ≤ sizeof_in6 → sa_family addr = fam → typed fam (zblit 0 addr a).
Proof.
  intros Hs Hl Hf. unfold address_ok, sizeof_in6 in *. split.
  - unfold address_ok, sizeof_in6. rewrite zlen_zblit; lia.
  - rewrite <- Hf. unfold family, sa_family, field16, zblit, zslice. rewrite (ztake_0 0 a), !(zdrop_0 0) by lia.
    cbn [app]. by rewrite ztake_app_l by lia.
Qed.

Lemma made_typed fam a : made fam a → typed fam a ∧ (fam = AF_INET ∨ fam = AF_INET6).
Proof.
  induction 1 as [junk port lo ipv6 Hj|junk ip port ipv6 Hj|junk addr Hj Hl Hf|addr6 Hl Hf|fam a addr6 _ [IH _] Hl Hf
    |fam a scope _ [IH IHf]|fam a he ok a' _ [IH IHf] E].
  - split; [by apply of_port_typed|]. destruct ipv6; auto.
  - split; [by apply of_ip_typed|]. destruct ipv6; auto.
  - split; [|by left]. apply copy_typed; [done|rewrite Hl; unfold sizeof_in, sizeof_in6; lia|done].
  - split; [|by right]. by split.
  - split; [|by right]. apply copy_typed; [apply IH|rewrite Hl; unfold sizeof_in6; lia|done].
  - split; [|done]. unfold setScopeId. destruct (_ =? _); [|done].
    apply typed_blit; [done|lia|]. rewrite zlen_object_bytes. unfold sizeof_in6. lia.
  - split; [|done]. unfold resolve in E. destruct he as [he|]; inv_ok; [|done].
    apply typed_blit; [done|lia|].
    unfold load in *. inv_ok. bool_prop. rewrite zlen_zslice by lia. unfold sizeof_in6. lia.
Qed.

(** * What the accessors make of a typed address *)
Lemma typed_text fam a :
  typed fam a → fam = AF_INET ∨ fam = AF_INET6 →
  let text := if fam =? AF_INET then ntop4 (sin_addr a) else ntop6 (sin6_addr a) in
  address_toIp a = Ok text ∧ address_toIpPort a = Ok (text ++ bytes_of_string ":" ++ decimal (toPort a)) ∧
  0 ≤ toPort a < 2 ^ 16.
Proof.
  intros [Hs Hf] Hfam text. unfold address_ok, sizeof_in6 in Hs. unfold family in Hf.
  assert (Ht : address_toIp a = Ok text ∧ zlen text < 46).
  { unfold address_toIp, toIp, getSockAddr, sockaddr_cast, text. rewrite Hf. destruct Hfam as [-> | ->]; cbn.
    - destruct (ntop4_text (sin_addr a)) as [Hl _]; [apply zlen_zslice; lia|]. unfold INET_ADDRSTRLEN in Hl. split; [done|lia].
    - destruct (ntop6_text (sin6_addr a)) as [Hl _]; [apply zlen_zslice; lia|]. unfold INET6_ADDRSTRLEN in Hl. split; [done|lia]. }
  destruct Ht as [Ht Hl]. pose proof (networkToHost16_range (sin_port a)) as Hp. split; [done|]. split; [|done].
  unfold address_toIpPort, toIpPort. fold (address_toIp a). rewrite Ht, bind_Ok, require_true by bsolve. rewrite bind_Ok.
  pose proof (port_text (networkToHost16 (sin_port a)) Hp) as Hpl. pose proof (zlen_nonneg text).
  unfold getSockAddr, sockaddr_cast. rewrite snprintf_fits by lia. done.
Qed.
(** [resolve] into an IPv6 address writes its flow label. *)
Lemma resolve_v6 a he a' :
  typed AF_INET6 a → resolve he a = Ok (true, a') → sin6_addr a' = sin6_addr a.
Proof.
  intros [Hs Hf] E. unfold address_ok, sizeof_in6 in Hs. unfold resolve in E. destruct he as [he|]; inv_ok.
  unfold load in *. inv_ok. bool_prop. unfold set_sin_addr, sin6_addr.
  assert (zlen (zslice 0 4 (h_addr he)) = 4) by (apply zlen_zslice; lia).
  rewrite zslice_zblit_after by lia. done.
Qed.
End typing.
