(* ===== verification/Poller.v ===== *)
(** The I/O multiplexing interface: networker/net/Poller.h and Poller.cpp.

    [Poller] is the virtual class: its operations, on the poller's own state and
    the heap of channel objects.  [PollerLaws] is what the event loop and the
    connections rely on; EPollPoller.v and PollPoller.v discharge it.  The laws
    are about [watched], the event mask the next wait will use for each
    descriptor, and hold up to [index_], which is the poller's private field of
    a channel. *)
From S2P Require Import Prelude.
From S2P Require Import Channel.

Section interface.
  Context {CB : Type}.
  Implicit Types m : gmap ChannelPtr (Channel CB).

(** The virtual functions.  [wait_result] is what the kernel's wait answers, and
    [wait_valid] what poll(2) and epoll_wait(2) promise about it. *)
Class Poller (P : Type) := {
  wait_result : Type;
  wait_valid : wait_result → P → Prop;
  poll : wait_result → P → gmap ChannelPtr (Channel CB) → list ChannelPtr →
         outcome (P * gmap ChannelPtr (Channel CB) * list ChannelPtr);
  channels_ : P → gmap Z ChannelPtr;
  updateChannel : ChannelPtr → P → gmap ChannelPtr (Channel CB) → outcome (P * gmap ChannelPtr (Channel CB));
  removeChannel : ChannelPtr → P → gmap ChannelPtr (Channel CB) → outcome (P * gmap ChannelPtr (Channel CB));
  watched : P → Z → option Z;
  (** Room for so many more descriptors. *)
  room_for : P → Z → Prop;
  poller_inv : P → gmap ChannelPtr (Channel CB) → Prop
}.

(** [Poller::hasChannel]. *)
Definition hasChannel {P} `{!Poller P} (c : ChannelPtr) (p : P) m : outcome bool :=
  match m !! c with
  | None => Fail UndefinedBehaviour
  | Some ch => Ok (bool_decide (channels_ p !! fd_ ch = Some c))
  end.

Definition has_room {P} `{!Poller P} (p : P) : Prop := room_for p 1.

(** Two channels that differ at most in the poller's private index. *)
Definition same_but_index (ch ch' : Channel CB) : Prop := ch' = set_index (index_ ch') ch.

(** Two heaps that agree except on the private indices. *)
Definition heap_sim m m' : Prop :=
  ∀ c, match m !! c, m' !! c with
       | Some ch, Some ch' => same_but_index ch ch'
       | None, None => True
       | _, _ => False
       end.

(** Two heaps that agree except on what poll reported. *)
Definition heap_rev m m' : Prop :=
  ∀ c, match m !! c, m' !! c with
       | Some ch, Some ch' => ch' = set_revents (revents_ ch') ch
       | None, None => True
       | _, _ => False
       end.

(** A channel whose mask or bookkeeping flag is about to be pushed to the poller. *)
Definition same_registration (ch ch' : Channel CB) : Prop :=
  fd_ ch' = fd_ ch ∧ index_ ch' = index_ ch.

(** The poller has this channel for its descriptor. *)
Definition registered {P} `{!Poller P} (p : P) (c : ChannelPtr) (ch : Channel CB) : Prop :=
  channels_ p !! fd_ ch = Some c.

(** A channel object that was never given to the poller, with a free descriptor. *)
Definition addable {P} `{!Poller P} (p : P) (ch : Channel CB) : Prop :=
  index_ ch < 0 ∧ 0 ≤ fd_ ch ∧ channels_ p !! fd_ ch = None ∧ has_room p.

Class PollerLaws (P : Type) `{!Poller P} := {
  inv_mask p m c ch : poller_inv p m → m !! c = Some ch → mask_ok (events_ ch);
  (** [channels_] maps a descriptor to a live channel of that descriptor. *)
  inv_channels p m fd c :
    poller_inv p m → channels_ p !! fd = Some c → ∃ ch, m !! c = Some ch ∧ fd_ ch = fd;
  (** The kernel watches a registered channel for exactly its events. *)
  inv_watched p m c ch :
    poller_inv p m → m !! c = Some ch → registered p c ch → events_ ch ≠ 0 →
    watched p (fd_ ch) = Some (events_ ch);
  (** A new channel object is not known to the poller. *)
  inv_fresh p m c ch :
    poller_inv p m → m !! c = None → index_ ch = -1 → events_ ch = 0 → poller_inv p (<[c := ch]> m);
  (** The poller looks at the descriptor, the index and the mask only. *)
  inv_put p m c ch ch' :
    poller_inv p m → m !! c = Some ch → same_registration ch ch' → events_ ch' = events_ ch →
    poller_inv p (<[c := ch']> m);
  (** Pushing a new mask.  The kernel may refuse, which is fatal. *)
  update_law p m c ch ch' :
    poller_inv p m → m !! c = Some ch → same_registration ch ch' → mask_ok (events_ ch') →
    registered p c ch ∨ addable p ch →
    updateChannel c p (<[c := ch']> m) = Fail FatalLog ∨
    ∃ p' m', updateChannel c p (<[c := ch']> m) = Ok (p', m') ∧
      poller_inv p' m' ∧ heap_sim (<[c := ch']> m) m' ∧
      (∀ c2, c2 ≠ c → m' !! c2 = m !! c2) ∧
      channels_ p' = <[fd_ ch := c]> (channels_ p) ∧
      (∀ fd, 0 ≤ fd → fd ≠ fd_ ch → watched p' fd = watched p fd) ∧
      (events_ ch' ≠ 0 → watched p' (fd_ ch) = Some (events_ ch')) ∧
      (events_ ch' = 0 → registered p c ch → events_ ch ≠ 0 → watched p' (fd_ ch) = None);
  (** An update takes at most one place. *)
  room_law p m c ch ch' p' m' n :
    poller_inv p m → m !! c = Some ch → same_registration ch ch' → mask_ok (events_ ch') →
    registered p c ch ∨ addable p ch →
    updateChannel c p (<[c := ch']> m) = Ok (p', m') → room_for p n → room_for p' (n - 1);
  (** Unregistering a channel that is watched for nothing. *)
  remove_law p m c ch ch' :
    poller_inv p m → m !! c = Some ch → same_registration ch ch' →
    registered p c ch → events_ ch = 0 → events_ ch' = 0 → watched p (fd_ ch) = None →
    ∃ p' m', removeChannel c p (<[c := ch']> m) = Ok (p', m') ∧
      poller_inv p' m' ∧ heap_sim (<[c := ch']> m) m' ∧
      channels_ p' = delete (fd_ ch) (channels_ p) ∧
      (∀ fd, 0 ≤ fd → watched p' fd = watched p fd);
  (** Waiting reports registered channels only and changes no registration. *)
  poll_law p m r :
    poller_inv p m → wait_valid r p →
    ∃ p' m' active, poll r p m [] = Ok (p', m', active) ∧
      poller_inv p' m' ∧ heap_rev m m' ∧ channels_ p' = channels_ p ∧
      (∀ fd, watched p' fd = watched p fd) ∧
      (∀ c, c ∈ active → ∃ ch, m !! c = Some ch ∧ registered p c ch)
}.

Lemma same_but_index_refl ch : same_but_index ch ch.
Proof. by destruct ch. Qed.

Lemma same_but_index_set i ch : same_but_index ch (set_index i ch).
Proof. by destruct ch. Qed.

Lemma heap_sim_refl m : heap_sim m m.
Proof. intros c. destruct (m !! c); [apply same_but_index_refl|done]. Qed.

Lemma heap_rev_refl m : heap_rev m m.
Proof. intros c. destruct (m !! c) as [[]|]; done. Qed.

Lemma heap_rev_trans m1 m2 m3 : heap_rev m1 m2 → heap_rev m2 m3 → heap_rev m1 m3.
Proof.
  intros H1 H2 c. specialize (H1 c). specialize (H2 c).
  destruct (m1 !! c) as [ch1|], (m2 !! c) as [ch2|], (m3 !! c) as [ch3|]; try done.
  rewrite H1 in H2. by destruct ch1, ch3.
Qed.

Lemma heap_rev_lookup m m' c ch :
  heap_rev m m' → m !! c = Some ch → ∃ r, m' !! c = Some (set_revents r ch).
Proof.
  intros H E. specialize (H c). rewrite E in H.
  destruct (m' !! c) as [ch'|]; [|done]. exists (revents_ ch'). by rewrite <- H.
Qed.

Lemma heap_rev_lookup_r m m' c ch' :
  heap_rev m m' → m' !! c = Some ch' → ∃ ch, m !! c = Some ch ∧ ch' = set_revents (revents_ ch') ch.
Proof.
  intros H E. specialize (H c). rewrite E in H. destruct (m !! c) as [ch|]; [|done]. eauto.
Qed.

Lemma heap_rev_insert m c r ch : m !! c = Some ch → heap_rev m (<[c := set_revents r ch]> m).
Proof.
  intros E c'. destruct (decide (c = c')) as [->|].
  - rewrite lookup_insert_eq, E. by destruct ch.
  - rewrite lookup_insert_ne by done. by destruct (m !! c') as [[]|].
Qed.

(** Everything but the index of a channel survives a poller operation. *)
Lemma heap_sim_lookup m m' c ch :
  heap_sim m m' → m !! c = Some ch → ∃ i, m' !! c = Some (set_index i ch).
Proof.
  intros H E. specialize (H c). rewrite E in H.
  destruct (m' !! c) as [ch'|]; [|done]. exists (index_ ch'). by rewrite <- H.
Qed.

Lemma heap_sim_insert m c i ch : heap_sim (<[c := ch]> m) (<[c := set_index i ch]> m).
Proof.
  intros c'. destruct (decide (c = c')) as [->|].
  - rewrite !lookup_insert_eq. apply same_but_index_set.
  - rewrite !lookup_insert_ne by done. destruct (m !! c'); [apply same_but_index_refl|done].
Qed.
End interface.

Arguments Poller : clear implicits.
Arguments PollerLaws CB P {_}.
