(* ===== verification/EPollPoller.v ===== *)
(** The epoll(7) poller: networker/net/poller/EPollPoller.h and EPollPoller.cpp.

    The kernel's epoll instance is not part of the program: class
    [EpollKernel] states what epoll_ctl(2) documents.  [EPollPoller] is shown to
    satisfy the poller interface. *)
From S2P Require Import Prelude.
From S2P Require Import Channel.
From S2P Require Import Poller.

Definition kNew : Z := -1.
Definition kAdded : Z := 1.
Definition kDeleted : Z := 2.
Definition kInitEventListSize : Z := 26.

Inductive ctl_op := EPOLL_CTL_ADD | EPOLL_CTL_MOD | EPOLL_CTL_DEL.

(** [struct epoll_event]: the mask and [data.ptr]. *)
Abbreviation epoll_event := (Z * ChannelPtr)%type.

(** epoll_ctl(2): on success the interest list changes as asked, on failure it
    does not; removing an entry that is there succeeds. *)
Class EpollKernel := {
  epoll_state : Type;
  interest : epoll_state → gmap Z epoll_event;
  epoll_ctl : epoll_state → ctl_op → Z → epoll_event → epoll_state * bool;
  epoll_create : epoll_state;
  epoll_create_empty : interest epoll_create = ∅;
  epoll_ctl_ok s op fd ev s' :
    epoll_ctl s op fd ev = (s', true) →
    interest s' = match op with EPOLL_CTL_DEL => delete fd (interest s) | _ => <[fd := ev]> (interest s) end;
  epoll_ctl_fail s op fd ev s' :
    epoll_ctl s op fd ev = (s', false) → interest s' = interest s;
  epoll_ctl_del s fd ev :
    is_Some (interest s !! fd) → (epoll_ctl s EPOLL_CTL_DEL fd ev).2 = true
}.

Section epoll.
  Context {CB : Type} `{!EpollKernel}.
  Implicit Types m : gmap ChannelPtr (Channel CB).

Record EPollPoller := mkEPoll {
  chmap : gmap Z ChannelPtr;      (** [Poller::channels_] *)
  events_size : Z;                (** [events_.size()] *)
  epollfd : epoll_state           (** the epoll instance of [epollfd_] *)
}.

(** [EPollPoller::EPollPoller]: the kernel's answer to epoll_create1. *)
Definition new_EPollPoller (fd : Z) : outcome EPollPoller :=
  if fd <? 0 then Fail FatalLog else Ok (mkEPoll ∅ kInitEventListSize epoll_create).

(** [EPollPoller::update(operation, channel)]: a failed DEL is only logged. *)
Definition update (operation : ctl_op) (c : ChannelPtr) (ch : Channel CB) (p : EPollPoller)
  : outcome EPollPoller :=
  let event := (u32 (events_ ch), c) in
  match epoll_ctl (epollfd p) operation (fd_ ch) event with
  | (k, true) => Ok (mkEPoll (chmap p) (events_size p) k)
  | (k, false) =>
      match operation with
      | EPOLL_CTL_DEL => Ok (mkEPoll (chmap p) (events_size p) k)
      | _ => Fail FatalLog
      end
  end.

Definition find_channel (c : ChannelPtr) m : outcome (Channel CB) :=
  match m !! c with Some ch => Ok ch | None => Fail UndefinedBehaviour end.

Definition epoll_updateChannel (c : ChannelPtr) (p : EPollPoller) m
  : outcome (EPollPoller * gmap ChannelPtr (Channel CB)) :=
  ch ← find_channel c m;
  let index := index_ ch in
  if (index =? kNew) || (index =? kDeleted) then
    let fd := fd_ ch in
    p ← (if index =? kNew then
           _ ← require (bool_decide (chmap p !! fd = None));
           Ok (mkEPoll (<[fd := c]> (chmap p)) (events_size p) (epollfd p))
         else
           _ ← require (bool_decide (chmap p !! fd ≠ None));
           _ ← require (bool_decide (chmap p !! fd = Some c));
           Ok p);
    let ch := set_index kAdded ch in
    p ← update EPOLL_CTL_ADD c ch p;
    Ok (p, <[c := ch]> m)
  else
    let fd := fd_ ch in
    _ ← require (bool_decide (chmap p !! fd ≠ None));
    _ ← require (bool_decide (chmap p !! fd = Some c));
    _ ← require (index =? kAdded);
    if isNoneEvent ch then
      p ← update EPOLL_CTL_DEL c ch p;
      Ok (p, <[c := set_index kDeleted ch]> m)
    else
      p ← update EPOLL_CTL_MOD c ch p;
      Ok (p, m).

Definition epoll_removeChannel (c : ChannelPtr) (p : EPollPoller) m
  : outcome (EPollPoller * gmap ChannelPtr (Channel CB)) :=
  ch ← find_channel c m;
  let fd := fd_ ch in
  _ ← require (bool_decide (chmap p !! fd ≠ None));
  _ ← require (bool_decide (chmap p !! fd = Some c));
  _ ← require (isNoneEvent ch);
  let index := index_ ch in
  _ ← require ((index =? kAdded) || (index =? kDeleted));
  let p := mkEPoll (delete fd (chmap p)) (events_size p) (epollfd p) in
  p ← (if index =? kAdded then update EPOLL_CTL_DEL c ch p else Ok p);
  Ok (p, <[c := set_index kNew ch]> m).

(** [fillActiveChannels]: the loop over the first [numEvents] entries of [events_]. *)
Fixpoint fill_loop (evs : list epoll_event) (p : EPollPoller) m (active : list ChannelPtr)
  : outcome (gmap ChannelPtr (Channel CB) * list ChannelPtr) :=
  match evs with
  | [] => Ok (m, active)
  | (rev, c) :: evs' =>
      ch ← find_channel c m;
      _ ← require (bool_decide (chmap p !! fd_ ch ≠ None));
      _ ← require (bool_decide (chmap p !! fd_ ch = Some c));
      fill_loop evs' p (<[c := set_revents rev ch]> m) (active ++ [c])
  end.

Definition fillActiveChannels (evs : list epoll_event) (p : EPollPoller) m (active : list ChannelPtr)
  : outcome (gmap ChannelPtr (Channel CB) * list ChannelPtr) :=
  _ ← require (zlen evs <=? events_size p);
  fill_loop evs p m active.

(** What epoll_wait(2) answers. *)
Inductive epoll_wait_result :=
| WaitEvents (evs : list epoll_event)
| WaitError (err : Z).

Definition epoll_poll (r : epoll_wait_result) (p : EPollPoller) m (active : list ChannelPtr)
  : outcome (EPollPoller * gmap ChannelPtr (Channel CB) * list ChannelPtr) :=
  match r with
  | WaitEvents [] => Ok (p, m, active)
  | WaitEvents evs =>
      '(m', active') ← fillActiveChannels evs p m active;
      let p' := if zlen evs =? events_size p
                then mkEPoll (chmap p) (events_size p * 2) (epollfd p) else p in
      Ok (p', m', active')
  | WaitError _ => Ok (p, m, active)
  end.

(** [operationToString]. *)
Definition operationToString (op : ctl_op) : string :=
  match op with
  | EPOLL_CTL_ADD => "ADD" | EPOLL_CTL_DEL => "DEL" | EPOLL_CTL_MOD => "MOD"
  end.

(** * Invariant *)
Record epoll_inv (p : EPollPoller) m : Prop := {
  inv_chmap fd c : chmap p !! fd = Some c → ∃ ch, m !! c = Some ch ∧ fd_ ch = fd;
  inv_index c ch : m !! c = Some ch →
    (index_ ch = kNew ∧ chmap p !! fd_ ch ≠ Some c) ∨
    (index_ ch = kAdded ∧ chmap p !! fd_ ch = Some c ∧
       interest (epollfd p) !! fd_ ch = Some (u32 (events_ ch), c)) ∨
    (index_ ch = kDeleted ∧ chmap p !! fd_ ch = Some c ∧
       interest (epollfd p) !! fd_ ch = None ∧ events_ ch = 0);
  inv_interest fd : chmap p !! fd = None → interest (epollfd p) !! fd = None;
  inv_masks c ch : m !! c = Some ch → mask_ok (events_ ch)
}.

(** epoll_wait(2) fills at most the array it is given, with entries of the
    interest list. *)
Definition epoll_wait_valid (r : epoll_wait_result) (p : EPollPoller) : Prop :=
  match r with
  | WaitEvents evs =>
      zlen evs ≤ events_size p ∧
      ∀ rev c, (rev, c) ∈ evs → ∃ fd ev, interest (epollfd p) !! fd = Some (ev, c)
  | WaitError _ => True
  end.

#[export] Instance epoll_poller : Poller CB EPollPoller := {
  wait_result := epoll_wait_result;
  wait_valid := epoll_wait_valid;
  poll := epoll_poll;
  channels_ := chmap;
  updateChannel := epoll_updateChannel;
  removeChannel := epoll_removeChannel;
  watched p fd := fst <$> interest (epollfd p) !! fd;
  room_for _ _ := True;
  poller_inv := epoll_inv
}.

Lemma mask_u32 ev : mask_ok ev → u32 ev = ev.
Proof. by intros [->|[->|[->| ->]]]. Qed.

(** The invariant after changing one channel, its entry of [channels_] and its
    entry of the interest list. *)
Lemma epoll_inv_change p p' m c ch ch2 :
  epoll_inv p m → m !! c = Some ch → fd_ ch2 = fd_ ch → mask_ok (events_ ch2) →
  (chmap p !! fd_ ch = None ∨ chmap p !! fd_ ch = Some c) →
  (∀ fd, fd ≠ fd_ ch → chmap p' !! fd = chmap p !! fd ∧
                       interest (epollfd p') !! fd = interest (epollfd p) !! fd) →
  ((index_ ch2 = kNew ∧ chmap p' !! fd_ ch = None ∧ interest (epollfd p') !! fd_ ch = None) ∨
   (index_ ch2 = kAdded ∧ chmap p' !! fd_ ch = Some c ∧
      interest (epollfd p') !! fd_ ch = Some (u32 (events_ ch2), c)) ∨
   (index_ ch2 = kDeleted ∧ chmap p' !! fd_ ch = Some c ∧
      interest (epollfd p') !! fd_ ch = None ∧ events_ ch2 = 0)) →
  epoll_inv p' (<[c := ch2]> m).
Proof.
  intros I Hc Hfd Hmask Hown Hframe Hst. destruct I as [IC IX II IM]. split.
  - intros fd c2 Hm2. destruct (decide (fd = fd_ ch)) as [->|Hne].
    + assert (c2 = c) as -> by naive_solver. exists ch2. by rewrite lookup_insert_eq.
    + destruct (Hframe fd Hne) as [E _]. rewrite E in Hm2.
      destruct (IC fd c2 Hm2) as (chx & Hm & Hx).
      rewrite lookup_insert_ne by (intros <-; naive_solver). eauto.
  - intros c2 chx. destruct (decide (c2 = c)) as [->|Hne].
    + rewrite lookup_insert_eq. intros [= <-]. rewrite Hfd. naive_solver.
    + rewrite lookup_insert_ne by done. intros Hm. specialize (IX c2 chx Hm).
      destruct (decide (fd_ chx = fd_ ch)) as [E|Hfne].
      * rewrite E in *. left. naive_solver.
      * destruct (Hframe _ Hfne) as [E1 E2]. by rewrite E1, E2.
  - intros fd. destruct (decide (fd = fd_ ch)) as [->|Hne]; [naive_solver|].
    destruct (Hframe fd Hne) as [-> ->]. apply II.
  - intros c2 chx. destruct (decide (c2 = c)) as [->|Hne].
    + rewrite lookup_insert_eq. by intros [= <-].
    + rewrite lookup_insert_ne by done. apply IM.
Qed.

(** [update] with the kernel's answer. *)
Lemma update_spec op c ch p :
  (op = EPOLL_CTL_DEL → is_Some (interest (epollfd p) !! fd_ ch)) →
  (op ≠ EPOLL_CTL_DEL ∧ update op c ch p = Fail FatalLog) ∨
  ∃ k, update op c ch p = Ok (mkEPoll (chmap p) (events_size p) k) ∧
       interest k = match op with
                    | EPOLL_CTL_DEL => delete (fd_ ch) (interest (epollfd p))
                    | _ => <[fd_ ch := (u32 (events_ ch), c)]> (interest (epollfd p)) end.
Proof.
  intros Hdel. unfold update.
  destruct (epoll_ctl _ _ _ _) as [k []] eqn:E.
  - right. exists k. split; [done|]. by rewrite (epoll_ctl_ok _ _ _ _ _ E).
  - destruct op; [by left|by left|].
    pose proof (epoll_ctl_del _ (fd_ ch) (u32 (events_ ch), c) (Hdel eq_refl)) as Hd.
    by rewrite E in Hd.
Qed.

Lemma epoll_registered p m c ch :
  epoll_inv p m → m !! c = Some ch → chmap p !! fd_ ch = Some c →
  (index_ ch = kAdded ∧ interest (epollfd p) !! fd_ ch = Some (u32 (events_ ch), c)) ∨
  (index_ ch = kDeleted ∧ interest (epollfd p) !! fd_ ch = None ∧ events_ ch = 0).
Proof. intros I Hc Hr. destruct (inv_index _ _ I c ch Hc) as [[_ ?]|[(? & ? & ?)|(? & ? & ? & ?)]]; auto; done. Qed.

Lemma epoll_addable p m c ch :
  epoll_inv p m → m !! c = Some ch → index_ ch < 0 → index_ ch = kNew.
Proof.
  intros I Hc Hr. destruct (inv_index _ _ I c ch Hc) as [[? _]|[(E & _)|(E & _)]];
    [done|unfold kAdded in E; lia|unfold kDeleted in E; lia].
Qed.

(** The three ways [updateChannel] ends, by the channel's index. *)
Lemma epoll_update_add p m c ch ch1 :
  epoll_inv p m → m !! c = Some ch → same_registration ch ch1 → mask_ok (events_ ch1) →
  (index_ ch = kNew ∧ chmap p !! fd_ ch = None) ∨
  (index_ ch = kDeleted ∧ chmap p !! fd_ ch = Some c) →
  epoll_updateChannel c p (<[c := ch1]> m) = Fail FatalLog ∨
  ∃ k, let p' := mkEPoll (<[fd_ ch := c]> (chmap p)) (events_size p) k in
    epoll_updateChannel c p (<[c := ch1]> m) = Ok (p', <[c := set_index kAdded ch1]> m) ∧
    interest k = <[fd_ ch := (u32 (events_ ch1), c)]> (interest (epollfd p)) ∧
    epoll_inv p' (<[c := set_index kAdded ch1]> m).
Proof.
  intros I Hc [Hfd Hidx] Hmask Hcase. unfold epoll_updateChannel, find_channel.
  rewrite lookup_insert_eq, bind_Ok, Hidx, Hfd.
  set (p1 := mkEPoll (<[fd_ ch := c]> (chmap p)) (events_size p) (epollfd p)).
  assert (E : (if index_ ch =? kNew
      then _ ← require (bool_decide (chmap p !! fd_ ch = None)); Ok p1
      else _ ← require (bool_decide (chmap p !! fd_ ch ≠ None));
           _ ← require (bool_decide (chmap p !! fd_ ch = Some c)); Ok p) = Ok p1
      ∧ (index_ ch =? kNew) || (index_ ch =? kDeleted) = true).
  { destruct Hcase as [[-> Hn]|[-> Hs]].
    - by rewrite Hn.
    - rewrite Hs. cbn. rewrite bool_decide_eq_true_2 by done. cbn. split; [|done].
      unfold p1. rewrite insert_id by done. by destruct p. }
  destruct E as [E1 E2]. rewrite E2. fold p1. rewrite E1, bind_Ok.
  destruct (update_spec EPOLL_CTL_ADD c (set_index kAdded ch1) p1) as [[_ Hf]|(k & Hu & Hk)]; [done| |].
  - left. by rewrite Hf.
  - right. exists k. rewrite Hu, bind_Ok, insert_insert_eq. cbn in *. rewrite Hfd in *.
    split_and!; [done|done|].
    eapply (epoll_inv_change p); [done|done|cbn; congruence|done|naive_solver| |].
    + intros fd Hne. cbn. rewrite Hk. by rewrite !lookup_insert_ne by done.
    + right; left. cbn. rewrite Hk, !lookup_insert_eq. done.
Qed.

Lemma epoll_update_mod p m c ch ch1 :
  epoll_inv p m → m !! c = Some ch → same_registration ch ch1 → mask_ok (events_ ch1) →
  index_ ch = kAdded → chmap p !! fd_ ch = Some c → is_Some (interest (epollfd p) !! fd_ ch) →
  epoll_updateChannel c p (<[c := ch1]> m) = Fail FatalLog ∨
  ∃ k i, let p' := mkEPoll (chmap p) (events_size p) k in
    epoll_updateChannel c p (<[c := ch1]> m) = Ok (p', <[c := set_index i ch1]> m) ∧
    interest k = (if isNoneEvent ch1 then delete (fd_ ch) (interest (epollfd p))
                  else <[fd_ ch := (u32 (events_ ch1), c)]> (interest (epollfd p))) ∧
    i = (if isNoneEvent ch1 then kDeleted else kAdded) ∧
    epoll_inv p' (<[c := set_index i ch1]> m).
Proof.
  intros I Hc [Hfd Hidx] Hmask Ha Hown Hint. unfold epoll_updateChannel, find_channel.
  rewrite lookup_insert_eq, bind_Ok, Hidx, Hfd, Ha, Hown. cbn.
  rewrite bool_decide_eq_true_2 by done. cbn.
  destruct (isNoneEvent ch1) eqn:Hn.
  - destruct (update_spec EPOLL_CTL_DEL c ch1 p) as [[? _]|(k & Hu & Hk)]; [by rewrite Hfd|done|].
    right. exists k, kDeleted. rewrite Hu, bind_Ok, insert_insert_eq. rewrite Hfd in Hk.
    split_and!; [done|done|done|].
    eapply (epoll_inv_change p); [done|done|done|done|naive_solver| |].
    + intros fd Hne. cbn. rewrite Hk. by rewrite lookup_delete_ne.
    + right; right. cbn. rewrite Hk, lookup_delete_eq. unfold isNoneEvent in Hn. by bool_prop.
  - destruct (update_spec EPOLL_CTL_MOD c ch1 p) as [[_ Hf]|(k & Hu & Hk)]; [done|left; by rewrite Hf|].
    right. exists k, kAdded. rewrite Hu, bind_Ok. rewrite Hfd in Hk.
    assert (set_index kAdded ch1 = ch1) as Hid by (rewrite <- Ha, <- Hidx; by destruct ch1).
    rewrite Hid. split_and!; [done|done|done|].
    eapply (epoll_inv_change p); [done|done|done|done|naive_solver| |].
    + intros fd Hne. cbn. rewrite Hk. by rewrite lookup_insert_ne.
    + right; left. cbn. rewrite Hk, lookup_insert_eq. split_and!; [congruence|done|done].
Qed.

Lemma isNoneEvent_zero (ch : Channel CB) : isNoneEvent ch = true ↔ events_ ch = 0.
Proof. unfold isNoneEvent, kNoneEvent. apply Z.eqb_eq. Qed.

Lemma epoll_remove p m c ch ch1 :
  epoll_inv p m → m !! c = Some ch → same_registration ch ch1 →
  chmap p !! fd_ ch = Some c → events_ ch1 = 0 →
  ∃ k, let p' := mkEPoll (delete (fd_ ch) (chmap p)) (events_size p) k in
    epoll_removeChannel c p (<[c := ch1]> m) = Ok (p', <[c := set_index kNew ch1]> m) ∧
    interest k = delete (fd_ ch) (interest (epollfd p)) ∧
    epoll_inv p' (<[c := set_index kNew ch1]> m).
Proof.
  intros I Hc [Hfd Hidx] Hown Hz. unfold epoll_removeChannel, find_channel.
  pose proof (epoll_registered _ _ _ _ I Hc Hown) as Hcase.
  rewrite lookup_insert_eq, bind_Ok, Hidx, Hfd, Hown. cbn.
  rewrite bool_decide_eq_true_2 by done. cbn.
  rewrite (proj2 (isNoneEvent_zero ch1) Hz). cbn.
  set (p1 := mkEPoll (delete (fd_ ch) (chmap p)) (events_size p) (epollfd p)).
  assert (∃ k, (if index_ ch =? kAdded then update EPOLL_CTL_DEL c ch1 p1 else Ok p1) =
               Ok (mkEPoll (chmap p1) (events_size p1) k) ∧
               interest k = delete (fd_ ch) (interest (epollfd p)) ∧
               ((index_ ch =? kAdded) || (index_ ch =? kDeleted) = true)) as (k & Hu & Hk & Hb).
  { destruct Hcase as [[-> Hi]|(-> & Hi & _)]; cbn.
    - destruct (update_spec EPOLL_CTL_DEL c ch1 p1) as [[? _]|(k & -> & Hk)]; [cbn; by rewrite Hfd, Hi|done|].
      exists k. rewrite Hfd in Hk. split_and!; [done|exact Hk|done].
    - exists (epollfd p). split_and!; [done|by rewrite delete_id|done]. }
  rewrite Hb. cbn. rewrite Hu. exists k. cbn. rewrite insert_insert_eq. split_and!; [done|done|].
  eapply (epoll_inv_change p); [done|done|done|cbn; rewrite Hz; by left|naive_solver| |].
  - intros fd Hne. cbn. rewrite Hk. by rewrite !lookup_delete_ne by done.
  - left. cbn. by rewrite Hk, !lookup_delete_eq.
Qed.

(** A heap that differs from [<[c:=ch1]> m] in the index of [c] only. *)
Lemma update_frame (m : gmap ChannelPtr (Channel CB)) c i ch1 :
  heap_sim (<[c := ch1]> m) (<[c := set_index i ch1]> m) ∧
  (∀ c2, c2 ≠ c → <[c := set_index i ch1]> m !! c2 = m !! c2).
Proof. split; [apply heap_sim_insert|]. intros. by rewrite lookup_insert_ne. Qed.

(** The interest list after an update, in the terms of the interface. *)
Lemma watched_insert (k s : epoll_state) fd ev c :
  mask_ok ev → interest k = <[fd := (u32 ev, c)]> (interest s) →
  (fst <$> interest k !! fd) = Some ev ∧
  (∀ fd', fd' ≠ fd → (fst <$> interest k !! fd') = (fst <$> interest s !! fd')).
Proof.
  intros Hm ->. rewrite lookup_insert_eq. cbn. rewrite mask_u32 by done.
  split; [done|]. intros. by rewrite lookup_insert_ne.
Qed.

Lemma epoll_update_law p m c ch ch1 :
  epoll_inv p m → m !! c = Some ch → same_registration ch ch1 → mask_ok (events_ ch1) →
  registered p c ch ∨ addable p ch →
  epoll_updateChannel c p (<[c := ch1]> m) = Fail FatalLog ∨
  ∃ p' m', epoll_updateChannel c p (<[c := ch1]> m) = Ok (p', m') ∧
    epoll_inv p' m' ∧ heap_sim (<[c := ch1]> m) m' ∧ (∀ c2, c2 ≠ c → m' !! c2 = m !! c2) ∧
    chmap p' = <[fd_ ch := c]> (chmap p) ∧
    (∀ fd, 0 ≤ fd → fd ≠ fd_ ch → watched p' fd = watched p fd) ∧
    (events_ ch1 ≠ 0 → watched p' (fd_ ch) = Some (events_ ch1)) ∧
    (events_ ch1 = 0 → registered p c ch → events_ ch ≠ 0 → watched p' (fd_ ch) = None).
Proof.
  intros I Hc Hsame Hmask Hreg. unfold registered, addable in *. cbn in *.
  assert (Hcase : (index_ ch = kAdded ∧ chmap p !! fd_ ch = Some c ∧
             interest (epollfd p) !! fd_ ch = Some (u32 (events_ ch), c)) ∨
          (((index_ ch = kNew ∧ chmap p !! fd_ ch = None) ∨
            (index_ ch = kDeleted ∧ chmap p !! fd_ ch = Some c)) ∧
           (chmap p !! fd_ ch = Some c → events_ ch = 0))).
  { destruct Hreg as [Hown|(Hi & _ & Hfree & _)].
    - destruct (epoll_registered _ _ _ _ I Hc Hown) as [[? ?]|(? & ? & ?)]; auto.
    - right. split; [left; split; [by eapply epoll_addable|done]|congruence]. }
  destruct Hcase as [(Hi & Hown & Hint)|[Hadd Hev]].
  - destruct (epoll_update_mod p m c ch ch1) as [?|(k & i & Hu & Hk & _ & I')]; eauto.
    right. do 2 eexists. split; [exact Hu|]. split; [exact I'|].
    destruct (update_frame m c i ch1) as [? ?]. split_and!; auto; [by rewrite insert_id|..]; cbn.
    + intros fd _ Hne. rewrite Hk. case_match; by rewrite ?lookup_insert_ne, ?lookup_delete_ne by done.
    + intros Hne. destruct (isNoneEvent ch1) eqn:Hn; [by apply isNoneEvent_zero in Hn|].
      by apply (watched_insert k (epollfd p) (fd_ ch) (events_ ch1) c).
    + intros Hz _ _. rewrite (proj2 (isNoneEvent_zero ch1) Hz) in Hk. by rewrite Hk, lookup_delete_eq.
  - destruct (epoll_update_add p m c ch ch1) as [?|(k & Hu & Hk & I')]; auto.
    right. do 2 eexists. split; [exact Hu|]. split; [exact I'|].
    destruct (update_frame m c kAdded ch1) as [? ?].
    destruct (watched_insert k (epollfd p) (fd_ ch) (events_ ch1) c) as [? ?]; auto.
    split_and!; auto. intros ? ? ?. cbn. naive_solver.
Qed.

(** * Delivery of events *)

(** The heap after the kernel's events were stored in their channels. *)
Definition store_revents (evs : list epoll_event) (m : gmap ChannelPtr (Channel CB)) :=
  foldl (λ m ev, alter (set_revents ev.1) ev.2 m) m evs.

Lemma fill_loop_spec evs p m active :
  (∀ rev c, (rev, c) ∈ evs → ∃ ch, m !! c = Some ch ∧ chmap p !! fd_ ch = Some c) →
  fill_loop evs p m active = Ok (store_revents evs m, active ++ map snd evs).
Proof.
  revert m active. induction evs as [|[rev c] evs IH]; intros m active Hall; cbn.
  - by rewrite app_nil_r.
  - destruct (Hall rev c) as (ch & Hc & Hown); [left|].
    unfold find_channel. rewrite Hc, bind_Ok, Hown. cbn.
    rewrite bool_decide_eq_true_2 by done. cbn.
    rewrite IH.
    + rewrite <- app_assoc. cbn. unfold store_revents. cbn. do 3 f_equal.
      apply map_eq. intros c'. destruct (decide (c = c')) as [->|].
      * by rewrite lookup_insert_eq, lookup_alter_eq, Hc.
      * by rewrite lookup_insert_ne, lookup_alter_ne by done.
    + intros rev' c' Hin. destruct (Hall rev' c') as (ch' & Hc' & Hown'); [by right|].
      destruct (decide (c = c')) as [->|].
      * rewrite lookup_insert_eq. simplify_eq. eauto.
      * rewrite lookup_insert_ne by done. eauto.
Qed.

Lemma store_revents_rev evs m : heap_rev m (store_revents evs m).
Proof.
  unfold store_revents. revert m. induction evs as [|[rev c] evs IH]; intros m; cbn.
  - apply heap_rev_refl.
  - eapply heap_rev_trans, IH. intros c'. destruct (decide (c = c')) as [->|].
    + rewrite lookup_alter_eq. destruct (m !! c') as [[]|]; done.
    + rewrite lookup_alter_ne by done. by destruct (m !! c') as [[]|].
Qed.

(** The invariant does not look at [revents_]. *)
Lemma epoll_inv_rev p p' m m' :
  epoll_inv p m → heap_rev m m' → chmap p' = chmap p → epollfd p' = epollfd p → epoll_inv p' m'.
Proof.
  intros [IC IX II IM] Hrev E1 E2. split; rewrite ?E1, ?E2.
  - intros fd c Hr. destruct (IC _ _ Hr) as (ch & Hm & Hf).
    destruct (heap_rev_lookup _ _ _ _ Hrev Hm) as [r Hm']. by exists (set_revents r ch).
  - intros c ch' Hm'. destruct (heap_rev_lookup_r _ _ _ _ Hrev Hm') as (ch & Hm & ->). by apply (IX c ch).
  - done.
  - intros c ch' Hm'. destruct (heap_rev_lookup_r _ _ _ _ Hrev Hm') as (ch & Hm & ->). by apply (IM c ch).
Qed.

(** An entry of the interest list is a registered channel. *)
Lemma epoll_interest_registered p m fd ev c :
  epoll_inv p m → interest (epollfd p) !! fd = Some (ev, c) →
  ∃ ch, m !! c = Some ch ∧ fd_ ch = fd ∧ chmap p !! fd = Some c.
Proof.
  intros I Hi. destruct (chmap p !! fd) as [c'|] eqn:Hr.
  - destruct (inv_chmap _ _ I _ _ Hr) as (ch & Hm & <-).
    destruct (epoll_registered _ _ _ _ I Hm Hr) as [[_ E]|(_ & E & _)]; simplify_eq. eauto.
  - apply (inv_interest _ _ I) in Hr. congruence.
Qed.

Lemma epoll_poll_law p m r :
  epoll_inv p m → epoll_wait_valid r p →
  ∃ p' m' active, epoll_poll r p m [] = Ok (p', m', active) ∧
    epoll_inv p' m' ∧ heap_rev m m' ∧ chmap p' = chmap p ∧
    (∀ fd, watched p' fd = watched p fd) ∧
    (∀ c, c ∈ active → ∃ ch, m !! c = Some ch ∧ registered p c ch).
Proof.
  intros I V. assert (Hnone : ∀ act : list ChannelPtr, act = [] →
    ∃ p' m' active, Ok (p, m, act) = Ok (p', m', active) ∧
    epoll_inv p' m' ∧ heap_rev m m' ∧ chmap p' = chmap p ∧ (∀ fd, watched p' fd = watched p fd) ∧
    (∀ c, c ∈ active → ∃ ch, m !! c = Some ch ∧ registered p c ch)).
  { intros act ->. exists p, m, []. split_and!; try done. { apply heap_rev_refl. }
    intros c Hc. by apply elem_of_nil in Hc. }
  destruct r as [evs|err]; [|by apply Hnone]. destruct V as [Hcap Hevs].
  assert (Hreg : ∀ rev c, (rev, c) ∈ evs → ∃ ch, m !! c = Some ch ∧ chmap p !! fd_ ch = Some c).
  { intros rev c Hin. destruct (Hevs rev c Hin) as (fd & ev & Hi).
    destruct (epoll_interest_registered _ _ _ _ _ I Hi) as (ch & ? & <- & ?). eauto. }
  destruct evs as [|ev evs]; [by apply Hnone|]. unfold epoll_poll, fillActiveChannels.
  rewrite require_true by bsolve. rewrite bind_Ok, (fill_loop_spec _ _ _ _ Hreg), bind_Ok.
  do 3 eexists. split; [done|].
  pose proof (store_revents_rev (ev :: evs) m) as Hrev.
  split_and!; [eapply epoll_inv_rev; eauto; by case_match|done|by case_match|by case_match|].
  intros c Hin. cbn [app] in Hin. apply list_elem_of_fmap in Hin as ([rev c'] & -> & Hin). by eapply Hreg.
Qed.

Lemma epoll_inv_put p m c ch ch' :
  epoll_inv p m → m !! c = Some ch → same_registration ch ch' → events_ ch' = events_ ch →
  epoll_inv p (<[c := ch']> m).
Proof.
  intros [IC IX II IM] Hc [Ef Ei] Ee. split.
  - intros fd c2 Hr. destruct (IC fd c2 Hr) as (ch2 & Hm & Hf). destruct (decide (c2 = c)) as [->|].
    + exists ch'. rewrite lookup_insert_eq. simplify_eq. done.
    + exists ch2. by rewrite lookup_insert_ne.
  - intros c2 ch2. destruct (decide (c2 = c)) as [->|].
    + rewrite lookup_insert_eq. intros [= <-]. rewrite Ef, Ei, Ee. by apply IX.
    + rewrite lookup_insert_ne by done. apply IX.
  - done.
  - intros c2 ch2. destruct (decide (c2 = c)) as [->|].
    + rewrite lookup_insert_eq. intros [= <-]. rewrite Ee. by eapply IM.
    + rewrite lookup_insert_ne by done. apply IM.
Qed.

Lemma epoll_inv_fresh p m c ch :
  epoll_inv p m → m !! c = None → index_ ch = -1 → events_ ch = 0 → epoll_inv p (<[c := ch]> m).
Proof.
  intros [IC IX II IM] Hc Hi He. split.
  - intros fd c2 Hr. destruct (IC fd c2 Hr) as (ch2 & Hm & Hf).
    exists ch2. by rewrite lookup_insert_ne by congruence.
  - intros c2 ch2. destruct (decide (c2 = c)) as [->|].
    + rewrite lookup_insert_eq. intros [= <-]. left. split; [done|]. intros Hr.
      destruct (IC _ _ Hr) as (? & ? & _). congruence.
    + rewrite lookup_insert_ne by done. apply IX.
  - done.
  - intros c2 ch2. destruct (decide (c2 = c)) as [->|].
    + rewrite lookup_insert_eq. intros [= <-]. rewrite He. apply mask_ok_none.
    + rewrite lookup_insert_ne by done. apply IM.
Qed.

#[export] Instance epoll_laws : PollerLaws CB EPollPoller.
Proof.
  split.
  - intros p m c ch I Hc. eapply inv_masks; eauto.
  - intros p m fd c I Hc. eapply inv_chmap; eauto.
  - intros p m c ch I Hc Hown Hne.
    destruct (epoll_registered _ _ _ _ I Hc Hown) as [[_ Hi]|(_ & _ & ?)]; [|done].
    cbn. rewrite Hi. cbn. f_equal. eapply mask_u32, inv_masks; eauto.
  - apply epoll_inv_fresh.
  - apply epoll_inv_put.
  - apply epoll_update_law.
  - done.
  - intros p m c ch ch1 I Hc Hsame Hown Hz Hz1 Hw. cbn in *.
    destruct (epoll_remove p m c ch ch1) as (k & Hu & Hk & I'); auto.
    do 2 eexists. split; [exact Hu|]. split; [done|].
    destruct (update_frame m c kNew ch1) as [? ?]. split_and!; auto.
    intros fd _. cbn. rewrite Hk. destruct (decide (fd = fd_ ch)) as [->|].
    + by rewrite lookup_delete_eq, Hw.
    + by rewrite lookup_delete_ne.
  - apply epoll_poll_law.
Qed.

(** A poller that was just created satisfies its invariant. *)
Lemma epoll_inv_new fd p : new_EPollPoller fd = Ok p → epoll_inv p (∅ : gmap ChannelPtr (Channel CB)).
Proof.
  unfold new_EPollPoller. case_match; [done|]. intros [= <-].
  split; cbn; intros *; rewrite ?lookup_empty; try done. by rewrite epoll_create_empty, lookup_empty.
Qed.
End epoll.

(** * A concrete kernel

    Used to evaluate the model on examples and to show that the hypotheses of
    [EpollKernel] can be met: an interest list that refuses duplicate additions
    and changes to absent entries. *)
Definition simple_ctl (s : gmap Z epoll_event) (op : ctl_op) (fd : Z) (ev : epoll_event)
  : gmap Z epoll_event * bool :=
  match op, s !! fd with
  | EPOLL_CTL_ADD, None => (<[fd := ev]> s, true)
  | EPOLL_CTL_MOD, Some _ => (<[fd := ev]> s, true)
  | EPOLL_CTL_DEL, Some _ => (delete fd s, true)
  | _, _ => (s, false)
  end.

Definition simple_kernel : EpollKernel.
Proof.
  refine {| epoll_state := gmap Z epoll_event; interest s := s; epoll_ctl := simple_ctl;
            epoll_create := ∅ |}.
  - done.
  - intros s op fd ev s'. unfold simple_ctl. destruct op, (s !! fd); congruence.
  - intros s op fd ev s'. unfold simple_ctl. destruct op, (s !! fd); congruence.
  - intros s fd ev [x E]. unfold simple_ctl. by rewrite E.
Defined.
