(* ===== verification/PollPoller.v ===== *)
(** The poll(2) poller: networker/net/poller/PollPoller.h and PollPoller.cpp. *)
From S2P Require Import Prelude.
From S2P Require Import Channel.
From S2P Require Import Poller.

(** [struct pollfd]; [events] and [revents] are [short]. *)
Record pollfd := mkPollfd { pfd_fd : Z; pfd_events : Z; pfd_revents : Z }.

Record PollPoller := mkPoll {
  pmap : gmap Z ChannelPtr;    (** [Poller::channels_] *)
  pollfds_ : list pollfd
}.

Definition new_PollPoller : PollPoller := mkPoll ∅ [].

(** An entry whose descriptor is negative is ignored by poll(2). *)
Definition ignored_fd (fd : Z) : Z := - fd - 1.

(** [vector::back] and [vector::pop_back]. *)
Definition back {A} (l : list A) : option A := l !! pred (length l).
Definition pop_back {A} (l : list A) : list A := take (pred (length l)) l.

Section poll.
  Context {CB : Type}.
  Implicit Types m : gmap ChannelPtr (Channel CB).

Definition poll_find (c : ChannelPtr) m : outcome (Channel CB) :=
  match m !! c with Some ch => Ok ch | None => Fail UndefinedBehaviour end.

Definition poll_updateChannel (c : ChannelPtr) (p : PollPoller) m
  : outcome (PollPoller * gmap ChannelPtr (Channel CB)) :=
  ch ← poll_find c m;
  if index_ ch <? 0 then
    _ ← require (bool_decide (pmap p !! fd_ ch = None));
    let pfd := mkPollfd (fd_ ch) (i16 (events_ ch)) 0 in
    let fds := pollfds_ p ++ [pfd] in
    let idx := i32 (zlen fds) - 1 in
    Ok (mkPoll (<[pfd_fd pfd := c]> (pmap p)) fds, <[c := set_index idx ch]> m)
  else
    _ ← require (bool_decide (pmap p !! fd_ ch ≠ None));
    _ ← require (bool_decide (pmap p !! fd_ ch = Some c));
    let idx := index_ ch in
    _ ← require ((0 <=? idx) && (idx <? i32 (zlen (pollfds_ p))));
    match pollfds_ p !! Z.to_nat idx with
    | None => Fail UndefinedBehaviour
    | Some pfd =>
        _ ← require ((pfd_fd pfd =? fd_ ch) || (pfd_fd pfd =? ignored_fd (fd_ ch)));
        let fd := if isNoneEvent ch then ignored_fd (fd_ ch) else fd_ ch in
        let pfd' := mkPollfd fd (i16 (events_ ch)) 0 in
        Ok (mkPoll (pmap p) (<[Z.to_nat idx := pfd']> (pollfds_ p)), m)
    end.

Definition poll_removeChannel (c : ChannelPtr) (p : PollPoller) m
  : outcome (PollPoller * gmap ChannelPtr (Channel CB)) :=
  ch ← poll_find c m;
  _ ← require (bool_decide (pmap p !! fd_ ch ≠ None));
  _ ← require (bool_decide (pmap p !! fd_ ch = Some c));
  _ ← require (isNoneEvent ch);
  let idx := index_ ch in
  _ ← require ((0 <=? idx) && (idx <? i32 (zlen (pollfds_ p))));
  match pollfds_ p !! Z.to_nat idx, back (pollfds_ p) with
  | Some pfd, Some pfdAtEnd =>
      _ ← require ((pfd_fd pfd =? ignored_fd (fd_ ch)) && (pfd_events pfd =? events_ ch));
      let pm := delete (fd_ ch) (pmap p) in
      if idx =? zlen (pollfds_ p) - 1 then
        Ok (mkPoll pm (pop_back (pollfds_ p)), m)
      else
        let channelAtEnd := if pfd_fd pfdAtEnd <? 0 then ignored_fd (pfd_fd pfdAtEnd) else pfd_fd pfdAtEnd in
        let fds := pop_back (<[Z.to_nat idx := pfdAtEnd]> (pollfds_ p)) in
        match pm !! channelAtEnd with
        | None => Fail UndefinedBehaviour
        | Some c2 =>
            ch2 ← poll_find c2 m;
            Ok (mkPoll pm fds, <[c2 := set_index idx ch2]> m)
        end
  | _, _ => Fail UndefinedBehaviour
  end.

(** [fillActiveChannels]: the scan of [pollfds_], stopped after [numEvents] hits. *)
Fixpoint poll_fill (fds : list pollfd) (numEvents : Z) (p : PollPoller) m (active : list ChannelPtr)
  : outcome (list ChannelPtr) :=
  match fds with
  | [] => Ok active
  | pfd :: fds' =>
      if numEvents <=? 0 then Ok active
      else if 0 <? pfd_revents pfd then
        match pmap p !! pfd_fd pfd with
        | None => Fail AssertFailure
        | Some c =>
            ch ← poll_find c m;
            _ ← require (fd_ ch =? pfd_fd pfd);
            poll_fill fds' (numEvents - 1) p m (active ++ [c])
        end
      else poll_fill fds' numEvents p m active
  end.

(** What poll(2) answers: the count and the entries with their [revents]. *)
Inductive poll_wait_result :=
| PollReady (numEvents : Z) (fds : list pollfd)
| PollFailed (err : Z).

Definition poll_poll (r : poll_wait_result) (p : PollPoller) m (active : list ChannelPtr)
  : outcome (PollPoller * gmap ChannelPtr (Channel CB) * list ChannelPtr) :=
  match r with
  | PollReady numEvents fds =>
      let p' := mkPoll (pmap p) fds in
      if 0 <? numEvents
      then active' ← poll_fill fds numEvents p' m active; Ok (p', m, active')
      else Ok (p', m, active)
  | PollFailed _ => Ok (p, m, active)
  end.

(** * Invariant *)

(** The entry of [pollfds_] says what the channel says. *)
Definition entry_of (pfd : pollfd) (ch : Channel CB) : Prop :=
  pfd_events pfd = events_ ch ∧
  (pfd_fd pfd = fd_ ch ∨ (pfd_fd pfd = ignored_fd (fd_ ch) ∧ events_ ch = 0)).

Record poll_inv (p : PollPoller) m : Prop := {
  pi_map fd c : pmap p !! fd = Some c →
    ∃ ch k pfd, m !! c = Some ch ∧ fd_ ch = fd ∧ 0 ≤ fd ∧ index_ ch = Z.of_nat k ∧
      pollfds_ p !! k = Some pfd ∧ entry_of pfd ch;
  pi_entry k pfd : pollfds_ p !! k = Some pfd →
    ∃ c ch, m !! c = Some ch ∧ pmap p !! fd_ ch = Some c ∧ index_ ch = Z.of_nat k;
  pi_len : zlen (pollfds_ p) < 2 ^ 31;
  pi_mask c ch : m !! c = Some ch → mask_ok (events_ ch)
}.

(** The event mask poll(2) will use for a descriptor. *)
Definition poll_watched (p : PollPoller) (fd : Z) : option Z :=
  '(_, pfd) ← list_find (λ pfd, pfd_fd pfd = fd) (pollfds_ p); Some (pfd_events pfd).

(** The entries whose events occurred. *)
Definition ready (fds : list pollfd) : list pollfd := filter (λ pfd, 0 < pfd_revents pfd) fds.

(** poll(2) changes nothing but [revents], and reports nothing for an entry
    whose descriptor is negative. *)
Definition poll_wait_valid (r : poll_wait_result) (p : PollPoller) : Prop :=
  match r with
  | PollReady n fds =>
      Forall2 (λ a b, pfd_fd b = pfd_fd a ∧ pfd_events b = pfd_events a ∧
                      (pfd_fd a < 0 → pfd_revents b = 0)) (pollfds_ p) fds ∧
      n = zlen (ready fds)
  | PollFailed _ => True
  end.

#[export] Instance poll_poller : Poller CB PollPoller := {
  wait_result := poll_wait_result;
  wait_valid := poll_wait_valid;
  poll := poll_poll;
  channels_ := pmap;
  updateChannel := poll_updateChannel;
  removeChannel := poll_removeChannel;
  watched := poll_watched;
  room_for p n := zlen (pollfds_ p) + n < 2 ^ 31;
  poller_inv := poll_inv
}.

Lemma ignored_neg fd : 0 ≤ fd → ignored_fd fd < 0.
Proof. unfold ignored_fd. lia. Qed.

Lemma ignored_twice fd : ignored_fd (ignored_fd fd) = fd.
Proof. unfold ignored_fd. lia. Qed.

Lemma mask_i16 ev : mask_ok ev → i16 ev = ev.
Proof. by intros [->|[->|[->| ->]]]. Qed.

(** What a registered channel finds in the arrays. *)
Lemma poll_registered p m c ch :
  poll_inv p m → m !! c = Some ch → pmap p !! fd_ ch = Some c →
  ∃ k pfd, index_ ch = Z.of_nat k ∧ pollfds_ p !! k = Some pfd ∧ entry_of pfd ch ∧ 0 ≤ fd_ ch.
Proof. intros I Hc Hr. destruct (pi_map _ _ I _ _ Hr) as (ch' & k & pfd & ? & ? & ? & ? & ? & ?). naive_solver. Qed.

(** An entry of [pollfds_] belongs to one registered channel. *)
Lemma poll_index_unique p m k c1 ch1 c2 ch2 :
  poll_inv p m → m !! c1 = Some ch1 → m !! c2 = Some ch2 →
  pmap p !! fd_ ch1 = Some c1 → pmap p !! fd_ ch2 = Some c2 →
  index_ ch1 = Z.of_nat k → index_ ch2 = Z.of_nat k → c1 = c2.
Proof.
  intros I H1 H2 R1 R2 I1 I2.
  destruct (poll_registered _ _ _ _ I H1 R1) as (k1 & p1 & ? & ? & [_ F1] & ?).
  destruct (poll_registered _ _ _ _ I H2 R2) as (k2 & p2 & ? & ? & [_ F2] & ?).
  assert (k1 = k) as -> by lia. assert (k2 = k) as -> by lia. simplify_eq.
  assert (fd_ ch1 = fd_ ch2) as Ef by (unfold ignored_fd in *; lia). congruence.
Qed.

(** No two entries are active for one descriptor. *)
Lemma poll_entry_unique p m k1 k2 pfd1 pfd2 :
  poll_inv p m → pollfds_ p !! k1 = Some pfd1 → pollfds_ p !! k2 = Some pfd2 →
  pfd_fd pfd1 = pfd_fd pfd2 → 0 ≤ pfd_fd pfd1 → k1 = k2.
Proof.
  intros I H1 H2 E Hp.
  destruct (pi_entry _ _ I _ _ H1) as (c1 & ch1 & Hm1 & Hr1 & Hi1).
  destruct (pi_entry _ _ I _ _ H2) as (c2 & ch2 & Hm2 & Hr2 & Hi2).
  destruct (poll_registered _ _ _ _ I Hm1 Hr1) as (k1' & p1' & ? & ? & [_ F1] & ?).
  destruct (poll_registered _ _ _ _ I Hm2 Hr2) as (k2' & p2' & ? & ? & [_ F2] & ?).
  assert (k1' = k1) as -> by lia. assert (k2' = k2) as -> by lia. simplify_eq.
  assert (fd_ ch1 = fd_ ch2) as Ef by (unfold ignored_fd in *; lia).
  rewrite Ef in Hr1. simplify_eq. lia.
Qed.

Lemma poll_watched_spec p m fd ev :
  poll_inv p m → 0 ≤ fd →
  poll_watched p fd = Some ev ↔ ∃ pfd, pfd ∈ pollfds_ p ∧ pfd_fd pfd = fd ∧ pfd_events pfd = ev.
Proof.
  intros I Hfd. unfold poll_watched. split.
  - intros ([k pfd] & Hf & [= <-])%bind_Some. apply list_find_Some in Hf as (Hk & ? & _).
    exists pfd. split_and!; try done. by eapply list_elem_of_lookup_2.
  - intros (pfd & [k Hk]%list_elem_of_lookup_1 & Ef & Eev).
    destruct (list_find _ (pollfds_ p)) as [[k' pfd']|] eqn:Hf; cbn.
    + apply list_find_Some in Hf as (Hk' & Ef' & _).
      assert (k = k') as -> by (eapply poll_entry_unique; eauto; congruence). congruence.
    + apply list_find_None in Hf. by destruct (Forall_lookup_1 _ _ _ _ Hf Hk).
Qed.

(** Entries of other channels are not active for the descriptor of [c]. *)
Lemma poll_other_entry p m k pfd c ch :
  poll_inv p m → m !! c = Some ch → 0 ≤ fd_ ch →
  (pmap p !! fd_ ch = Some c ∧ index_ ch ≠ Z.of_nat k ∨ pmap p !! fd_ ch = None) →
  pollfds_ p !! k = Some pfd → pfd_fd pfd ≠ fd_ ch.
Proof.
  intros I Hc Hfd Hno Hk.
  destruct (pi_entry _ _ I _ _ Hk) as (c' & ch' & Hm & Hr & Hi).
  destruct (poll_registered _ _ _ _ I Hm Hr) as (k' & p' & ? & ? & [_ F] & ?).
  assert (k' = k) as -> by lia. simplify_eq. intros E.
  assert (fd_ ch' = fd_ ch) as Ef by (unfold ignored_fd in *; lia).
  rewrite Ef in Hr. destruct Hno as [[Hr' Hi']|]; [|congruence]. simplify_eq.
Qed.

Lemma isNoneEvent_true (ch : Channel CB) : isNoneEvent ch = bool_decide (events_ ch = 0).
Proof.
  unfold isNoneEvent, kNoneEvent. destruct (Z.eqb_spec (events_ ch) 0).
  - by rewrite bool_decide_eq_true_2.
  - by rewrite bool_decide_eq_false_2.
Qed.

(** * Adding a channel *)
Lemma poll_add p m c ch ch1 :
  poll_inv p m → m !! c = Some ch → same_registration ch ch1 → mask_ok (events_ ch1) →
  addable p ch →
  let pfd := mkPollfd (fd_ ch) (events_ ch1) 0 in
  let p' := mkPoll (<[fd_ ch := c]> (pmap p)) (pollfds_ p ++ [pfd]) in
  let m' := <[c := set_index (zlen (pollfds_ p)) ch1]> m in
  poll_updateChannel c p (<[c := ch1]> m) = Ok (p', m') ∧ poll_inv p' m'.
Proof.
  intros I Hc [Ef Ei] Hmask (Hneg & Hfd & Hfree & Hroom) pfd p' m'. cbn in *. split.
  - unfold poll_updateChannel, poll_find. rewrite lookup_insert_eq, bind_Ok, Ei, Ef.
    rewrite (proj2 (Z.ltb_lt _ _)) by done. rewrite Hfree. cbn.
    rewrite mask_i16 by done. fold pfd. rewrite insert_insert_eq.
    subst m'. do 4 f_equal. rewrite zlen_app. change (zlen [pfd]) with 1.
    rewrite i32_small; [lia|]. pose proof (zlen_nonneg (pollfds_ p)). unfold in_i32. lia.
  - split; subst p' m'; cbn.
    + intros fd c'. destruct (decide (fd = fd_ ch)) as [->|].
      * rewrite lookup_insert_eq. intros [= <-]. rewrite lookup_insert_eq.
        exists (set_index (zlen (pollfds_ p)) ch1), (length (pollfds_ p)), pfd. cbn.
        split_and!; try done. { by rewrite list_lookup_middle. } { by split; [|left]. }
      * rewrite lookup_insert_ne by done. intros Hr.
        destruct (pi_map _ _ I _ _ Hr) as (ch' & k & pfd' & ? & ? & ? & ? & ? & ?).
        exists ch', k, pfd'. rewrite lookup_insert_ne by naive_solver.
        split_and!; try done. by apply lookup_app_l_Some.
    + intros k pfd' [Hk|[? Hk]]%lookup_app_Some.
      * destruct (pi_entry _ _ I _ _ Hk) as (c' & ch' & Hm & Hr & ?).
        assert (fd_ ch' ≠ fd_ ch) by congruence. assert (c' ≠ c) by congruence.
        exists c', ch'. by rewrite !lookup_insert_ne by done.
      * apply list_lookup_singleton_Some in Hk as [? <-].
        exists c, (set_index (zlen (pollfds_ p)) ch1). rewrite lookup_insert_eq. cbn. rewrite Ef, lookup_insert_eq.
        split_and!; [done|done|]. unfold zlen. lia.
    + rewrite zlen_app. change (zlen [pfd]) with 1. lia.
    + intros c' ch'. destruct (decide (c' = c)) as [->|].
      * rewrite lookup_insert_eq. by intros [= <-].
      * rewrite lookup_insert_ne by done. apply (pi_mask _ _ I).
Qed.

(** * Changing the mask of a registered channel *)
Lemma poll_change p m c ch ch1 k :
  poll_inv p m → m !! c = Some ch → same_registration ch ch1 → mask_ok (events_ ch1) →
  pmap p !! fd_ ch = Some c → index_ ch = Z.of_nat k →
  let pfd := mkPollfd (if isNoneEvent ch1 then ignored_fd (fd_ ch) else fd_ ch) (events_ ch1) 0 in
  let p' := mkPoll (pmap p) (<[k := pfd]> (pollfds_ p)) in
  poll_updateChannel c p (<[c := ch1]> m) = Ok (p', <[c := ch1]> m) ∧ poll_inv p' (<[c := ch1]> m).
Proof.
  intros I Hc [Ef Ei] Hmask Hr Hik pfd p'.
  destruct (poll_registered _ _ _ _ I Hc Hr) as (k' & pfd0 & Hi & Hk & [Hev Hent] & Hfd).
  assert (k' = k) as -> by lia.
  pose proof (lookup_lt_Some _ _ _ Hk) as Hlt. pose proof (pi_len _ _ I) as Hlen. split.
  - unfold poll_updateChannel, poll_find. rewrite lookup_insert_eq, bind_Ok, Ei, Ef, Hi, Hr.
    rewrite (proj2 (Z.ltb_ge _ _)) by lia. cbn.
    rewrite bool_decide_eq_true_2 by done. cbn.
    rewrite i32_small by (unfold in_i32, zlen in *; lia).
    rewrite require_true by (unfold zlen in *; bsolve). rewrite bind_Ok, Nat2Z.id, Hk.
    rewrite require_true by (rewrite orb_true_iff, !Z.eqb_eq; tauto).
    rewrite bind_Ok, mask_i16 by done. done.
  - split; subst p'; cbn.
    + intros fd c' Hr'. destruct (decide (c' = c)) as [->|Hne].
      * destruct (pi_map _ _ I _ _ Hr') as (ch' & k2 & pfd2 & ? & ? & ? & ? & ? & ?). simplify_eq.
        assert (k2 = k) as -> by lia. exists ch1, k, pfd. rewrite lookup_insert_eq.
        rewrite list_lookup_insert_eq by done. split_and!; try done; try congruence.
        split; [done|]. cbn. rewrite isNoneEvent_true, Ef. case_bool_decide; auto.
      * destruct (pi_map _ _ I _ _ Hr') as (ch' & k2 & pfd2 & Hm2 & <- & ? & ? & ? & ?).
        assert (k2 ≠ k). { intros ->. destruct Hne. apply (poll_index_unique p m k c' ch' c ch); auto. }
        exists ch', k2, pfd2. rewrite lookup_insert_ne, list_lookup_insert_ne by done. done.
    + intros k2 pfd2 Hk2. assert (is_Some (pollfds_ p !! k2)) as [pfd3 Hk3].
      { apply lookup_lt_is_Some. rewrite <- (length_insert (pollfds_ p) k pfd).
        by eapply lookup_lt_Some. }
      destruct (pi_entry _ _ I _ _ Hk3) as (c3 & ch3 & Hm3 & Hr3 & ?).
      destruct (decide (c3 = c)) as [->|].
      * exists c, ch1. rewrite lookup_insert_eq. simplify_eq. by rewrite Ef, Ei.
      * exists c3, ch3. by rewrite lookup_insert_ne.
    + unfold zlen. by rewrite length_insert.
    + intros c' ch'. destruct (decide (c' = c)) as [->|].
      * rewrite lookup_insert_eq. by intros [= <-].
      * rewrite lookup_insert_ne by done. apply (pi_mask _ _ I).
Qed.

(** * Removing a channel *)

(** The array after the swap with the last entry. *)
Lemma swap_pop_lookup (l : list pollfd) (i k : nat) x y :
  (i < length l)%nat →
  pop_back (<[i := x]> l) !! k = Some y ↔
  (k < pred (length l))%nat ∧ (k = i ∧ y = x ∨ k ≠ i ∧ l !! k = Some y).
Proof.
  intros Hi. unfold pop_back. rewrite length_insert, lookup_take_Some.
  destruct (decide (k = i)) as [->|].
  - rewrite list_lookup_insert_eq by done. naive_solver.
  - rewrite list_lookup_insert_ne by done. naive_solver.
Qed.

Lemma swap_pop_elem (l : list pollfd) i x y z :
  back l = Some x → l !! i = Some z →
  (y ∈ pop_back (<[i := x]> l) → y ∈ l) ∧ (y ∈ l → y ≠ z → y ∈ pop_back (<[i := x]> l)).
Proof.
  unfold back. intros Hx Hz. pose proof (lookup_lt_Some _ _ _ Hz) as Hi.
  rewrite !list_elem_of_lookup. split.
  - intros [k Hk]. apply swap_pop_lookup in Hk as [_ [[_ ->]|[_ ?]]]; eauto.
  - intros [k Hk] Hne. pose proof (lookup_lt_Some _ _ _ Hk).
    assert (k ≠ i) by congruence.
    destruct (decide (k = pred (length l))) as [->|].
    + exists i. rewrite swap_pop_lookup by done. split; [lia|left]. split; congruence.
    + exists k. rewrite swap_pop_lookup by done. split; [lia|by right].
Qed.

(** The invariant after the swap: [c2] owned the last entry and now owns [i]
    (when [i] is the last one, [c2] is the removed channel itself). *)
Lemma poll_inv_remove p m c ch ch1 i x c2 ch2 :
  poll_inv p m → m !! c = Some ch → same_registration ch ch1 → events_ ch1 = 0 →
  pmap p !! fd_ ch = Some c → index_ ch = Z.of_nat i →
  back (pollfds_ p) = Some x → m !! c2 = Some ch2 → pmap p !! fd_ ch2 = Some c2 →
  index_ ch2 = Z.of_nat (pred (length (pollfds_ p))) →
  poll_inv (mkPoll (delete (fd_ ch) (pmap p)) (pop_back (<[i := x]> (pollfds_ p))))
           (<[c2 := set_index (Z.of_nat i) (if decide (c2 = c) then ch1 else ch2)]> (<[c := ch1]> m)).
Proof.
  intros I Hc [Ef Ei] Hz Hr Hi Hx Hc2 Hr2 Hi2. unfold back in Hx.
  destruct (poll_registered _ _ _ _ I Hc Hr) as (i' & pfd0 & Hi' & Hk0 & _ & _).
  assert (i' = i) as -> by lia. pose proof (lookup_lt_Some _ _ _ Hk0) as Hlt.
  assert (Hsame : ∀ c' ch' k, m !! c' = Some ch' → pmap p !! fd_ ch' = Some c' →
    index_ ch' = Z.of_nat k → fd_ ch' ≠ fd_ ch →
    c' ≠ c ∧ k ≠ i ∧ (k = pred (length (pollfds_ p)) ↔ c' = c2)).
  { intros c' ch' k Hm Hr' Hk Hne. split_and!; [congruence| |split].
    - intros ->. assert (c' = c) as -> by (by apply (poll_index_unique p m i c' ch' c ch)). congruence.
    - intros ->. by apply (poll_index_unique p m (pred (length (pollfds_ p))) c' ch' c2 ch2).
    - intros ->. simplify_eq. lia. }
  split; cbn.
  - intros fd c' [Hne Hr']%lookup_delete_Some.
    destruct (pi_map _ _ I _ _ Hr') as (ch' & k & pfd' & Hm' & <- & ? & Hk & Hkl & Hent).
    destruct (Hsame c' ch' k) as (Hcc & Hki & Hlast); [done..|].
    pose proof (lookup_lt_Some _ _ _ Hkl) as Hklt.
    destruct (decide (c' = c2)) as [->|Hc2'].
    + rewrite lookup_insert_eq, decide_False by done. simplify_eq.
      assert (k = pred (length (pollfds_ p))) as -> by tauto. simplify_eq.
      exists (set_index (Z.of_nat i) ch2), i, x. rewrite swap_pop_lookup by done.
      split_and!; [done..| |left; done|done]. lia.
    + rewrite !lookup_insert_ne by done. exists ch', k, pfd'. rewrite swap_pop_lookup by done.
      split_and!; [done..| |right; done|done]. assert (k ≠ pred (length (pollfds_ p))) by tauto. lia.
  - intros k y (Hk & Hcase)%swap_pop_lookup; [|done].
    assert (∃ y', pollfds_ p !! k = Some y') as [y' Hy'] by (apply lookup_lt_is_Some; lia).
    destruct (pi_entry _ _ I _ _ Hy') as (c' & ch' & Hm' & Hr' & Hk').
    destruct Hcase as [[-> ->]|[Hki Hky]].
    + assert (c2 ≠ c) by (intros ->; simplify_eq; lia).
      assert (fd_ ch2 ≠ fd_ ch) by congruence.
      exists c2, (set_index (Z.of_nat i) ch2). rewrite lookup_insert_eq, decide_False by done.
      split_and!; [done| |done]. cbn. by rewrite lookup_delete_ne.
    + assert (c' ≠ c) by (intros ->; simplify_eq; lia).
      assert (fd_ ch' ≠ fd_ ch) by congruence.
      assert (c' ≠ c2) by (intros ->; simplify_eq; lia).
      exists c', ch'. rewrite !lookup_insert_ne, lookup_delete_ne by done. done.
  - pose proof (pi_len _ _ I). unfold pop_back, zlen in *. rewrite length_take, length_insert. lia.
  - intros c' ch'. destruct (decide (c' = c2)) as [->|]; [|destruct (decide (c' = c)) as [->|]].
    + rewrite lookup_insert_eq. intros [= <-]. cbn. destruct (decide _).
      * rewrite Hz. by left.
      * by eapply pi_mask.
    + rewrite lookup_insert_ne, lookup_insert_eq by done. intros [= <-]. rewrite Hz. by left.
    + rewrite !lookup_insert_ne by done. apply (pi_mask _ _ I).
Qed.

Lemma poll_remove p m c ch ch1 :
  poll_inv p m → m !! c = Some ch → same_registration ch ch1 →
  pmap p !! fd_ ch = Some c → events_ ch = 0 → events_ ch1 = 0 →
  poll_watched p (fd_ ch) = None →
  ∃ i x c2 ch2,
    let p' := mkPoll (delete (fd_ ch) (pmap p)) (pop_back (<[i := x]> (pollfds_ p))) in
    let m' := <[c2 := set_index (Z.of_nat i) ch2]> (<[c := ch1]> m) in
    (i < length (pollfds_ p))%nat ∧ index_ ch = Z.of_nat i ∧ back (pollfds_ p) = Some x ∧
    <[c := ch1]> m !! c2 = Some ch2 ∧
    poll_removeChannel c p (<[c := ch1]> m) = Ok (p', m') ∧ poll_inv p' m'.
Proof.
  intros I Hc [Ef Ei] Hr Hz Hz1 Hw.
  destruct (poll_registered _ _ _ _ I Hc Hr) as (i & pfd & Hi & Hk & [Hev Hent] & Hfd).
  pose proof (lookup_lt_Some _ _ _ Hk) as Hlt. pose proof (pi_len _ _ I) as Hlen.
  assert (pfd_fd pfd = ignored_fd (fd_ ch)) as Hig.
  { destruct Hent as [E|[? _]]; [|done]. exfalso.
    enough (poll_watched p (fd_ ch) = Some (pfd_events pfd)) by congruence.
    apply (poll_watched_spec p m); [done..|]. exists pfd. split_and!; try done.
    by eapply list_elem_of_lookup_2. }
  assert (∃ x, back (pollfds_ p) = Some x) as [x Hx] by (apply lookup_lt_is_Some; lia).
  destruct (pi_entry _ _ I _ _ Hx) as (c2 & ch2 & Hc2 & Hr2 & Hi2).
  destruct (poll_registered _ _ _ _ I Hc2 Hr2) as (j & x' & Hj & Hjx & [_ Hx2] & Hfd2).
  assert (j = pred (length (pollfds_ p))) as -> by lia.
  assert (x' = x) as -> by (unfold back in Hx; congruence).
  pose proof (poll_inv_remove p m c ch ch1 i x c2 ch2 I Hc (conj Ef Ei) Hz1 Hr Hi Hx Hc2 Hr2 Hi2) as I'.
  eexists i, x, c2, _. split_and!; [done|done|done| | |exact I'].
  { destruct (decide (c2 = c)) as [->|]; [by rewrite lookup_insert_eq|by rewrite lookup_insert_ne]. }
  unfold poll_removeChannel, poll_find.
  rewrite lookup_insert_eq, bind_Ok, Ei, Ef, Hr, Hi. cbn.
  rewrite bool_decide_eq_true_2 by done. cbn. rewrite isNoneEvent_true, Hz1. cbn.
  rewrite i32_small by (unfold in_i32, zlen in *; lia).
  rewrite require_true by (unfold zlen in *; bsolve). rewrite bind_Ok, Nat2Z.id, Hk, Hx.
  rewrite require_true by (rewrite Hig, Hev, Hz, !Z.eqb_refl; done). rewrite bind_Ok.
  destruct (Z.eqb_spec (Z.of_nat i) (zlen (pollfds_ p) - 1)) as [El|El].
  - assert (i = pred (length (pollfds_ p))) as -> by (unfold zlen in El; lia).
    assert (c2 = c) as -> by (by apply (poll_index_unique p m (pred (length (pollfds_ p))) c2 ch2 c ch)).
    rewrite decide_True by done. unfold back in Hx. rewrite (list_insert_id (pollfds_ p)) by done.
    rewrite insert_insert_eq. do 3 f_equal. rewrite <- Hi, <- Ei. by destruct ch1.
  - assert (c2 ≠ c) as Hne by (intros ->; unfold zlen in El; simplify_eq; lia).
    assert (fd_ ch2 ≠ fd_ ch) by congruence.
    assert ((if pfd_fd x <? 0 then ignored_fd (pfd_fd x) else pfd_fd x) = fd_ ch2) as ->.
    { pose proof (ignored_neg (fd_ ch2) Hfd2). destruct Hx2 as [->|[-> _]].
      - by rewrite (proj2 (Z.ltb_ge _ _)).
      - by rewrite (proj2 (Z.ltb_lt _ _)), ignored_twice. }
    rewrite lookup_delete_ne, Hr2, lookup_insert_ne, Hc2 by done. cbn.
    by rewrite decide_False.
Qed.

(** * The interface's laws *)

(** Two arrays that agree on the entries active for [fd] watch it alike. *)
Lemma poll_watched_ext p m p' m' fd :
  poll_inv p m → poll_inv p' m' → 0 ≤ fd →
  (∀ pfd, pfd_fd pfd = fd → pfd ∈ pollfds_ p' ↔ pfd ∈ pollfds_ p) →
  poll_watched p' fd = poll_watched p fd.
Proof.
  intros I I' Hfd Hext. apply option_eq. intros ev.
  rewrite (poll_watched_spec p' m'), (poll_watched_spec p m) by done. naive_solver.
Qed.

Lemma poll_update_law p m c ch ch1 :
  poll_inv p m → m !! c = Some ch → same_registration ch ch1 → mask_ok (events_ ch1) →
  registered p c ch ∨ addable p ch →
  ∃ p' m', poll_updateChannel c p (<[c := ch1]> m) = Ok (p', m') ∧
    poll_inv p' m' ∧ heap_sim (<[c := ch1]> m) m' ∧ (∀ c2, c2 ≠ c → m' !! c2 = m !! c2) ∧
    pmap p' = <[fd_ ch := c]> (pmap p) ∧
    (∀ fd, 0 ≤ fd → fd ≠ fd_ ch → poll_watched p' fd = poll_watched p fd) ∧
    (events_ ch1 ≠ 0 → poll_watched p' (fd_ ch) = Some (events_ ch1)) ∧
    (events_ ch1 = 0 → registered p c ch → events_ ch ≠ 0 → poll_watched p' (fd_ ch) = None).
Proof.
  intros I Hc Hsame Hmask [Hr|Hadd]; pose proof Hsame as [Ef Ei].
  - unfold registered in Hr; cbn in Hr.
    destruct (poll_registered _ _ _ _ I Hc Hr) as (k & pfd0 & Hi & Hk & [_ Hent] & Hfd).
    pose proof (lookup_lt_Some _ _ _ Hk) as Hlt.
    destruct (poll_change p m c ch ch1 k) as [Hu I']; [done..|].
    do 2 eexists. split; [exact Hu|]. split; [exact I'|]. split_and!.
    + apply heap_sim_refl.
    + intros. by rewrite lookup_insert_ne.
    + by rewrite insert_id.
    + intros fd Hge Hne. apply (poll_watched_ext _ m _ _ _ I I' Hge). intros pfd Epfd. cbn.
      pose proof (ignored_neg (fd_ ch) Hfd).
      rewrite !list_elem_of_lookup. split; intros [k2 Hk2]; exists k2.
      * destruct (decide (k2 = k)) as [->|]; [|by rewrite list_lookup_insert_ne in Hk2].
        rewrite list_lookup_insert_eq in Hk2 by done. simplify_eq. cbn in *. case_match; lia.
      * destruct (decide (k2 = k)) as [->|]; [|by rewrite list_lookup_insert_ne].
        simplify_eq. destruct Hent as [E|[E _]]; rewrite E in *; lia.
    + intros Hne. apply (poll_watched_spec _ _ _ _ I' Hfd). cbn.
      eexists. split; [apply list_elem_of_lookup; exists k; by rewrite list_lookup_insert_eq|].
      cbn. rewrite isNoneEvent_true. by rewrite bool_decide_eq_false_2.
    + intros Hz _ _. apply eq_None_not_Some. intros [ev Hw].
      apply (poll_watched_spec _ _ _ _ I' Hfd) in Hw as (pfd & [k2 Hk2]%list_elem_of_lookup & Epfd & _).
      cbn in *. destruct (decide (k2 = k)) as [->|Hne].
      * rewrite list_lookup_insert_eq in Hk2 by done. simplify_eq. cbn in *.
        rewrite isNoneEvent_true, bool_decide_eq_true_2 in Epfd by done.
        pose proof (ignored_neg (fd_ ch) Hfd). lia.
      * rewrite list_lookup_insert_ne in Hk2 by done.
        eapply (poll_other_entry p m k2 pfd c ch); eauto. left. split; [done|]. lia.
  - destruct (poll_add p m c ch ch1) as [Hu I']; [done..|].
    destruct Hadd as (Hneg & Hfd & Hfree & _). cbn in Hfree.
    do 2 eexists. split; [exact Hu|]. split; [exact I'|]. split_and!.
    + apply heap_sim_insert.
    + intros. by rewrite lookup_insert_ne.
    + done.
    + intros fd Hge Hne. apply (poll_watched_ext _ m _ _ _ I I' Hge). intros pfd Epfd. cbn.
      rewrite elem_of_app, list_elem_of_singleton. split; [|by left].
      intros [?| ->]; [done|]. by cbn in Epfd.
    + intros Hne. apply (poll_watched_spec _ _ _ _ I' Hfd). cbn.
      eexists. rewrite elem_of_app, list_elem_of_singleton. by split; [right|].
    + unfold registered. cbn. congruence.
Qed.

Lemma poll_room_law p m c ch ch1 p' m' n :
  poll_inv p m → m !! c = Some ch → same_registration ch ch1 → mask_ok (events_ ch1) →
  registered p c ch ∨ addable p ch →
  poll_updateChannel c p (<[c := ch1]> m) = Ok (p', m') →
  zlen (pollfds_ p) + n < 2 ^ 31 → zlen (pollfds_ p') + (n - 1) < 2 ^ 31.
Proof.
  intros I Hc Hsame Hmask [Hr|Hadd] E Hn.
  - unfold registered in Hr; cbn in Hr.
    destruct (poll_registered _ _ _ _ I Hc Hr) as (k & pfd0 & Hi & Hk & _).
    destruct (poll_change p m c ch ch1 k) as [Hu _]; [done..|]. rewrite E in Hu. injection Hu as -> _.
    cbn. unfold zlen in *. rewrite length_insert. lia.
  - destruct (poll_add p m c ch ch1) as [Hu _]; [done..|]. rewrite E in Hu. injection Hu as -> _.
    cbn. rewrite zlen_app. change (zlen [_]) with 1. lia.
Qed.

(** * Delivery of events *)

(** The scan reports the channels of the entries with events, and stops after
    [numEvents] of them.  Unlike epoll's, it does not store what happened in the
    channels: the heap is not a result of [poll_fill]. *)
Lemma poll_fill_spec fds n p m active :
  (∀ pfd, pfd ∈ fds → 0 < pfd_revents pfd →
     ∃ c ch, pmap p !! pfd_fd pfd = Some c ∧ m !! c = Some ch ∧ fd_ ch = pfd_fd pfd) →
  ∃ cs, poll_fill fds n p m active = Ok (active ++ cs) ∧
        Forall2 (λ pfd c, pmap p !! pfd_fd pfd = Some c) (ztake n (ready fds)) cs.
Proof.
  revert n active. induction fds as [|pfd fds IH]; intros n active Hall; cbn.
  - exists []. rewrite app_nil_r. unfold ready, ztake. cbn. by rewrite take_nil.
  - destruct (Z.leb_spec n 0).
    { exists []. rewrite app_nil_r, ztake_0 by done. by split. }
    unfold ready. destruct (Z.ltb_spec 0 (pfd_revents pfd)) as [Hr|Hr].
    + rewrite decide_True by done.
      destruct (Hall pfd) as (c & ch & Hc & Hm & Hfd); [left|done|].
      rewrite Hc. unfold poll_find. rewrite Hm. cbn. rewrite Hfd, Z.eqb_refl. cbn.
      destruct (IH (n - 1) (active ++ [c])) as (cs & -> & Hcs); [intros; apply Hall; [by right|done]|].
      exists (c :: cs). rewrite <- app_assoc. split; [done|].
      unfold ztake in *. replace (Z.to_nat n) with (S (Z.to_nat (n - 1))) by lia. by constructor.
    + rewrite decide_False by lia. apply IH. intros. apply Hall; [by right|done].
Qed.

(** The same entries up to [revents]: same invariant, same watched masks. *)
Lemma poll_inv_revents p m fds :
  poll_inv p m →
  Forall2 (λ a b, pfd_fd b = pfd_fd a ∧ pfd_events b = pfd_events a ∧
                  (pfd_fd a < 0 → pfd_revents b = 0)) (pollfds_ p) fds →
  poll_inv (mkPoll (pmap p) fds) m.
Proof.
  intros I HF. split; cbn.
  - intros fd c Hr. destruct (pi_map _ _ I _ _ Hr) as (ch & k & pfd & ? & ? & ? & ? & Hk & He & Hf).
    destruct (Forall2_lookup_l _ _ _ _ _ HF Hk) as (pfd' & Hk' & E1 & E2 & _).
    exists ch, k, pfd'. unfold entry_of. by rewrite E1, E2.
  - intros k pfd' Hk'. destruct (Forall2_lookup_r _ _ _ _ _ HF Hk') as (pfd & Hk & _).
    by apply (pi_entry _ _ I k pfd).
  - pose proof (pi_len _ _ I). unfold zlen in *. by rewrite <- (Forall2_length HF).
  - apply (pi_mask _ _ I).
Qed.

(** An entry with events belongs to a registered channel. *)
Lemma poll_ready_registered p m fds n :
  poll_inv p m → poll_wait_valid (PollReady n fds) p →
  ∀ pfd, pfd ∈ fds → 0 < pfd_revents pfd →
  ∃ c ch, pmap p !! pfd_fd pfd = Some c ∧ m !! c = Some ch ∧ fd_ ch = pfd_fd pfd.
Proof.
  intros I [HF _] pfd [k Hk]%list_elem_of_lookup Hrev.
  destruct (Forall2_lookup_r _ _ _ _ _ HF Hk) as (pfd0 & Hk0 & E1 & _ & Hneg).
  destruct (pi_entry _ _ I _ _ Hk0) as (c & ch & Hm & Hr & Hi).
  destruct (poll_registered _ _ _ _ I Hm Hr) as (k' & pfd0' & ? & ? & [_ Hent] & Hfd).
  assert (k' = k) as -> by lia. simplify_eq. rewrite E1.
  destruct Hent as [E|[E _]]; [|pose proof (ignored_neg _ Hfd); lia].
  rewrite E. eauto.
Qed.

Lemma poll_poll_law p m r :
  poll_inv p m → poll_wait_valid r p →
  ∃ p' m' active, poll_poll r p m [] = Ok (p', m', active) ∧
    poll_inv p' m' ∧ heap_rev m m' ∧ pmap p' = pmap p ∧
    (∀ fd, poll_watched p' fd = poll_watched p fd) ∧
    (∀ c, c ∈ active → ∃ ch, m !! c = Some ch ∧ registered p c ch).
Proof.
  intros I V. assert (Hnil : ∀ c : ChannelPtr, c ∈ [] → ∃ ch, m !! c = Some ch ∧ registered p c ch).
  { intros c Hc. by apply elem_of_nil in Hc. }
  destruct r as [n fds|err]; cbn.
  2:{ exists p, m, []. split_and!; try done. apply heap_rev_refl. }
  destruct V as [HF ->]. pose proof (poll_inv_revents p m fds I HF) as I'.
  assert (Hw : ∀ fd, poll_watched (mkPoll (pmap p) fds) fd = poll_watched p fd).
  { intros fd. unfold poll_watched. cbn. clear I I'. induction HF as [|a b l k (E1 & E2 & _) HF IH]; [done|].
    cbn. rewrite E1. destruct (decide _); cbn; [by rewrite E2|].
    destruct (list_find _ l) as [[]|], (list_find _ k) as [[]|]; cbn in *; congruence. }
  pose proof (poll_ready_registered p m fds (zlen (ready fds)) I (conj HF eq_refl)) as Hall.
  case_match.
  - destruct (poll_fill_spec fds (zlen (ready fds)) (mkPoll (pmap p) fds) m [] Hall) as (cs & Hf & Hcs).
    cbn [app] in Hf. rewrite Hf, bind_Ok. do 3 eexists. split; [done|]. split_and!; try done.
    { apply heap_rev_refl. }
    intros c Hc. rewrite list_elem_of_lookup in Hc. destruct Hc as [k Hk].
    destruct (Forall2_lookup_r _ _ _ _ _ Hcs Hk) as (pfd & Hkp & Hr). cbn in Hr.
    destruct (pi_map _ _ I _ _ Hr) as (ch & _ & _ & Hm & Hfd & _). exists ch. unfold registered. cbn.
    by rewrite Hfd.
  - exists (mkPoll (pmap p) fds), m, []. split_and!; try done. apply heap_rev_refl.
Qed.

Lemma poll_inv_put p m c ch ch' :
  poll_inv p m → m !! c = Some ch → same_registration ch ch' → events_ ch' = events_ ch →
  poll_inv p (<[c := ch']> m).
Proof.
  intros I Hc [Ef Ei] Ee. split.
  - intros fd c2 Hr. destruct (pi_map _ _ I _ _ Hr) as (ch2 & k & pfd & Hm & ? & ? & ? & ? & He).
    destruct (decide (c2 = c)) as [->|].
    + exists ch', k, pfd. rewrite lookup_insert_eq. simplify_eq.
      unfold entry_of in *. by rewrite Ef, Ei, Ee.
    + exists ch2, k, pfd. by rewrite lookup_insert_ne.
  - intros k pfd Hk. destruct (pi_entry _ _ I _ _ Hk) as (c2 & ch2 & Hm & Hr & ?).
    destruct (decide (c2 = c)) as [->|].
    + exists c, ch'. rewrite lookup_insert_eq. simplify_eq. by rewrite Ef, Ei.
    + exists c2, ch2. by rewrite lookup_insert_ne.
  - apply (pi_len _ _ I).
  - intros c2 ch2. destruct (decide (c2 = c)) as [->|].
    + rewrite lookup_insert_eq. intros [= <-]. rewrite Ee. by eapply pi_mask.
    + rewrite lookup_insert_ne by done. apply (pi_mask _ _ I).
Qed.

Lemma poll_inv_fresh p m c ch :
  poll_inv p m → m !! c = None → index_ ch = -1 → events_ ch = 0 → poll_inv p (<[c := ch]> m).
Proof.
  intros I Hc Hi He. split.
  - intros fd c2 Hr. destruct (pi_map _ _ I _ _ Hr) as (ch2 & k & pfd & Hm & Hrest).
    exists ch2, k, pfd. by rewrite lookup_insert_ne by congruence.
  - intros k pfd Hk. destruct (pi_entry _ _ I _ _ Hk) as (c2 & ch2 & Hm & Hrest).
    exists c2, ch2. by rewrite lookup_insert_ne by congruence.
  - apply (pi_len _ _ I).
  - intros c2 ch2. destruct (decide (c2 = c)) as [->|].
    + rewrite lookup_insert_eq. intros [= <-]. rewrite He. apply mask_ok_none.
    + rewrite lookup_insert_ne by done. apply (pi_mask _ _ I).
Qed.

#[export] Instance poll_laws : PollerLaws CB PollPoller.
Proof.
  split.
  - intros p m c ch I. apply (pi_mask _ _ I).
  - intros p m fd c I Hr. destruct (pi_map _ _ I _ _ Hr) as (ch & ? & ? & ? & ? & _). eauto.
  - intros p m c ch I Hc Hr Hne.
    destruct (poll_registered _ _ _ _ I Hc Hr) as (k & pfd & Hi & Hk & [Hev Hent] & Hfd).
    apply (poll_watched_spec _ _ _ _ I Hfd). exists pfd. split_and!; [|tauto|done].
    by eapply list_elem_of_lookup_2.
  - apply poll_inv_fresh.
  - apply poll_inv_put.
  - intros. right. by apply poll_update_law.
  - apply poll_room_law.
  - intros p m c ch ch1 I Hc Hsame Hr Hz Hz1 Hw.
    destruct (poll_remove p m c ch ch1) as (i & x & c2 & ch2 & Hlt & Hi & Hx & Hc2 & Hu & I'); [done..|].
    do 2 eexists. split; [exact Hu|]. split; [exact I'|]. split_and!.
    + rewrite <- (insert_id (<[c:=ch1]> m) c2 ch2) at 1 by done. apply heap_sim_insert.
    + done.
    + destruct (poll_registered _ _ _ _ I Hc Hr) as (k & pfd0 & Hi' & Hk & [_ Hent] & Hfd).
      assert (k = i) as -> by lia.
      assert (pfd_fd pfd0 < 0) as Hneg.
      { destruct Hent as [E|[-> _]]; [|by apply ignored_neg]. exfalso.
        enough (poll_watched p (fd_ ch) = Some (pfd_events pfd0)) as Hw' by (cbn in *; congruence).
        apply (poll_watched_spec _ _ _ _ I Hfd). eauto using list_elem_of_lookup_2. }
      intros fd Hge. apply (poll_watched_ext _ m _ _ _ I I' Hge). intros pfd <-.
      destruct (swap_pop_elem _ _ _ pfd _ Hx Hk). cbn. split; [done|]. intros Hin.
      assert (pfd ≠ pfd0) by (intros ->; lia). auto.
  - apply poll_poll_law.
Qed.

End poll.
