(* ===== verification/DefaultPoller.v ===== *)
(** The choice of a poller: networker/net/poller/DefaultPoller.cpp.

    [newDefaultPoller] answers an object of one of the two classes; the loop calls it through the
    virtual functions of [Poller].  So the two classes together are a poller again, and it keeps
    the contract of Poller.v: what is proved of the loop holds whichever was chosen. *)
From S2P Require Import Prelude.
From S2P Require Import Channel.
From S2P Require Import Poller.
From S2P Require Import EPollPoller.
From S2P Require Import PollPoller.

(** A [Poller*] to an object of either class. *)
Inductive AnyPoller `{!EpollKernel} :=
| IsEPoll (p : EPollPoller)
| IsPoll (p : PollPoller).

Section default_poller.
  Context {CB : Type} `{!EpollKernel}.
  Implicit Types m : gmap ChannelPtr (Channel CB).

(** [getenv("NETWORKER_USE_POLL")], and what epoll_create1(2) answers if it is called. *)
Definition newDefaultPoller (use_poll : option (list byte)) (epollfd : Z) : outcome AnyPoller :=
  match use_poll with
  | Some _ => Ok (IsPoll new_PollPoller)
  | None => p ← new_EPollPoller epollfd; Ok (IsEPoll p)
  end.

(** The virtual call of an operation that changes the poller and the channels. *)
Definition virtual {A} (epoll : EPollPoller → outcome (EPollPoller * A)) (poll : PollPoller → outcome (PollPoller * A))
    (p : AnyPoller) : outcome (AnyPoller * A) :=
  match p with
  | IsEPoll p => '(p, a) ← epoll p; Ok (IsEPoll p, a)
  | IsPoll p => '(p, a) ← poll p; Ok (IsPoll p, a)
  end.

(** A wait is answered by the system call of the class: the pair holds an answer for each. *)
#[export] Instance any_poller : Poller CB AnyPoller := {
  wait_result := epoll_wait_result * poll_wait_result;
  wait_valid r p := match p with IsEPoll p => epoll_wait_valid r.1 p | IsPoll p => poll_wait_valid r.2 p end;
  poll r p m active :=
    match p with
    | IsEPoll p => '(p, m, active) ← epoll_poll r.1 p m active; Ok (IsEPoll p, m, active)
    | IsPoll p => '(p, m, active) ← poll_poll r.2 p m active; Ok (IsPoll p, m, active)
    end;
  channels_ p := match p with IsEPoll p => channels_ (CB:=CB) p | IsPoll p => channels_ (CB:=CB) p end;
  updateChannel c p m := virtual (λ p, updateChannel c p m) (λ p, updateChannel c p m) p;
  removeChannel c p m := virtual (λ p, removeChannel c p m) (λ p, removeChannel c p m) p;
  watched p := match p with IsEPoll p => watched (CB:=CB) p | IsPoll p => watched (CB:=CB) p end;
  room_for p := match p with IsEPoll p => room_for (CB:=CB) p | IsPoll p => room_for (CB:=CB) p end;
  poller_inv p m := match p with IsEPoll p => poller_inv p m | IsPoll p => poller_inv p m end
}.

Lemma any_registered p c (ch : Channel CB) :
  registered p c ch ↔ match p with IsEPoll p => registered p c ch | IsPoll p => registered p c ch end.
Proof. by destruct p. Qed.
Lemma any_addable p (ch : Channel CB) :
  addable p ch ↔ match p with IsEPoll p => addable p ch | IsPoll p => addable p ch end.
Proof. by destruct p. Qed.

#[export] Instance any_laws : PollerLaws CB AnyPoller.
Proof.
  split.
  - intros [p|p] m c ch; exact (inv_mask p m c ch).
  - intros [p|p] m fd c; exact (inv_channels p m fd c).
  - intros [p|p] m c ch; exact (inv_watched p m c ch).
  - intros [p|p] m c ch; exact (inv_fresh p m c ch).
  - intros [p|p] m c ch ch'; exact (inv_put p m c ch ch').
  - intros [p|p] m c ch ch' I Hc Hs Hm Hr.
    + destruct (update_law p m c ch ch' I Hc Hs Hm Hr) as [E|(p' & m' & E & Hrest)]; cbn; cbn in E; rewrite E; [by left|right].
      exists (IsEPoll p'), m'. split; [done|exact Hrest].
    + destruct (update_law p m c ch ch' I Hc Hs Hm Hr) as [E|(p' & m' & E & Hrest)]; cbn; cbn in E; rewrite E; [by left|right].
      exists (IsPoll p'), m'. split; [done|exact Hrest].
  - intros [p|p] m c ch ch' p' m' n I Hc Hs Hm Hr E Hn; cbn in E; apply bind_ok in E as ([p1 m1] & E & E2);
      injection E2 as <- <-; exact (room_law p m c ch ch' p1 m1 n I Hc Hs Hm Hr E Hn).
  - intros [p|p] m c ch ch' I Hc Hs Hr Hz Hz' Hw.
    + destruct (remove_law p m c ch ch' I Hc Hs Hr Hz Hz' Hw) as (p' & m' & E & Hrest). cbn. cbn in E. rewrite E.
      exists (IsEPoll p'), m'. split; [done|exact Hrest].
    + destruct (remove_law p m c ch ch' I Hc Hs Hr Hz Hz' Hw) as (p' & m' & E & Hrest). cbn. cbn in E. rewrite E.
      exists (IsPoll p'), m'. split; [done|exact Hrest].
  - intros [p|p] m r I Hv.
    + destruct (epoll_poll_law p m r.1 I Hv) as (p' & m' & active & E & Hrest). cbn. rewrite E.
      exists (IsEPoll p'), m', active. split; [done|exact Hrest].
    + destruct (poll_poll_law p m r.2 I Hv) as (p' & m' & active & E & Hrest). cbn. rewrite E.
      exists (IsPoll p'), m', active. split; [done|exact Hrest].
Qed.

(** A new poller knows no channel and has room. *)
Lemma newDefaultPoller_new use_poll epollfd p :
  newDefaultPoller use_poll epollfd = Ok p →
  poller_inv p (∅ : gmap ChannelPtr (Channel CB)) ∧ channels_ (CB:=CB) p = ∅ ∧ room_for (CB:=CB) p 2.
Proof.
  unfold newDefaultPoller. destruct use_poll as [v|].
  - intros [= <-]. split_and!; [|done|done]. by split.
  - intros E. apply bind_ok in E as (p1 & E & [= <-]). split_and!.
    + by apply (epoll_inv_new epollfd).
    + unfold new_EPollPoller in E. case_match; [done|]. by injection E as <-.
    + done.
Qed.
End default_poller.
