(* ===== verification/Loop.v ===== *)
(** What the components need from an event loop: the part of
    networker/net/EventLoop.h that Acceptor, Connector, TcpConnection and
    TimerQueue call.

    [Loop] has the operations, [LoopLaws] what they promise; EventLoop.v
    implements both.  From the laws this file derives how the five mask-changing
    methods and [remove] of a channel behave, which is what the clients use. *)
From S2P Require Import Prelude.
From S2P Require Import CurrentThread.
From S2P Require Import Channel.

(** [F] is the type of the functors given to the loop. *)
Class Loop (CB F L : Type) := {
  loop_owner :: ChannelOwner CB L;
  loop_hasChannel `{!CurrentThread} : ChannelPtr → L → outcome bool;
  isInLoopThread `{!CurrentThread} : L → bool;
  queueInLoop `{!CurrentThread} : F → L → outcome L;
  pending : L → list F
}.

(** [EventLoop::assertInLoopThread]. *)
Definition assertInLoopThread {CB F L} `{!Loop CB F L} `{!CurrentThread} (l : L) : outcome unit :=
  if isInLoopThread l then Ok tt else Fail FatalLog.

(** [EventLoop::runInLoop]: [run] is what calling the functor does. *)
Definition runInLoop {CB F L W} `{!Loop CB F L} `{!CurrentThread} (loop_of : W → L) (set_loop : L → W → W)
    (run : F → W → outcome W) (f : F) (w : W) : outcome W :=
  if isInLoopThread (loop_of w) then run f w
  else l ← queueInLoop f (loop_of w); Ok (set_loop l w).

(** The same channel up to its index, which is the poller's business. *)
Definition same_channel {CB} (ch ch' : Channel CB) : Prop := ∃ i, ch' = set_index i ch.

(** The vocabulary of the promises. *)
Class LoopSpec (CB F L : Type) `{!Loop CB F L} := {
  loop_inv : L → Prop;
  (** The poller knows this channel. *)
  has_channel : L → ChannelPtr → Prop;
  (** This channel object was never given to the poller; its descriptor is free. *)
  can_add : L → ChannelPtr → Prop;
  (** A descriptor no channel of the poller uses, and room for one more. *)
  fd_free : L → Z → Prop;
  (** [removeChannel] asserts that, while events are handled, a channel only
      removes itself or one that is not waiting to be handled. *)
  can_remove : L → ChannelPtr → Prop;
  (** The mask the next wait uses for a descriptor. *)
  loop_watched : L → Z → option Z
}.

Section spec.
  Context {CB F L : Type} `{!Loop CB F L, !LoopSpec CB F L}.

(** [l'] is [l] after [c] became [ch'] (up to the poller's private fields) and
    its mask was pushed to the poller. *)
Record updated (l : L) (c : ChannelPtr) (ch ch' : Channel CB) (l' : L) : Prop := {
  up_inv : loop_inv l';
  up_thread `{!CurrentThread} : isInLoopThread l' = isInLoopThread l;
  up_pending : pending l' = pending l;
  up_get : ∃ ch'', get_channel c l' = Some ch'' ∧ same_channel ch' ch'';
  up_others c2 : c2 ≠ c → get_channel c2 l' = get_channel c2 l;
  up_has : has_channel l' c;
  up_has_others c2 : c2 ≠ c → has_channel l c2 → has_channel l' c2;
  up_remove c2 : can_remove l c2 → can_remove l' c2;
  up_watched fd : 0 ≤ fd → fd ≠ fd_ ch → loop_watched l' fd = loop_watched l fd;
  up_quiet : events_ ch' = 0 → has_channel l c → events_ ch ≠ 0 → loop_watched l' (fd_ ch) = None
}.

(** [l'] is [l] after [c] became [ch'] and was taken from the poller. *)
Record removed (l : L) (c : ChannelPtr) (ch ch' : Channel CB) (l' : L) : Prop := {
  rm_inv : loop_inv l';
  rm_thread `{!CurrentThread} : isInLoopThread l' = isInLoopThread l;
  rm_pending : pending l' = pending l;
  rm_get : ∃ ch'', get_channel c l' = Some ch'' ∧ same_channel ch' ch'';
  rm_others c2 ch2 : c2 ≠ c → get_channel c2 l = Some ch2 →
    ∃ ch2', get_channel c2 l' = Some ch2' ∧ same_channel ch2 ch2';
  rm_has : ¬ has_channel l' c;
  rm_has_others c2 : c2 ≠ c → has_channel l c2 → has_channel l' c2;
  rm_watched fd : 0 ≤ fd → loop_watched l' fd = loop_watched l fd
}.

(** [l'] is [l] with the new channel object [ch] at [c]. *)
Record created (l : L) (c : ChannelPtr) (ch : Channel CB) (l' : L) : Prop := {
  cr_inv : loop_inv l';
  cr_thread `{!CurrentThread} : isInLoopThread l' = isInLoopThread l;
  cr_pending : pending l' = pending l;
  cr_get : get_channel c l' = Some ch;
  cr_others c2 : c2 ≠ c → get_channel c2 l' = get_channel c2 l;
  cr_has c2 : has_channel l c2 → has_channel l' c2;
  cr_add : fd_free l (fd_ ch) → can_add l' c;
  cr_free fd : fd_free l fd → fd_free l' fd;
  cr_remove c2 : can_remove l c2 → can_remove l' c2;
  cr_watched fd : loop_watched l' fd = loop_watched l fd
}.

(** [l'] is [l] with [c] replaced by [ch'], which the poller does not notice. *)
Record touched (l : L) (c : ChannelPtr) (ch' : Channel CB) (l' : L) : Prop := {
  to_inv : loop_inv l';
  to_thread `{!CurrentThread} : isInLoopThread l' = isInLoopThread l;
  to_pending : pending l' = pending l;
  to_get : get_channel c l' = Some ch';
  to_others c2 : c2 ≠ c → get_channel c2 l' = get_channel c2 l;
  to_has c2 : has_channel l c2 ↔ has_channel l' c2;
  to_add c2 : can_add l c2 → can_add l' c2;
  to_remove c2 : can_remove l c2 → can_remove l' c2;
  to_watched fd : loop_watched l' fd = loop_watched l fd
}.

(** [l'] differs from [l] in the pending functors only. *)
Record same_loop (l l' : L) : Prop := {
  sl_inv : loop_inv l → loop_inv l';
  sl_thread `{!CurrentThread} : isInLoopThread l' = isInLoopThread l;
  sl_get c : get_channel c l' = get_channel c l;
  sl_has c : has_channel l c ↔ has_channel l' c;
  sl_add c : can_add l c → can_add l' c;
  sl_remove c : can_remove l c → can_remove l' c;
  sl_watched fd : loop_watched l' fd = loop_watched l fd
}.

Class LoopLaws := {
  get_put l c ch : get_channel c (put_channel c ch l) = Some ch;
  get_put_ne l c c2 ch : c2 ≠ c → get_channel c2 (put_channel c ch l) = get_channel c2 l;
  put_put l c ch ch' : put_channel c ch' (put_channel c ch l) = put_channel c ch' l;
  loop_inv_mask l c ch : loop_inv l → get_channel c l = Some ch → mask_ok (events_ ch);
  loop_inv_watched l c ch :
    loop_inv l → get_channel c l = Some ch → has_channel l c → events_ ch ≠ 0 →
    loop_watched l (fd_ ch) = Some (events_ ch);
  loop_new_law l c ch :
    loop_inv l → get_channel c l = None → index_ ch = -1 → events_ ch = 0 →
    created l c ch (put_channel c ch l);
  loop_put_law l c ch ch' :
    loop_inv l → get_channel c l = Some ch →
    fd_ ch' = fd_ ch → index_ ch' = index_ ch → events_ ch' = events_ ch →
    touched l c ch' (put_channel c ch' l);
  loop_update_law `{!CurrentThread} l c ch ch' :
    loop_inv l → isInLoopThread l = true → get_channel c l = Some ch →
    fd_ ch' = fd_ ch → index_ ch' = index_ ch → mask_ok (events_ ch') →
    has_channel l c ∨ can_add l c →
    loop_updateChannel c (put_channel c ch' l) = Fail FatalLog ∨
    ∃ l', loop_updateChannel c (put_channel c ch' l) = Ok l' ∧ updated l c ch ch' l';
  loop_remove_law `{!CurrentThread} l c ch ch' :
    loop_inv l → isInLoopThread l = true → get_channel c l = Some ch →
    fd_ ch' = fd_ ch → index_ ch' = index_ ch → events_ ch = 0 → events_ ch' = 0 →
    has_channel l c → can_remove l c → loop_watched l (fd_ ch) = None →
    ∃ l', loop_removeChannel c (put_channel c ch' l) = Ok l' ∧ removed l c ch ch' l';
  loop_has_law `{!CurrentThread} l c ch :
    loop_inv l → isInLoopThread l = true → get_channel c l = Some ch →
    ∃ b, loop_hasChannel c l = Ok b ∧ (b = true ↔ has_channel l c);
  queue_law `{!CurrentThread} f l :
    ∃ l', queueInLoop f l = Ok l' ∧ pending l' = pending l ++ [f] ∧ same_loop l l'
}.
End spec.
Arguments LoopLaws CB F L {_ _}.

(** * The channel's methods, against the laws *)
Section channel_methods.
  Context {CB F L : Type} `{!Loop CB F L, !LoopSpec CB F L, !LoopLaws CB F L} `{!CurrentThread}.
  Implicit Types (l : L) (c : ChannelPtr) (ch : Channel CB).

(** The channel after a method computed the mask [ev] and pushed it. *)
Definition pushed (ev : Z) ch : Channel CB := set_addedToLoop true (set_events ev ch).

Lemma same_channel_refl ch : same_channel ch ch.
Proof. exists (index_ ch). by destruct ch. Qed.

Lemma same_channel_trans ch1 ch2 ch3 :
  same_channel ch1 ch2 → same_channel ch2 ch3 → same_channel ch1 ch3.
Proof. intros (i & ->) (i' & ->). by exists i'. Qed.

Lemma change_mask_eq l c ch (g : Z → Z) :
  get_channel c l = Some ch →
  (modify c (λ ch, set_events (g (events_ ch)) ch) l ≫= update c) =
  loop_updateChannel c (put_channel c (pushed (g (events_ ch)) ch) l).
Proof.
  intros Hc. unfold modify, deref, update, modify, deref. rewrite Hc. cbn. rewrite get_put. cbn.
  by rewrite put_put.
Qed.

Lemma change_mask l c ch (g : Z → Z) :
  loop_inv l → isInLoopThread l = true → get_channel c l = Some ch → mask_ok (g (events_ ch)) →
  has_channel l c ∨ can_add l c →
  (modify c (λ ch, set_events (g (events_ ch)) ch) l ≫= update c) = Fail FatalLog ∨
  ∃ l', (modify c (λ ch, set_events (g (events_ ch)) ch) l ≫= update c) = Ok l' ∧
        updated l c ch (pushed (g (events_ ch)) ch) l'.
Proof.
  intros Hi Ht Hc Hm Hh. rewrite (change_mask_eq l c ch g Hc). by apply loop_update_law.
Qed.

(** The mask methods in the form [change_mask] speaks of. *)
Lemma enableReading_eq c l :
  enableReading c l = (modify c (λ ch, set_events (enable kReadEvent (events_ ch)) ch) l ≫= update c).
Proof. done. Qed.
Lemma enableWriting_eq c l :
  enableWriting c l = (modify c (λ ch, set_events (enable kWriteEvent (events_ ch)) ch) l ≫= update c).
Proof. done. Qed.
Lemma disableAll_eq c l :
  disableAll c l = (modify c (λ ch, set_events ((λ _, kNoneEvent) (events_ ch)) ch) l ≫= update c).
Proof. done. Qed.

Lemma remove_spec l c ch :
  loop_inv l → isInLoopThread l = true → get_channel c l = Some ch → events_ ch = 0 →
  has_channel l c → can_remove l c → loop_watched l (fd_ ch) = None →
  ∃ l', remove c l = Ok l' ∧ removed l c ch (set_addedToLoop false ch) l'.
Proof.
  intros Hi Ht Hc Hz Hh Hr Hw. unfold remove, modify, deref. rewrite Hc. cbn.
  rewrite require_true by (unfold isNoneEvent, kNoneEvent; by rewrite Hz). cbn.
  by apply loop_remove_law.
Qed.

(** A watched channel that is silenced and removed. *)
Lemma disable_remove l c ch :
  loop_inv l → isInLoopThread l = true → get_channel c l = Some ch → has_channel l c → events_ ch ≠ 0 →
  can_remove l c → 0 ≤ fd_ ch →
  safely (l ← disableAll c l; remove c l) (λ l',
    loop_inv l' ∧ isInLoopThread l' = isInLoopThread l ∧ pending l' = pending l ∧ ¬ has_channel l' c ∧
    (∃ i, get_channel c l' = Some (set_index i (set_addedToLoop false (set_events 0 ch)))) ∧
    (∀ c2 ch2, c2 ≠ c → get_channel c2 l = Some ch2 → ∃ ch2', get_channel c2 l' = Some ch2' ∧ same_channel ch2 ch2') ∧
    (∀ c2, c2 ≠ c → has_channel l c2 → has_channel l' c2) ∧
    loop_watched l' (fd_ ch) = None ∧ (∀ fd, 0 ≤ fd → fd ≠ fd_ ch → loop_watched l' fd = loop_watched l fd)).
Proof.
  intros I Ht Hc Hh He Hr Hfd. rewrite disableAll_eq.
  destruct (change_mask l c ch (λ _, kNoneEvent) I Ht Hc) as [->|(l1 & -> & U)]; [by left|by left|by left|].
  rewrite bind_Ok. destruct (up_get _ _ _ _ _ U) as (ch1 & Hg & i & ->).
  pose proof (up_quiet _ _ _ _ _ U eq_refl Hh He) as Hq.
  destruct (remove_spec l1 c _ (up_inv _ _ _ _ _ U) (eq_trans (up_thread _ _ _ _ _ U) Ht) Hg) as (l2 & -> & R);
    [done|apply U|by apply (up_remove _ _ _ _ _ U)|done|].
  cbn. split_and!; try apply R.
  - by rewrite (rm_thread _ _ _ _ _ R), (up_thread _ _ _ _ _ U).
  - by rewrite (rm_pending _ _ _ _ _ R), (up_pending _ _ _ _ _ U).
  - destruct (rm_get _ _ _ _ _ R) as (ch2 & Hg2 & i2 & ->). by exists i2.
  - intros c2 ch2 Hne Hc2. apply (rm_others _ _ _ _ _ R); [done|]. by rewrite (up_others _ _ _ _ _ U).
  - intros c2 Hne Hh2. apply (rm_has_others _ _ _ _ _ R); [done|]. by apply (up_has_others _ _ _ _ _ U).
  - by rewrite (rm_watched _ _ _ _ _ R).
  - intros fd Hfd2 Hne. rewrite (rm_watched _ _ _ _ _ R) by done. by apply (up_watched _ _ _ _ _ U).
Qed.
End channel_methods.
