(* ===== verification/TimerQueue.v ===== *)
(** Timers: networker/net/Timer.h, Timer.cpp, TimerId.h, TimerQueue.h, TimerQueue.cpp.

    [Timer*] is an address in a heap of timer objects, so that a use after [delete]
    is visible.  [timers_] is the ordered set of pairs (expiration, address),
    [activeTimers_] and [cancelingTimers_] are sets of pairs (address, sequence).
    A timer's callback is described by the calls it makes to the queue. *)
From Stdlib Require Import Floats.SpecFloat.
From S2P Require Import Prelude.
From S2P Require Import CurrentThread.
From S2P Require Import Timestamp.
From S2P Require Import Channel.
From S2P Require Import Loop.

Abbreviation TimerPtr := Z.
Abbreviation Entry := (Timestamp * TimerPtr)%type.
Abbreviation ActiveTimer := (TimerPtr * Z)%type.

Definition UINTPTR_MAX : Z := 2 ^ 64 - 1.

Record Timer := mkTimer {
  callback_ : Z;                (** which callback *)
  expiration_ : Timestamp;
  interval_ : double;
  repeat_ : bool;
  sequence_ : Z
}.

(** [TimerId]. *)
Record TimerId := mkTimerId { timer_ : TimerPtr; id_sequence_ : Z }.
Definition null_TimerId : TimerId := mkTimerId 0 0.

(** [Timer::restart]. *)
Definition restart (now : Timestamp) (t : Timer) : outcome Timer :=
  e ← (if repeat_ t then addTime now (interval_ t) else Ok invalid);
  Ok (mkTimer (callback_ t) e (interval_ t) (repeat_ t) (sequence_ t)).

(** * [std::set<Entry>]: a list in strictly increasing order *)
Definition entry_ltb (a b : Entry) : bool :=
  (a.1 <? b.1) || ((a.1 =? b.1) && (a.2 <? b.2)).

Fixpoint set_insert (e : Entry) (l : list Entry) : list Entry * bool :=
  match l with
  | [] => ([e], true)
  | x :: l' =>
      if entry_ltb e x then (e :: l, true)
      else if entry_ltb x e then let '(l'', b) := set_insert e l' in (x :: l'', b)
      else (l, false)
  end.

(** [erase(key)]: the number of elements removed. *)
Fixpoint set_erase (e : Entry) (l : list Entry) : list Entry * Z :=
  match l with
  | [] => ([], 0)
  | x :: l' =>
      if entry_ltb e x then (l, 0)
      else if entry_ltb x e then let '(l'', n) := set_erase e l' in (x :: l'', n)
      else (l', 1)
  end.

(** The elements before [lower_bound(e)] and the others. *)
Fixpoint lower_bound (e : Entry) (l : list Entry) : list Entry * list Entry :=
  match l with
  | [] => ([], [])
  | x :: l' =>
      if entry_ltb x e then let '(a, b) := lower_bound e l' in (x :: a, b) else ([], l)
  end.

(** * The queue *)

(** operator new: an address that is not in use, or no memory. *)
Class Allocator := {
  alloc : gmap TimerPtr Timer → option TimerPtr;
  alloc_fresh h p : alloc h = Some p → h !! p = None ∧ 0 < p < UINTPTR_MAX
}.

(** What a callback asks of the queue. *)
Inductive timer_call :=
| CallAdd (cb : Z) (when : Timestamp) (interval : double)
| CallCancel (id : TimerId).

(** The functors of the queue. *)
Inductive timer_functor :=
| FAddTimerInLoop (timer : TimerPtr)
| FCancelInLoop (timerId : TimerId).

Record TimerQueue := mkQueue {
  heap_ : gmap TimerPtr Timer;
  timers_ : list Entry;
  activeTimers_ : gset ActiveTimer;
  callingExpiredTimers_ : bool;
  cancelingTimers_ : gset ActiveTimer;
  s_numCreated_ : Z;
  timerfd_ : option (Z * Z);     (** the last [it_value] given to timerfd_settime *)
  clock_ : list Timestamp;       (** what the next readings of the clock will be *)
  run_log : list TimerPtr        (** the timers whose callback was called *)
}.

Definition set_heap (h : gmap TimerPtr Timer) (q : TimerQueue) : TimerQueue :=
  mkQueue h (timers_ q) (activeTimers_ q) (callingExpiredTimers_ q) (cancelingTimers_ q)
    (s_numCreated_ q) (timerfd_ q) (clock_ q) (run_log q).
Definition set_timers (l : list Entry) (a : gset ActiveTimer) (q : TimerQueue) : TimerQueue :=
  mkQueue (heap_ q) l a (callingExpiredTimers_ q) (cancelingTimers_ q)
    (s_numCreated_ q) (timerfd_ q) (clock_ q) (run_log q).
Definition set_calling (b : bool) (c : gset ActiveTimer) (q : TimerQueue) : TimerQueue :=
  mkQueue (heap_ q) (timers_ q) (activeTimers_ q) b c
    (s_numCreated_ q) (timerfd_ q) (clock_ q) (run_log q).
Definition set_created (n : Z) (q : TimerQueue) : TimerQueue :=
  mkQueue (heap_ q) (timers_ q) (activeTimers_ q) (callingExpiredTimers_ q) (cancelingTimers_ q)
    n (timerfd_ q) (clock_ q) (run_log q).
Definition set_timerfd (v : option (Z * Z)) (c : list Timestamp) (q : TimerQueue) : TimerQueue :=
  mkQueue (heap_ q) (timers_ q) (activeTimers_ q) (callingExpiredTimers_ q) (cancelingTimers_ q)
    (s_numCreated_ q) v c (run_log q).
Definition add_run (p : TimerPtr) (q : TimerQueue) : TimerQueue :=
  mkQueue (heap_ q) (timers_ q) (activeTimers_ q) (callingExpiredTimers_ q) (cancelingTimers_ q)
    (s_numCreated_ q) (timerfd_ q) (clock_ q) (run_log q ++ [p]).

(** Dereferencing a [Timer*]. *)
Definition timer_at (p : TimerPtr) (q : TimerQueue) : outcome Timer :=
  match heap_ q !! p with Some t => Ok t | None => Fail UndefinedBehaviour end.

(** [delete timer]. *)
Definition delete_timer (p : TimerPtr) (q : TimerQueue) : outcome TimerQueue :=
  _ ← timer_at p q; Ok (set_heap (delete p (heap_ q)) q).

(** [Timestamp::now()]. *)
Definition read_clock (q : TimerQueue) : Timestamp * TimerQueue :=
  match clock_ q with
  | [] => (0, q)
  | t :: c => (t, set_timerfd (timerfd_ q) c q)
  end.

(** [timers_.size() == activeTimers_.size()]. *)
Definition sizes_agree (q : TimerQueue) : bool := zlen (timers_ q) =? Z.of_nat (size (activeTimers_ q)).

(** [howMuchTimeFromNow]: the seconds and nanoseconds of a [timespec]. *)
Definition howMuchTimeFromNow (when now : Timestamp) : outcome (Z * Z) :=
  d ← int64 (when - now);
  let microseconds := if d <? 100 then 100 else d in
  Ok (Z.quot microseconds kMicroSecondsPerSecond, Z.rem microseconds kMicroSecondsPerSecond * 1000).

Definition resetTimerfd (expiration : Timestamp) (q : TimerQueue) : outcome TimerQueue :=
  let '(now, q) := read_clock q in
  ts ← howMuchTimeFromNow expiration now;
  Ok (set_timerfd (Some ts) (clock_ q) q).

(** [TimerQueue::insert]. *)
Definition insert (timer : TimerPtr) (q : TimerQueue) : outcome (bool * TimerQueue) :=
  _ ← require (sizes_agree q);
  t ← timer_at timer q;
  let when := expiration_ t in
  let earliestChanged := match timers_ q with [] => true | it :: _ => it.1 <? when end in
  let '(l, inserted) := set_insert (when, timer) (timers_ q) in
  _ ← require inserted;
  let a := (timer, sequence_ t) in
  _ ← require (bool_decide (a ∉ activeTimers_ q));
  let q := set_timers l ({[a]} ∪ activeTimers_ q) q in
  _ ← require (sizes_agree q);
  Ok (earliestChanged, q).

Definition addTimerInLoop (timer : TimerPtr) (q : TimerQueue) : outcome TimerQueue :=
  '(earliestChanged, q) ← insert timer q;
  if (earliestChanged : bool) then
    t ← timer_at timer q; resetTimerfd (expiration_ t) q
  else Ok q.

Definition cancelInLoop (timerId : TimerId) (q : TimerQueue) : outcome TimerQueue :=
  _ ← require (sizes_agree q);
  let timer := (timer_ timerId, id_sequence_ timerId) in
  q ← (if bool_decide (timer ∈ activeTimers_ q) then
         t ← timer_at (timer_ timerId) q;
         let '(l, n) := set_erase (expiration_ t, timer_ timerId) (timers_ q) in
         _ ← require (n =? 1);
         q ← delete_timer (timer_ timerId) (set_timers l (activeTimers_ q) q);
         Ok (set_timers l (activeTimers_ q ∖ {[timer]}) q)
       else if callingExpiredTimers_ q then
         Ok (set_calling true ({[timer]} ∪ cancelingTimers_ q) q)
       else Ok q);
  _ ← require (sizes_agree q);
  Ok q.

(** The loop of [getExpired] over the activeTimers_. *)
Fixpoint erase_active (expired : list Entry) (q : TimerQueue) : outcome TimerQueue :=
  match expired with
  | [] => Ok q
  | e :: expired =>
      t ← timer_at e.2 q;
      let a := (e.2, sequence_ t) in
      _ ← require (bool_decide (a ∈ activeTimers_ q));
      erase_active expired (set_timers (timers_ q) (activeTimers_ q ∖ {[a]}) q)
  end.

Definition getExpired (now : Timestamp) (q : TimerQueue) : outcome (list Entry * TimerQueue) :=
  _ ← require (sizes_agree q);
  let '(expired, rest) := lower_bound (now, UINTPTR_MAX) (timers_ q) in
  _ ← require (match rest with [] => true | e :: _ => now <? e.1 end);
  q ← erase_active expired (set_timers rest (activeTimers_ q) q);
  _ ← require (sizes_agree q);
  Ok (expired, q).

(** The loop of [reset]. *)
Fixpoint reset_each (expired : list Entry) (now : Timestamp) (q : TimerQueue) : outcome TimerQueue :=
  match expired with
  | [] => Ok q
  | e :: expired =>
      t ← timer_at e.2 q;
      q ← (if repeat_ t && bool_decide ((e.2, sequence_ t) ∉ cancelingTimers_ q) then
             t' ← restart now t;
             '(_, q) ← insert e.2 (set_heap (<[e.2 := t']> (heap_ q)) q);
             Ok q
           else delete_timer e.2 q);
      reset_each expired now q
  end.

Definition reset (expired : list Entry) (now : Timestamp) (q : TimerQueue) : outcome TimerQueue :=
  q ← reset_each expired now q;
  nextExpire ← (match timers_ q with
                | [] => Ok invalid
                | e :: _ => t ← timer_at e.2 q; Ok (expiration_ t)
                end);
  if valid nextExpire then resetTimerfd nextExpire q else Ok q.

(** [new Timer(cb, when, interval)]: [repeat_] is [interval > 0.0], the sequence
    number comes from the global counter. *)
Definition new_Timer (cb : Z) (when : Timestamp) (interval : double) `{!Allocator} (q : TimerQueue)
  : outcome (TimerPtr * TimerQueue) :=
  match alloc (heap_ q) with
  | None => Fail BadAlloc
  | Some p =>
      let n := s_numCreated_ q + 1 in
      let t := mkTimer cb when interval (double_lt (S754_zero false) interval) n in
      Ok (p, set_created n (set_heap (<[p := t]> (heap_ q)) q))
  end.

(** * The queue in its loop *)
Class TimerBind (F : Type) := bind_timer : timer_functor → F.

Section in_loop.
  Context {CB F L : Type} `{!Loop CB F L} `{!Allocator} `{!TimerBind F} `{!CurrentThread}.
  (** What the callbacks do: the calls they make, seeing the queue. *)
  Variable callbacks : Z → TimerQueue → list timer_call.

Record TimerWorld := mkTW { queue : TimerQueue; timer_loop : L; timerfdChannel_ : ChannelPtr }.

Definition set_queue (q : TimerQueue) (w : TimerWorld) : TimerWorld :=
  mkTW q (timer_loop w) (timerfdChannel_ w).
Definition set_loop (l : L) (w : TimerWorld) : TimerWorld := mkTW (queue w) l (timerfdChannel_ w).

(** A body that runs in the loop's thread. *)
Definition in_loop (body : TimerQueue → outcome TimerQueue) (w : TimerWorld) : outcome TimerWorld :=
  _ ← assertInLoopThread (timer_loop w);
  q ← body (queue w); Ok (set_queue q w).

Definition addTimer (cb : Z) (when : Timestamp) (interval : double) (w : TimerWorld)
  : outcome (TimerId * TimerWorld) :=
  '(p, q) ← new_Timer cb when interval (queue w);
  let w := set_queue q w in
  w ← runInLoop timer_loop set_loop (λ _, in_loop (addTimerInLoop p)) (bind_timer (FAddTimerInLoop p)) w;
  Ok (mkTimerId p (s_numCreated_ q), w).

Definition cancel (timerId : TimerId) (w : TimerWorld) : outcome TimerWorld :=
  runInLoop timer_loop set_loop (λ _, in_loop (cancelInLoop timerId)) (bind_timer (FCancelInLoop timerId)) w.

Definition run_call (c : timer_call) (w : TimerWorld) : outcome TimerWorld :=
  match c with
  | CallAdd cb when interval => '(_, w) ← addTimer cb when interval w; Ok w
  | CallCancel id => cancel id w
  end.

Fixpoint run_calls (cs : list timer_call) (w : TimerWorld) : outcome TimerWorld :=
  match cs with [] => Ok w | c :: cs => w ← run_call c w; run_calls cs w end.

(** [it.second->run()] for each expired timer. *)
Fixpoint run_expired (expired : list Entry) (w : TimerWorld) : outcome TimerWorld :=
  match expired with
  | [] => Ok w
  | e :: expired =>
      t ← timer_at e.2 (queue w);
      let w := set_queue (add_run e.2 (queue w)) w in
      w ← run_calls (callbacks (callback_ t) (queue w)) w;
      run_expired expired w
  end.

(** [TimerQueue::handleRead]. *)
Definition handleRead (w : TimerWorld) : outcome TimerWorld :=
  _ ← assertInLoopThread (timer_loop w);
  let '(now, q) := read_clock (queue w) in
  '(expired, q) ← getExpired now q;
  let w := set_queue (set_calling true ∅ q) w in
  w ← run_expired expired w;
  let w := set_queue (set_calling false (cancelingTimers_ (queue w)) (queue w)) w in
  q ← reset expired now (queue w);
  Ok (set_queue q w).

(** [createTimerfd]: [fd] is what timerfd_create(2) returned. *)
Definition createTimerfd (fd : Z) : outcome Z := if fd <? 0 then Fail FatalLog else Ok fd.

(** [TimerQueue::TimerQueue] and [~TimerQueue]; the destructor deletes what is queued. *)
Definition new_TimerQueue (created : Z) (clock : list Timestamp) (fd : Z) (chan : ChannelPtr) (cb : CB) (l : L)
  : outcome TimerWorld :=
  fd ← createTimerfd fd;
  let l := put_channel chan (setReadCallback cb (new_channel fd)) l in
  l ← enableReading chan l;
  Ok (mkTW (mkQueue ∅ [] ∅ false ∅ created None clock []) l chan).

Fixpoint delete_all (es : list Entry) (q : TimerQueue) : outcome TimerQueue :=
  match es with [] => Ok q | e :: es => q ← delete_timer e.2 q; delete_all es q end.

Definition TimerQueue_dtor (w : TimerWorld) : outcome TimerWorld :=
  l ← disableAll (timerfdChannel_ w) (timer_loop w);
  l ← remove (timerfdChannel_ w) l;
  q ← delete_all (timers_ (queue w)) (queue w);
  Ok (mkTW q l (timerfdChannel_ w)).

(** * [EventLoop::runAt], [runAfter], [runEvery] and [cancel] *)
Definition runAt (time : Timestamp) (cb : Z) (w : TimerWorld) : outcome (TimerId * TimerWorld) :=
  addTimer cb time (S754_zero false) w.

Definition runAfter (delay : double) (cb : Z) (w : TimerWorld) : outcome (TimerId * TimerWorld) :=
  let '(now, q) := read_clock (queue w) in
  time ← addTime now delay;
  runAt time cb (set_queue q w).

Definition runEvery (interval : double) (cb : Z) (w : TimerWorld) : outcome (TimerId * TimerWorld) :=
  let '(now, q) := read_clock (queue w) in
  time ← addTime now interval;
  addTimer cb time interval (set_queue q w).

Definition cancelTimer (timerId : TimerId) (w : TimerWorld) : outcome TimerWorld := cancel timerId w.
End in_loop.
Arguments TimerWorld L : clear implicits.
