(* ===== verification/TimerFacts.v ===== *)
(** What TimerQueue.v guarantees: the two sets describe the same timers, no timer is
    used after it was deleted, and what expires is exactly what is due. *)
From Stdlib Require Import Floats.SpecFloat Sorting.Sorted.
From S2P Require Import Prelude.
From S2P Require Import CurrentThread.
From S2P Require Import Timestamp.
From S2P Require Import Channel.
From S2P Require Import Loop.
From S2P Require Import TimerQueue.

(** * The ordered set *)
Definition entry_lt (a b : Entry) : Prop := entry_ltb a b = true.

Lemma entry_lt_spec a b : entry_lt a b ↔ a.1 < b.1 ∨ a.1 = b.1 ∧ a.2 < b.2.
Proof. unfold entry_lt, entry_ltb. rewrite orb_true_iff, andb_true_iff, !Z.ltb_lt, Z.eqb_eq. done. Qed.

Lemma entry_lt_trans a b c : entry_lt a b → entry_lt b c → entry_lt a c.
Proof. rewrite !entry_lt_spec. lia. Qed.

Lemma entry_lt_irrefl a : ¬ entry_lt a a.
Proof. rewrite entry_lt_spec. lia. Qed.

Lemma entry_not_lt a b : entry_ltb a b = false → entry_lt b a ∨ a = b.
Proof.
  intros H. assert (¬ entry_lt a b) as Hn by (unfold entry_lt; congruence).
  rewrite entry_lt_spec in *. destruct a as [a1 a2], b as [b1 b2]. cbn in *.
  destruct (decide (a1 = b1)) as [->|]; [|left; lia].
  destruct (decide (a2 = b2)) as [->|]; [by right|left; lia].
Qed.

Abbreviation sorted := (StronglySorted entry_lt).

Lemma sorted_cons e l : sorted (e :: l) ↔ sorted l ∧ Forall (entry_lt e) l.
Proof. split; [by inversion 1|intros [? ?]; by constructor]. Qed.

Lemma set_insert_spec e l :
  sorted l → e ∉ l →
  ∃ l', set_insert e l = (l', true) ∧ sorted l' ∧ l' ≡ₚ e :: l.
Proof.
  induction l as [|x l IH]; intros Hs Hn; cbn.
  - exists [e]. split_and!; [done|repeat constructor|done].
  - apply sorted_cons in Hs as [Hs Hx]. apply not_elem_of_cons in Hn as [Hne Hn].
    destruct (entry_ltb e x) eqn:E1.
    + eexists. split_and!; [done| |done]. apply sorted_cons. split; [by apply sorted_cons|].
      constructor; [done|]. eapply list.Forall_impl; [exact Hx|]. intros y Hy. by eapply entry_lt_trans.
    + destruct (entry_not_lt _ _ E1) as [Hlt|]; [|done]. unfold entry_lt in Hlt. rewrite Hlt.
      destruct (IH Hs Hn) as (l' & -> & Hs' & Hp). exists (x :: l'). split_and!; [done| |].
      * apply sorted_cons. split; [done|]. rewrite Hp. by constructor.
      * rewrite Hp. by constructor.
Qed.

Lemma set_erase_spec e l :
  sorted l → e ∈ l → ∃ l', set_erase e l = (l', 1) ∧ sorted l' ∧ l ≡ₚ e :: l'.
Proof.
  induction l as [|x l IH]; intros Hs Hin; cbn; [by apply elem_of_nil in Hin|].
  apply sorted_cons in Hs as [Hs Hx]. destruct (decide (e = x)) as [->|Hne].
  - assert (entry_ltb x x = false) as ->.
    { destruct (entry_ltb x x) eqn:E; [|done]. by apply entry_lt_irrefl in E. }
    exists l. done.
  - apply elem_of_cons in Hin as [|Hin]; [done|].
    rewrite Forall_lookup in Hx. apply list_elem_of_lookup in Hin as Hk. destruct Hk as [k Hk].
    assert (Hlt : entry_lt x e) by eauto.
    assert (entry_ltb e x = false) as ->.
    { destruct (entry_ltb e x) eqn:E; [|done]. exfalso. by eapply entry_lt_irrefl, entry_lt_trans. }
    unfold entry_lt in Hlt. rewrite Hlt.
    destruct (IH Hs Hin) as (l' & -> & Hs' & Hp). exists (x :: l'). split_and!; [done| |].
    + apply sorted_cons. split; [done|]. rewrite <- Forall_lookup in Hx. rewrite Hp in Hx. by inversion Hx.
    + rewrite Hp. by constructor.
Qed.

Lemma entries_lower_bound_spec e l :
  sorted l → ∃ a b, lower_bound e l = (a, b) ∧ l = a ++ b ∧
    Forall (λ x, entry_lt x e) a ∧ Forall (λ x, ¬ entry_lt x e) b ∧ sorted b.
Proof.
  induction l as [|x l IH]; intros Hs; cbn; [by exists [], []; split_and!; repeat constructor|].
  apply sorted_cons in Hs as [Hs Hx]. destruct (entry_ltb x e) eqn:E.
  - destruct (IH Hs) as (a & b & -> & -> & Ha & Hb & Hsb). exists (x :: a), b.
    split_and!; try done. by constructor.
  - exists [], (x :: l). assert (Hn : ¬ entry_lt x e) by (unfold entry_lt; congruence).
    split_and!; [done|done|constructor|constructor; [done|]|by apply sorted_cons].
    eapply list.Forall_impl; [exact Hx|]. intros y Hy Hlt. apply Hn. by eapply entry_lt_trans.
Qed.

(** * The invariant *)

(** An interval whose microseconds fit (about 73,000 years). *)
Definition interval_ok (d : double) : Prop :=
  double_lt (S754_zero false) d = true →
  ∃ delta, double_to_int64 (double_mul d (double_of_Z kMicroSecondsPerSecond)) = Ok delta ∧
           0 ≤ delta ≤ 2 ^ 61.

Definition time_ok (t : Timestamp) : Prop := - 2 ^ 62 ≤ t ≤ 2 ^ 62.

Record timer_ok (created : Z) (t : Timer) : Prop := {
  tm_time : time_ok (expiration_ t);
  tm_repeat : repeat_ t = double_lt (S754_zero false) (interval_ t);
  tm_interval : interval_ok (interval_ t);
  tm_seq : 0 < sequence_ t ≤ created
}.

Definition seq_of (h : gmap TimerPtr Timer) (p : TimerPtr) : Z := default 0 (sequence_ <$> h !! p).
Definition actives (h : gmap TimerPtr Timer) (l : list Entry) : list ActiveTimer :=
  map (λ e : Entry, (e.2, seq_of h e.2)) l.
Arguments actives : simpl never.

(** [held] are the timer objects outside the queue: those that have expired and are
    being run, and those on their way into it. *)
Record tq_inv (q : TimerQueue) (held : list TimerPtr) : Prop := {
  iq_sorted : sorted (timers_ q);
  iq_entries t p : (t, p) ∈ timers_ q → ∃ tm, heap_ q !! p = Some tm ∧ expiration_ tm = t;
  iq_nodup : NoDup (map snd (timers_ q) ++ held);
  iq_active : activeTimers_ q = list_to_set (actives (heap_ q) (timers_ q));
  iq_heap p : is_Some (heap_ q !! p) ↔ p ∈ map snd (timers_ q) ++ held;
  iq_range p : is_Some (heap_ q !! p) → 0 < p < UINTPTR_MAX;
  iq_timers p t : heap_ q !! p = Some t → timer_ok (s_numCreated_ q) t;
  iq_created : 0 ≤ s_numCreated_ q;
  iq_clock : Forall (λ t, 0 ≤ t ≤ 2 ^ 61) (clock_ q)
}.

Lemma seq_of_Some h p t : h !! p = Some t → seq_of h p = sequence_ t.
Proof. unfold seq_of. by intros ->. Qed.

Lemma elem_actives h l a : a ∈ actives h l ↔ a.1 ∈ map snd l ∧ a.2 = seq_of h a.1.
Proof.
  unfold actives. rewrite list_elem_of_fmap. split.
  - intros ([t p] & -> & Hin). cbn. split; [|done]. apply list_elem_of_fmap. by exists (t, p).
  - intros [Hin Ha]. apply list_elem_of_fmap in Hin as ([t p] & E & Hin). destruct a as [a1 a2].
    cbn in *. subst. by exists (t, p).
Qed.

Lemma nodup_actives h l : NoDup (map snd l) → NoDup (actives h l).
Proof.
  intros Hn. apply (NoDup_fmap_1 fst). unfold actives. rewrite <- list_fmap_compose. exact Hn.
Qed.

Lemma inv_sizes q held : tq_inv q held → sizes_agree q = true.
Proof.
  intros I. unfold sizes_agree. rewrite (iq_active _ _ I). apply Z.eqb_eq.
  rewrite size_list_to_set.
  - unfold zlen, actives. by rewrite length_map.
  - apply nodup_actives. pose proof (iq_nodup _ _ I) as Hn. by apply list.NoDup_app in Hn as (? & _ & _).
Qed.

Lemma inv_perm q held held' : held ≡ₚ held' → tq_inv q held → tq_inv q held'.
Proof.
  intros Hp []. split; auto.
  - by rewrite <- Hp.
  - intros p. by rewrite <- Hp.
Qed.

Lemma timer_at_ok q p t : heap_ q !! p = Some t → timer_at p q = Ok t.
Proof. unfold timer_at. by intros ->. Qed.

(** [held] timers are not in the sets. *)
Lemma held_not_queued q held p t : tq_inv q held → p ∈ held → (t, p) ∉ timers_ q.
Proof.
  intros I Hp Hin. pose proof (iq_nodup _ _ I) as Hn. apply list.NoDup_app in Hn as (_ & Hd & _).
  apply (Hd p); [|done]. apply list_elem_of_fmap. by exists (t, p).
Qed.

Lemma held_not_active q held p s : tq_inv q held → p ∈ held → (p, s) ∉ activeTimers_ q.
Proof.
  intros I Hp. rewrite (iq_active _ _ I), elem_of_list_to_set, elem_actives. cbn.
  intros [Hin _]. pose proof (iq_nodup _ _ I) as Hn. apply list.NoDup_app in Hn as (_ & Hd & _).
  by apply (Hd p).
Qed.

(** * insert *)
Lemma insert_ok q held p t :
  tq_inv q (p :: held) → heap_ q !! p = Some t →
  ∃ l', insert p q = Ok (match timers_ q with [] => true | it :: _ => it.1 <? expiration_ t end,
                         set_timers l' ({[(p, sequence_ t)]} ∪ activeTimers_ q) q) ∧
    l' ≡ₚ (expiration_ t, p) :: timers_ q ∧
    tq_inv (set_timers l' ({[(p, sequence_ t)]} ∪ activeTimers_ q) q) held.
Proof.
  intros I Hp. pose proof I as [Hs He Hn Ha Hh Hr Ht Hk Hc].
  assert (Hnot : (expiration_ t, p) ∉ timers_ q) by (eapply held_not_queued; [exact I|by left]).
  assert (Hna : (p, sequence_ t) ∉ activeTimers_ q) by (eapply held_not_active; [exact I|by left]).
  destruct (set_insert_spec _ _ Hs Hnot) as (l' & Eins & Hs' & Hperm).
  assert (Hmap : map snd l' ≡ₚ p :: map snd (timers_ q)) by (by rewrite Hperm).
  assert (I' : tq_inv (set_timers l' ({[(p, sequence_ t)]} ∪ activeTimers_ q) q) held).
  { split; cbn; auto.
    - intros t0 p0. rewrite Hperm, elem_of_cons. intros [[= -> ->]|Hin]; eauto.
    - rewrite Hmap. cbn. rewrite Permutation_middle. done.
    - rewrite Ha. apply leibniz_equiv. rewrite (list_to_set_perm (actives (heap_ q) l') ((p, sequence_ t) :: actives (heap_ q) (timers_ q))).
      + by rewrite list_to_set_cons.
      + unfold actives. rewrite Hperm. cbn. by rewrite (seq_of_Some _ _ _ Hp).
    - intros p0. rewrite Hh, Hmap. cbn. by rewrite Permutation_middle. }
  exists l'. split_and!; [|done|done].
  unfold insert. rewrite (inv_sizes _ _ I). cbn. rewrite (timer_at_ok _ _ _ Hp). cbn. rewrite Eins. cbn.
  rewrite bool_decide_eq_true_2 by done. cbn. by rewrite (inv_sizes _ _ I').
Qed.

(** * The timer descriptor *)
Lemma read_clock_ok q held :
  tq_inv q held → 0 ≤ (read_clock q).1 ≤ 2 ^ 61 ∧ tq_inv (read_clock q).2 held.
Proof.
  intros I. unfold read_clock. destruct (clock_ q) as [|t c] eqn:E; cbn; [split; [lia|done]|].
  pose proof I as [Hs He Hn Ha Hh Hr Ht Hk Hc]. rewrite E in Hc. apply list.Forall_cons in Hc as [? Hc].
  split; [done|]. split; cbn; auto.
Qed.

(** [resetTimerfd] arms the descriptor; nothing else changes but the clock. *)
Lemma resetTimerfd_ok e q held :
  tq_inv q held → time_ok e →
  ∃ ts c, resetTimerfd e q = Ok (set_timerfd (Some ts) c q) ∧
    howMuchTimeFromNow e (read_clock q).1 = Ok ts ∧ tq_inv (set_timerfd (Some ts) c q) held.
Proof.
  intros I He. destruct (read_clock_ok q held I) as [Hnow I1]. unfold resetTimerfd.
  destruct (read_clock q) as [nw q1] eqn:E. cbn in Hnow.
  assert (∃ c, q1 = set_timerfd (timerfd_ q) c q) as [c ->].
  { unfold read_clock in E. destruct (clock_ q) eqn:Ec; injection E as _ <-.
    - exists (clock_ q). by destruct q.
    - by eexists. }
  unfold howMuchTimeFromNow. unfold time_ok in He.
  assert (E64 : int64 (e - nw) = Ok (e - nw)) by (apply int64_ok; unfold in_i64; lia).
  rewrite E64. cbn. eexists _, _. split_and!; [done|by rewrite E64|].
  destruct I1 as [Hs Hen Hn Ha Hh Hr Ht Hk Hc]. split; cbn in *; auto.
Qed.

Lemma addTimerInLoop_ok q held p :
  tq_inv q (p :: held) →
  ∃ q', addTimerInLoop p q = Ok q' ∧ tq_inv q' held ∧ heap_ q' = heap_ q ∧
    run_log q' = run_log q ∧ callingExpiredTimers_ q' = callingExpiredTimers_ q ∧
    cancelingTimers_ q' = cancelingTimers_ q ∧ s_numCreated_ q' = s_numCreated_ q ∧
    timers_ q' ≡ₚ (default 0 (expiration_ <$> heap_ q !! p), p) :: timers_ q.
Proof.
  intros I. assert (is_Some (heap_ q !! p)) as [t Hp].
  { apply (iq_heap _ _ I). apply elem_of_app. right. by left. }
  destruct (insert_ok q held p t I Hp) as (l' & E & Hperm & I'). unfold addTimerInLoop. rewrite E. cbn.
  rewrite Hp. cbn. match goal with |- context [if ?b then _ else _] => destruct b end.
  - rewrite (timer_at_ok _ p t) by done. cbn.
    destruct (resetTimerfd_ok (expiration_ t) _ _ I') as (ts & c & -> & _ & I2).
    { apply (iq_timers _ _ I' p t Hp). }
    eexists. split_and!; [done|exact I2|..]; done.
  - eexists. split_and!; [done|exact I'|..]; done.
Qed.

(** * cancel *)
Lemma cancelInLoop_ok q held id :
  tq_inv q held →
  ∃ q', cancelInLoop id q = Ok q' ∧ tq_inv q' held ∧
    run_log q' = run_log q ∧ callingExpiredTimers_ q' = callingExpiredTimers_ q ∧
    s_numCreated_ q' = s_numCreated_ q ∧
    if bool_decide ((timer_ id, id_sequence_ id) ∈ activeTimers_ q)
    then (∃ t, timers_ q ≡ₚ (t, timer_ id) :: timers_ q') ∧ heap_ q' = delete (timer_ id) (heap_ q) ∧
         cancelingTimers_ q' = cancelingTimers_ q
    else heap_ q' = heap_ q ∧ timers_ q' = timers_ q ∧
         cancelingTimers_ q' = (if callingExpiredTimers_ q
                                then {[(timer_ id, id_sequence_ id)]} ∪ cancelingTimers_ q
                                else cancelingTimers_ q).
Proof.
  intros I. pose proof I as [Hs He Hn Ha Hh Hr Ht Hk Hc]. unfold cancelInLoop.
  rewrite (inv_sizes _ _ I). cbn. case_bool_decide as Hin; cbn.
  - rewrite Ha, elem_of_list_to_set, elem_actives in Hin. cbn in Hin. destruct Hin as [Hin Hseq].
    apply list_elem_of_fmap in Hin as ([t p] & Ep & Hin). cbn in Ep. rewrite Ep in *.
    destruct (He _ _ Hin) as (tm & Hp & Et). rewrite (timer_at_ok _ _ _ Hp). cbn. rewrite Et.
    destruct (set_erase_spec _ _ Hs Hin) as (l' & Eer & Hs' & Hperm). rewrite Eer. cbn.
    assert (Hmap : map snd (timers_ q) ≡ₚ p :: map snd l') by (by rewrite Hperm).
    rewrite Hmap in Hn. cbn in Hn. apply list.NoDup_cons in Hn as [Hpn Hn].
    unfold delete_timer. cbn. rewrite (timer_at_ok _ p tm) by done. cbn.
    match goal with |- context [sizes_agree ?x] => set (q' := x) end.
    assert (I' : tq_inv q' held).
    { subst q'. split; cbn; auto.
      - intros t0 p0 Hin0. destruct (He t0 p0) as (tm0 & Hp0 & E0); [rewrite Hperm; by right|].
        exists tm0. rewrite lookup_delete_ne; [done|]. intros <-. apply Hpn, elem_of_app. left.
        apply list_elem_of_fmap. by exists (t0, p).
      - rewrite Ha. apply leibniz_equiv.
        rewrite (list_to_set_perm (actives (heap_ q) (timers_ q)) ((p, seq_of (heap_ q) p) :: actives (heap_ q) l'))
          by (unfold actives; rewrite Hperm; done).
        rewrite list_to_set_cons, Hseq.
        assert (Hsame : actives (delete p (heap_ q)) l' = actives (heap_ q) l').
        { unfold actives. apply list_fmap_ext. intros i [t0 p0] Hl. cbn. f_equal. unfold seq_of.
          rewrite lookup_delete_ne; [done|]. intros <-. apply Hpn, elem_of_app. left.
          apply list_elem_of_fmap. exists (t0, p). split; [done|]. by eapply list_elem_of_lookup_2. }
        fold (actives (delete p (heap_ q)) l'). rewrite Hsame.
        assert ((p, seq_of (heap_ q) p) ∉ (list_to_set (actives (heap_ q) l') : gset ActiveTimer)).
        { rewrite elem_of_list_to_set, elem_actives. intros [Hin0 _]. apply Hpn, elem_of_app. by left. }
        set_solver.
      - intros p0. rewrite lookup_delete_is_Some, Hh, Hmap. cbn. rewrite elem_of_cons.
        split; [naive_solver|]. intros Hin0. split; [|by right]. intros <-. done.
      - intros p0 [tm0 Hl]. apply lookup_delete_Some in Hl as [_ Hl]. apply Hr. by eexists.
      - intros p0 t0 Hl. apply lookup_delete_Some in Hl as [_ Hl]. by apply (Ht p0). }
    rewrite (inv_sizes _ _ I'). cbn. exists q'. split_and!; try done.
    by exists t.
  - destruct (callingExpiredTimers_ q) eqn:Ec; cbn.
    + match goal with |- context [sizes_agree ?x] => set (q' := x) end.
      assert (I' : tq_inv q' held).
      { subst q'. by split. }
      rewrite (inv_sizes _ _ I'). cbn. exists q'. by split_and!.
    + rewrite (inv_sizes _ _ I). cbn. exists q. by split_and!.
Qed.

(** * Timer objects outside the queue *)
Lemma actives_insert h p t l : p ∉ map snd l → actives (<[p := t]> h) l = actives h l.
Proof.
  intros Hp. unfold actives. apply list_fmap_ext. intros i [t0 p0] Hl. cbn. f_equal. unfold seq_of.
  rewrite lookup_insert_ne; [done|]. intros <-. apply Hp, list_elem_of_fmap.
  exists (t0, p). split; [done|]. by eapply list_elem_of_lookup_2.
Qed.

Lemma actives_delete h p l : p ∉ map snd l → actives (delete p h) l = actives h l.
Proof.
  intros Hp. unfold actives. apply list_fmap_ext. intros i [t0 p0] Hl. cbn. f_equal. unfold seq_of.
  rewrite lookup_delete_ne; [done|]. intros <-. apply Hp, list_elem_of_fmap.
  exists (t0, p). split; [done|]. by eapply list_elem_of_lookup_2.
Qed.

Lemma held_ptr q held p : tq_inv q held → p ∈ held → p ∉ map snd (timers_ q).
Proof.
  intros I Hp Hin. pose proof (iq_nodup _ _ I) as Hn. apply list.NoDup_app in Hn as (_ & Hd & _).
  by apply (Hd p).
Qed.

Lemma heap_update_ok q held p t t' :
  tq_inv q held → p ∈ held → heap_ q !! p = Some t → timer_ok (s_numCreated_ q) t' →
  tq_inv (set_heap (<[p := t']> (heap_ q)) q) held.
Proof.
  intros I Hp Hl Ht'. pose proof (held_ptr _ _ _ I Hp) as Hnp. pose proof I as [Hs He Hn Ha Hh Hr Ht Hk Hc].
  split; cbn; auto.
  - intros t0 p0 Hin. destruct (He _ _ Hin) as (tm & Hl0 & E). exists tm.
    rewrite lookup_insert_ne; [done|]. intros <-. apply Hnp, list_elem_of_fmap. by exists (t0, p).
  - by rewrite Ha, actives_insert.
  - intros p0. rewrite <- Hh. destruct (decide (p = p0)) as [->|].
    + rewrite lookup_insert_eq. split; [by rewrite Hl|done].
    + by rewrite lookup_insert_ne.
  - intros p0. destruct (decide (p = p0)) as [->|].
    + intros _. apply Hr. by rewrite Hl.
    + rewrite lookup_insert_ne by done. apply Hr.
  - intros p0 t0. destruct (decide (p = p0)) as [->|].
    + rewrite lookup_insert_eq. by intros [= <-].
    + rewrite lookup_insert_ne by done. apply Ht.
Qed.

Lemma heap_delete_ok q held p :
  tq_inv q (p :: held) → ∃ q', delete_timer p q = Ok q' ∧ tq_inv q' held ∧
    q' = set_heap (delete p (heap_ q)) q.
Proof.
  intros I. assert (is_Some (heap_ q !! p)) as [t Hl].
  { apply (iq_heap _ _ I), elem_of_app. right. by left. }
  assert (Hnp : p ∉ map snd (timers_ q)) by (eapply held_ptr; [exact I|by left]).
  unfold delete_timer. rewrite (timer_at_ok _ _ _ Hl). cbn. eexists. split_and!; [done| |done].
  pose proof I as [Hs He Hn Ha Hh Hr Ht Hk Hc].
  rewrite <- Permutation_middle in Hn. apply list.NoDup_cons in Hn as [Hpn Hn].
  split; cbn; auto.
  - intros t0 p0 Hin. destruct (He _ _ Hin) as (tm & Hl0 & E). exists tm.
    rewrite lookup_delete_ne; [done|]. intros <-. apply Hnp, list_elem_of_fmap. by exists (t0, p).
  - by rewrite Ha, actives_delete.
  - intros p0. rewrite lookup_delete_is_Some, Hh, <- Permutation_middle, elem_of_cons.
    split; [naive_solver|]. intros Hin. split; [by intros <-|by right].
  - intros p0 [t0 Hl0]. apply lookup_delete_Some in Hl0 as [_ Hl0]. apply Hr. by eexists.
  - intros p0 t0 Hl0. apply lookup_delete_Some in Hl0 as [_ Hl0]. by apply (Ht p0).
Qed.

Lemma new_Timer_ok `{!Allocator} q held cb when interval :
  tq_inv q held → time_ok when → interval_ok interval →
  safely (new_Timer cb when interval q) (λ r,
    tq_inv r.2 (r.1 :: held) ∧ heap_ q !! r.1 = None ∧
    r.2 = set_created (s_numCreated_ q + 1) (set_heap (heap_ r.2) q) ∧
    heap_ r.2 = <[r.1 := mkTimer cb when interval (double_lt (S754_zero false) interval) (s_numCreated_ q + 1)]> (heap_ q)).
Proof.
  intros I Hw Hi. unfold new_Timer. destruct (alloc (heap_ q)) as [p|] eqn:Hp; [cbn|by right; right].
  destruct (alloc_fresh _ _ Hp) as [Hf Hrange]. set (t := mkTimer _ _ _ _ _).
  pose proof I as [Hs He Hn Ha Hh Hr Ht Hk Hc].
  assert (Hnew : p ∉ map snd (timers_ q) ++ held) by (rewrite <- Hh, Hf; by intros [? ?]).
  assert (Hnp : p ∉ map snd (timers_ q)) by (intros Hin; apply Hnew, elem_of_app; by left).
  split_and!; [|done|done|done]. split; cbn; auto.
  - intros t0 p0 Hin. destruct (He _ _ Hin) as (tm & Hl0 & E). exists tm.
    rewrite lookup_insert_ne; [done|]. intros <-. apply Hnp, list_elem_of_fmap. by exists (t0, p).
  - rewrite <- Permutation_middle. by constructor.
  - by rewrite Ha, actives_insert.
  - intros p0. rewrite <- Permutation_middle, elem_of_cons, <- Hh.
    destruct (decide (p0 = p)) as [->|].
    + rewrite lookup_insert_eq. split; [by left|done].
    + rewrite lookup_insert_ne by done. naive_solver.
  - intros p0. destruct (decide (p0 = p)) as [->|].
    + by intros _.
    + rewrite lookup_insert_ne by done. apply Hr.
  - intros p0 t0. destruct (decide (p0 = p)) as [->|].
    + rewrite lookup_insert_eq. intros [= <-]. split; cbn; try done.
      lia.
    + rewrite lookup_insert_ne by done. intros Hl. destruct (Ht _ _ Hl). split; try done. lia.
  - lia.
Qed.

(** * Expiry *)
Lemma erase_active_ok expired rest q :
  NoDup (map snd (expired ++ rest)) →
  activeTimers_ q = list_to_set (actives (heap_ q) (expired ++ rest)) →
  (∀ t p, (t, p) ∈ expired → is_Some (heap_ q !! p)) →
  erase_active expired q = Ok (set_timers (timers_ q) (list_to_set (actives (heap_ q) rest)) q).
Proof.
  revert q. induction expired as [|[t p] expired IH]; intros q Hn Ha Hh; cbn.
  - cbn in Ha. rewrite <- Ha. by destruct q.
  - destruct (Hh t p) as [tm Hp]; [by left|]. rewrite (timer_at_ok _ _ _ Hp). cbn.
    cbn in Hn. apply list.NoDup_cons in Hn as [Hpn Hn].
    assert (Hin : (p, sequence_ tm) ∈ activeTimers_ q).
    { rewrite Ha, elem_of_list_to_set, elem_actives. cbn. split; [by left|].
      by rewrite (seq_of_Some _ _ _ Hp). }
    rewrite bool_decide_eq_true_2 by done. cbn. rewrite IH; [done|done| |].
    + cbn. rewrite Ha. unfold actives at 1. cbn. rewrite (seq_of_Some _ _ _ Hp). fold (actives (heap_ q) (expired ++ rest)).
      assert ((p, sequence_ tm) ∉ (list_to_set (actives (heap_ q) (expired ++ rest)) : gset ActiveTimer)).
      { rewrite elem_of_list_to_set, elem_actives. by intros [? _]. }
      apply leibniz_equiv. set_solver.
    + cbn. intros t0 p0 Hin0. apply (Hh t0 p0). by right.
Qed.

(** Exactly the timers that are due leave the queue, earliest first. *)
Lemma getExpired_ok q held nw :
  tq_inv q held →
  ∃ expired rest q', getExpired nw q = Ok (expired, q') ∧ timers_ q = expired ++ rest ∧
    Forall (λ e, e.1 ≤ nw) expired ∧ Forall (λ e, nw < e.1) rest ∧
    q' = set_timers rest (list_to_set (actives (heap_ q) rest)) q ∧
    tq_inv q' (map snd expired ++ held).
Proof.
  intros I. pose proof I as [Hs He Hn Ha Hh Hr Ht Hk Hc]. unfold getExpired.
  rewrite (inv_sizes _ _ I). cbn.
  destruct (entries_lower_bound_spec (nw, UINTPTR_MAX) _ Hs) as (expired & rest & E & Eq & Hexp & Hrest & Hsr).
  rewrite E.
  assert (Hptr : ∀ t p, (t, p) ∈ timers_ q → p < UINTPTR_MAX).
  { intros t p Hin. destruct (He _ _ Hin) as (tm & Hp & _). apply Hr. by rewrite Hp. }
  assert (Hle : Forall (λ e : Entry, e.1 ≤ nw) expired).
  { eapply list.Forall_impl; [exact Hexp|]. intros [t p] Hlt. rewrite entry_lt_spec in Hlt. cbn in *. lia. }
  assert (Hgt : Forall (λ e : Entry, nw < e.1) rest).
  { apply Forall_lookup. intros i [t p] Hl. apply Forall_lookup_1 with (i := i) (x := (t, p)) in Hrest; [|done].
    rewrite entry_lt_spec in Hrest. cbn in *.
    assert (p < UINTPTR_MAX); [|lia]. apply (Hptr t). rewrite Eq, elem_of_app. right.
    by eapply list_elem_of_lookup_2. }
  assert (match rest with [] => true | e :: _ => nw <? e.1 end = true) as Hhd.
  { destruct rest; [done|]. apply list.Forall_cons in Hgt as [? _]. by apply Z.ltb_lt. }
  rewrite Hhd. cbn. rewrite (erase_active_ok expired rest).
  - cbn. set (q' := set_timers _ _ _).
    assert (I' : tq_inv q' (map snd expired ++ held)).
    { assert (Hm : map snd (timers_ q) = map snd expired ++ map snd rest) by (by rewrite Eq, map_app).
      assert (Hp : map snd (timers_ q) ++ held ≡ₚ map snd rest ++ map snd expired ++ held).
      { rewrite Hm, <- app_assoc, !app_assoc. f_equiv. apply Permutation_app_comm. }
      split; cbn; auto.
      - intros t p Hin. apply He. rewrite Eq, elem_of_app. by right.
      - by rewrite <- Hp.
      - intros p. by rewrite <- Hp. }
    rewrite (inv_sizes _ _ I'). cbn. exists expired, rest, q'. by split_and!.
  - cbn. rewrite <- Eq. by apply list.NoDup_app in Hn as (? & _ & _).
  - cbn. by rewrite <- Eq.
  - cbn. intros t p Hin. destruct (He t p) as (tm & Hp & _); [|by rewrite Hp].
    rewrite Eq, elem_of_app. by left.
Qed.

(** * Re-arming *)
Lemma restart_ok q held p t nw :
  tq_inv q held → heap_ q !! p = Some t → 0 ≤ nw ≤ 2 ^ 61 → repeat_ t = true →
  ∃ delta, restart nw t = Ok (mkTimer (callback_ t) (nw + delta) (interval_ t) true (sequence_ t)) ∧
    0 ≤ delta ∧ timer_ok (s_numCreated_ q) (mkTimer (callback_ t) (nw + delta) (interval_ t) true (sequence_ t)).
Proof.
  intros I Hp Hnw Hrep. destruct (iq_timers _ _ I p t Hp) as [Hw Hr Hi Hs].
  destruct Hi as (delta & Ed & Hd); [congruence|]. exists delta. unfold restart, addTime. rewrite Hrep, Ed. cbn.
  rewrite int64_ok by (unfold in_i64; lia). cbn. split_and!; [done|lia|].
  split; cbn; [unfold time_ok; lia|congruence|by exists delta|done].
Qed.

Definition again (q : TimerQueue) (p : TimerPtr) (t : Timer) : bool :=
  repeat_ t && bool_decide ((p, sequence_ t) ∉ cancelingTimers_ q).

(** What [reset] leaves of one expired timer. *)
Definition reset_result (q q' : TimerQueue) (nw : Timestamp) (p : TimerPtr) : Prop :=
  ∃ t, heap_ q !! p = Some t ∧
    if again q p t
    then ∃ t', restart nw t = Ok t' ∧ heap_ q' !! p = Some t' ∧ (expiration_ t', p) ∈ timers_ q'
    else heap_ q' !! p = None.

Lemma reset_each_ok expired q held nw :
  tq_inv q (map snd expired ++ held) → 0 ≤ nw ≤ 2 ^ 61 →
  ∃ q', reset_each expired nw q = Ok q' ∧ tq_inv q' held ∧
    run_log q' = run_log q ∧ cancelingTimers_ q' = cancelingTimers_ q ∧
    callingExpiredTimers_ q' = callingExpiredTimers_ q ∧ clock_ q' = clock_ q ∧
    (∀ p, p ∉ map snd expired → heap_ q' !! p = heap_ q !! p) ∧
    (∀ e, e ∈ timers_ q → e ∈ timers_ q') ∧
    (∀ p, p ∈ map snd expired → reset_result q q' nw p).
Proof.
  revert q. induction expired as [|[t0 p] expired IH]; intros q I Hnw; cbn.
  { exists q. split_and!; try done. intros p Hp. by apply elem_of_nil in Hp. }
  cbn in I. assert (is_Some (heap_ q !! p)) as [t Hp].
  { apply (iq_heap _ _ I), elem_of_app. right. by left. }
  rewrite (timer_at_ok _ _ _ Hp). cbn.
  assert (Hpn : p ∉ map snd expired).
  { pose proof (iq_nodup _ _ I) as Hn. apply list.NoDup_app in Hn as (_ & _ & Hn).
    apply list.NoDup_cons in Hn as [Hn _]. rewrite elem_of_app in Hn. tauto. }
  destruct (again q p t) eqn:Eag; unfold again in Eag; rewrite Eag.
  - apply andb_true_iff in Eag as Eag'. destruct Eag' as [Hrep _].
    destruct (restart_ok _ _ _ _ _ I Hp Hnw Hrep) as (delta & Er & Hd & Hok).
    rewrite Er. cbn. set (t' := mkTimer _ _ _ _ _) in *.
    pose proof (heap_update_ok _ _ p t t' I ltac:(by left) Hp Hok) as I1.
    destruct (insert_ok _ _ p t' I1) as (l' & -> & Hperm & I2); [cbn; by rewrite lookup_insert_eq|].
    cbn. set (q2 := set_timers _ _ _) in *.
    destruct (IH q2 I2 Hnw) as (q' & -> & I' & E1 & E2 & E3 & E4 & Hframe & Hsub & Hall).
    exists q'. split; [done|]. split; [done|]. do 4 (split; [done|]). split; [|split].
    + intros p0 [Hne Hn0]%not_elem_of_cons. rewrite Hframe by done. cbn. by rewrite lookup_insert_ne.
    + intros e Hin. apply Hsub. cbn. rewrite Hperm. by right.
    + intros p0 [->|Hin]%elem_of_cons.
      * exists t. split; [done|]. unfold again. rewrite Eag. exists t'. split_and!; [done| |].
        -- rewrite Hframe by done. cbn. by rewrite lookup_insert_eq.
        -- apply Hsub. cbn. rewrite Hperm. by left.
      * destruct (Hall p0 Hin) as (t1 & Ht1 & Hres). cbn in Ht1.
        rewrite lookup_insert_ne in Ht1 by (intros <-; done). by exists t1.
  - destruct (heap_delete_ok _ _ _ I) as (q1 & -> & I1 & ->). cbn.
    destruct (IH _ I1 Hnw) as (q' & -> & I' & E1 & E2 & E3 & E4 & Hframe & Hsub & Hall).
    exists q'. split; [done|]. split; [done|]. do 4 (split; [done|]). split; [|split].
    + intros p0 [Hne Hn0]%not_elem_of_cons. rewrite Hframe by done. cbn. by rewrite lookup_delete_ne.
    + intros e Hin. by apply Hsub.
    + intros p0 [->|Hin]%elem_of_cons.
      * exists t. split; [done|]. unfold again. rewrite Eag. rewrite Hframe by done. cbn. by rewrite lookup_delete_eq.
      * destruct (Hall p0 Hin) as (t1 & Ht1 & Hres). cbn in Ht1.
        rewrite lookup_delete_ne in Ht1 by (intros <-; done). by exists t1.
Qed.

(** After [reset], the descriptor is armed for the earliest timer. *)
Lemma reset_ok expired q held nw :
  tq_inv q (map snd expired ++ held) → 0 ≤ nw ≤ 2 ^ 61 →
  ∃ q', reset expired nw q = Ok q' ∧ tq_inv q' held ∧
    run_log q' = run_log q ∧ callingExpiredTimers_ q' = callingExpiredTimers_ q ∧
    (∀ p, p ∉ map snd expired → heap_ q' !! p = heap_ q !! p) ∧
    (∀ e, e ∈ timers_ q → e ∈ timers_ q') ∧
    (∀ p, p ∈ map snd expired → reset_result q q' nw p) ∧
    match timers_ q' with
    | e :: _ => valid e.1 = true →
        ∃ ts, timerfd_ q' = Some ts ∧ howMuchTimeFromNow e.1 (read_clock q).1 = Ok ts
    | [] => True
    end.
Proof.
  intros I Hnw. destruct (reset_each_ok _ _ _ _ I Hnw) as (q1 & E & I1 & E1 & E2 & E3 & E4 & Hf & Hs & Ha).
  unfold reset. rewrite E. cbn. destruct (timers_ q1) as [|[t p] l] eqn:Et; cbn.
  - exists q1. rewrite Et. by split_and!.
  - destruct (iq_entries _ _ I1 t p) as (tm & Hp & Ee); [rewrite Et; by left|].
    rewrite (timer_at_ok _ _ _ Hp). cbn. rewrite Ee. destruct (valid t) eqn:Hv.
    + destruct (resetTimerfd_ok t _ _ I1) as (ts & c & -> & Hh & I2).
      { rewrite <- Ee. apply (iq_timers _ _ I1 p tm Hp). }
      eexists. split; [done|]. split; [exact I2|]. cbn. rewrite Et. cbn.
      split_and!; auto. intros _. exists ts. split; [done|]. rewrite <- Hh. unfold read_clock. rewrite E4. by destruct (clock_ q).
    + exists q1. rewrite Et. split_and!; auto. cbn. congruence.
Qed.
