(* ===== verification/TimerRun.v ===== *)
(** Running the expired timers (TimerQueue::handleRead) with arbitrary callbacks. *)
From Stdlib Require Import Floats.SpecFloat Sorting.Sorted.
From S2P Require Import Prelude.
From S2P Require Import CurrentThread.
From S2P Require Import Timestamp.
From S2P Require Import Channel.
From S2P Require Import Loop.
From S2P Require Import TimerQueue.
From S2P Require Import TimerFacts.

(** The times a callback asks for are representable. *)
Definition call_ok (c : timer_call) : Prop :=
  match c with
  | CallAdd _ when interval => time_ok when ∧ interval_ok interval
  | CallCancel _ => True
  end.

Section run.
  Context {CB F L : Type} `{!Loop CB F L} `{!Allocator} `{!TimerBind F} `{!CurrentThread}.
  Variable callbacks : Z → TimerQueue → list timer_call.
  Hypothesis callbacks_ok : ∀ cb q, Forall call_ok (callbacks cb q).
  Implicit Types w : TimerWorld L.

Definition in_thread w : Prop := isInLoopThread (timer_loop w) = true.

(** What calls from a callback leave alone. *)
Record undisturbed w w' (held : list TimerPtr) : Prop := {
  un_inv : tq_inv (queue w') held;
  un_thread : in_thread w';
  un_chan : timerfdChannel_ w' = timerfdChannel_ w;
  un_log : run_log (queue w') = run_log (queue w);
  un_calling : callingExpiredTimers_ (queue w') = callingExpiredTimers_ (queue w);
  un_held p : p ∈ held → heap_ (queue w') !! p = heap_ (queue w) !! p
}.

Lemma addTimer_ok cb when interval w held :
  tq_inv (queue w) held → in_thread w → time_ok when → interval_ok interval →
  safely (addTimer cb when interval w) (λ '(id, w'), undisturbed w w' held ∧
    (timer_ id, id_sequence_ id) ∈ activeTimers_ (queue w') ∧
    id_sequence_ id = s_numCreated_ (queue w) + 1 ∧
    timers_ (queue w') ≡ₚ (when, timer_ id) :: timers_ (queue w)).
Proof.
  intros I Ht Hw Hi. unfold addTimer. apply safely_bind.
  eapply safely_mono; [exact (new_Timer_ok (queue w) held cb when interval I Hw Hi)|].
  intros [p q1] (I1 & Hfresh & Eq & Eh). cbn [fst snd] in *.
  unfold runInLoop. cbn. unfold in_thread in Ht. rewrite Ht. unfold in_loop, assertInLoopThread. cbn. rewrite Ht. cbn.
  destruct (addTimerInLoop_ok q1 held p I1) as (q2 & -> & I2 & E1 & E2 & E3 & E4 & E5 & Hp). cbn.
  assert (Hq1 : timers_ q1 = timers_ (queue w)) by (by rewrite Eq).
  rewrite Eh, lookup_insert_eq in Hp. cbn in Hp. rewrite Hq1 in Hp.
  split; [|split_and!].
  - split; cbn; try done.
    + by rewrite E2, Eq.
    + by rewrite E3, Eq.
    + intros p0 Hin. rewrite E1, Eh, lookup_insert_ne; [done|]. intros <-.
      assert (is_Some (heap_ (queue w) !! p)) as [? ?]; [|congruence].
      apply (iq_heap _ _ I), elem_of_app. by right.
  - cbn. rewrite (iq_active _ _ I2), elem_of_list_to_set, elem_actives. cbn. rewrite Hp. split; [by left|].
    unfold seq_of. rewrite E1, Eh, lookup_insert_eq. cbn. by rewrite Eq.
  - cbn. by rewrite Eq.
  - done.
Qed.

Lemma cancel_ok id w held :
  tq_inv (queue w) held → in_thread w →
  ∃ w', cancel id w = Ok w' ∧ undisturbed w w' held.
Proof.
  intros I Ht. unfold cancel, runInLoop, in_loop, assertInLoopThread. unfold in_thread in Ht. rewrite Ht. cbn.
  destruct (cancelInLoop_ok (queue w) held id I) as (q' & -> & I' & E1 & E2 & E3 & Hcase). cbn.
  eexists. split; [done|]. split; cbn; try done.
  intros p Hp. case_bool_decide as Hin.
  - destruct Hcase as (_ & -> & _). rewrite lookup_delete_ne; [done|]. intros <-.
    by eapply held_not_active in Hin.
  - by destruct Hcase as (-> & _).
Qed.

Lemma undisturbed_trans w1 w2 w3 held :
  undisturbed w1 w2 held → undisturbed w2 w3 held → undisturbed w1 w3 held.
Proof.
  intros [] []. split; try done; try congruence. intros p Hp. by rewrite un_held1, un_held0.
Qed.

Lemma undisturbed_refl w held : tq_inv (queue w) held → in_thread w → undisturbed w w held.
Proof. by split. Qed.

Lemma run_call_ok c w held :
  tq_inv (queue w) held → in_thread w → call_ok c → safely (run_call c w) (λ w', undisturbed w w' held).
Proof.
  intros I Ht Hc. destruct c as [cb when interval|id]; unfold run_call.
  - destruct Hc. apply safely_bind. eapply safely_mono; [by apply (addTimer_ok cb when interval w held)|].
    intros [id w1] [U _]. exact U.
  - destruct (cancel_ok id w held I Ht) as (w' & -> & U). exact U.
Qed.

Lemma run_calls_ok cs w held :
  tq_inv (queue w) held → in_thread w → Forall call_ok cs →
  safely (run_calls cs w) (λ w', undisturbed w w' held).
Proof.
  revert w. induction cs as [|c cs IH]; intros w I Ht Hcs; cbn.
  { by apply undisturbed_refl. }
  apply list.Forall_cons in Hcs as [Hc Hcs]. apply safely_bind.
  eapply safely_mono; [by apply run_call_ok|]. intros w1 U1.
  eapply safely_mono; [apply IH; [apply U1|apply U1|done]|].
  intros w2. by apply undisturbed_trans.
Qed.

Lemma inv_add_run q p held : tq_inv q held → tq_inv (add_run p q) held.
Proof. by intros []. Qed.

Lemma inv_set_calling b c q held : tq_inv q held → tq_inv (set_calling b c q) held.
Proof. by intros []. Qed.

(** Every expired timer runs once, in order of expiration. *)
Lemma run_expired_ok expired w held :
  tq_inv (queue w) held → in_thread w → (∀ p, p ∈ map snd expired → p ∈ held) →
  safely (run_expired callbacks expired w) (λ w',
    run_log (queue w') = run_log (queue w) ++ map snd expired ∧
    tq_inv (queue w') held ∧ in_thread w' ∧ timerfdChannel_ w' = timerfdChannel_ w ∧
    (∀ p, p ∈ held → heap_ (queue w') !! p = heap_ (queue w) !! p)).
Proof.
  revert w. induction expired as [|[t0 p] expired IH]; intros w I Ht Hheld; cbn.
  { by rewrite app_nil_r. }
  assert (is_Some (heap_ (queue w) !! p)) as [t Hp].
  { apply (iq_heap _ _ I), elem_of_app. right. apply Hheld. by left. }
  rewrite (timer_at_ok _ _ _ Hp). cbn. apply safely_bind.
  eapply safely_mono.
  { apply (run_calls_ok _ (set_queue (add_run p (queue w)) w) held);
      [by apply inv_add_run|done|apply callbacks_ok]. }
  intros w1 U. eapply safely_mono; [apply IH; [apply U|apply U|intros p0 Hin; apply Hheld; by right]|].
  intros w2 (Hlog & I2 & Ht2 & Hc2 & Hh2). split_and!; try done.
  - rewrite Hlog, (un_log _ _ _ U). cbn. by rewrite <- app_assoc.
  - rewrite Hc2. apply U.
  - intros p0 Hin. rewrite Hh2 by done. by rewrite (un_held _ _ _ U).
Qed.

(** [handleRead] runs what is due, and re-arms the descriptor. *)
Lemma timer_handleRead_ok w held :
  tq_inv (queue w) held → in_thread w →
  let now := (read_clock (queue w)).1 in
  ∃ expired rest,
    timers_ (queue w) = expired ++ rest ∧
    Forall (λ e, e.1 ≤ now) expired ∧ Forall (λ e, now < e.1) rest ∧
    safely (handleRead callbacks w) (λ w',
      run_log (queue w') = run_log (queue w) ++ map snd expired ∧
      callingExpiredTimers_ (queue w') = false ∧
      tq_inv (queue w') held ∧ in_thread w' ∧
      match timers_ (queue w') with
      | e :: _ => valid e.1 = true → is_Some (timerfd_ (queue w'))
      | [] => True
      end).
Proof.
  intros I Ht. unfold handleRead, assertInLoopThread. unfold in_thread in Ht. rewrite Ht. cbn.
  destruct (read_clock_ok (queue w) held I) as [Hnow I0].
  assert (Etl : timers_ (read_clock (queue w)).2 = timers_ (queue w) ∧
               run_log (read_clock (queue w)).2 = run_log (queue w)).
  { unfold read_clock. by case_match. }
  destruct (read_clock (queue w)) as [nw q0]. cbn in *. destruct Etl as [Et El].
  destruct (getExpired_ok q0 held nw I0) as (expired & rest & q1 & -> & Es & Hle & Hgt & Eq1 & I1). cbn.
  exists expired, rest. rewrite <- Et. split_and!; try done. apply safely_bind.
  eapply safely_mono.
  { apply (run_expired_ok expired (set_queue (set_calling true ∅ q1) w) (map snd expired ++ held));
      [by apply inv_set_calling|done|intros p Hp; rewrite elem_of_app; by left]. }
  intros w2 (Hlog & I2 & Ht2 & Hc2 & Hh2).
  destruct (reset_ok expired (set_calling false (cancelingTimers_ (queue w2)) (queue w2)) held nw)
    as (q3 & E3 & I3 & El3 & Ec3 & _ & _ & _ & Harm); [by apply inv_set_calling|done|].
  cbn. rewrite E3. cbn. split_and!; try done.
  - rewrite El3. cbn. rewrite Hlog. cbn. by rewrite Eq1, <- El.
  - destruct (timers_ q3); [done|]. intros Hv. destruct (Harm Hv) as (ts & -> & _). done.
Qed.
End run.
