(* ===== verification/TimerDelay.v ===== *)
(** When a timer runs: EventLoop::runAt, runAfter and runEvery over many rounds of the loop.

    A timer stays queued while the rounds read times before its own, whatever other timers are
    added, cancelled and run; the first round that reads its time or a later one runs it, once. *)
From Stdlib Require Import Floats.SpecFloat.
From S2P Require Import Prelude.
From S2P Require Import CurrentThread.
From S2P Require Import Timestamp.
From S2P Require Import Channel.
From S2P Require Import Loop.
From S2P Require Import TimerQueue.
From S2P Require Import TimerFacts.
From S2P Require Import TimerRun.

(** The timer [id] waits for [time]. *)
Record queued (time : Timestamp) (id : TimerId) (q : TimerQueue) : Prop := {
  qd_entry : (time, timer_ id) ∈ timers_ q;
  qd_seq : seq_of (heap_ q) (timer_ id) = id_sequence_ id
}.

Lemma queued_active time id q held :
  tq_inv q held → queued time id q → (timer_ id, id_sequence_ id) ∈ activeTimers_ q.
Proof.
  intros I [He Hs]. rewrite (iq_active _ _ I), elem_of_list_to_set, elem_actives. split; [|done].
  cbn. apply list_elem_of_fmap. by exists (time, timer_ id).
Qed.

(** Two timers of the queue at one address are the same timer. *)
Lemma queued_unique time id q held t s :
  tq_inv q held → queued time id q → (timer_ id, s) ∈ activeTimers_ q → (t, timer_ id) ∈ timers_ q →
  s = id_sequence_ id ∧ t = time.
Proof.
  intros I [He Hs] Ha Ht. rewrite (iq_active _ _ I), elem_of_list_to_set, elem_actives in Ha.
  destruct Ha as [_ Ha]. cbn in Ha. split; [congruence|].
  destruct (iq_entries _ _ I _ _ He) as (tm & E & <-), (iq_entries _ _ I _ _ Ht) as (tm' & E' & <-). congruence.
Qed.

Lemma queued_same time id q q' :
  timers_ q' = timers_ q → heap_ q' !! timer_ id = heap_ q !! timer_ id → queued time id q → queued time id q'.
Proof. intros Et Eh [He Hs]. split; [by rewrite Et|]. unfold seq_of in *. by rewrite Eh. Qed.

Lemma queued_not_held time id q held : tq_inv q held → queued time id q → timer_ id ∉ held.
Proof. intros I [He _] Hin. by eapply held_not_queued. Qed.

Section delay.
  Context {CB F L : Type} `{!Loop CB F L} `{!Allocator} `{!TimerBind F} `{!CurrentThread}.
  Variable callbacks : Z → TimerQueue → list timer_call.
  Hypothesis callbacks_ok : ∀ cb q, Forall call_ok (callbacks cb q).
  Implicit Types w : TimerWorld L.

  (** The timer that is followed. *)
  Variables (time : Timestamp) (id : TimerId).

(** * Other calls leave the timer alone *)
Lemma addTimer_keeps cb when interval w held :
  tq_inv (queue w) held → in_thread w → time_ok when → interval_ok interval →
  queued time id (queue w) → safely (addTimer cb when interval w) (λ r, queued time id (queue r.2)).
Proof.
  intros I Ht Hw Hi Hq. unfold addTimer. apply safely_bind.
  eapply safely_mono; [exact (new_Timer_ok (queue w) held cb when interval I Hw Hi)|].
  intros [p q1] (I1 & Hfresh & Eq & Eh). cbn [fst snd] in *.
  unfold runInLoop. cbn. unfold in_thread in Ht. rewrite Ht. unfold in_loop, assertInLoopThread. cbn. rewrite Ht. cbn.
  destruct (addTimerInLoop_ok q1 held p I1) as (q2 & -> & I2 & E1 & _ & _ & _ & _ & Hp). cbn.
  assert (Hne : p ≠ timer_ id).
  { intros ->. destruct (iq_entries _ _ I _ _ (qd_entry _ _ _ Hq)) as (tm & E & _). congruence. }
  destruct Hq as [He Hs]. split.
  - rewrite Hp. right. by rewrite Eq.
  - unfold seq_of. rewrite E1, Eh, lookup_insert_ne by done. exact Hs.
Qed.

Lemma cancel_keeps id' w held :
  tq_inv (queue w) held → in_thread w → id' ≠ id →
  queued time id (queue w) → safely (cancel id' w) (λ w', queued time id (queue w')).
Proof.
  intros I Ht Hne Hq. unfold cancel, runInLoop, in_loop, assertInLoopThread. unfold in_thread in Ht. rewrite Ht. cbn.
  destruct (cancelInLoop_ok (queue w) held id' I) as (q' & -> & I' & _ & _ & _ & Hcase). cbn.
  case_bool_decide as Hin.
  - destruct Hcase as ([t Hperm] & Eh & _).
    assert (Hptr : timer_ id' ≠ timer_ id).
    { intros E. apply Hne. rewrite E in Hin, Hperm.
      destruct (queued_unique time id _ _ t _ I Hq Hin) as [Es _]; [rewrite Hperm; by left|].
      destruct id', id; cbn in *; congruence. }
    destruct Hq as [He Hs]. rewrite Hperm in He. apply elem_of_cons in He as [[= _ E]|He]; [by destruct Hptr|].
    split; [done|]. unfold seq_of in *. by rewrite Eh, lookup_delete_ne.
  - destruct Hcase as (Eh & Et & _). apply (queued_same time id (queue w)); [done|by rewrite Eh|done].
Qed.

Lemma run_call_keeps c w held :
  tq_inv (queue w) held → in_thread w → call_ok c → c ≠ CallCancel id →
  queued time id (queue w) → safely (run_call c w) (λ w', queued time id (queue w')).
Proof.
  intros I Ht Hc Hne Hq. destruct c as [cb when interval|id']; unfold run_call.
  - destruct Hc. apply safely_bind. eapply safely_mono; [by apply (addTimer_keeps cb when interval w held)|].
    by intros [? ?].
  - apply (cancel_keeps id' w held); [done|done|congruence|done].
Qed.

Lemma run_calls_keeps cs w held :
  tq_inv (queue w) held → in_thread w → Forall call_ok cs → CallCancel id ∉ cs →
  queued time id (queue w) → safely (run_calls cs w) (λ w', queued time id (queue w')).
Proof.
  revert w. induction cs as [|c cs IH]; intros w I Ht Hcs Hn Hq; cbn; [done|].
  apply list.Forall_cons in Hcs as [Hc Hcs]. apply not_elem_of_cons in Hn as [Hne Hn]. apply safely_bind.
  eapply safely_mono.
  { apply safely_and; [by apply (run_call_ok c w held)|apply (run_call_keeps c w held); try done; congruence]. }
  intros w1 [U Hq1]. apply IH; [apply U|apply U|done|done|done].
Qed.

Hypothesis not_cancelled : ∀ cb q, CallCancel id ∉ callbacks cb q.

Lemma run_expired_keeps expired w held :
  tq_inv (queue w) held → in_thread w → (∀ p, p ∈ map snd expired → p ∈ held) →
  queued time id (queue w) → safely (run_expired callbacks expired w) (λ w', queued time id (queue w')).
Proof.
  revert w. induction expired as [|[t0 p] expired IH]; intros w I Ht Hheld Hq; cbn; [done|].
  assert (is_Some (heap_ (queue w) !! p)) as [t Hp].
  { apply (iq_heap _ _ I), elem_of_app. right. apply Hheld. by left. }
  rewrite (timer_at_ok _ _ _ Hp). cbn. apply safely_bind. eapply safely_mono.
  { apply safely_and.
    - apply (run_calls_ok _ (set_queue (add_run p (queue w)) w) held); [by apply inv_add_run|done|apply callbacks_ok].
    - apply (run_calls_keeps _ (set_queue (add_run p (queue w)) w) held);
        [by apply inv_add_run|done|apply callbacks_ok|apply not_cancelled|by apply (queued_same time id (queue w))]. }
  intros w1 [U Hq1]. apply IH; [apply U|apply U| |done]. intros p0 Hin. apply Hheld. by right.
Qed.

(** * One round *)

(** A round that reads the timer's time or a later one runs it, once; so it is even when a callback
    of the same round cancels it. *)
Lemma due_round w held :
  tq_inv (queue w) held → in_thread w → queued time id (queue w) → time ≤ (read_clock (queue w)).1 →
  safely (handleRead callbacks w) (λ w', ∃ l1 l2,
    run_log (queue w') = run_log (queue w) ++ l1 ++ timer_ id :: l2 ∧ timer_ id ∉ l1 ++ l2).
Proof.
  intros I Ht [He _] Hdue.
  destruct (timer_handleRead_ok callbacks callbacks_ok w held I Ht) as (expired & rest & Eq & _ & Hgt & Hrun).
  assert (Hin : timer_ id ∈ map snd expired).
  { rewrite Eq in He. apply list_elem_of_fmap. exists (time, timer_ id). split; [done|].
    apply elem_of_app in He as [He|He]; [done|]. rewrite list.Forall_forall in Hgt. apply Hgt in He. cbn in He. lia. }
  pose proof (iq_nodup _ _ I) as Hn. apply list.NoDup_app in Hn as (Hn & _). rewrite Eq, map_app in Hn.
  apply list.NoDup_app in Hn as (Hn & _).
  apply list_elem_of_split in Hin as (l1 & l2 & El). rewrite El in Hn.
  rewrite <- Permutation_middle in Hn. apply list.NoDup_cons in Hn as [Hn _].
  eapply safely_mono; [exact Hrun|]. intros w' (-> & _). exists l1, l2. by rewrite El.
Qed.

Lemma read_clock_same q : timers_ (read_clock q).2 = timers_ q ∧ heap_ (read_clock q).2 = heap_ q.
Proof. unfold read_clock. by destruct (clock_ q). Qed.

(** A round that reads an earlier time leaves the timer where it is. *)
Lemma early_round w held :
  tq_inv (queue w) held → in_thread w → queued time id (queue w) → (read_clock (queue w)).1 < time →
  safely (handleRead callbacks w) (λ w', queued time id (queue w')).
Proof.
  intros I Ht Hq Hearly. unfold handleRead, assertInLoopThread. unfold in_thread in Ht. rewrite Ht. cbn.
  destruct (read_clock_ok (queue w) held I) as [Hnow I0]. destruct (read_clock_same (queue w)) as [Et Eh].
  destruct (read_clock (queue w)) as [nw q0]. cbn in *.
  destruct (getExpired_ok q0 held nw I0) as (expired & rest & q1 & -> & Es & Hle & Hgt & Eq1 & I1). cbn.
  assert (Hq1 : queued time id q1).
  { destruct Hq as [He Hs]. subst q1. split; cbn; [|by rewrite Eh]. rewrite <- Et, Es in He.
    apply elem_of_app in He as [He|He]; [|done]. rewrite list.Forall_forall in Hle. apply Hle in He. cbn in He. lia. }
  apply safely_bind. eapply safely_mono.
  { apply safely_and.
    - apply (run_expired_ok callbacks callbacks_ok expired (set_queue (set_calling true ∅ q1) w) (map snd expired ++ held));
        [by apply inv_set_calling|done|intros p Hp; rewrite elem_of_app; by left].
    - apply (run_expired_keeps expired (set_queue (set_calling true ∅ q1) w) (map snd expired ++ held));
        [by apply inv_set_calling|done|intros p Hp; rewrite elem_of_app; by left|].
      by apply (queued_same time id q1). }
  intros w2 [(_ & I2 & _) Hq2].
  destruct (reset_ok expired (set_calling false (cancelingTimers_ (queue w2)) (queue w2)) held nw)
    as (q3 & E3 & I3 & _ & _ & Hframe & Hsub & _); [by apply inv_set_calling|done|].
  cbn. rewrite E3. cbn. pose proof (queued_not_held _ _ _ _ I2 Hq2) as Hnh. destruct Hq2 as [He2 Hs2]. split.
  - apply Hsub. exact He2.
  - unfold seq_of in *. rewrite Hframe; [exact Hs2|]. intros Hin. apply Hnh, elem_of_app. by left.
Qed.

(** * Many rounds *)

(** Rounds that read times before the timer's, and calls between them, other than its cancelling. *)
Inductive before : TimerWorld L → TimerWorld L → Prop :=
| before_start w : before w w
| before_round w1 w2 w3 :
    before w1 w2 → (read_clock (queue w2)).1 < time → handleRead callbacks w2 = Ok w3 → before w1 w3
| before_call w1 w2 c w3 :
    before w1 w2 → call_ok c → c ≠ CallCancel id → run_call c w2 = Ok w3 → before w1 w3.

Lemma before_waits w1 w2 held :
  before w1 w2 → tq_inv (queue w1) held → in_thread w1 → queued time id (queue w1) →
  tq_inv (queue w2) held ∧ in_thread w2 ∧ queued time id (queue w2) ∧
  ∃ ran, run_log (queue w2) = run_log (queue w1) ++ ran ∧ timer_ id ∉ ran.
Proof.
  intros B I Ht Hq.
  induction B as [w|w1 w2 w3 B IH Hearly E|w1 w2 c w3 B IH Hc Hne E].
  - split_and!; try done. exists []. split; [by rewrite app_nil_r|]. by apply not_elem_of_nil.
  - destruct (IH I Ht Hq) as (I2 & Ht2 & Hq2 & ran & El & Hn).
    pose proof (safely_ok _ _ _ E (early_round w2 held I2 Ht2 Hq2 Hearly)) as Hq3.
    destruct (timer_handleRead_ok callbacks callbacks_ok w2 held I2 Ht2) as (expired & rest & Eq & Hle & _ & Hrun).
    destruct (safely_ok _ _ _ E Hrun) as (El3 & _ & I3 & Ht3 & _). split_and!; try done.
    exists (ran ++ map snd expired). split; [by rewrite El3, El, app_assoc|]. rewrite elem_of_app. intros [?|Hin]; [done|].
    apply list_elem_of_fmap in Hin as ([t p] & Ep & Hin). cbn in Ep. subst p.
    rewrite list.Forall_forall in Hle. pose proof (Hle _ Hin) as Ht0. cbn in Ht0.
    destruct (queued_unique time id (queue w2) held t (id_sequence_ id) I2 Hq2) as [_ ->];
      [by eapply queued_active|by rewrite Eq, elem_of_app; left|lia].
  - destruct (IH I Ht Hq) as (I2 & Ht2 & Hq2 & ran & El & Hn).
    pose proof (safely_ok _ _ _ E (run_call_ok c w2 held I2 Ht2 Hc)) as U.
    split_and!; [apply U|apply U| |].
    + exact (safely_ok _ _ _ E (run_call_keeps c w2 held I2 Ht2 Hc Hne Hq2)).
    + exists ran. by rewrite (un_log _ _ _ U).
Qed.

(** [w] has the timer [id], which runs in the first round that reads [time] or a later time: not
    before, and once in that round. *)
Definition punctual w : Prop :=
  ∀ w2, before w w2 →
    (∃ ran, run_log (queue w2) = run_log (queue w) ++ ran ∧ timer_ id ∉ ran) ∧
    (time ≤ (read_clock (queue w2)).1 → safely (handleRead callbacks w2) (λ w3, ∃ l1 l2,
       run_log (queue w3) = run_log (queue w2) ++ l1 ++ timer_ id :: l2 ∧ timer_ id ∉ l1 ++ l2)).

Lemma queued_punctual w held :
  tq_inv (queue w) held → in_thread w → queued time id (queue w) → punctual w.
Proof.
  intros I Ht Hq w2 B. destruct (before_waits w w2 held B I Ht Hq) as (I2 & Ht2 & Hq2 & Hran).
  split; [done|]. intros Hdue. by apply (due_round w2 held).
Qed.
End delay.

(** A new timer is queued, with its sequence number. *)
Lemma addTimer_queues {CB F L : Type} `{!Loop CB F L} `{!Allocator} `{!TimerBind F} `{!CurrentThread}
    cb when interval (w : TimerWorld L) held :
  tq_inv (queue w) held → in_thread w → time_ok when → interval_ok interval →
  safely (addTimer cb when interval w) (λ '(id, w'),
    tq_inv (queue w') held ∧ in_thread w' ∧ queued when id (queue w')).
Proof.
  intros I Ht Hw Hi. eapply safely_mono; [by apply (addTimer_ok cb when interval w held)|].
  intros [id w'] (U & Ha & _ & Hp). split; [apply U|]. split; [apply U|]. split; [rewrite Hp; by left|].
  rewrite (iq_active _ _ (un_inv _ _ _ U)), elem_of_list_to_set, elem_actives in Ha. by destruct Ha.
Qed.
