(* ===== verification/TcpConnection.v ===== *)
(** One TCP connection: networker/net/TcpConnection.h and TcpConnection.cpp.

    The world of a connection is its object, its event loop (interface Loop.v),
    the socket, and two histories: [wire], the bytes the kernel took, and
    [trace], the callbacks that were called.  User callbacks answer with the list
    of public methods they call on the connection, so every user program is
    covered. *)
From S2P Require Import Prelude.
From S2P Require Import CurrentThread.
From S2P Require Import StringPiece.
From S2P Require Import Buffer.
From S2P Require Import BufferFacts.
From S2P Require Import Channel.
From S2P Require Import Loop.

Inductive StateE := kDisconnected | kConnecting | kConnected | kDisconnecting.

#[export] Instance StateE_eq_dec : EqDecision StateE.
Proof. intros x y; unfold Decision; decide equality. Defined.

Definition stateToString (s : StateE) : string :=
  match s with
  | kDisconnected => "kDisconnected" | kConnecting => "kConnecting"
  | kConnected => "kConnected" | kDisconnecting => "kDisconnecting"
  end.

Definition EWOULDBLOCK : Z := 11.
Definition EPIPE : Z := 32.
Definition ECONNRESET : Z := 104.

(** The socket of the kernel.  write(2) takes a prefix of the data or fails;
    readv(2) fills at most the space it is given. *)
Inductive write_result := WriteN (n : Z) | WriteError (err : Z).

Class TcpSocket := {
  sock : Type;
  sock_write : sock → list byte → sock * write_result;
  sock_readv : sock → Z → sock * read_result;
  sock_shutdownWrite : sock → sock;
  sock_write_prefix s d s' n : sock_write s d = (s', WriteN n) → 0 ≤ n ≤ zlen d;
  sock_readv_fits s cap s' bs : 0 ≤ cap → sock_readv s cap = (s', ReadBytes bs) → zlen bs ≤ cap
}.

(** The functors and channel callbacks the connection binds to itself. *)
Inductive functor :=
| FSendInLoop (message : list byte)
| FShutdownInLoop
| FForceCloseInLoop
| FForceClose                      (** the weak callback of a timer *)
| FStartReadInLoop
| FWriteComplete
| FHighWaterMark (n : Z)
| FConnectEstablished
| FConnectDestroyed.

Inductive handler := HandleRead | HandleWrite | HandleClose | HandleError.

(** Calls of callbacks, in the order they were made. *)
Inductive event :=
| EvConnection (s : StateE)        (** [connectionCallback_], with the state it sees *)
| EvMessage (input : list byte)    (** [messageCallback_], with the buffered input *)
| EvWriteComplete
| EvHighWaterMark (n : Z)
| EvClose.                         (** [closeCallback_] *)

(** The public methods a callback can call on its connection or input buffer. *)
Inductive api :=
| ASend (data : list byte)         (** [send(const void*, int)], [send(const StringPiece&)] *)
| ASendString (s : list byte)      (** [send] of a [std::string] *)
| ASendInput                       (** [send(Buffer* )] of the input buffer *)
| AShutdown
| AForceClose
| AForceCloseWithDelay (micros : Z)
| AStartRead
| ARetrieve (len : Z)              (** [inputBuffer()->retrieve(len)] *)
| ARetrieveAll
| ASetWriteCompleteCallback (set : bool)
| ASetHighWaterMarkCallback (set : bool) (mark : Z).

(** How a connection's functors and handlers become values of the loop, what
    [runAfter] does, and what [closeCallback_] (TcpServer's or TcpClient's
    [removeConnection]) does to the loop. *)
Class ConnEnv (CB F L : Type) := {
  bind_functor : functor → F;
  bind_handler : handler → CB;
  decode_handler : CB → option handler;
  decode_bind h : decode_handler (bind_handler h) = Some h;
  runAfter : Z → F → L → L;
  closeCallback : L → L
}.

Record TcpConnection (Addr : Type) := mkConn {
  name_ : list byte;
  state_ : StateE;
  reading_ : bool;
  sockfd_ : Z;
  channel_ : ChannelPtr;
  localAddr_ : Addr;
  peerAddr_ : Addr;
  writeCompleteCallback_ : bool;   (** whether one is installed *)
  highWaterMarkCallback_ : bool;
  highWaterMark_ : Z;
  inputBuffer_ : Buffer;
  outputBuffer_ : Buffer
}.
Arguments mkConn {Addr}. Arguments name_ {Addr}. Arguments state_ {Addr}. Arguments reading_ {Addr}.
Arguments sockfd_ {Addr}. Arguments channel_ {Addr}. Arguments localAddr_ {Addr}.
Arguments peerAddr_ {Addr}. Arguments writeCompleteCallback_ {Addr}.
Arguments highWaterMarkCallback_ {Addr}. Arguments highWaterMark_ {Addr}.
Arguments inputBuffer_ {Addr}. Arguments outputBuffer_ {Addr}.

Section connection.
  Context {Addr : Type}.
  Implicit Types c : TcpConnection Addr.

Definition setState (s : StateE) c : TcpConnection Addr :=
  mkConn (name_ c) s (reading_ c) (sockfd_ c) (channel_ c) (localAddr_ c) (peerAddr_ c)
    (writeCompleteCallback_ c) (highWaterMarkCallback_ c) (highWaterMark_ c) (inputBuffer_ c) (outputBuffer_ c).
Definition set_reading (v : bool) c : TcpConnection Addr :=
  mkConn (name_ c) (state_ c) v (sockfd_ c) (channel_ c) (localAddr_ c) (peerAddr_ c)
    (writeCompleteCallback_ c) (highWaterMarkCallback_ c) (highWaterMark_ c) (inputBuffer_ c) (outputBuffer_ c).
Definition set_input (b : Buffer) c : TcpConnection Addr :=
  mkConn (name_ c) (state_ c) (reading_ c) (sockfd_ c) (channel_ c) (localAddr_ c) (peerAddr_ c)
    (writeCompleteCallback_ c) (highWaterMarkCallback_ c) (highWaterMark_ c) b (outputBuffer_ c).
Definition set_output (b : Buffer) c : TcpConnection Addr :=
  mkConn (name_ c) (state_ c) (reading_ c) (sockfd_ c) (channel_ c) (localAddr_ c) (peerAddr_ c)
    (writeCompleteCallback_ c) (highWaterMarkCallback_ c) (highWaterMark_ c) (inputBuffer_ c) b.
Definition setWriteCompleteCallback (v : bool) c : TcpConnection Addr :=
  mkConn (name_ c) (state_ c) (reading_ c) (sockfd_ c) (channel_ c) (localAddr_ c) (peerAddr_ c)
    v (highWaterMarkCallback_ c) (highWaterMark_ c) (inputBuffer_ c) (outputBuffer_ c).
Definition setHighWaterMarkCallback (v : bool) (mark : Z) c : TcpConnection Addr :=
  mkConn (name_ c) (state_ c) (reading_ c) (sockfd_ c) (channel_ c) (localAddr_ c) (peerAddr_ c)
    (writeCompleteCallback_ c) v mark (inputBuffer_ c) (outputBuffer_ c).

Definition connected c : bool := bool_decide (state_ c = kConnected).
Definition disconnected c : bool := bool_decide (state_ c = kDisconnected).

(** [TcpConnection::TcpConnection]: the object and its channel. *)
Definition new_TcpConnection {CB F L} `{!ConnEnv CB F L} (name : list byte) (sockfd : Z)
    (chan : ChannelPtr) (localAddr peerAddr : Addr) : outcome (TcpConnection Addr * Channel CB) :=
  ib ← new_buffer kInitialSize;
  ob ← new_buffer kInitialSize;
  let conn := mkConn name kConnecting true sockfd chan localAddr peerAddr false false (64 * 1024 * 1024) ib ob in
  let ch := setReadCallback (bind_handler HandleRead) (new_channel sockfd) in
  let ch := setWriteCallback (bind_handler HandleWrite) ch in
  let ch := setCloseCallback (bind_handler HandleClose) ch in
  let ch := setErrorCallback (bind_handler HandleError) ch in
  Ok (conn, ch).

(** [TcpConnection::~TcpConnection]. *)
Definition connection_dtor c : outcome unit := require (bool_decide (state_ c = kDisconnected)).
End connection.

(** What user callbacks do: the methods they call. *)
Record UserCallbacks (Addr : Type) := mkUser {
  connectionCallback : TcpConnection Addr → list api;
  messageCallback : TcpConnection Addr → list api;
  writeCompleteCallback : TcpConnection Addr → list api;
  highWaterMarkCallback : TcpConnection Addr → Z → list api
}.
Arguments connectionCallback {Addr}. Arguments messageCallback {Addr}.
Arguments writeCompleteCallback {Addr}. Arguments highWaterMarkCallback {Addr}.
Arguments mkUser {Addr}.

(** [defaultConnectionCallback] and [defaultMessageCallback]. *)
Definition default_user {Addr} : UserCallbacks Addr :=
  mkUser (λ _, []) (λ _, [ARetrieveAll]) (λ _, []) (λ _ _, []).

Record World (Addr L : Type) `{!TcpSocket} := mkWorld {
  conn : TcpConnection Addr;
  lp : L;
  sk : sock;
  wire : list byte;
  fin : bool;                  (** [shutdownWrite] was called *)
  trace : list event
}.
Arguments mkWorld {Addr L _}. Arguments conn {Addr L _}. Arguments lp {Addr L _}.
Arguments sk {Addr L _}. Arguments wire {Addr L _}. Arguments fin {Addr L _}. Arguments trace {Addr L _}.

Section operations.
  Context {Addr CB F L : Type} `{!Loop CB F L} `{!TcpSocket} `{!ConnEnv CB F L} `{!CurrentThread}.
  Variable user : UserCallbacks Addr.
  Notation W := (World Addr L).
  Implicit Types w : W.

Definition on_conn (f : TcpConnection Addr → TcpConnection Addr) w : W :=
  mkWorld (f (conn w)) (lp w) (sk w) (wire w) (fin w) (trace w).
Definition set_lp (l : L) w : W := mkWorld (conn w) l (sk w) (wire w) (fin w) (trace w).
Definition set_sk (s : sock) w : W := mkWorld (conn w) (lp w) s (wire w) (fin w) (trace w).
Definition add_wire (d : list byte) w : W :=
  mkWorld (conn w) (lp w) (sk w) (wire w ++ d) (fin w) (trace w).
Definition log_event (e : event) w : W :=
  mkWorld (conn w) (lp w) (sk w) (wire w) (fin w) (trace w ++ [e]).

(** A method of the connection's channel, a call of the loop. *)
Definition on_channel (m : ChannelPtr → L → outcome L) w : outcome W :=
  l ← m (channel_ (conn w)) (lp w); Ok (set_lp l w).
Definition queue (f : functor) w : outcome W :=
  l ← queueInLoop (bind_functor f) (lp w); Ok (set_lp l w).
Definition run_in_loop (f : functor) (body : W → outcome W) w : outcome W :=
  runInLoop lp set_lp (λ _, body) (bind_functor f) w.
Definition the_channel w : outcome (Channel CB) := deref (channel_ (conn w)) (lp w).
Definition assert_thread w : outcome unit := assertInLoopThread (lp w).

(** * Sending *)

(** The direct write of [sendInLoop]: the world, [nwrote], [remaining], [faultError]. *)
Definition try_write (data : list byte) w : outcome (W * Z * Z * bool) :=
  let len := zlen data in
  let '(s, r) := sock_write (sk w) data in
  let w := set_sk s w in
  match r with
  | WriteN nwrote =>
      let w := add_wire (ztake nwrote data) w in
      let remaining := u64 (len - nwrote) in
      w ← (if (remaining =? 0) && writeCompleteCallback_ (conn w)
           then queue FWriteComplete w else Ok w);
      Ok (w, nwrote, remaining, false)
  | WriteError err =>
      Ok (w, 0, len, negb (err =? EWOULDBLOCK) && ((err =? EPIPE) || (err =? ECONNRESET)))
  end.

(** The rest of [sendInLoop]: what the kernel did not take is buffered. *)
Definition buffer_rest (data : list byte) (nwrote remaining : Z) w : outcome W :=
  let oldLen := readableBytes (outputBuffer_ (conn w)) in
  w ← (if (highWaterMark_ (conn w) <=? u64 (oldLen + remaining)) &&
          (oldLen <? highWaterMark_ (conn w)) && highWaterMarkCallback_ (conn w)
       then queue (FHighWaterMark (u64 (oldLen + remaining))) w else Ok w);
  b ← append (zdrop nwrote data) remaining (outputBuffer_ (conn w));
  let w := on_conn (set_output b) w in
  ch ← the_channel w;
  if negb (isWriting ch) then on_channel enableWriting w else Ok w.

Definition sendInLoop (data : list byte) w : outcome W :=
  let len := zlen data in
  _ ← assert_thread w;
  if bool_decide (state_ (conn w) = kDisconnected) then Ok w else
  ch ← the_channel w;
  '(w, nwrote, remaining, faultError) ←
    (if negb (isWriting ch) && (readableBytes (outputBuffer_ (conn w)) =? 0)
     then try_write data w
     else Ok (w, 0, len, false));
  _ ← require (remaining <=? len);
  if negb faultError && (0 <? remaining) then buffer_rest data nwrote remaining w else Ok w.

(** [send(const StringPiece&)]. *)
Definition send (message : list byte) w : outcome W :=
  if connected (conn w) then run_in_loop (FSendInLoop message) (sendInLoop message) w else Ok w.

(** [send] of a [std::string], through the conversion to [StringPiece]. *)
Definition send_string (s : list byte) w : outcome W :=
  piece ← of_string s; send (view piece) w.

(** [send(Buffer* )] with the connection's input buffer. *)
Definition send_input w : outcome W :=
  if connected (conn w) then
    let buf := inputBuffer_ (conn w) in
    if isInLoopThread (lp w) then
      data ← load (peek buf) (readableBytes buf) (buffer_ buf);
      w ← sendInLoop data w;
      Ok (on_conn (λ c, set_input (retrieveAll (inputBuffer_ c)) c) w)
    else
      '(data, buf) ← retrieveAllAsString buf;
      run_in_loop (FSendInLoop data) (sendInLoop data) (on_conn (set_input buf) w)
  else Ok w.

(** * Closing *)
Definition shutdownInLoop w : outcome W :=
  _ ← assert_thread w;
  ch ← the_channel w;
  if negb (isWriting ch)
  then Ok (mkWorld (conn w) (lp w) (sock_shutdownWrite (sk w)) (wire w) true (trace w))
  else Ok w.

Definition shutdown w : outcome W :=
  if connected (conn w)
  then run_in_loop FShutdownInLoop shutdownInLoop (on_conn (setState kDisconnecting) w)
  else Ok w.

Definition open (c : TcpConnection Addr) : bool :=
  bool_decide (state_ c = kConnected) || bool_decide (state_ c = kDisconnecting).

Definition forceClose w : outcome W :=
  if open (conn w) then queue FForceCloseInLoop (on_conn (setState kDisconnecting) w) else Ok w.

Definition forceCloseWithDelay (micros : Z) w : outcome W :=
  if open (conn w) then
    let w := on_conn (setState kDisconnecting) w in
    Ok (set_lp (runAfter micros (bind_functor FForceClose) (lp w)) w)
  else Ok w.

(** * Reading *)
Definition startReadInLoop w : outcome W :=
  _ ← assert_thread w;
  ch ← the_channel w;
  if negb (reading_ (conn w)) || negb (isReading ch) then
    w ← on_channel enableReading w;
    Ok (on_conn (set_reading true) w)
  else Ok w.

Definition startRead w : outcome W := run_in_loop FStartReadInLoop startReadInLoop w.

(** * User callbacks *)
Definition run_api (a : api) w : outcome W :=
  match a with
  | ASend data => send data w
  | ASendString s => send_string s w
  | ASendInput => send_input w
  | AShutdown => shutdown w
  | AForceClose => forceClose w
  | AForceCloseWithDelay us => forceCloseWithDelay us w
  | AStartRead => startRead w
  | ARetrieve len => b ← retrieve len (inputBuffer_ (conn w)); Ok (on_conn (set_input b) w)
  | ARetrieveAll => Ok (on_conn (λ c, set_input (retrieveAll (inputBuffer_ c)) c) w)
  | ASetWriteCompleteCallback v => Ok (on_conn (setWriteCompleteCallback v) w)
  | ASetHighWaterMarkCallback v mark => Ok (on_conn (setHighWaterMarkCallback v mark) w)
  end.

Fixpoint run_apis (l : list api) w : outcome W :=
  match l with [] => Ok w | a :: l => w ← run_api a w; run_apis l w end.

Definition call_connection w : outcome W :=
  let w := log_event (EvConnection (state_ (conn w))) w in
  run_apis (connectionCallback user (conn w)) w.
Definition call_message w : outcome W :=
  let w := log_event (EvMessage (content (inputBuffer_ (conn w)))) w in
  run_apis (messageCallback user (conn w)) w.
Definition call_writeComplete w : outcome W :=
  let w := log_event EvWriteComplete w in
  run_apis (writeCompleteCallback user (conn w)) w.
Definition call_highWaterMark (n : Z) w : outcome W :=
  let w := log_event (EvHighWaterMark n) w in
  run_apis (highWaterMarkCallback user (conn w) n) w.
Definition call_close w : outcome W :=
  let w := log_event EvClose w in
  Ok (set_lp (closeCallback (lp w)) w).

(** * Channel callbacks *)
Definition handleClose w : outcome W :=
  _ ← assert_thread w;
  _ ← require (open (conn w));
  let w := on_conn (setState kDisconnected) w in
  w ← on_channel disableAll w;
  w ← call_connection w;
  call_close w.

(** [handleError] only reports [SO_ERROR]. *)
Definition handleError w : outcome W := Ok w.

Definition handleRead w : outcome W :=
  _ ← assert_thread w;
  let '(s, r) := sock_readv (sk w) (iov_capacity (inputBuffer_ (conn w))) in
  '(n, _, b) ← readFd r (inputBuffer_ (conn w));
  let w := on_conn (set_input b) (set_sk s w) in
  if 0 <? n then call_message w
  else if n =? 0 then handleClose w
  else handleError w.

Definition handleWrite w : outcome W :=
  _ ← assert_thread w;
  ch ← the_channel w;
  if isWriting ch then
    let b := outputBuffer_ (conn w) in
    data ← load (peek b) (readableBytes b) (buffer_ b);
    let '(s, r) := sock_write (sk w) data in
    let w := set_sk s w in
    match r with
    | WriteN n =>
        if 0 <? n then
          let w := add_wire (ztake n data) w in
          b ← retrieve n b;
          let w := on_conn (set_output b) w in
          if readableBytes b =? 0 then
            w ← on_channel disableWriting w;
            w ← (if writeCompleteCallback_ (conn w) then queue FWriteComplete w else Ok w);
            if bool_decide (state_ (conn w) = kDisconnecting) then shutdownInLoop w else Ok w
          else Ok w
        else Ok w
    | WriteError _ => Ok w
    end
  else Ok w.

Definition forceCloseInLoop w : outcome W :=
  _ ← assert_thread w;
  if open (conn w) then handleClose w else Ok w.

(** * Lifecycle *)
Definition connectEstablished w : outcome W :=
  _ ← assert_thread w;
  _ ← require (bool_decide (state_ (conn w) = kConnecting));
  let w := on_conn (setState kConnected) w in
  w ← on_channel (λ c, modify c tie) w;
  w ← on_channel enableReading w;
  call_connection w.

Definition connectDestroyed w : outcome W :=
  _ ← assert_thread w;
  w ← (if bool_decide (state_ (conn w) = kConnected) then
         let w := on_conn (setState kDisconnected) w in
         w ← on_channel disableAll w;
         call_connection w
       else Ok w);
  on_channel remove w.

(** * What the loop calls *)
Definition run_functor (f : functor) w : outcome W :=
  match f with
  | FSendInLoop message => sendInLoop message w
  | FShutdownInLoop => shutdownInLoop w
  | FForceCloseInLoop => forceCloseInLoop w
  | FForceClose => forceClose w
  | FStartReadInLoop => startReadInLoop w
  | FWriteComplete => call_writeComplete w
  | FHighWaterMark n => call_highWaterMark n w
  | FConnectEstablished => connectEstablished w
  | FConnectDestroyed => connectDestroyed w
  end.

Definition run_handler (h : handler) w : outcome W :=
  match h with
  | HandleRead => handleRead w
  | HandleWrite => handleWrite w
  | HandleClose => handleClose w
  | HandleError => handleError w
  end.
End operations.
