(* ===== verification/TcpConnectionFacts.v ===== *)
(** What TcpConnection.v guarantees: the connection's invariant, and the effect of
    every operation on the byte stream, the state machine and the channel. *)
From S2P Require Import Prelude.
From S2P Require Import CurrentThread.
From S2P Require Import StringPiece.
From S2P Require Import Buffer.
From S2P Require Import BufferFacts.
From S2P Require Import Channel.
From S2P Require Import Loop.
From S2P Require Import TcpConnection.

(** The environment's calls leave the connection's channel alone. *)
Class ConnEnvLaws (CB F L : Type) `{!Loop CB F L, !LoopSpec CB F L, !ConnEnv CB F L} := {
  runAfter_law us f l : same_loop l (runAfter us f l);
  closeCallback_law l : same_loop l (closeCallback l)
}.

(** The order in which a connection goes through its states. *)
Definition rank (s : StateE) : Z :=
  match s with kConnecting => 0 | kConnected => 1 | kDisconnecting => 2 | kDisconnected => 3 end.

Section facts.
  Context {Addr CB F L : Type} `{!Loop CB F L, !LoopSpec CB F L, !LoopLaws CB F L}.
  Context `{!TcpSocket} `{!ConnEnv CB F L, !ConnEnvLaws CB F L} `{!CurrentThread}.
  Notation W := (World Addr L).
  Implicit Types w : W.

(** Everything the peer got or will get. *)
Definition stream w : list byte := wire w ++ content (outputBuffer_ (conn w)).

(** The connection's descriptor and callbacks are in the channel. *)
Definition bound w (ch : Channel CB) : Prop :=
  fd_ ch = sockfd_ (conn w) ∧
  readCallback_ ch = Some (bind_handler HandleRead) ∧
  writeCallback_ ch = Some (bind_handler HandleWrite) ∧
  closeCallback_ ch = Some (bind_handler HandleClose) ∧
  errorCallback_ ch = Some (bind_handler HandleError).

(** What the channel says in each state. *)
Definition channel_ok w (ch : Channel CB) : Prop :=
  bound w ch ∧
  match state_ (conn w) with
  | kConnecting => events_ ch = 0 ∧ can_add (lp w) (channel_ (conn w)) ∧
                   content (outputBuffer_ (conn w)) = []
  | kConnected | kDisconnecting =>
      has_channel (lp w) (channel_ (conn w)) ∧ isReading ch = true ∧
      isWriting ch = bool_decide (content (outputBuffer_ (conn w)) ≠ [])
  | kDisconnected => events_ ch = 0 ∧ has_channel (lp w) (channel_ (conn w)) ∧
                     loop_watched (lp w) (sockfd_ (conn w)) = None
  end.

Record inv w : Prop := {
  iv_loop : loop_inv (lp w);
  iv_fd : 0 ≤ sockfd_ (conn w);
  iv_input : Buffer.wf (inputBuffer_ (conn w));
  iv_output : Buffer.wf (outputBuffer_ (conn w));
  iv_channel : ∃ ch, get_channel (channel_ (conn w)) (lp w) = Some ch ∧ channel_ok w ch
}.

(** The events last reported for the connection's channel. *)
Definition reported w : option Z := revents_ <$> get_channel (channel_ (conn w)) (lp w).

(** [w'] is [w] after an operation that gave [sent] to the connection. *)
Record advances w w' (sent : list byte) : Prop := {
  ad_inv : inv w';
  ad_thread `{!CurrentThread} : isInLoopThread (lp w') = isInLoopThread (lp w);
  ad_remove c : can_remove (lp w) c → can_remove (lp w') c;
  ad_channel : channel_ (conn w') = channel_ (conn w);
  ad_reported : reported w' = reported w;
  ad_sockfd : sockfd_ (conn w') = sockfd_ (conn w);
  ad_state : rank (state_ (conn w)) ≤ rank (state_ (conn w'));
  ad_stream : stream w' = stream w ++ sent;
  ad_wire : wire w `prefix_of` wire w';
  ad_trace : trace w' = trace w;
  ad_fin : fin w = true → fin w' = true
}.

Lemma advances_refl w : inv w → advances w w [].
Proof. intros. split; rewrite ?app_nil_r; auto. lia. Qed.

Lemma advances_trans w1 w2 w3 a b :
  advances w1 w2 a → advances w2 w3 b → advances w1 w3 (a ++ b).
Proof.
  intros [] []. split; try congruence; auto; try lia.
  - by rewrite ad_stream1, ad_stream0, app_assoc.
  - by etrans.
Qed.

(** Sequencing two safe operations. *)
Lemma safely_advances w (m : outcome W) (k : W → outcome W) (S1 S2 : list byte → Prop) :
  safely m (λ w1, ∃ a, advances w w1 a ∧ S1 a) →
  (∀ w1 a, advances w w1 a → S1 a → safely (k w1) (λ w2, ∃ b, advances w1 w2 b ∧ S2 (a ++ b))) →
  safely (m ≫= k) (λ w2, ∃ a, advances w w2 a ∧ S2 a).
Proof.
  intros Hm Hk. apply safely_bind. eapply safely_mono; [exact Hm|].
  intros w1 (a & Ha & HS). eapply safely_mono; [by apply (Hk w1 a)|].
  intros w2 (b & Hb & HS2). exists (a ++ b). split; [by eapply advances_trans|done].
Qed.

(** The same world after the callbacks [evs] were called. *)
Definition logged (evs : list event) w : W :=
  mkWorld (conn w) (lp w) (sk w) (wire w) (fin w) (trace w ++ evs).

Lemma inv_logged evs w : inv w → inv (logged evs w).
Proof. by intros []. Qed.

Lemma advances_logged evs w w' s : advances w w' s → advances (logged evs w) (logged evs w') s.
Proof. intros []. split; auto. { by apply inv_logged. } cbn. by rewrite ad_trace0. Qed.

Lemma logged_app e1 e2 w : logged e2 (logged e1 w) = logged (e1 ++ e2) w.
Proof. unfold logged. cbn. by rewrite app_assoc. Qed.

(** * Frames *)

(** The invariant after the loop changed elsewhere. *)
Lemma channel_ok_same w l ch : same_loop (lp w) l → channel_ok w ch → channel_ok (set_lp l w) ch.
Proof.
  intros S [Hfd Hst]. split; [done|]. cbn. destruct (state_ (conn w)).
  - destruct Hst as (? & ? & ?). split_and!; [done|by apply (sl_has _ _ S)|by rewrite (sl_watched _ _ S)].
  - destruct Hst as (? & ? & ?). split_and!; [done|by apply (sl_add _ _ S)|done].
  - destruct Hst as (? & ? & ?). split_and!; [by apply (sl_has _ _ S)|done|done].
  - destruct Hst as (? & ? & ?). split_and!; [by apply (sl_has _ _ S)|done|done].
Qed.

Lemma inv_same_loop w l : inv w → same_loop (lp w) l → inv (set_lp l w).
Proof.
  intros [IL If Ii Io (ch & Hc & Hok)] S. split; cbn; auto.
  - by apply (sl_inv _ _ S).
  - exists ch. rewrite (sl_get _ _ S). split; [done|]. by apply channel_ok_same.
Qed.

Lemma advances_same_loop w l : inv w → same_loop (lp w) l → advances w (set_lp l w) [].
Proof.
  intros I S. split; cbn; rewrite ?app_nil_r; auto; try lia.
  - by apply inv_same_loop.
  - intros. apply (sl_thread _ _ S).
  - apply (sl_remove _ _ S).
  - unfold reported. cbn. by rewrite (sl_get _ _ S).
Qed.

Lemma queue_ok f w : inv w → ∃ w', queue f w = Ok w' ∧ advances w w' [] ∧
  conn w' = conn w ∧ wire w' = wire w ∧ same_loop (lp w) (lp w').
Proof.
  intros I. unfold queue. destruct (queue_law (bind_functor f) (lp w)) as (l' & -> & _ & S).
  eexists. cbn. split_and!; [done|by apply advances_same_loop|done|done|done].
Qed.

Lemma queue_safely (b : bool) f w : inv w →
  safely (if b then queue f w else Ok w)
    (λ w', advances w w' [] ∧ conn w' = conn w ∧ wire w' = wire w ∧ same_loop (lp w) (lp w')).
Proof.
  intros I. destruct b.
  - destruct (queue_ok f w I) as (w' & -> & ?). by cbn.
  - cbn. split_and!; [by apply advances_refl|done|done|by split].
Qed.

(** A mask change of the connection's channel. *)
Lemma on_channel_mask (g : Z → Z) w ch (m : ChannelPtr → L → outcome L) :
  (∀ c l, m c l = (modify c (λ ch, set_events (g (events_ ch)) ch) l ≫= Channel.update c)) →
  loop_inv (lp w) → isInLoopThread (lp w) = true →
  get_channel (channel_ (conn w)) (lp w) = Some ch → mask_ok (g (events_ ch)) →
  has_channel (lp w) (channel_ (conn w)) ∨ can_add (lp w) (channel_ (conn w)) →
  safely (on_channel m w)
    (λ w', ∃ l', w' = set_lp l' w ∧ updated (lp w) (channel_ (conn w)) ch (pushed (g (events_ ch)) ch) l').
Proof.
  intros Hm Hi Ht Hc Hmask Hreg. unfold on_channel. rewrite Hm.
  destruct (change_mask (lp w) (channel_ (conn w)) ch g) as [->|(l' & -> & U)]; auto.
  - by left.
  - cbn. eauto.
Qed.

(** The channel after an update, in its own terms. *)
Lemma updated_channel l c ch ev l' :
  updated l c ch (pushed ev ch) l' →
  ∃ ch', get_channel c l' = Some ch' ∧ (∀ w, bound w ch → bound w ch') ∧ events_ ch' = ev ∧
         revents_ ch' = revents_ ch.
Proof.
  intros U. destruct (up_get _ _ _ _ _ U) as (ch' & Hg & i & ->).
  eexists. split; [exact Hg|]. done.
Qed.

Lemma reported_updated w ch ev l' :
  get_channel (channel_ (conn w)) (lp w) = Some ch →
  updated (lp w) (channel_ (conn w)) ch (pushed ev ch) l' → reported (set_lp l' w) = reported w.
Proof.
  intros Hc U. destruct (updated_channel _ _ _ _ _ U) as (ch' & Hg & _ & _ & Hr).
  unfold reported. cbn. rewrite Hg, Hc. cbn. by rewrite Hr.
Qed.

(** * Sending *)

(** The write system call refused the data for good. *)
Definition write_fault w (data : list byte) : Prop :=
  ∃ e, (sock_write (sk w) data).2 = WriteError e ∧ (e = EPIPE ∨ e = ECONNRESET).

Lemma assert_thread_ok w : isInLoopThread (lp w) = true → assert_thread w = Ok tt.
Proof. unfold assert_thread, assertInLoopThread. by intros ->. Qed.

Lemma the_channel_ok w ch :
  get_channel (channel_ (conn w)) (lp w) = Some ch → the_channel w = Ok ch.
Proof. unfold the_channel, deref. by intros ->. Qed.

Lemma readable_zero w :
  inv w → (readableBytes (outputBuffer_ (conn w)) =? 0) = bool_decide (content (outputBuffer_ (conn w)) = []).
Proof.
  intros I. pose proof (content_len _ (iv_output _ I)) as E.
  destruct (Z.eqb_spec (readableBytes (outputBuffer_ (conn w))) 0) as [Ez|Hne].
  - rewrite bool_decide_eq_true_2; [done|]. apply zlen_zero_nil. lia.
  - rewrite bool_decide_eq_false_2; [done|]. intros E0. rewrite E0 in E. by cbn in E.
Qed.

Lemma try_write_ok data w ch :
  inv w → open (conn w) = true → get_channel (channel_ (conn w)) (lp w) = Some ch →
  isWriting ch = false → zlen data < 2 ^ 63 →
  safely (try_write data w) (λ '(w', n, rem, fault),
    advances w w' (ztake n data) ∧ conn w' = conn w ∧
    rem = zlen data - n ∧ 0 ≤ n ≤ zlen data ∧ (fault = true → n = 0 ∧ write_fault w data)).
Proof.
  intros I Hopen Hc Hw Hlen. pose proof (zlen_nonneg data).
  assert (Hout : content (outputBuffer_ (conn w)) = []).
  { destruct (iv_channel _ I) as (ch0 & E & Hok). simplify_eq. destruct Hok as [_ Hok].
    unfold open in Hopen. destruct (state_ (conn w)); try done;
      destruct Hok as (_ & _ & Hwr); rewrite Hw in Hwr; symmetry in Hwr;
      apply bool_decide_eq_false in Hwr; by apply dec_stable. }
  unfold try_write. destruct (sock_write (sk w) data) as [s [n|e]] eqn:Es; cbn.
  - pose proof (sock_write_prefix _ _ _ _ Es) as Hn. rewrite u64_small by lia.
    set (w1 := add_wire (ztake n data) (set_sk s w)).
    assert (A1 : advances w w1 (ztake n data)).
    { destruct I as [IL If Ii Io Ic]. split; cbn; auto; try lia.
      - by split.
      - unfold stream. cbn. by rewrite Hout, !app_nil_r.
      - by apply prefix_app_r. }
    apply safely_bind. eapply safely_mono; [apply queue_safely, A1|].
    intros w' (A2 & Ec & _ & _). cbn. split_and!; [|by rewrite Ec|done|lia|lia|done].
    rewrite <- (app_nil_r (ztake n data)). by eapply advances_trans.
  - split_and!; [|done|lia|done|done|].
    + rewrite ztake_0 by done. destruct I as [IL If Ii Io Ic].
      split; cbn; rewrite ?app_nil_r; auto; try lia. by split.
    + intros Hf. split; [done|]. exists e. rewrite Es. split; [done|].
      apply andb_true_iff in Hf as [_ Hf]. apply orb_true_iff in Hf. rewrite !Z.eqb_eq in Hf. done.
Qed.

(** Everything about an open connection's channel. *)
Lemma open_channel w :
  inv w → open (conn w) = true →
  ∃ ch, get_channel (channel_ (conn w)) (lp w) = Some ch ∧ bound w ch ∧
    has_channel (lp w) (channel_ (conn w)) ∧ isReading ch = true ∧
    isWriting ch = bool_decide (content (outputBuffer_ (conn w)) ≠ []) ∧ mask_ok (events_ ch).
Proof.
  intros I Ho. destruct (iv_channel _ I) as (ch & Hc & Hfd & Hok). exists ch.
  pose proof (loop_inv_mask _ _ _ (iv_loop _ I) Hc).
  unfold open in Ho. by destruct (state_ (conn w)); destruct_and? Hok.
Qed.

(** The invariant of an open connection after a mask change. *)
Lemma inv_updated w ch ev l' :
  0 ≤ sockfd_ (conn w) → Buffer.wf (inputBuffer_ (conn w)) → Buffer.wf (outputBuffer_ (conn w)) →
  open (conn w) = true → bound w ch → has_bit ev kReadEvent = true →
  has_bit ev kWriteEvent = bool_decide (content (outputBuffer_ (conn w)) ≠ []) →
  updated (lp w) (channel_ (conn w)) ch (pushed ev ch) l' →
  inv (set_lp l' w).
Proof.
  intros If Ii Io Ho Hfd Hr Hw U.
  destruct (updated_channel _ _ _ _ _ U) as (ch' & Hg & Hfd' & Hev & _). split; cbn; auto.
  - apply (up_inv _ _ _ _ _ U).
  - exists ch'. split; [done|]. split; [by apply (Hfd' w)|]. cbn.
    pose proof (up_has _ _ _ _ _ U). unfold open in Ho.
    unfold isReading, isWriting. rewrite Hev. by destruct (state_ (conn w)).
Qed.

Lemma open_rank w w' : open (conn w) = true → rank (state_ (conn w)) ≤ rank (state_ (conn w')) →
  state_ (conn w') = kConnected ∨ state_ (conn w') = kDisconnecting ∨ state_ (conn w') = kDisconnected.
Proof. unfold open. destruct (state_ (conn w)), (state_ (conn w')); cbn; try done; auto; lia. Qed.

(** Data that could not be written is queued behind the pending output. *)
Lemma buffer_rest_ok data nwrote remaining w :
  inv w → open (conn w) = true → isInLoopThread (lp w) = true →
  0 ≤ nwrote → remaining = zlen data - nwrote → 0 < remaining → remaining < 2 ^ 63 →
  safely (buffer_rest data nwrote remaining w)
    (λ w', advances w w' (zdrop nwrote data) ∧ state_ (conn w') = state_ (conn w)).
Proof.
  intros I Ho Ht Hn -> Hpos Hlen. unfold buffer_rest. apply safely_bind.
  eapply safely_mono; [by apply queue_safely|]. intros w1 (A1 & Ec & _ & _).
  pose proof (ad_inv _ _ _ A1) as I1. rewrite <- Ec in Ho.
  assert (Ht1 : isInLoopThread (lp w1) = true) by (by rewrite (ad_thread _ _ _ A1)).
  destruct (open_channel w1 I1 Ho) as (ch & Hc & Hfd & Hhas & Hrd & Hwr & Hm).
  assert (Hd : zlen (zdrop nwrote data) = zlen data - nwrote) by (apply zlen_zdrop; zlia).
  apply safely_bind. eapply safely_mono; [apply append_safely; [apply I1|lia|lia]|].
  intros b [Wb Cb]. rewrite ztake_all in Cb by lia.
  assert (Hne : content b ≠ []).
  { rewrite Cb. intros [_ E]%app_eq_nil. rewrite E in Hd. rewrite zlen_nil in Hd. lia. }
  set (w2 := on_conn (set_output b) w1).
  rewrite (the_channel_ok w2 ch) by done. rewrite bind_Ok.
  assert (Hst : stream w2 = stream w1 ++ zdrop nwrote data).
  { unfold stream. cbn. by rewrite Cb, app_assoc. }
  pose proof I1 as [IL If Ii Io Ic].
  destruct (isWriting ch) eqn:Ew; cbn.
  - split; [|by cbn; rewrite Ec]. eapply (advances_trans w w1 w2 [] _ A1). split; cbn; auto; try lia.
    split; cbn; auto. exists ch. split; [done|]. split; cbn; [done|].
    unfold open in Ho. rewrite bool_decide_eq_true_2 by done. by destruct (state_ (conn w1)).
  - eapply safely_mono; [apply (on_channel_mask (enable kWriteEvent) w2 ch); try done; auto|].
    { by apply mask_ok_enable_write. }
    intros w3 (l' & -> & U). split; [|by cbn; rewrite Ec].
    eapply (advances_trans w w1 _ [] _ A1). split; cbn; auto; try lia.
    + destruct (write_keeps_read (events_ ch) Hm) as [Hk _].
      apply (inv_updated w2 ch (enable kWriteEvent (events_ ch))); cbn; auto.
      * by rewrite Hk.
      * by rewrite enable_write_bit, bool_decide_eq_true_2.
    + intros. apply (up_thread _ _ _ _ _ U).
    + apply (up_remove _ _ _ _ _ U).
    + by eapply (reported_updated w2).
Qed.

(** What [sendInLoop] does: all the data is accepted, unless the connection is
    down or the kernel reports a broken peer. *)
Lemma sendInLoop_ok data w :
  inv w → isInLoopThread (lp w) = true → state_ (conn w) ≠ kConnecting → zlen data < 2 ^ 63 →
  safely (sendInLoop data w) (λ w', state_ (conn w') = state_ (conn w) ∧
    ((open (conn w) = true ∧ advances w w' data) ∨
     (advances w w' [] ∧ (state_ (conn w) = kDisconnected ∨ write_fault w data)))).
Proof.
  intros I Ht Hs Hlen. unfold sendInLoop. rewrite assert_thread_ok, bind_Ok by done.
  case_bool_decide as Hd.
  { cbn. split; [done|]. right. split; [by apply advances_refl|by left]. }
  assert (Ho : open (conn w) = true) by (unfold open; by destruct (state_ (conn w))).
  destruct (open_channel w I Ho) as (ch & Hc & _ & _ & _ & Hwr & _).
  rewrite (the_channel_ok _ _ Hc), bind_Ok. pose proof (zlen_nonneg data).
  apply safely_bind. eapply (safely_mono _ (λ '(w1, n, rem, fault),
    advances w w1 (ztake n data) ∧ conn w1 = conn w ∧
    rem = zlen data - n ∧ 0 ≤ n ≤ zlen data ∧ (fault = true → n = 0 ∧ write_fault w data))).
  { destruct (isWriting ch) eqn:Ew; cbn.
    - rewrite ztake_0 by done. split_and!; [by apply advances_refl|done|lia|done|lia|done].
    - case_match; cbn; [by eapply try_write_ok|].
      rewrite ztake_0 by done. split_and!; [by apply advances_refl|done|lia|done|lia|done]. }
  intros [[[w1 n] rem] fault] (A1 & Ec & -> & Hn & Hfault).
  rewrite require_true by bsolve. rewrite bind_Ok.
  destruct fault; cbn.
  - destruct Hfault as [-> Hf]; [done|]. rewrite ztake_0 in A1 by done. rewrite Ec. auto.
  - destruct (Z.ltb_spec 0 (zlen data - n)) as [Hlt|Hge]; cbn.
    + eapply safely_mono; [apply buffer_rest_ok; rewrite ?Ec, ?(ad_thread _ _ _ A1); auto; try lia; apply A1|].
      intros w2 [A2 Es]. rewrite Es, Ec. split; [done|]. left. split; [done|].
      rewrite <- (ztake_zdrop n data). by eapply advances_trans.
    + rewrite Ec. split; [done|]. left. split; [done|]. by rewrite ztake_all in A1 by lia.
Qed.

(** [shutdownInLoop]: the FIN goes out when no output is pending, never before. *)
Lemma shutdownInLoop_ok w :
  inv w → isInLoopThread (lp w) = true →
  ∃ w', shutdownInLoop w = Ok w' ∧ advances w w' [] ∧ conn w' = conn w ∧ wire w' = wire w ∧
    (open (conn w) = true →
     fin w' = fin w || bool_decide (content (outputBuffer_ (conn w)) = [])).
Proof.
  intros I Ht. destruct (iv_channel _ I) as (ch & Hc & _). pose proof I as [IL If Ii Io Ic].
  unfold shutdownInLoop. rewrite assert_thread_ok, bind_Ok, (the_channel_ok _ _ Hc), bind_Ok by done.
  assert (Hwr : open (conn w) = true →
    isWriting ch = bool_decide (content (outputBuffer_ (conn w)) ≠ [])).
  { intros Ho. destruct (open_channel w I Ho) as (ch' & ? & ? & ? & ? & ? & ?). by simplify_eq. }
  destruct (isWriting ch); cbn; eexists; (split; [done|]).
  - split_and!; [by apply advances_refl|done|done|]. intros Ho. specialize (Hwr Ho).
    symmetry in Hwr. apply bool_decide_eq_true in Hwr. rewrite bool_decide_eq_false_2 by done.
    by rewrite orb_false_r.
  - split_and!; [|done|done|].
    + split; cbn; rewrite ?app_nil_r; auto; try lia. by split.
    + intros Ho. specialize (Hwr Ho). symmetry in Hwr. apply bool_decide_eq_false in Hwr.
      rewrite bool_decide_eq_true_2 by (by apply dec_stable). by rewrite orb_true_r.
Qed.

Lemma isWriting_open w ch :
  inv w → get_channel (channel_ (conn w)) (lp w) = Some ch → isWriting ch = true → open (conn w) = true.
Proof.
  intros I Hc Hw. destruct (iv_channel _ I) as (ch' & E & _ & Hok). simplify_eq.
  unfold open, isWriting in *. destruct (state_ (conn w)); try done; destruct Hok as (E & _); by rewrite E in Hw.
Qed.

(** [handleWrite] moves bytes from the output buffer to the wire, in order; when
    the buffer is drained it stops watching for writability, and a connection that
    is shutting down sends its FIN. *)
Lemma handleWrite_ok w :
  inv w → isInLoopThread (lp w) = true →
  safely (handleWrite w) (λ w', advances w w' [] ∧ state_ (conn w') = state_ (conn w) ∧
    (state_ (conn w) = kDisconnecting → content (outputBuffer_ (conn w)) ≠ [] →
     content (outputBuffer_ (conn w')) = [] → fin w' = true)).
Proof.
  intros I Ht. destruct (iv_channel _ I) as (ch & Hc & _). pose proof I as [IL If Ii Io Ic].
  unfold handleWrite. rewrite assert_thread_ok, bind_Ok, (the_channel_ok _ _ Hc), bind_Ok by done.
  destruct (isWriting ch) eqn:Ew; cbn.
  2:{ split_and!; [by apply advances_refl|done|]. intros Hs Hne. exfalso.
      destruct (open_channel w I) as (ch' & ? & ? & ? & ? & Hwr & ?); [unfold open; by rewrite Hs|].
      simplify_eq. by rewrite Ew, bool_decide_eq_true_2 in Hwr. }
  pose proof (isWriting_open _ _ I Hc Ew) as Ho.
  destruct (open_channel w I Ho) as (ch' & ? & Hfd & Hhas & Hrd & Hwr & Hm). simplify_eq.
  rewrite load_all, bind_Ok by done. set (out := content (outputBuffer_ (conn w))) in *.
  assert (Hne : out ≠ []) by (rewrite Ew in Hwr; symmetry in Hwr; by apply bool_decide_eq_true in Hwr).
  assert (Hidle : ∀ s, advances w (set_sk s w) []).
  { intros s. split; cbn; rewrite ?app_nil_r; auto; try lia. by split. }
  destruct (sock_write (sk w) out) as [s [n|e]] eqn:Es; cbn; [|by split_and!].
  pose proof (sock_write_prefix _ _ _ _ Es) as Hn.
  destruct (Z.ltb_spec 0 n) as [Hpos|]; cbn; [|by split_and!].
  destruct (retrieve_spec n (outputBuffer_ (conn w)) Io) as (b & -> & Wb & Cb & _).
  { rewrite <- content_len by done. fold out. lia. }
  cbn. set (w1 := on_conn (set_output b) (add_wire (ztake n out) (set_sk s w))).
  assert (Hst : stream w1 = stream w).
  { unfold stream. cbn. fold out. by rewrite Cb, <- app_assoc, ztake_zdrop. }
  pose proof (content_len b Wb) as EL.
  destruct (Z.eqb_spec (readableBytes b) 0) as [Ez|Hnz].
  - assert (Hb : content b = []) by (apply zlen_zero_nil; lia).
    apply safely_bind.
    eapply safely_mono; [apply (on_channel_mask (disable kWriteEvent) w1 ch); try done; auto|].
    { by apply mask_ok_disable_write. }
    intros w2 (l' & -> & U). set (w2 := set_lp l' w1).
    assert (A2 : advances w w2 []).
    { destruct (write_keeps_read (events_ ch) Hm) as [_ Hk]. split; cbn; rewrite ?app_nil_r; auto; try lia.
      - apply (inv_updated w1 ch (disable kWriteEvent (events_ ch))); cbn; auto.
        + by rewrite Hk.
        + by rewrite disable_write_bit, Hb by done.
      - intros. apply (up_thread _ _ _ _ _ U).
      - apply (up_remove _ _ _ _ _ U).
      - by eapply (reported_updated w1).
      - by apply prefix_app_r. }
    apply safely_bind. eapply safely_mono; [apply queue_safely, A2|].
    intros w3 (A3 & Ec3 & _ & _). pose proof (advances_trans _ _ _ _ _ A2 A3) as A23. cbn in A23.
    destruct (decide (state_ (conn w3) = kDisconnecting)) as [Hs|Hs];
      [rewrite bool_decide_eq_true_2 by done|rewrite bool_decide_eq_false_2 by done].
    + destruct (shutdownInLoop_ok w3) as (w4 & -> & A4 & Ec4 & _ & Hfin).
      { apply A3. } { by rewrite (ad_thread _ _ _ A23). }
      cbn. split_and!; [by apply (advances_trans _ _ _ _ _ A23 A4)|by rewrite Ec4, Ec3|].
      intros _ _ _. rewrite Hfin by (unfold open; by rewrite Hs, orb_true_r).
      rewrite Ec3. cbn. rewrite Hb. by rewrite orb_true_r.
    + cbn. split_and!; [done|by rewrite Ec3|]. rewrite Ec3 in Hs. cbn in Hs. done.
  - cbn. assert (Hb : content b ≠ []) by (intros E; rewrite E, zlen_nil in EL; lia).
    split_and!; [|done|done]. split; cbn; rewrite ?app_nil_r; auto; try lia.
    + split; cbn; auto. exists ch. split; [done|]. split; [done|]. cbn.
      unfold open in Ho. rewrite bool_decide_eq_true_2 by done. by destruct (state_ (conn w)).
    + by apply prefix_app_r.
Qed.
End facts.
