(* ===== verification/TcpConnectionLife.v ===== *)
(** The life of a connection: user callbacks, the channel's handlers, and the path
    from [connectEstablished] to [connectDestroyed] (TcpConnection.cpp). *)
From S2P Require Import Prelude.
From S2P Require Import CurrentThread.
From S2P Require Import StringPiece.
From S2P Require Import Buffer.
From S2P Require Import BufferFacts.
From S2P Require Import Channel.
From S2P Require Import Loop.
From S2P Require Import TcpConnection.
From S2P Require Import TcpConnectionFacts.

(** The obligations of a callback's calls, in a connection whose state is [s] and
    whose input buffer holds [n] bytes: pieces have [int] sizes, [retrieve] does not
    exceed the content, and reading is not restarted once the connection is down. *)
Fixpoint apis_ok (s : StateE) (n : Z) (l : list api) : Prop :=
  match l with
  | [] => True
  | a :: l =>
      match a with
      | ASend d | ASendString d => zlen d < 2 ^ 31 ∧ apis_ok s n l
      | AStartRead => s ≠ kDisconnected ∧ apis_ok s n l
      | ARetrieve k => 0 ≤ k ≤ n ∧ apis_ok s (n - k) l
      | ARetrieveAll | ASendInput => apis_ok s 0 l
      | _ => apis_ok s n l
      end
  end.

Definition calls_ok {Addr} (c : TcpConnection Addr) (l : list api) : Prop :=
  apis_ok (state_ c) (readableBytes (inputBuffer_ c)) l.

(** A user program that meets the obligations in every callback. *)
Record user_ok {Addr} (user : UserCallbacks Addr) : Prop := {
  uo_connection c : Buffer.wf (inputBuffer_ c) → calls_ok c (connectionCallback user c);
  uo_message c : Buffer.wf (inputBuffer_ c) → calls_ok c (messageCallback user c);
  uo_writeComplete c : Buffer.wf (inputBuffer_ c) → calls_ok c (writeCompleteCallback user c);
  uo_highWaterMark c n : Buffer.wf (inputBuffer_ c) → calls_ok c (highWaterMarkCallback user c n)
}.

Section life.
  Context {Addr CB F L : Type} `{!Loop CB F L, !LoopSpec CB F L, !LoopLaws CB F L}.
  Context `{!TcpSocket} `{!ConnEnv CB F L, !ConnEnvLaws CB F L} `{!CurrentThread}.
  Variable user : UserCallbacks Addr.
  Notation W := (World Addr L).
  Implicit Types w : W.

(** What a callback leaves: the connection advanced, no data after the end, and
    the connection is down afterwards only if it was before. *)
Definition kept w w' : Prop :=
  ∃ sent, advances w w' sent ∧ (state_ (conn w) = kDisconnected → sent = []) ∧
          (state_ (conn w') = kDisconnected ↔ state_ (conn w) = kDisconnected).

Lemma kept_refl w : inv w → kept w w.
Proof. intros. exists []. split; [by apply advances_refl|done]. Qed.

Lemma kept_trans w1 w2 w3 : kept w1 w2 → kept w2 w3 → kept w1 w3.
Proof.
  intros (a & A1 & H1 & S1) (b & A2 & H2 & S2). exists (a ++ b). split; [by eapply advances_trans|].
  split; [|tauto]. intros Hs. rewrite H1, H2 by tauto. done.
Qed.

(** Changes of fields that neither the channel nor the stream depends on. *)
Lemma kept_conn w f :
  inv w → channel_ (f (conn w)) = channel_ (conn w) → sockfd_ (f (conn w)) = sockfd_ (conn w) →
  outputBuffer_ (f (conn w)) = outputBuffer_ (conn w) → Buffer.wf (inputBuffer_ (f (conn w))) →
  state_ (f (conn w)) = state_ (conn w) ∨
    (open (conn w) = true ∧ state_ (f (conn w)) = kDisconnecting) →
  kept w (on_conn f w).
Proof.
  intros I E1 E2 E3 Hin Hs. pose proof I as [IL If Ii Io (ch & Hc & Hok)].
  assert (Hok' : channel_ok (on_conn f w) ch).
  { destruct Hok as [Hfd Hst]. split; [unfold bound in *; cbn; by rewrite E2|]. cbn. rewrite E1, E2, E3.
    destruct Hs as [->|[Ho ->]]; [done|]. unfold open in Ho. by destruct (state_ (conn w)). }
  exists []. split.
  - split; cbn; rewrite ?app_nil_r, ?E1, ?E2; auto.
    + split; cbn; rewrite ?E1, ?E2, ?E3; auto. exists ch. done.
    + unfold reported. cbn. by rewrite E1.
    + destruct Hs as [->|[Ho ->]]; [lia|]. unfold open in Ho. by destruct (state_ (conn w)).
    + unfold stream. cbn. by rewrite E3.
  - split; [done|]. cbn. destruct Hs as [->|[Ho ->]]; [done|].
    unfold open in Ho. by destruct (state_ (conn w)).
Qed.

Lemma kept_same_loop w l : inv w → same_loop (lp w) l → kept w (set_lp l w).
Proof. intros. exists []. split; [by apply advances_same_loop|done]. Qed.

Lemma kept_queue f w : inv w → ∃ w', queue f w = Ok w' ∧ kept w w' ∧ conn w' = conn w.
Proof.
  intros I. destruct (queue_ok f w I) as (w' & -> & A & Ec & _). exists w'. split; [done|].
  split; [|done]. exists []. by rewrite Ec.
Qed.

Lemma kept_sendInLoop data w :
  inv w → isInLoopThread (lp w) = true → state_ (conn w) ≠ kConnecting → zlen data < 2 ^ 63 →
  safely (sendInLoop data w) (λ w', kept w w' ∧ state_ (conn w') = state_ (conn w)).
Proof.
  intros I Ht Hs Hlen. eapply safely_mono; [by apply sendInLoop_ok|]. cbn.
  intros w' (Es & Hcase). split; [|done].
  destruct Hcase as [[Ho A]|[A _]]; eexists; (split; [exact A|]); rewrite Es; split; try done.
  unfold open in Ho. by destruct (state_ (conn w)).
Qed.

Lemma sendInLoop_keeps_input data w w' :
  sendInLoop data w = Ok w' → inputBuffer_ (conn w') = inputBuffer_ (conn w).
Proof.
  unfold sendInLoop, try_write, buffer_rest, queue, on_channel. intros H'.
  repeat first
    [ progress inv_ok | progress cbn in *
    | match goal with
      | H : context [sock_write ?s ?d] |- _ => destruct (sock_write s d) as [? []]
      | H : (if ?b then _ else _) ≫= _ = _ |- _ => destruct b
      end ]; done.
Qed.

(** * The calls of a user callback *)
Lemma apis_ok_state s s' n l :
  (s' = kDisconnected ↔ s = kDisconnected) → apis_ok s n l → apis_ok s' n l.
Proof. intros Hs. revert n. induction l as [|[] l IH]; intros n; cbn; naive_solver. Qed.

Lemma kept_state w w' : kept w w' → state_ (conn w) ≠ kConnecting → state_ (conn w') ≠ kConnecting.
Proof.
  intros (a & A & _) Hs E. pose proof (ad_state _ _ _ A) as Hr. rewrite E in Hr. cbn in Hr.
  destruct (state_ (conn w)); cbn in Hr; try done; lia.
Qed.

Lemma kept_thread w w' : kept w w' → isInLoopThread (lp w) = true → isInLoopThread (lp w') = true.
Proof. intros (a & A & _) Ht. by rewrite (ad_thread _ _ _ A). Qed.

Lemma kept_inv w w' : kept w w' → inv w'.
Proof. by intros (a & [] & _). Qed.

Lemma readable_nonneg b : 0 ≤ readableBytes b.
Proof. apply u64_range. Qed.

(** In the loop's thread, [runInLoop] calls at once. *)
Lemma run_in_loop_here f body w : isInLoopThread (lp w) = true → run_in_loop f body w = body w.
Proof. unfold run_in_loop, runInLoop. by intros ->. Qed.

Lemma connected_open c : connected c = true → @open Addr c = true ∧ state_ c = kConnected.
Proof. unfold connected, open. intros H'%bool_decide_eq_true. by rewrite H'. Qed.

Lemma kept_shutdownInLoop w :
  inv w → isInLoopThread (lp w) = true →
  safely (shutdownInLoop w) (λ w', kept w w' ∧ conn w' = conn w).
Proof.
  intros I Ht. destruct (shutdownInLoop_ok w I Ht) as (w' & -> & A & Ec & _ & _). cbn.
  split; [|done]. exists []. by rewrite Ec.
Qed.

(** A call that sends keeps the input and the invariant. *)
Lemma kept_send data w n :
  inv w → isInLoopThread (lp w) = true → state_ (conn w) ≠ kConnecting → zlen data < 2 ^ 31 →
  n ≤ readableBytes (inputBuffer_ (conn w)) →
  safely (send data w) (λ w', kept w w' ∧ n ≤ readableBytes (inputBuffer_ (conn w'))).
Proof.
  intros I Ht Hs Hlen Hn. unfold send. destruct (connected (conn w)).
  - rewrite run_in_loop_here by done.
    pose proof (kept_sendInLoop data w I Ht Hs ltac:(lia)) as Hsafe.
    destruct (sendInLoop data w) as [w'|] eqn:E; cbn in *; [|done].
    destruct Hsafe as [? _]. split; [done|]. by rewrite (sendInLoop_keeps_input _ _ _ E).
  - cbn. split; [by apply kept_refl|done].
Qed.

Lemma kept_mask_read w ch :
  inv w → open (conn w) = true → isInLoopThread (lp w) = true →
  get_channel (channel_ (conn w)) (lp w) = Some ch →
  safely (on_channel enableReading w) (λ w', kept w w' ∧ conn w' = conn w).
Proof.
  intros I Ho Ht Hc. destruct (open_channel w I Ho) as (ch' & E & Hfd & Hhas & Hrd & Hwr & Hm).
  simplify_eq. pose proof I as [IL If Ii Io Ic].
  eapply safely_mono; [apply (on_channel_mask (enable kReadEvent) w ch); try done; auto|].
  { by apply mask_ok_enable_read. }
  intros w' (l' & -> & U). split; [|done]. exists []. split; [|done].
  split; cbn; rewrite ?app_nil_r; auto; try lia.
  - apply (inv_updated w ch (enable kReadEvent (events_ ch))); auto.
    + by apply enable_read_bit.
    + by rewrite enable_read_keeps_write.
  - intros. apply (up_thread _ _ _ _ _ U).
  - apply (up_remove _ _ _ _ _ U).
  - by eapply reported_updated.
Qed.

Lemma kept_startReadInLoop w :
  inv w → isInLoopThread (lp w) = true → open (conn w) = true →
  safely (startReadInLoop w) (λ w', kept w w' ∧
    inputBuffer_ (conn w') = inputBuffer_ (conn w) ∧ state_ (conn w') = state_ (conn w)).
Proof.
  intros I Ht Ho. destruct (iv_channel _ I) as (ch & Hc & _).
  unfold startReadInLoop. rewrite assert_thread_ok, bind_Ok, (the_channel_ok _ _ Hc), bind_Ok by done.
  destruct (_ || _); cbn; [|split_and!; [by apply kept_refl|done|done]].
  apply safely_bind. eapply safely_mono; [by eapply kept_mask_read|]. intros w1 [K Ec]. cbn.
  rewrite Ec. split_and!; [|done|done]. eapply kept_trans; [exact K|].
  apply kept_conn; auto. { by eapply kept_inv. } { apply (iv_input w1). by eapply kept_inv. }
Qed.

Lemma open_cases c : state_ c ≠ kConnecting → state_ c ≠ kDisconnected → @open Addr c = true.
Proof. unfold open. by destruct (state_ c). Qed.

Lemma run_api_ok a l w n :
  inv w → isInLoopThread (lp w) = true → state_ (conn w) ≠ kConnecting →
  apis_ok (state_ (conn w)) n (a :: l) → n ≤ readableBytes (inputBuffer_ (conn w)) →
  ∃ n', apis_ok (state_ (conn w)) n' l ∧
    safely (run_api a w) (λ w', kept w w' ∧ n' ≤ readableBytes (inputBuffer_ (conn w'))).
Proof.
  intros I Ht Hs Hok Hn. pose proof (iv_input _ I) as Wi. destruct a; cbn in *.
  - destruct Hok. exists n. split; [done|]. by apply kept_send.
  - destruct Hok as [Hl Hok]. exists n. split; [done|]. unfold send_string.
    destruct (of_string_view s Hl) as (p & -> & _ & Hv). rewrite bind_Ok, Hv.
    apply kept_send; auto. destruct (until_nul_prefix s) as [t Et].
    assert (zlen s = zlen (until_nul s) + zlen t) by (rewrite Et at 1; apply zlen_app). zlia.
  - exists 0. split; [done|]. unfold send_input. destruct (connected _) eqn:Hc.
    + rewrite Ht, load_all, bind_Ok by done. apply safely_bind.
      eapply safely_mono; [apply kept_sendInLoop; auto|].
      { rewrite content_len by done. destruct Wi as (? & ? & ?). unfold max_vector_size in *.
        rewrite readableBytes_wf by done. lia. }
      intros w1 [K Es]. cbn. split; [|apply readable_nonneg].
      pose proof (kept_inv _ _ K) as I1. eapply kept_trans; [exact K|].
      apply kept_conn; auto. apply retrieveAll_spec, I1.
    + cbn. split; [by apply kept_refl|apply readable_nonneg].
  - exists n. split; [done|]. unfold shutdown. destruct (connected _) eqn:Hc.
    + destruct (connected_open _ Hc) as [Ho _].
      assert (K : kept w (on_conn (setState kDisconnecting) w)) by (apply kept_conn; auto).
      rewrite run_in_loop_here by done.
      eapply safely_mono; [apply kept_shutdownInLoop; [by eapply kept_inv|done]|].
      intros w' [K' Ec]. split; [by eapply kept_trans|]. by rewrite Ec.
    + cbn. split; [by apply kept_refl|done].
  - exists n. split; [done|]. unfold forceClose. destruct (open _) eqn:Ho.
    + assert (K : kept w (on_conn (setState kDisconnecting) w)) by (apply kept_conn; auto).
      destruct (kept_queue FForceCloseInLoop _ (kept_inv _ _ K)) as (w' & -> & K' & Ec). cbn.
      split; [by eapply kept_trans|]. by rewrite Ec.
    + cbn. split; [by apply kept_refl|done].
  - exists n. split; [done|]. unfold forceCloseWithDelay. destruct (open _) eqn:Ho; cbn.
    + assert (K : kept w (on_conn (setState kDisconnecting) w)) by (apply kept_conn; auto).
      split; [|done]. eapply kept_trans; [exact K|]. apply kept_same_loop; [by eapply kept_inv|].
      apply runAfter_law.
    + split; [by apply kept_refl|done].
  - destruct Hok as [Hd Hok]. exists n. split; [done|]. unfold startRead.
    rewrite run_in_loop_here by done.
    eapply safely_mono; [apply kept_startReadInLoop; auto using open_cases|].
    intros w' (K & -> & _). done.
  - destruct Hok as [Hk Hok]. exists (n - len). split; [done|].
    destruct (retrieve_spec len (inputBuffer_ (conn w)) Wi) as (b & -> & Wb & Cb & _); [lia|]. cbn.
    split; [by apply kept_conn; auto|].
    pose proof (content_len b Wb) as E1. rewrite <- E1, Cb. pose proof (content_len _ Wi) as E2.
    rewrite zlen_zdrop; lia.
  - exists 0. split; [done|]. split; [|apply readable_nonneg].
    apply kept_conn; auto. by apply retrieveAll_spec.
  - exists n. split; [done|]. split; [|done]. by apply kept_conn; auto.
  - exists n. split; [done|]. split; [|done]. by apply kept_conn; auto.
Qed.

Lemma run_apis_ok l w n :
  inv w → isInLoopThread (lp w) = true → state_ (conn w) ≠ kConnecting →
  apis_ok (state_ (conn w)) n l → n ≤ readableBytes (inputBuffer_ (conn w)) →
  safely (run_apis l w) (kept w).
Proof.
  revert w n. induction l as [|a l IH]; intros w n I Ht Hs Hok Hn; cbn; [by apply kept_refl|].
  destruct (run_api_ok a l w n) as (n' & Hok' & Hsafe); [done..|].
  apply safely_bind. eapply safely_mono; [exact Hsafe|]. intros w1 [K Hn'].
  eapply safely_mono; [apply (IH w1 n')|].
  - by eapply kept_inv.
  - by eapply kept_thread.
  - by eapply kept_state.
  - eapply apis_ok_state; [|exact Hok']. by destruct K as (a0 & _ & _ & ?).
  - done.
  - intros w2 K2. by eapply kept_trans.
Qed.

(** * The four user callbacks *)
Section with_user.
  Hypothesis Huser : user_ok user.

Lemma calls_safely l w e :
  inv w → isInLoopThread (lp w) = true → state_ (conn w) ≠ kConnecting → calls_ok (conn w) l →
  safely (run_apis l (logged [e] w)) (kept (logged [e] w)).
Proof.
  intros I Ht Hs Hok. eapply run_apis_ok; [by apply inv_logged|done|done|exact Hok|done].
Qed.

Lemma call_connection_ok w :
  inv w → isInLoopThread (lp w) = true → state_ (conn w) ≠ kConnecting →
  safely (call_connection user w) (kept (logged [EvConnection (state_ (conn w))] w)).
Proof. intros I Ht Hs. apply calls_safely; auto. apply uo_connection; [done|]. apply (iv_input _ I). Qed.

Lemma call_message_ok w :
  inv w → isInLoopThread (lp w) = true → state_ (conn w) ≠ kConnecting →
  safely (call_message user w) (kept (logged [EvMessage (content (inputBuffer_ (conn w)))] w)).
Proof. intros I Ht Hs. apply calls_safely; auto. apply uo_message; [done|]. apply (iv_input _ I). Qed.

Lemma call_writeComplete_ok w :
  inv w → isInLoopThread (lp w) = true → state_ (conn w) ≠ kConnecting →
  safely (call_writeComplete user w) (kept (logged [EvWriteComplete] w)).
Proof. intros I Ht Hs. apply calls_safely; auto. apply uo_writeComplete; [done|]. apply (iv_input _ I). Qed.

Lemma call_highWaterMark_ok n w :
  inv w → isInLoopThread (lp w) = true → state_ (conn w) ≠ kConnecting →
  safely (call_highWaterMark user n w) (kept (logged [EvHighWaterMark n] w)).
Proof. intros I Ht Hs. apply calls_safely; auto. apply uo_highWaterMark; [done|]. apply (iv_input _ I). Qed.

(** * Going down *)

(** From open to down: the channel is silenced. *)
Lemma go_down_ok w :
  inv w → isInLoopThread (lp w) = true → open (conn w) = true →
  safely (on_channel disableAll (on_conn (setState kDisconnected) w))
    (λ w', advances w w' [] ∧ state_ (conn w') = kDisconnected).
Proof.
  intros I Ht Ho. destruct (open_channel w I Ho) as (ch & Hc & Hb & Hhas & Hrd & Hwr & Hm).
  pose proof I as [IL If Ii Io Ic].
  eapply safely_mono;
    [apply (on_channel_mask (λ _, kNoneEvent) (on_conn (setState kDisconnected) w) ch); try done; auto|].
  { apply mask_ok_none. }
  intros w' (l' & -> & U). split; [|done].
  destruct (updated_channel (Addr:=Addr) _ _ _ _ _ U) as (ch' & Hg & Hb' & Hev & Hrev).
  split; cbn; rewrite ?app_nil_r; auto; try (destruct (state_ (conn w)); cbn; lia).
  - split; cbn; auto. { apply (up_inv _ _ _ _ _ U). }
    exists ch'. split; [done|]. split; [by apply (Hb' w)|]. cbn.
    split_and!; [done|apply (up_has _ _ _ _ _ U)|].
    destruct Hb as [<- _]. apply (up_quiet _ _ _ _ _ U); [done|done|].
    intros E. unfold isReading in Hrd. by rewrite E in Hrd.
  - intros. apply (up_thread _ _ _ _ _ U).
  - apply (up_remove _ _ _ _ _ U).
  - by eapply (reported_updated (on_conn (setState kDisconnected) w)).
Qed.

(** [handleClose]: DOWN is reported once, then [closeCallback_]; no data follows. *)
Lemma handleClose_ok w :
  inv w → isInLoopThread (lp w) = true → open (conn w) = true →
  safely (handleClose user w) (λ w',
    advances (logged [EvConnection kDisconnected; EvClose] w) w' [] ∧
    state_ (conn w') = kDisconnected).
Proof.
  intros I Ht Ho. unfold handleClose.
  rewrite assert_thread_ok, bind_Ok, require_true, bind_Ok by done.
  apply safely_bind. eapply safely_mono; [by apply go_down_ok|]. intros w1 [A1 Es1].
  apply safely_bind.
  eapply safely_mono; [apply call_connection_ok; [apply A1| |by rewrite Es1]|].
  { by rewrite (ad_thread _ _ _ A1). }
  rewrite Es1. intros w2 (sent & A2 & Hsent & Hst). cbn in Hsent, Hst.
  rewrite (Hsent Es1) in A2. cbn.
  split; [|by apply Hst]. change [EvConnection kDisconnected; EvClose] with ([EvConnection kDisconnected] ++ [EvClose]).
  rewrite <- logged_app.
  assert (A3 : advances (logged [EvConnection kDisconnected] w) w2 []).
  { apply (advances_trans _ (logged [EvConnection kDisconnected] w1) _ [] []); [by apply advances_logged|done]. }
  apply (advances_trans _ (logged [EvClose] w2) _ [] []); [by apply advances_logged|].
  apply (advances_same_loop (logged [EvClose] w2)); [apply inv_logged, A3|apply closeCallback_law].
Qed.

Lemma forceCloseInLoop_ok w :
  inv w → isInLoopThread (lp w) = true →
  safely (forceCloseInLoop user w) (λ w',
    if open (conn w)
    then advances (logged [EvConnection kDisconnected; EvClose] w) w' [] ∧ state_ (conn w') = kDisconnected
    else w' = w).
Proof.
  intros I Ht. unfold forceCloseInLoop. rewrite assert_thread_ok, bind_Ok by done.
  destruct (open (conn w)) eqn:Ho; [by apply handleClose_ok|done].
Qed.

(** [handleRead]: data is appended to the input and reported; the end of the
    stream closes the connection; an error changes nothing. *)
Lemma handleRead_ok w :
  inv w → isInLoopThread (lp w) = true → open (conn w) = true →
  safely (handleRead user w) (λ w',
    match (sock_readv (sk w) (iov_capacity (inputBuffer_ (conn w)))).2 with
    | ReadBytes [] =>
        advances (logged [EvConnection kDisconnected; EvClose] w) w' [] ∧ state_ (conn w') = kDisconnected
    | ReadBytes bs =>
        (∃ sent, advances (logged [EvMessage (content (inputBuffer_ (conn w)) ++ bs)] w) w' sent) ∧
        open (conn w') = true
    | ReadError _ => advances w w' [] ∧ conn w' = conn w
    end).
Proof.
  intros I Ht Ho. pose proof I as [IL If Ii Io Ic]. unfold handleRead.
  rewrite assert_thread_ok, bind_Ok by done.
  assert (Hcap : 0 ≤ iov_capacity (inputBuffer_ (conn w))).
  { unfold iov_capacity. pose proof (u64_range (size (inputBuffer_ (conn w)) - writerIndex_ (inputBuffer_ (conn w)))).
    unfold writableBytes, extrabuf_size. case_match; lia. }
  destruct (sock_readv _ _) as [s [bs|e]] eqn:Es; cbn [snd].
  - pose proof (sock_readv_fits _ _ _ _ Hcap Es) as Hfit.
    apply safely_bind. eapply safely_mono; [by apply readFd_safely|].
    intros [[n o] b] (E & Wb & Cb). cbn in E, Wb, Cb. injection E as -> ->.
    set (w1 := on_conn (set_input b) (set_sk s w)).
    assert (A1 : advances w w1 []).
    { split; cbn; rewrite ?app_nil_r; auto; try lia. by split. }
    destruct bs as [|x bs].
    + cbn. eapply safely_mono; [apply handleClose_ok; [apply A1|done|done]|].
      intros w2 [A2 E2]. split; [|done].
      apply (advances_trans _ (logged [EvConnection kDisconnected; EvClose] w1) _ [] []); [|done].
      by apply advances_logged.
    + rewrite (proj2 (Z.ltb_lt _ _)) by zlia.
      eapply safely_mono; [apply call_message_ok; [apply A1|done|]|].
      { cbn. unfold open in Ho. by destruct (state_ (conn w)). }
      intros w2 (sent & A2 & _ & Hst). cbn in A2, Hst. rewrite Cb in A2. split.
      * exists sent. apply (advances_trans _ (logged [EvMessage (content (inputBuffer_ (conn w)) ++ x :: bs)] w1) _ [] sent);
          [by apply advances_logged|done].
      * pose proof (ad_state _ _ _ A2) as Hr. cbn in Hr. unfold open in *.
        destruct (state_ (conn w)), (state_ (conn w2)); cbn in *; try done; try lia; naive_solver.
  - cbn. split.
    + split; cbn; rewrite ?app_nil_r; auto; try lia. split; cbn; auto.
    + by destruct (conn w).
Qed.
End with_user.
End life.
