(* ===== verification/TcpConnectionRun.v ===== *)
(** What the loop does with a connection: establishing and destroying it, running
    its functors, dispatching its channel's events (TcpConnection.cpp, Channel.cpp). *)
From S2P Require Import Prelude.
From S2P Require Import CurrentThread.
From S2P Require Import StringPiece.
From S2P Require Import Buffer.
From S2P Require Import BufferFacts.
From S2P Require Import Channel.
From S2P Require Import Loop.
From S2P Require Import TcpConnection.
From S2P Require Import TcpConnectionFacts.
From S2P Require Import TcpConnectionLife.

(** The connection's world owns its channel through its loop. *)
#[export] Instance conn_owner {Addr CB F L} `{!Loop CB F L} `{!TcpSocket}
  : ChannelOwner CB (World Addr L) := {
  get_channel c w := get_channel c (lp w);
  put_channel c ch w := set_lp (put_channel c ch (lp w)) w;
  loop_updateChannel _ c w := l ← loop_updateChannel c (lp w); Ok (set_lp l w);
  loop_removeChannel _ c w := l ← loop_removeChannel c (lp w); Ok (set_lp l w)
}.

Section run.
  Context {Addr CB F L : Type} `{!Loop CB F L, !LoopSpec CB F L, !LoopLaws CB F L}.
  Context `{!TcpSocket} `{!ConnEnv CB F L, !ConnEnvLaws CB F L} `{!CurrentThread}.
  Variable user : UserCallbacks Addr.
  Notation W := (World Addr L).
  Implicit Types w : W.

(** Calling what is stored in a channel: a handler of the connection, or some
    other object's business. *)
Definition run_callback (cb : CB) w : outcome W :=
  match decode_handler cb with Some h => run_handler user h w | None => Ok w end.

(** [Channel::handleEvent] of the connection's channel, with the reported events. *)
Definition dispatch_events (revents : Z) w : outcome W :=
  let c := channel_ (conn w) in
  w ← modify c (set_revents revents) w;
  handleEvent run_callback (λ _, true) c w.

Section with_user.
  Hypothesis Huser : user_ok user.

(** * Up *)
Lemma connectEstablished_ok w :
  inv w → isInLoopThread (lp w) = true → state_ (conn w) = kConnecting →
  safely (connectEstablished user w) (λ w',
    ∃ sent, advances (logged [EvConnection kConnected] w) w' sent ∧ open (conn w') = true).
Proof.
  intros I Ht Hs. pose proof I as [IL If Ii Io (ch & Hc & Hb & Hst)]. rewrite Hs in Hst.
  destruct Hst as (Hev & Hadd & Hout). unfold connectEstablished.
  rewrite assert_thread_ok, bind_Ok, require_true, bind_Ok by (try apply bool_decide_eq_true; done).
  set (w1 := on_conn (setState kConnected) w).
  set (ch1 := pushed (enable kReadEvent 0) (tie ch)).
  assert (E : (w ← on_channel (λ c : ChannelPtr, modify c tie) w1; w ← on_channel enableReading w; call_connection user w)
            = (l ← loop_updateChannel (channel_ (conn w)) (put_channel (channel_ (conn w)) ch1 (lp w));
               call_connection user (set_lp l w1))).
  { unfold on_channel, modify, deref. cbn. rewrite Hc. cbn.
    unfold enableReading, update, modify, deref. cbn. rewrite get_put. cbn. rewrite put_put, get_put. cbn.
    rewrite put_put. rewrite Hev. fold ch1. by destruct (loop_updateChannel _ _). }
  rewrite E.
  destruct (loop_update_law (lp w) (channel_ (conn w)) ch ch1) as [->|(l' & -> & U)]; try done; auto.
  { unfold ch1. cbn. right. by left. }
  { by left. }
  cbn. set (w2 := set_lp l' w1).
  assert (I2 : inv w2).
  { destruct (up_get _ _ _ _ _ U) as (ch' & Hg & i & ->). split; cbn; auto.
    - apply (up_inv _ _ _ _ _ U).
    - eexists. split; [exact Hg|]. split; [done|]. cbn.
      split_and!; [apply (up_has _ _ _ _ _ U)|done|].
      rewrite bool_decide_eq_false_2; [done|]. intros []. exact Hout. }
  assert (A2 : advances w w2 []).
  { split; cbn; rewrite ?app_nil_r, ?Hs; auto; try done.
    - intros. apply (up_thread _ _ _ _ _ U).
    - apply (up_remove _ _ _ _ _ U).
    - unfold reported. cbn. destruct (up_get _ _ _ _ _ U) as (ch' & -> & i & ->). by rewrite Hc. }
  eapply safely_mono; [apply call_connection_ok; [done|exact I2| |done]|].
  { by rewrite (ad_thread _ _ _ A2). }
  intros w3 (sent & A3 & _ & Hst). cbn in A3, Hst. exists sent. split.
  - apply (advances_trans _ (logged [EvConnection kConnected] w2) _ [] sent); [by apply advances_logged|done].
  - pose proof (ad_state _ _ _ A3) as Hr. cbn in Hr. unfold open.
    destruct (state_ (conn w3)); cbn in *; try done; naive_solver.
Qed.

(** * Out of the loop *)

(** What is left after [connectDestroyed]: the object can be deleted. *)
Definition destroyed w : Prop :=
  state_ (conn w) = kDisconnected ∧ loop_inv (lp w) ∧ ¬ has_channel (lp w) (channel_ (conn w)) ∧
  ∃ ch, get_channel (channel_ (conn w)) (lp w) = Some ch ∧ events_ ch = 0 ∧ addedToLoop_ ch = false.

Lemma remove_down w :
  inv w → isInLoopThread (lp w) = true → state_ (conn w) = kDisconnected →
  can_remove (lp w) (channel_ (conn w)) →
  ∃ w', on_channel remove w = Ok w' ∧ destroyed w' ∧ conn w' = conn w ∧ wire w' = wire w ∧
        trace w' = trace w.
Proof.
  intros I Ht Hs Hrem. pose proof I as [IL If Ii Io (ch & Hc & [Hfd Hb] & Hst)]. rewrite Hs in Hst.
  destruct Hst as (Hev & Hhas & Hw). rewrite <- Hfd in Hw. unfold on_channel.
  destruct (remove_spec (lp w) (channel_ (conn w)) ch) as (l' & -> & R); auto.
  eexists. cbn. split; [done|]. split_and!; try done.
  split; [done|]. destruct (rm_get _ _ _ _ _ R) as (ch' & Hg & i & ->). cbn.
  split_and!; [apply (rm_inv _ _ _ _ _ R)|apply (rm_has _ _ _ _ _ R)|].
  eexists. split; [exact Hg|]. done.
Qed.

Lemma connectDestroyed_ok w :
  inv w → isInLoopThread (lp w) = true →
  state_ (conn w) = kConnected ∨ state_ (conn w) = kDisconnected →
  can_remove (lp w) (channel_ (conn w)) →
  safely (connectDestroyed user w) (λ w', destroyed w' ∧ stream w' = stream w ∧
    trace w' = trace w ++ (if bool_decide (state_ (conn w) = kConnected)
                           then [EvConnection kDisconnected] else [])).
Proof.
  intros I Ht Hs Hrem. unfold connectDestroyed. rewrite assert_thread_ok, bind_Ok by done.
  destruct Hs as [Hs|Hs].
  - rewrite bool_decide_eq_true_2 by done. apply safely_bind, safely_bind.
    eapply safely_mono; [apply go_down_ok; auto; unfold open; by rewrite Hs|].
    intros w1 [A1 Es1].
    eapply safely_mono; [apply call_connection_ok; [done|apply A1| |by rewrite Es1]|].
    { by rewrite (ad_thread _ _ _ A1). }
    rewrite Es1. intros w2 (sent & A2 & Hsent & Hst). cbn in Hsent, Hst. rewrite (Hsent Es1) in A2.
    destruct (remove_down w2) as (w3 & -> & D & Ec & Ew & Et).
    { apply A2. } { by rewrite (ad_thread _ _ _ A2), <- (ad_thread _ _ _ A1) in *. }
    { by apply Hst. }
    { rewrite (ad_channel _ _ _ A2). cbn. rewrite (ad_channel _ _ _ A1).
      apply (ad_remove _ _ _ A2). by apply (ad_remove _ _ _ A1). }
    cbn. split_and!; [done| |].
    + assert (stream w3 = stream w2) as -> by (unfold stream; by rewrite Ec, Ew).
      rewrite (ad_stream _ _ _ A2), app_nil_r. change (stream w1 = stream w).
      rewrite (ad_stream _ _ _ A1). apply app_nil_r.
    + rewrite Et, (ad_trace _ _ _ A2). cbn. by rewrite (ad_trace _ _ _ A1).
  - rewrite bool_decide_eq_false_2, bind_Ok by congruence.
    destruct (remove_down w) as (w3 & -> & D & Ec & Ew & Et); auto. cbn.
    split_and!; [done| |by rewrite app_nil_r]. unfold stream. by rewrite Ec, Ew.
Qed.

(** A connection that is shutting down cannot be destroyed: its channel is still
    watched, and [Channel::remove] asserts that it is not. *)
Lemma connectDestroyed_while_disconnecting w :
  inv w → isInLoopThread (lp w) = true → state_ (conn w) = kDisconnecting →
  connectDestroyed user w = Fail AssertFailure.
Proof.
  intros I Ht Hs. unfold connectDestroyed. rewrite assert_thread_ok, bind_Ok by done.
  rewrite bool_decide_eq_false_2, bind_Ok by congruence.
  destruct (open_channel w I) as (ch & Hc & _ & _ & Hrd & _ & Hm); [unfold open; by rewrite Hs|].
  unfold on_channel, remove, deref. rewrite Hc. cbn.
  replace (isNoneEvent ch) with false; [done|]. unfold isNoneEvent, isReading in *.
  by destruct Hm as [E|[E|[E|E]]]; rewrite E in *.
Qed.

(** * The ledger of connection callbacks

    [connectionCallback_] is called when the connection comes up and when it goes
    down, once each; the state says which calls have been made. *)
Definition is_connection (e : event) : bool :=
  match e with EvConnection _ => true | _ => false end.
Definition connection_events (t : list event) : list event := List.filter is_connection t.

Definition calls_of (s : StateE) : list event :=
  match s with
  | kConnecting => []
  | kConnected | kDisconnecting => [EvConnection kConnected]
  | kDisconnected => [EvConnection kConnected; EvConnection kDisconnected]
  end.

(** [w'] is reached from [w]: the callbacks called meanwhile fit the states. *)
Definition progress w w' : Prop :=
  ∃ evs sent, advances (logged evs w) w' sent ∧
    calls_of (state_ (conn w)) ++ connection_events evs = calls_of (state_ (conn w')).

Lemma logged_nil w : logged [] w = w.
Proof. unfold logged. rewrite app_nil_r. by destruct w. Qed.

Lemma progress_intro evs sent w w' :
  advances (logged evs w) w' sent →
  calls_of (state_ (conn w)) ++ connection_events evs = calls_of (state_ (conn w')) → progress w w'.
Proof. intros. by exists evs, sent. Qed.

Lemma progress_plain sent w w' :
  advances w w' sent → calls_of (state_ (conn w)) = calls_of (state_ (conn w')) → progress w w'.
Proof. intros A E. exists [], sent. by rewrite logged_nil, app_nil_r. Qed.

Lemma progress_trans w1 w2 w3 : progress w1 w2 → progress w2 w3 → progress w1 w3.
Proof.
  intros (e1 & s1 & A1 & C1) (e2 & s2 & A2 & C2). exists (e1 ++ e2), (s1 ++ s2). split.
  - rewrite <- logged_app. eapply advances_trans; [|exact A2]. by apply advances_logged.
  - unfold connection_events in *. rewrite List.filter_app, app_assoc, C1. done.
Qed.

Lemma kept_calls w w' :
  kept w w' → state_ (conn w) ≠ kConnecting → calls_of (state_ (conn w)) = calls_of (state_ (conn w')).
Proof.
  intros K Hs. pose proof (kept_state _ _ K Hs) as Hs'. destruct K as (a & _ & _ & Hd).
  destruct (state_ (conn w)), (state_ (conn w')); cbn; try done; naive_solver.
Qed.

Lemma progress_kept evs w w' :
  kept (logged evs w) w' → state_ (conn w) ≠ kConnecting → connection_events evs = [] → progress w w'.
Proof.
  intros K Hs He. pose proof (kept_calls _ _ K Hs) as E. destruct K as (a & A & _).
  exists evs, a. split; [done|]. by rewrite He, app_nil_r.
Qed.

Lemma progress_inv w w' : progress w w' → inv w'.
Proof. by intros (? & ? & [] & _). Qed.

Lemma progress_thread w w' :
  progress w w' → isInLoopThread (lp w) = true → isInLoopThread (lp w') = true.
Proof. intros (? & ? & A & _) Ht. by rewrite (ad_thread _ _ _ A). Qed.

Lemma progress_down w w' :
  advances (logged [EvConnection kDisconnected; EvClose] w) w' [] → open (conn w) = true →
  state_ (conn w') = kDisconnected → progress w w'.
Proof.
  intros A Ho Hs. eapply progress_intro; [exact A|]. rewrite Hs.
  unfold open in Ho. by destruct (state_ (conn w)).
Qed.

(** * The functors *)

(** When running a functor is safe: what was true when it was queued and stays. *)
Definition functor_ok (f : functor) w : Prop :=
  match f with
  | FSendInLoop d => state_ (conn w) ≠ kConnecting ∧ zlen d < 2 ^ 63
  | FStartReadInLoop => open (conn w) = true
  | FConnectEstablished => state_ (conn w) = kConnecting
  | FConnectDestroyed => False
  | _ => state_ (conn w) ≠ kConnecting
  end.

Lemma open_calls c : @open Addr c = true → calls_of (state_ c) = [EvConnection kConnected].
Proof. unfold open. by destruct (state_ c). Qed.

Lemma run_functor_ok f w :
  inv w → isInLoopThread (lp w) = true → functor_ok f w → safely (run_functor user f w) (progress w).
Proof.
  intros I Ht Hf. destruct f; cbn in *.
  - destruct Hf as [Hs Hl]. eapply safely_mono; [by apply kept_sendInLoop|].
    intros w' [K _]. apply (progress_kept []); [by rewrite logged_nil|done|done].
  - eapply safely_mono; [by apply kept_shutdownInLoop|].
    intros w' [K _]. apply (progress_kept []); [by rewrite logged_nil|done|done].
  - eapply safely_mono; [by apply forceCloseInLoop_ok|]. intros w'. cbn.
    destruct (open (conn w)) eqn:Ho.
    + intros [A Es]. by apply progress_down.
    + intros ->. apply (progress_kept []); [rewrite logged_nil; by apply kept_refl|done|done].
  - unfold forceClose. destruct (open (conn w)) eqn:Ho.
    + assert (K : kept w (on_conn (setState kDisconnecting) w)) by (apply kept_conn; auto; apply I).
      destruct (kept_queue FForceCloseInLoop _ (kept_inv _ _ K)) as (w' & -> & K' & _). cbn.
      apply (progress_kept []); [rewrite logged_nil; by eapply kept_trans|done|done].
    + cbn. apply (progress_kept []); [rewrite logged_nil; by apply kept_refl|done|done].
  - eapply safely_mono; [by apply kept_startReadInLoop|].
    intros w' (K & _ & _). apply (progress_kept []); [by rewrite logged_nil| |done].
    unfold open in Hf. by destruct (state_ (conn w)).
  - eapply safely_mono; [by apply call_writeComplete_ok|]. intros w' K. by eapply progress_kept.
  - eapply safely_mono; [by apply call_highWaterMark_ok|]. intros w' K. by eapply progress_kept.
  - eapply safely_mono; [by apply connectEstablished_ok|]. intros w' (sent & A & Ho).
    eapply progress_intro; [exact A|]. by rewrite Hf, (open_calls _ Ho).
  - done.
Qed.

(** * The events of the channel *)

(** Changing what the poller and the connection do not look at. *)
Lemma touch_ok w ch ch' :
  inv w → get_channel (channel_ (conn w)) (lp w) = Some ch →
  fd_ ch' = fd_ ch → index_ ch' = index_ ch → events_ ch' = events_ ch →
  readCallback_ ch' = readCallback_ ch → writeCallback_ ch' = writeCallback_ ch →
  closeCallback_ ch' = closeCallback_ ch → errorCallback_ ch' = errorCallback_ ch →
  let w' := set_lp (put_channel (channel_ (conn w)) ch' (lp w)) w in
  inv w' ∧ (revents_ ch' = revents_ ch → advances w w' []) ∧ isInLoopThread (lp w') = isInLoopThread (lp w).
Proof.
  intros I Hc E1 E2 E3 E4 E5 E6 E7. pose proof (loop_put_law _ _ _ ch' (iv_loop _ I) Hc E1 E2 E3) as T.
  assert (I' : inv (set_lp (put_channel (channel_ (conn w)) ch' (lp w)) w)).
  { destruct I as [IL If Ii Io (ch0 & Hc0 & Hb & Hst)]. simplify_eq.
    split; cbn; auto; [apply (to_inv _ _ _ _ T)|]. exists ch'.
    split; [apply (to_get _ _ _ _ T)|]. split.
    - unfold bound in *. cbn. by rewrite E1, E4, E5, E6, E7.
    - cbn. unfold isReading, isWriting in *. rewrite E3. destruct (state_ (conn w)).
      + destruct Hst as (? & ? & ?). split_and!; [done|by apply (to_has _ _ _ _ T)|by rewrite (to_watched _ _ _ _ T)].
      + destruct Hst as (? & ? & ?). split_and!; [done|by apply (to_add _ _ _ _ T)|done].
      + destruct Hst as (? & ? & ?). split_and!; [by apply (to_has _ _ _ _ T)|done|done].
      + destruct Hst as (? & ? & ?). split_and!; [by apply (to_has _ _ _ _ T)|done|done]. }
  cbn. split_and!; [done| |apply (to_thread _ _ _ _ T)].
  intros Er. split; cbn; rewrite ?app_nil_r; auto; try lia.
  - intros. apply (to_thread _ _ _ _ T).
  - apply (to_remove _ _ _ _ T).
  - unfold reported. cbn. rewrite (to_get _ _ _ _ T), Hc. cbn. by rewrite Er.
Qed.

Lemma modify_world f w ch :
  get_channel (channel_ (conn w)) (lp w) = Some ch →
  modify (channel_ (conn w)) f w = Ok (set_lp (put_channel (channel_ (conn w)) (f ch) (lp w)) w).
Proof. intros Hc. unfold modify, deref. cbn. by rewrite Hc. Qed.

Lemma progress_channel w w' : progress w w' → channel_ (conn w') = channel_ (conn w).
Proof. intros (? & ? & A & _). apply (ad_channel _ _ _ A). Qed.

Lemma progress_reported w w' : progress w w' → reported w' = reported w.
Proof. intros (? & ? & A & _). apply (ad_reported _ _ _ A). Qed.

Lemma progress_refl w : inv w → progress w w.
Proof. intros I. apply (progress_plain []); [by apply advances_refl|done]. Qed.

Lemma progress_not_connecting w w' :
  progress w w' → state_ (conn w) ≠ kConnecting → state_ (conn w') ≠ kConnecting.
Proof.
  intros (? & ? & A & _) Hs E. pose proof (ad_state _ _ _ A) as Hr. rewrite E in Hr. cbn in Hr.
  destruct (state_ (conn w)); cbn in Hr; try done; lia.
Qed.

Lemma handleWrite_progress w :
  inv w → isInLoopThread (lp w) = true → safely (handleWrite w) (progress w).
Proof.
  intros I Ht. eapply safely_mono; [by apply handleWrite_ok|]. intros w' (A & Es & _).
  apply (progress_plain []); [done|by rewrite Es].
Qed.

Lemma handleClose_progress w :
  inv w → isInLoopThread (lp w) = true → open (conn w) = true → safely (handleClose user w) (progress w).
Proof.
  intros I Ht Ho. eapply safely_mono; [by apply handleClose_ok|]. intros w' (A & Es).
  by apply progress_down.
Qed.

Lemma handleRead_progress w :
  inv w → isInLoopThread (lp w) = true → open (conn w) = true → safely (handleRead user w) (progress w).
Proof.
  intros I Ht Ho. eapply safely_mono; [by apply handleRead_ok|]. intros w'.
  destruct (sock_readv _ _) as [s [[|x bs]|e]]; cbn.
  - intros [A Es]. by apply progress_down.
  - intros [[sent A] Ho']. eapply progress_intro; [exact A|]. by rewrite (open_calls _ Ho), (open_calls _ Ho').
  - intros [A Ec]. apply (progress_plain []); [done|by rewrite Ec].
Qed.

Lemma open_not_connecting c : @open Addr c = true → state_ c ≠ kConnecting.
Proof. unfold open. by destruct (state_ c). Qed.

(** The world in which the poller has reported [r] for the connection's channel. *)
Definition with_reported (r : Z) (ch : Channel CB) w : W :=
  set_lp (put_channel (channel_ (conn w)) (set_revents r ch) (lp w)) w.

(** Handlers that preserve [P] make a dispatch that preserves it.  The connection may be a part of
    something larger: [embed] puts its world into a [V] whose channels are those of the loop. *)
Section guarded.
  Context {V : Type} `{OV : !ChannelOwner CB V}.
  Variable embed : W → V.
  Variable callback : CB → V → outcome V.
  Hypothesis embed_get : ∀ c w, get_channel c (embed w) = get_channel c (lp w).
  Hypothesis embed_put : ∀ c ch w, put_channel c ch (embed w) = embed (set_lp (put_channel c ch (lp w)) w).
  Hypothesis embed_call : ∀ h w, callback (bind_handler h) (embed w) = (w ← run_handler user h w; Ok (embed w)).

  Variable P : W → Prop.
  Hypothesis P_touch : ∀ ch ch' w, get_channel (channel_ (conn w)) (lp w) = Some ch → fd_ ch' = fd_ ch → P w →
    P (set_lp (put_channel (channel_ (conn w)) ch' (lp w)) w).
  Hypothesis P_close : ∀ w, inv w → isInLoopThread (lp w) = true → open (conn w) = true → P w →
    safely (handleClose user w) (λ w', progress w w' ∧ P w').
  Hypothesis P_read : ∀ w, inv w → isInLoopThread (lp w) = true → open (conn w) = true → P w →
    safely (handleRead user w) (λ w', progress w w' ∧ P w').
  Hypothesis P_write : ∀ w, inv w → isInLoopThread (lp w) = true → P w →
    safely (handleWrite w) (λ w', progress w w' ∧ P w').

(** Where a part of the dispatch of [w] has come to. *)
Definition embedded w (v : V) : Prop := ∃ w', v = embed w' ∧ progress w w' ∧ P w'.

Lemma modify_embed f w ch :
  get_channel (channel_ (conn w)) (lp w) = Some ch →
  modify (channel_ (conn w)) f (embed w) = Ok (embed (set_lp (put_channel (channel_ (conn w)) (f ch) (lp w)) w)).
Proof. intros Hc. unfold modify, deref. rewrite embed_get, Hc. cbn. by rewrite embed_put. Qed.

(** A flag of the channel that nobody else reads. *)
Lemma flag_progress v w :
  inv w → P w → ∃ w', modify (channel_ (conn w)) (set_eventHandling v) (embed w) = Ok (embed w') ∧ progress w w' ∧
                conn w' = conn w ∧ P w'.
Proof.
  intros I HP. destruct (iv_channel _ I) as (ch & Hc & _). rewrite (modify_embed _ _ _ Hc).
  destruct (touch_ok w ch (set_eventHandling v ch) I Hc) as (_ & A & _); try done.
  eexists. split; [done|]. split; [|split; [done|by eapply P_touch]]. by apply (progress_plain [] _ _ (A eq_refl)).
Qed.

(** One of the four tests of [handleEventWithGuard]. *)
Lemma dispatch_one revents fires slot h w :
  inv w → reported w = Some revents → (∀ ch, bound w ch → slot ch = Some (bind_handler h)) →
  dispatch callback (channel_ (conn w)) fires slot (embed w) =
  if fires revents then w ← run_handler user h w; Ok (embed w) else Ok (embed w).
Proof.
  intros I Hr Hslot. destruct (iv_channel _ I) as (ch & Hc & Hb & _).
  unfold reported in Hr. rewrite Hc in Hr. injection Hr as Hr.
  unfold dispatch, deref. rewrite embed_get, Hc. cbn. rewrite Hr, (Hslot ch Hb). cbn. by rewrite embed_call.
Qed.

(** The test and the handler that keeps [P]. *)
Lemma dispatch_step revents fires slot h w (ok : W → Prop) :
  inv w → reported w = Some revents → (∀ ch, bound w ch → slot ch = Some (bind_handler h)) → P w →
  (fires revents = true → safely (run_handler user h w) (λ w', progress w w' ∧ P w' ∧ ok w')) →
  (fires revents = false → ok w) →
  safely (dispatch callback (channel_ (conn w)) fires slot (embed w))
    (λ v, ∃ w', v = embed w' ∧ progress w w' ∧ P w' ∧ ok w').
Proof.
  intros I Hr Hslot HP Hrun Hskip. rewrite (dispatch_one revents fires slot h w I Hr Hslot).
  destruct (fires revents) eqn:E.
  - apply safely_bind. eapply safely_mono; [by apply Hrun|]. intros w' (? & ? & ?). by exists w'.
  - exists w. split_and!; auto. by apply progress_refl.
Qed.

(** [handleEventWithGuard] runs the connection's handlers in order. *)
Lemma guarded_with r w :
  inv w → isInLoopThread (lp w) = true → open (conn w) = true → P w → reported w = Some r →
  close_fires r = false ∨ read_fires r = false →
  safely (handleEventWithGuard callback (channel_ (conn w)) (embed w)) (embedded w).
Proof.
  intros I Ht Ho HP Hr Hex. unfold handleEventWithGuard.
  destruct (flag_progress true w I HP) as (w1 & -> & P1 & Ec1 & HP1). rewrite bind_Ok.
  rewrite <- (progress_channel _ _ P1). pose proof (progress_inv _ _ P1) as I1.
  pose proof (progress_reported _ _ P1) as R1. rewrite Hr in R1.
  apply safely_bind. eapply safely_mono.
  { apply (dispatch_step r close_fires closeCallback_ HandleClose w1 (λ w2, close_fires r = false → open (conn w2) = true));
      auto; [by intros ? (? & ? & ? & ? & ?)| |by rewrite Ec1].
    intros E. eapply safely_mono; [apply P_close; auto; [by eapply progress_thread|by rewrite Ec1]|].
    intros w2 [? ?]. split_and!; [done|done|congruence]. }
  intros v2 (w2 & -> & P2 & HP2 & Ho2). rewrite <- (progress_channel _ _ P2). pose proof (progress_inv _ _ P2) as I2.
  pose proof (progress_reported _ _ P2) as R2. rewrite R1 in R2.
  apply safely_bind. eapply safely_mono.
  { apply (dispatch_step r error_fires errorCallback_ HandleError w2 (λ w3, conn w3 = conn w2));
      auto; [by intros ? (? & ? & ? & ? & ?)|]. intros _. cbn. split_and!; [by apply progress_refl|done|done]. }
  intros v3 (w3 & -> & P3 & HP3 & Ec3). rewrite <- (progress_channel _ _ P3). pose proof (progress_inv _ _ P3) as I3.
  pose proof (progress_reported _ _ P3) as R3. rewrite R2 in R3.
  pose proof (progress_trans _ _ _ (progress_trans _ _ _ P1 P2) P3) as P13.
  apply safely_bind. eapply safely_mono.
  { apply (dispatch_step r read_fires readCallback_ HandleRead w3 (λ _, True)); auto; [by intros ? (? & ? & ? & ? & ?)|].
    intros E. eapply safely_mono; [apply P_read; auto; [by eapply progress_thread|]|by intros w4 [? ?]].
    rewrite Ec3. apply Ho2. destruct Hex; congruence. }
  intros v4 (w4 & -> & P4 & HP4 & _). rewrite <- (progress_channel _ _ P4). pose proof (progress_inv _ _ P4) as I4.
  pose proof (progress_reported _ _ P4) as R4. rewrite R3 in R4. pose proof (progress_trans _ _ _ P13 P4) as P14.
  apply safely_bind. eapply safely_mono.
  { apply (dispatch_step r write_fires writeCallback_ HandleWrite w4 (λ _, True)); auto; [by intros ? (? & ? & ? & ? & ?)|].
    intros E. eapply safely_mono; [apply P_write; auto; by eapply progress_thread|by intros w5 [? ?]]. }
  intros v5 (w5 & -> & P5 & HP5 & _). rewrite <- (progress_channel _ _ P5).
  destruct (flag_progress false w5) as (w6 & -> & P6 & _ & HP6); [by eapply progress_inv|done|]. cbn.
  exists w6. split_and!; [done| |done]. eapply progress_trans; [exact P14|]. by eapply progress_trans.
Qed.

Lemma handleEvent_with r w (tie_alive : V → bool) :
  inv w → isInLoopThread (lp w) = true → open (conn w) = true → P w → reported w = Some r →
  close_fires r = false ∨ read_fires r = false → tie_alive (embed w) = true →
  safely (handleEvent callback tie_alive (channel_ (conn w)) (embed w)) (embedded w).
Proof.
  intros I Ht Ho HP Hr Hex Hta. unfold handleEvent, deref. rewrite embed_get.
  destruct (iv_channel _ I) as (ch & Hc & _). rewrite Hc. cbn. rewrite Hta.
  destruct (tied_ ch); by apply (guarded_with r).
Qed.
End guarded.

Section dispatching.
  Variable P : W → Prop.
  Hypothesis P_loop : ∀ l w, P w → P (set_lp l w).
  Hypothesis P_close : ∀ w, inv w → isInLoopThread (lp w) = true → open (conn w) = true → P w →
    safely (handleClose user w) (λ w', progress w w' ∧ P w').
  Hypothesis P_read : ∀ w, inv w → isInLoopThread (lp w) = true → open (conn w) = true → P w →
    safely (handleRead user w) (λ w', progress w w' ∧ P w').
  Hypothesis P_write : ∀ w, inv w → isInLoopThread (lp w) = true → P w →
    safely (handleWrite w) (λ w', progress w w' ∧ P w').

Lemma dispatch_events_with r w ch :
  inv w → isInLoopThread (lp w) = true → open (conn w) = true → P w →
  get_channel (channel_ (conn w)) (lp w) = Some ch →
  close_fires r = false ∨ read_fires r = false →
  safely (dispatch_events r w) (λ w', progress (with_reported r ch w) w' ∧ P w').
Proof.
  intros I Ht Ho HP Hc Hex. unfold dispatch_events. rewrite (modify_world _ _ _ Hc), bind_Ok.
  fold (with_reported r ch w).
  destruct (touch_ok w ch (set_revents r ch) I Hc) as (I1 & _ & Ht1); try done.
  fold (with_reported r ch w) in I1, Ht1.
  assert (HP1 : P (with_reported r ch w)) by (by apply P_loop).
  change (channel_ (conn w)) with (channel_ (conn (with_reported r ch w))).
  eapply safely_mono; [apply (handleEvent_with id run_callback) with (P := P) (r := r); try done|].
  - intros h w0. unfold run_callback, id. rewrite decode_bind. by destruct (run_handler user h w0).
  - intros. by apply P_loop.
  - by rewrite Ht1.
  - unfold reported. cbn. by rewrite get_put.
  - by intros w' (w2 & -> & ?).
Qed.
End dispatching.

Lemma dispatch_events_ok r w ch :
  inv w → isInLoopThread (lp w) = true → open (conn w) = true →
  get_channel (channel_ (conn w)) (lp w) = Some ch →
  close_fires r = false ∨ read_fires r = false →
  safely (dispatch_events r w) (progress (with_reported r ch w)).
Proof.
  intros I Ht Ho Hc Hex.
  eapply safely_mono; [apply (dispatch_events_with (λ _, True)); try done|by intros w' [? _]].
  - intros. eapply safely_mono; [by apply handleClose_progress|done].
  - intros. eapply safely_mono; [by apply handleRead_progress|done].
  - intros. eapply safely_mono; [by apply handleWrite_progress|done].
Qed.

(** * Whole lives *)

(** A turn of the loop, as the connection sees it: one of its functors, an event of
    its channel, or something that concerns the loop only. *)
Inductive turn : W → W → Prop :=
| turn_functor f w w' :
    functor_ok f w → run_functor user f w = Ok w' → turn w w'
| turn_events r w w' :
    open (conn w) = true → close_fires r = false ∨ read_fires r = false →
    dispatch_events r w = Ok w' → turn w w'
| turn_elsewhere w l : same_loop (lp w) l → turn w (set_lp l w).

Record alive w : Prop := {
  al_inv : inv w;
  al_thread : isInLoopThread (lp w) = true;
  al_ledger : connection_events (trace w) = calls_of (state_ (conn w))
}.

Lemma progress_alive w w' : alive w → progress w w' → alive w'.
Proof.
  intros [I Ht Hl] P. split; [by eapply progress_inv|by eapply progress_thread|].
  destruct P as (evs & sent & A & E). rewrite (ad_trace _ _ _ A). cbn.
  unfold connection_events in *. by rewrite List.filter_app, Hl.
Qed.

Lemma alive_reported r ch w :
  alive w → get_channel (channel_ (conn w)) (lp w) = Some ch → alive (with_reported r ch w).
Proof.
  intros [I Ht Hl] Hc. destruct (touch_ok w ch (set_revents r ch) I Hc) as (I1 & _ & Ht1); try done.
  split; [done|unfold with_reported; by rewrite Ht1|done].
Qed.

Lemma turn_alive w w' : alive w → turn w w' → alive w'.
Proof.
  intros Ha Hturn. pose proof Ha as [I Ht _]. destruct Hturn as [f w w' Hf E|r w w' Ho Hex E|w l S].
  - eapply progress_alive; [done|]. eapply safely_ok; [exact E|]. by apply run_functor_ok.
  - destruct (iv_channel _ I) as (ch & Hc & _). apply (progress_alive (with_reported r ch w)).
    + by apply alive_reported.
    + eapply safely_ok; [exact E|]. by apply dispatch_events_ok.
  - eapply progress_alive; [done|]. apply (progress_plain []); [by apply advances_same_loop|done].
Qed.

(** A connection that was just constructed. *)
Lemma new_connection_alive name fd chan (a1 a2 : Addr) (l : L) (s : sock) :
  loop_inv l → isInLoopThread l = true → get_channel chan l = None → fd_free l fd → 0 ≤ fd →
  ∃ c ch, new_TcpConnection name fd chan a1 a2 = Ok (c, ch) ∧
    alive (mkWorld c (put_channel chan ch l) s [] false []) ∧ state_ c = kConnecting.
Proof.
  intros Hl Ht Hc Hfree Hfd. unfold new_TcpConnection.
  destruct (new_buffer_spec kInitialSize) as (b & -> & Wb & Cb & _); [done|]. cbn.
  do 2 eexists. split; [done|]. split; [|done].
  match goal with |- alive (mkWorld _ (put_channel _ ?x _) _ _ _ _) =>
    pose proof (loop_new_law l chan x Hl Hc eq_refl eq_refl) as C end.
  split; cbn; [|by rewrite (cr_thread _ _ _ _ C)|done].
  split; cbn; auto.
  - apply (cr_inv _ _ _ _ C).
  - eexists. split; [apply (cr_get _ _ _ _ C)|]. split; [done|]. cbn.
    split_and!; [done|apply (cr_add _ _ _ _ C); done|done].
Qed.
End with_user.
End run.
