(* ===== verification/Socket.v ===== *)
(** A descriptor that is closed when its object goes: networker/net/Socket.h and Socket.cpp.

    The object is its [sockfd_]; the operations go to SocketsOps.v and the system calls.  The text
    of the kernel's [tcp_info] is here too. *)
From S2P Require Import Prelude.
From S2P Require Import Endian.
From S2P Require Import Format.
From S2P Require Import StringPiece.
From S2P Require Import SocketsOps.
From S2P Require Import InetAddress.

Section socket.
  Context `{!Host, !SocketKernel}.
  Implicit Types k : kernel.

Definition socket_dtor (sockfd : Z) k : kernel := close sockfd k.
Definition bindAddress (sockfd : Z) (a : sockaddr) k : outcome kernel := bindOrDie sockfd (getSockAddr a) k.
Definition socket_listen (sockfd : Z) k : outcome kernel := listenOrDie sockfd k.
Definition socket_shutdownWrite (sockfd : Z) k : kernel := shutdownWrite sockfd k.

(** [Socket::accept]: on success the peer's address is stored in [peeraddr]. *)
Definition socket_accept (sockfd : Z) (peeraddr : sockaddr) k : outcome (kernel * Z * sockaddr) :=
  '(k, connfd, a) ← accept sockfd k;
  Ok (k, connfd, if 0 <=? connfd then setSockAddrInet6 a peeraddr else peeraddr).

(** The options; a failure is at most reported. *)
Definition optval (on : bool) : Z := if on then 1 else 0.
Definition setTcpNoDelay (sockfd : Z) (on : bool) k : kernel := (k_setsockopt sockfd TCP_NODELAY (optval on) k).1.
Definition setReuseAddr (sockfd : Z) (on : bool) k : kernel := (k_setsockopt sockfd SO_REUSEADDR (optval on) k).1.
Definition setReusePort (sockfd : Z) (on : bool) k : kernel := (k_setsockopt sockfd SO_REUSEPORT (optval on) k).1.
Definition setKeepAlive (sockfd : Z) (on : bool) k : kernel := (k_setsockopt sockfd SO_KEEPALIVE (optval on) k).1.

Lemma set_in6_size (addr6 a : sockaddr) : zlen addr6 = zlen a → setSockAddrInet6 addr6 a = addr6.
Proof.
  intros E. unfold setSockAddrInet6, zblit, ztake, zdrop. rewrite Z.add_0_l, E. unfold zlen.
  by rewrite Nat2Z.id, drop_all, app_nil_r.
Qed.
End socket.

(** * tcp_info *)

(** The fields that are printed; each is a [u32] (the first a [u8]). *)
Record tcp_info := mkTcpInfo {
  tcpi_retransmits : Z; tcpi_rto : Z; tcpi_ato : Z; tcpi_snd_mss : Z; tcpi_rcv_mss : Z; tcpi_lost : Z;
  tcpi_retrans : Z; tcpi_rtt : Z; tcpi_rttvar : Z; tcpi_snd_ssthresh : Z; tcpi_snd_cwnd : Z; tcpi_total_retrans : Z
}.

Definition zero_tcp_info : tcp_info := mkTcpInfo 0 0 0 0 0 0 0 0 0 0 0 0.

(** [answer] is what getsockopt(2) stored, unless it failed. *)
Definition getTcpInfo (answer : option tcp_info) : bool * tcp_info :=
  match answer with Some tcpi => (true, tcpi) | None => (false, zero_tcp_info) end.

(** The labels of the format with the values. *)
Definition tcp_info_fields (tcpi : tcp_info) : list (string * Z) :=
  [("unrecovered=", tcpi_retransmits tcpi);
   ("rto=", tcpi_rto tcpi); ("ato=", tcpi_ato tcpi); ("snd_mss=", tcpi_snd_mss tcpi); ("rcv_mss=", tcpi_rcv_mss tcpi);
   ("lost=", tcpi_lost tcpi); ("retrans=", tcpi_retrans tcpi); ("rtt=", tcpi_rtt tcpi); ("rttvar=", tcpi_rttvar tcpi);
   ("sshthresh=", tcpi_snd_ssthresh tcpi); ("cwnd=", tcpi_snd_cwnd tcpi);
   ("total_retrans=", tcpi_total_retrans tcpi)]%string.

(** ["a=%u b=%u ..."]: the fields, with a space between two of them. *)
Fixpoint print_fields (fields : list (string * Z)) : list byte :=
  match fields with
  | [] => []
  | [(label, v)] => bytes_of_string label ++ decimal v
  | (label, v) :: fields => bytes_of_string label ++ decimal v ++ [Byte.x20] ++ print_fields fields
  end.

(** The string in [buf], which was [old]. *)
Definition getTcpInfoString (answer : option tcp_info) (old : list byte) (len : Z) : bool * list byte :=
  let '(ok, tcpi) := getTcpInfo answer in
  (ok, if ok then (snprintf len (print_fields (tcp_info_fields tcpi))).1 else old).

(** [TcpConnection::getTcpInfoString], with its [char buf[1024]]. *)
Definition connection_getTcpInfoString (answer : option tcp_info) : list byte :=
  (getTcpInfoString answer [] 1024).2.

(** The values the kernel stores. *)
Definition tcp_info_ok (tcpi : tcp_info) : Prop :=
  Forall (λ f : string * Z, 0 ≤ f.2 < 2 ^ 32) (tcp_info_fields tcpi).

Definition fields_room (fields : list (string * Z)) : Z :=
  foldr (λ (f : string * Z) acc, zlen (bytes_of_string f.1) + 11 + acc) 0 fields.

Lemma print_fields_cons label v fields :
  print_fields ((label, v) :: fields) =
  bytes_of_string label ++ decimal v ++ (if fields is [] then [] else [Byte.x20] ++ print_fields fields).
Proof. destruct fields; [by rewrite app_nil_r|done]. Qed.

Lemma print_fields_len fields :
  Forall (λ f : string * Z, 0 ≤ f.2 < 2 ^ 32) fields → zlen (print_fields fields) ≤ fields_room fields.
Proof.
  induction 1 as [|[label v] fields Hv _ IH]; [done|]. cbn [snd] in Hv.
  pose proof (decimal_digits 10 v ltac:(lia) ltac:(lia)) as Hd.
  rewrite print_fields_cons, !zlen_app.
  change (fields_room ((label, v) :: fields)) with (zlen (bytes_of_string label) + 11 + fields_room fields).
  destruct fields as [|f fields]; [change (fields_room []) with 0; change (zlen []) with 0; lia|].
  rewrite zlen_app. change (zlen [Byte.x20]) with 1. lia.
Qed.

(** The buffer is always large enough. *)
Lemma tcp_info_untruncated tcpi :
  tcp_info_ok tcpi →
  connection_getTcpInfoString (Some tcpi) = print_fields (tcp_info_fields tcpi).
Proof.
  intros Hok. pose proof (print_fields_len _ Hok) as Hl.
  unfold connection_getTcpInfoString, getTcpInfoString, getTcpInfo. cbn [snd]. rewrite snprintf_fits; [done|].
  assert (fields_room (tcp_info_fields tcpi) < 1024) by (by vm_compute). lia.
Qed.
