(* ===== verification/Acceptor.v ===== *)
(** The listening socket: networker/net/Acceptor.h and Acceptor.cpp.

    An acceptor owns its listening descriptor (class [Socket] of Socket.v), a spare descriptor on /dev/null
    and a channel of its loop.  What the user does with a new connection is recorded in the
    trace; the descriptor then belongs to the user. *)
From S2P Require Import Prelude.
From S2P Require Import Endian.
From S2P Require Import StringPiece.
From S2P Require Import CurrentThread.
From S2P Require Import Channel.
From S2P Require Import Loop.
From S2P Require Import SocketsOps.
From S2P Require Import InetAddress.
From S2P Require Import Socket.

(** * Acceptor *)
Record Acceptor := mkAcceptor {
  acceptSocket_ : Z;
  acceptChannel_ : ChannelPtr;
  newConnectionCallback_ : bool;   (** a callback is installed *)
  listenning_ : bool;
  idleFd_ : Z
}.

(** The callback the acceptor binds for its channel. *)
Class AcceptorEnv (CB : Type) := { bind_handleRead : CB }.

Record World (L : Type) `{!SocketKernel} := mkWorld {
  acc : Acceptor;
  lp : L;
  os : kernel;
  handed : list (Z * sockaddr)     (** the calls of the new-connection callback *)
}.
Arguments mkWorld {L _}. Arguments acc {L _}. Arguments lp {L _}. Arguments os {L _}. Arguments handed {L _}.

Section acceptor.
  Context {CB F L : Type} `{!Loop CB F L} `{!Host, !InetText, !SocketKernel} `{!AcceptorEnv CB} `{!CurrentThread}.
  Notation W := (World L).
  Implicit Types w : W.

Definition set_acc (a : Acceptor) w : W := mkWorld a (lp w) (os w) (handed w).
Definition set_lp (l : L) w : W := mkWorld (acc w) l (os w) (handed w).
Definition set_os (k : kernel) w : W := mkWorld (acc w) (lp w) k (handed w).

(** [Acceptor::Acceptor]; the channel object is created at [chan]. *)
Definition new_Acceptor (listenAddr : sockaddr) (reuseport : bool) (chan : ChannelPtr) (l : L) (k : kernel)
  : outcome W :=
  let '(k, fd) := createNonblockingOrDie (family listenAddr) k in
  let '(k, idle) := k_open_null k in
  let l := put_channel chan (new_channel fd) l in
  _ ← require (0 <=? idle);
  let k := setReuseAddr fd true k in
  let k := setReusePort fd reuseport k in
  k ← bindAddress fd listenAddr k;
  l ← modify chan (setReadCallback bind_handleRead) l;
  Ok (mkWorld (mkAcceptor fd chan false false idle) l k []).

Definition setNewConnectionCallback w : W :=
  let a := acc w in
  set_acc (mkAcceptor (acceptSocket_ a) (acceptChannel_ a) true (listenning_ a) (idleFd_ a)) w.

Definition listen w : outcome W :=
  _ ← assertInLoopThread (lp w);
  let a := acc w in
  let w := set_acc (mkAcceptor (acceptSocket_ a) (acceptChannel_ a) (newConnectionCallback_ a) true (idleFd_ a)) w in
  k ← socket_listen (acceptSocket_ (acc w)) (os w);
  l ← enableReading (acceptChannel_ (acc w)) (lp w);
  Ok (set_lp l (set_os k w)).

(** Out of descriptors: the spare one is given up to accept the connection and close it. *)
Definition drop_connection w : W :=
  let a := acc w in
  let k := (k_close (idleFd_ a) (os w)).1 in
  let '(k, fd, _) := k_accept (acceptSocket_ a) k in
  let k := (k_close fd k).1 in
  let '(k, idle) := k_open_null k in
  set_os k (set_acc (mkAcceptor (acceptSocket_ a) (acceptChannel_ a) (newConnectionCallback_ a) (listenning_ a) idle) w).

Definition handleRead w : outcome W :=
  _ ← assertInLoopThread (lp w);
  '(k, connfd, peerAddr) ← socket_accept (acceptSocket_ (acc w))
                              (InetAddress_of_port (replicate 28 Byte.x00) 0 false false) (os w);
  let w := set_os k w in
  if 0 <=? connfd then
    if newConnectionCallback_ (acc w)
    then Ok (mkWorld (acc w) (lp w) (os w) (handed w ++ [(connfd, peerAddr)]))
    else Ok (set_os (close connfd (os w)) w)
  else if errno (os w) =? EMFILE then Ok (drop_connection w) else Ok w.

(** [Acceptor::~Acceptor] and the destructor of its [acceptSocket_]. *)
Definition acceptor_dtor w : outcome (L * kernel) :=
  l ← disableAll (acceptChannel_ (acc w)) (lp w);
  l ← remove (acceptChannel_ (acc w)) l;
  Ok (l, socket_dtor (acceptSocket_ (acc w)) (k_close (idleFd_ (acc w)) (os w)).1).

(** * What handling a readable listening socket does *)

(** The descriptors: those of the users and the acceptor's two. *)
Lemma handleRead_spec w :
  isInLoopThread (lp w) = true →
  safely (handleRead w) (λ w', acc w' = acc w ∧ lp w' = lp w ∧
    if newConnectionCallback_ (acc w)
    then ∃ fd peer, handed w' = handed w ++ [(fd, peer)] ∧ 0 ≤ fd ∧ zlen peer = sizeof_in6 ∧
           fd ∉ open_fds (os w) ∧ open_fds (os w') = {[fd]} ∪ open_fds (os w)
    else handed w' = handed w ∧ open_fds (os w') = open_fds (os w)).
Proof.
  intros Ht. unfold handleRead, assertInLoopThread, socket_accept. rewrite Ht, bind_Ok.
  pose proof (accept_ok (acceptSocket_ (acc w)) (os w)) as Ha.
  destruct (accept _ _) as [[[k fd] a]|f]; [|exact Ha].
  cbn in Ha. destruct Ha as (Hfd & Hn & Ho & Hz). cbn [mbind outcome_bind].
  rewrite !(proj2 (Z.leb_le 0 fd)) by done. cbn [acc set_os].
  destruct (newConnectionCallback_ (acc w)); cbn -[InetAddress_of_port].
  - pose proof (of_port_typed (replicate 28 Byte.x00) 0 false false eq_refl) as [T _].
    unfold address_ok in T. rewrite set_in6_size by (by rewrite Hz, <- T). split_and!; try done. by exists fd, a.
  - split_and!; try done. unfold close. rewrite close_law, Ho. set_solver.
Qed.

(** The connection the kernel refuses, whatever the reason, brings the process down. *)
Lemma handleRead_error w k a :
  isInLoopThread (lp w) = true → k_accept (acceptSocket_ (acc w)) (os w) = (k, -1, a) →
  handleRead w = Fail FatalLog.
Proof.
  intros Ht E. unfold handleRead, assertInLoopThread, socket_accept. rewrite Ht, bind_Ok.
  by rewrite (accept_error_fatal _ _ _ _ E).
Qed.
End acceptor.

(** * Life of an acceptor *)
Section life.
  Context {CB F L : Type} `{!Loop CB F L, !LoopSpec CB F L, !LoopLaws CB F L}.
  Context `{!Host, !InetText, !SocketKernel} `{!AcceptorEnv CB} `{!CurrentThread}.
  Notation W := (World L).
  Implicit Types w : W.

(** The channel watches the listening descriptor as the state says. *)
Record acceptor_ok w : Prop := {
  ac_loop : loop_inv (lp w);
  ac_thread : isInLoopThread (lp w) = true;
  ac_channel : ∃ ch, get_channel (acceptChannel_ (acc w)) (lp w) = Some ch ∧ fd_ ch = acceptSocket_ (acc w) ∧
    if listenning_ (acc w)
    then events_ ch = kReadEvent ∧ has_channel (lp w) (acceptChannel_ (acc w)) ∧
         loop_watched (lp w) (acceptSocket_ (acc w)) = Some kReadEvent
    else events_ ch = 0 ∧ can_add (lp w) (acceptChannel_ (acc w))
}.

(** A new acceptor, unless a socket cannot be made or bound. *)
Lemma new_Acceptor_ok listenAddr reuseport chan (l : L) k :
  loop_inv l → isInLoopThread l = true → get_channel chan l = None →
  (∀ fd, 0 ≤ fd → fd ∉ open_fds k → fd_free l fd) →
  0 ≤ (k_open_null (k_socket (family listenAddr) k).1).2 →
  safely (new_Acceptor listenAddr reuseport chan l k) (λ w, acceptor_ok w ∧ listenning_ (acc w) = false ∧ handed w = []).
Proof.
  intros I Ht Hnone Hfree Hnull. unfold new_Acceptor, createNonblockingOrDie. destruct (k_socket _ _) as [k1 fd] eqn:E1.
  cbn in Hnull. destruct (k_open_null k1) as [k2 idle]. cbn in Hnull. rewrite require_true by bsolve. rewrite bind_Ok.
  unfold bindAddress, getSockAddr, sockaddr_cast, bindOrDie, setReusePort, setReuseAddr, optval. set (k3 := (k_setsockopt fd SO_REUSEPORT (if reuseport then 1 else 0) (k_setsockopt fd SO_REUSEADDR 1 k2).1).1).
  pose proof (bind_negative fd listenAddr k3) as Hneg. destruct (k_bind _ _ _) as [k4 ret]. cbn in Hneg.
  destruct (socket_law _ _ _ _ E1) as [(Hpos & Hn & _)|[-> _]]; [|rewrite Hneg by lia; by left].
  destruct (ret <? 0); [by left|]. rewrite bind_Ok. unfold modify, deref. rewrite get_put. cbn. rewrite put_put.
  split_and!; try done.
  match goal with |- context [put_channel chan ?x l] => pose proof (loop_new_law l chan x I Hnone eq_refl eq_refl) as C end.
  split; cbn; [apply (cr_inv _ _ _ _ C)|by rewrite (cr_thread _ _ _ _ C)|].
  eexists. split; [apply (cr_get _ _ _ _ C)|]. split_and!; try done. apply (cr_add _ _ _ _ C). by apply Hfree.
Qed.

Lemma listen_ok w :
  acceptor_ok w → listenning_ (acc w) = false →
  safely (listen w) (λ w', acceptor_ok w' ∧ listenning_ (acc w') = true ∧
    newConnectionCallback_ (acc w') = newConnectionCallback_ (acc w) ∧ open_fds (os w') = open_fds (os w)).
Proof.
  intros [I Ht (ch & Hc & Hfd & Hl)] Hn. rewrite Hn in Hl. destruct Hl as [Hz Ha].
  unfold listen, assertInLoopThread, socket_listen, listenOrDie. rewrite Ht, bind_Ok. cbn [acc set_acc acceptSocket_ acceptChannel_ lp os].
  pose proof (listen_fds (acceptSocket_ (acc w)) (os w)) as Hk. destruct (k_listen _ _) as [k ret].
  destruct (ret <? 0); [by left|]. rewrite bind_Ok.
  destruct (change_mask (lp w) (acceptChannel_ (acc w)) ch (enable kReadEvent) I Ht Hc) as [E|(l' & E & U)];
    [rewrite Hz; by right; left|by right| |]; rewrite enableReading_eq, E; [by left|].
  rewrite bind_Ok. cbn. split_and!; try done. rewrite Hz in U.
  destruct (up_get _ _ _ _ _ U) as (ch' & Hg & i & ->).
  split; cbn; [apply U|by rewrite (up_thread _ _ _ _ _ U)|].
  eexists. split; [exact Hg|]. cbn. split; [done|]. split; [done|]. split; [apply U|].
  pose proof (loop_inv_watched l' _ _ (up_inv _ _ _ _ _ U) Hg (up_has _ _ _ _ _ U)) as Hw. cbn in Hw.
  rewrite Hfd in Hw. by apply Hw.
Qed.

(** Handling connections keeps the acceptor listening. *)
Lemma acceptor_handleRead_ok w :
  acceptor_ok w → safely (handleRead w) acceptor_ok.
Proof.
  intros [I Ht Hc]. eapply safely_mono; [by apply handleRead_spec|].
  intros w' (Ea & El & _). split; rewrite ?Ea, ?El; done.
Qed.

(** The destructor of a listening acceptor unregisters the channel and releases both descriptors. *)
Lemma acceptor_dtor_ok w :
  acceptor_ok w → listenning_ (acc w) = true → can_remove (lp w) (acceptChannel_ (acc w)) → 0 ≤ acceptSocket_ (acc w) →
  safely (acceptor_dtor w) (λ r, loop_inv r.1 ∧ ¬ has_channel r.1 (acceptChannel_ (acc w)) ∧
    loop_watched r.1 (acceptSocket_ (acc w)) = None ∧
    open_fds r.2 = open_fds (os w) ∖ {[idleFd_ (acc w)]} ∖ {[acceptSocket_ (acc w)]}).
Proof.
  intros [I Ht (ch & Hc & Hfd & Hl)] Hn Hr Hpos. rewrite Hn in Hl. destruct Hl as (He & Hh & _).
  unfold acceptor_dtor.
  pose proof (disable_remove (lp w) (acceptChannel_ (acc w)) ch I Ht Hc Hh) as D. rewrite Hfd in D.
  specialize (D ltac:(by rewrite He) Hr Hpos).
  destruct (disableAll _ _) as [l1|f]; [|exact D]. cbn in *. destruct (remove _ l1) as [l2|f]; [|exact D].
  cbn in *. destruct D as (I2 & _ & _ & Hno & _ & _ & _ & Hw & _). split_and!; try done.
  unfold socket_dtor, close. by rewrite !close_law.
Qed.
End life.
