(* ===== verification/Connector.v ===== *)
(** Outgoing connections: networker/net/Connector.h and Connector.cpp.

    A connector tries one socket at a time; the channel of the attempt is watched for
    writability.  What the environment sees of it is recorded: the descriptors given to the
    new-connection callback, and the delays of the retry timers that have not fired yet. *)
From S2P Require Import Prelude.
From S2P Require Import Endian.
From S2P Require Import StringPiece.
From S2P Require Import CurrentThread.
From S2P Require Import Channel.
From S2P Require Import Loop.
From S2P Require Import SocketsOps.
From S2P Require Import InetAddress.

Inductive States := kDisconnected | kConnecting | kConnected.

#[export] Instance States_eq_dec : EqDecision States.
Proof. intros x y; unfold Decision; decide equality. Defined.

Definition kMaxRetryDelayMs : Z := 30 * 1000.
Definition kInitRetryDelayMs : Z := 500.

(** What the connector binds to itself: for the loop, and for its channel. *)
Inductive functor := FStartInLoop | FStopInLoop | FResetChannel.
Inductive handler := HandleWrite | HandleError.

Class ConnectorEnv (CB F L : Type) := {
  bind_functor : functor → F;
  bind_handler : handler → CB;
  decode_handler : CB → option handler;
  runAfter : Z → F → L → L;             (** the delay in milliseconds *)
  decode_bind h : decode_handler (bind_handler h) = Some h
}.

Record Connector := mkConnector {
  serverAddr_ : sockaddr;
  connect_ : bool;
  state_ : States;
  channel_ : option ChannelPtr;
  newConnectionCallback_ : bool;        (** a callback is installed *)
  retryDelayMs_ : Z
}.

Record World (L : Type) `{!SocketKernel} := mkWorld {
  cn : Connector;
  lp : L;
  os : kernel;
  handed : list Z;                      (** the calls of the new-connection callback *)
  timers : list Z                       (** the retry timers that are set *)
}.
Arguments mkWorld {L _}. Arguments cn {L _}. Arguments lp {L _}. Arguments os {L _}.
Arguments handed {L _}. Arguments timers {L _}.

(** [Connector::Connector] and [setNewConnectionCallback]. *)
Definition new_Connector (serverAddr : sockaddr) : Connector :=
  mkConnector serverAddr false kDisconnected None false kInitRetryDelayMs.
Definition setNewConnectionCallback (c : Connector) : Connector :=
  mkConnector (serverAddr_ c) (connect_ c) (state_ c) (channel_ c) true (retryDelayMs_ c).

(** The delay after one more failure. *)
Definition next_delay (d : Z) : Z := i32 (d * 2) `min` kMaxRetryDelayMs.

(** * Field updates *)
Definition set_connect (v : bool) (c : Connector) : Connector :=
  mkConnector (serverAddr_ c) v (state_ c) (channel_ c) (newConnectionCallback_ c) (retryDelayMs_ c).
Definition setState (s : States) (c : Connector) : Connector :=
  mkConnector (serverAddr_ c) (connect_ c) s (channel_ c) (newConnectionCallback_ c) (retryDelayMs_ c).
Definition set_channel (p : option ChannelPtr) (c : Connector) : Connector :=
  mkConnector (serverAddr_ c) (connect_ c) (state_ c) p (newConnectionCallback_ c) (retryDelayMs_ c).
Definition set_delay (d : Z) (c : Connector) : Connector :=
  mkConnector (serverAddr_ c) (connect_ c) (state_ c) (channel_ c) (newConnectionCallback_ c) d.

Section connector.
  Context {CB F L : Type} `{!Loop CB F L} `{!Host, !SocketKernel} `{!ConnectorEnv CB F L} `{!CurrentThread}.
  Notation W := (World L).
  Implicit Types w : W.

Definition on_cn (f : Connector → Connector) w : W := mkWorld (f (cn w)) (lp w) (os w) (handed w) (timers w).
Definition set_lp (l : L) w : W := mkWorld (cn w) l (os w) (handed w) (timers w).
Definition set_os (k : kernel) w : W := mkWorld (cn w) (lp w) k (handed w) (timers w).
Definition set_timers (ts : list Z) w : W := mkWorld (cn w) (lp w) (os w) (handed w) ts.

(** [retry]: the socket is given up; the next attempt is a timer away. *)
Definition retry (sockfd : Z) w : W :=
  let w := set_os (close sockfd (os w)) w in
  let w := on_cn (setState kDisconnected) w in
  if connect_ (cn w) then
    let d := retryDelayMs_ (cn w) in
    let w := mkWorld (cn w) (runAfter d (bind_functor FStartInLoop) (lp w)) (os w) (handed w) (timers w ++ [d]) in
    on_cn (set_delay (next_delay d)) w
  else w.

(** [connecting]; the new channel object is created at [chan]. *)
Definition connecting (chan : ChannelPtr) (sockfd : Z) w : outcome W :=
  let w := on_cn (setState kConnecting) w in
  _ ← require (bool_decide (channel_ (cn w) = None));
  let w := on_cn (set_channel (Some chan)) w in
  let l := put_channel chan (new_channel sockfd) (lp w) in
  l ← modify chan (setWriteCallback (bind_handler HandleWrite)) l;
  l ← modify chan (setErrorCallback (bind_handler HandleError)) l;
  l ← enableWriting chan l;
  Ok (set_lp l w).

(** The two groups of [case]s of [connect]; every other error is reported and given up. *)
Definition in_progress (savedErrno : Z) : bool :=
  bool_decide (savedErrno ∈ [0; EINPROGRESS; EINTR; EISCONN]).
Definition worth_retrying (savedErrno : Z) : bool :=
  bool_decide (savedErrno ∈ [EAGAIN; EADDRINUSE; EADDRNOTAVAIL; ECONNREFUSED; ENETUNREACH]).

Definition connect (chan : ChannelPtr) w : outcome W :=
  let '(k, sockfd) := createNonblockingOrDie (family (serverAddr_ (cn w))) (os w) in
  let '(k, ret) := SocketsOps.connect sockfd (serverAddr_ (cn w)) k in
  let savedErrno := if ret =? 0 then 0 else errno k in
  let w := set_os k w in
  if in_progress savedErrno then connecting chan sockfd w
  else if worth_retrying savedErrno then Ok (retry sockfd w)
  else Ok (set_os (close sockfd (os w)) w).

Definition startInLoop (chan : ChannelPtr) w : outcome W :=
  _ ← assertInLoopThread (lp w);
  _ ← require (bool_decide (state_ (cn w) = kDisconnected));
  if connect_ (cn w) then connect chan w else Ok w.

Definition restart (chan : ChannelPtr) w : outcome W :=
  _ ← assertInLoopThread (lp w);
  let w := on_cn (setState kDisconnected) w in
  let w := on_cn (set_delay kInitRetryDelayMs) w in
  let w := on_cn (set_connect true) w in
  startInLoop chan w.

(** [channel_->] on a null pointer is undefined. *)
Definition removeAndResetChannel w : outcome (W * Z) :=
  match channel_ (cn w) with
  | None => Fail UndefinedBehaviour
  | Some c =>
      l ← disableAll c (lp w);
      l ← remove c l;
      ch ← deref c l;
      l ← queueInLoop (bind_functor FResetChannel) l;
      Ok (set_lp l w, fd_ ch)
  end.

(** [channel_.reset()]: the channel is destroyed (its destructor's asserts). *)
Definition resetChannel w : outcome W :=
  match channel_ (cn w) with
  | None => Ok w
  | Some c =>
      ch ← deref c (lp w);
      has ← (if isInLoopThread (lp w) then loop_hasChannel c (lp w) else Ok false);
      _ ← channel_dtor (isInLoopThread (lp w)) has ch;
      Ok (on_cn (set_channel None) w)
  end.

Definition stopInLoop w : outcome W :=
  _ ← assertInLoopThread (lp w);
  if bool_decide (state_ (cn w) = kConnecting) then
    let w := on_cn (setState kDisconnected) w in
    '(w, sockfd) ← removeAndResetChannel w;
    Ok (retry sockfd w)
  else Ok w.

(** An empty [std::function] throws when it is called. *)
Definition call_newConnection (sockfd : Z) w : outcome W :=
  if newConnectionCallback_ (cn w)
  then Ok (mkWorld (cn w) (lp w) (os w) (handed w ++ [sockfd]) (timers w))
  else Fail LogicError.

Definition handleWrite w : outcome W :=
  if bool_decide (state_ (cn w) = kConnecting) then
    '(w, sockfd) ← removeAndResetChannel w;
    let '(k, err) := getSocketError sockfd (os w) in
    let w := set_os k w in
    if negb (err =? 0) then Ok (retry sockfd w)
    else if isSelfConnect sockfd (os w) then Ok (retry sockfd w)
    else
      let w := on_cn (setState kConnected) w in
      if connect_ (cn w) then call_newConnection sockfd w
      else Ok (set_os (close sockfd (os w)) w)
  else _ ← require (bool_decide (state_ (cn w) = kDisconnected)); Ok w.

Definition handleError w : outcome W :=
  if bool_decide (state_ (cn w) = kConnecting) then
    '(w, sockfd) ← removeAndResetChannel w;
    let '(k, err) := getSocketError sockfd (os w) in
    Ok (retry sockfd (set_os k w))
  else Ok w.

Definition run_functor (chan : ChannelPtr) (f : functor) w : outcome W :=
  match f with
  | FStartInLoop => startInLoop chan w
  | FStopInLoop => stopInLoop w
  | FResetChannel => resetChannel w
  end.

Definition run_handler (h : handler) w : outcome W :=
  match h with HandleWrite => handleWrite w | HandleError => handleError w end.

Definition start (chan : ChannelPtr) w : outcome W :=
  let w := on_cn (set_connect true) w in
  if isInLoopThread (lp w) then startInLoop chan w
  else l ← queueInLoop (bind_functor FStartInLoop) (lp w); Ok (set_lp l w).

Definition stop w : outcome W :=
  let w := on_cn (set_connect false) w in
  l ← queueInLoop (bind_functor FStopInLoop) (lp w);
  Ok (set_lp l w).

(** [Connector::~Connector]. *)
Definition connector_dtor (c : Connector) : outcome unit := require (bool_decide (channel_ c = None)).

(** The connector's world owns its channel through its loop. *)
#[export] Instance connector_owner : ChannelOwner CB W := {
  get_channel c w := get_channel c (lp w);
  put_channel c ch w := set_lp (put_channel c ch (lp w)) w;
  loop_updateChannel _ c w := l ← loop_updateChannel c (lp w); Ok (set_lp l w);
  loop_removeChannel _ c w := l ← loop_removeChannel c (lp w); Ok (set_lp l w)
}.

Definition run_callback (cb : CB) w : outcome W :=
  match decode_handler cb with Some h => run_handler h w | None => Ok w end.

(** The poller reports [r] for the channel and the loop handles it. *)
Definition dispatch_events (r : Z) w : outcome W :=
  match channel_ (cn w) with
  | None => Ok w
  | Some c => w ← modify c (set_revents r) w; handleEvent run_callback (λ _, true) c w
  end.
End connector.
