(* ===== verification/ConnectorFacts.v ===== *)
(** What holds of a connector at every moment (Connector.cpp): the channel's registration and
    the descriptor of the attempt agree with the state, the retry delay doubles up to its bound,
    and every descriptor is closed or handed over. *)
From S2P Require Import Prelude.
From S2P Require Import Endian.
From S2P Require Import StringPiece.
From S2P Require Import CurrentThread.
From S2P Require Import Channel.
From S2P Require Import Loop.
From S2P Require Import SocketsOps.
From S2P Require Import InetAddress.
From S2P Require Import Connector.

(** * The back-off *)

(** The delay after [k] failures: half a second doubled each time, at most half a minute. *)
Definition backoff (k : nat) : Z := (kInitRetryDelayMs * 2 ^ Z.of_nat k) `min` kMaxRetryDelayMs.

Lemma backoff_bounds k : kInitRetryDelayMs ≤ backoff k ≤ kMaxRetryDelayMs.
Proof.
  unfold backoff, kInitRetryDelayMs, kMaxRetryDelayMs.
  pose proof (Z.pow_pos_nonneg 2 (Z.of_nat k) ltac:(lia) ltac:(lia)). lia.
Qed.

Lemma backoff_next k : next_delay (backoff k) = backoff (S k).
Proof.
  unfold next_delay. pose proof (backoff_bounds k) as B. unfold kInitRetryDelayMs, kMaxRetryDelayMs in B.
  rewrite i32_small by (unfold in_i32; lia). unfold backoff in *.
  rewrite Nat2Z.inj_succ, Z.pow_succ_r by lia. unfold kInitRetryDelayMs, kMaxRetryDelayMs in *. lia.
Qed.

Lemma backoff_capped k : (6 ≤ k)%nat → backoff k = kMaxRetryDelayMs.
Proof.
  intros Hk. unfold backoff, kInitRetryDelayMs, kMaxRetryDelayMs.
  pose proof (Z.pow_le_mono_r 2 6 (Z.of_nat k) ltac:(lia) ltac:(lia)). lia.
Qed.

Class ConnectorEnvLaws (CB F L : Type) `{!Loop CB F L, !LoopSpec CB F L, !ConnectorEnv CB F L} := {
  runAfter_law d f l : same_loop l (runAfter d f l)
}.

Section facts.
  Context {CB F L : Type} `{!Loop CB F L, !LoopSpec CB F L, !LoopLaws CB F L}.
  Context `{!Host, !SocketKernel} `{!ConnectorEnv CB F L, !ConnectorEnvLaws CB F L} `{!CurrentThread}.
  Notation W := (World L).
  Implicit Types w : W.

(** * The invariant *)

(** A channel as [connecting] sets it up; [h]: the loop is inside its [handleEvent]. *)
Definition wired (h : bool) (ev : Z) (added : bool) (ch : Channel CB) : Prop :=
  events_ ch = ev ∧ eventHandling_ ch = h ∧ addedToLoop_ ch = added ∧ tied_ ch = false ∧
  readCallback_ ch = None ∧ closeCallback_ ch = None ∧
  writeCallback_ ch = Some (bind_handler HandleWrite) ∧ errorCallback_ ch = Some (bind_handler HandleError).

(** The attempt's channel is registered for writability, on an open descriptor. *)
Definition busy (h : bool) w (c : ChannelPtr) (ch : Channel CB) : Prop :=
  channel_ (cn w) = Some c ∧ get_channel c (lp w) = Some ch ∧ wired h kWriteEvent true ch ∧
  has_channel (lp w) c ∧ fd_ ch ∈ open_fds (os w).

(** There is no channel, or a silenced one the loop does not know, about to be destroyed. *)
Definition idle (h : bool) (cn : Connector) (l : L) : Prop :=
  ∀ c, channel_ cn = Some c → ∃ ch, get_channel c l = Some ch ∧ wired h 0 false ch ∧ ¬ has_channel l c.

Record inv_with (h : bool) w : Prop := {
  iv_loop : loop_inv (lp w);
  iv_thread : isInLoopThread (lp w) = true;
  iv_callback : newConnectionCallback_ (cn w) = true;
  iv_delay : ∃ k, retryDelayMs_ (cn w) = backoff k;
  iv_timers : timers w = [] ∨ ∃ k, timers w = [backoff k];
  iv_state : match state_ (cn w) with
             | kConnecting => timers w = [] ∧ ∃ c ch, busy h w c ch
             | kConnected => timers w = [] ∧ idle h (cn w) (lp w)
             | kDisconnected => idle h (cn w) (lp w)
             end
}.

(** The descriptor of the current attempt. *)
Definition owned w : gset Z :=
  match state_ (cn w), channel_ (cn w) with
  | kConnecting, Some c => match get_channel c (lp w) with Some ch => {[fd_ ch]} | None => ∅ end
  | _, _ => ∅
  end.

(** The descriptors of the rest of the process: the connector adds the ones it hands over. *)
Definition ledger w w' : Prop :=
  ∃ new, handed w' = handed w ++ new ∧
    open_fds (os w') ∖ owned w' = open_fds (os w) ∖ owned w ∪ list_to_set new ∧
    list_to_set new ## open_fds (os w) ∖ owned w.

(** Nothing handed over. *)
Lemma ledger_quiet w w' :
  handed w' = handed w → open_fds (os w') ∖ owned w' = open_fds (os w) ∖ owned w → ledger w w'.
Proof. intros E1 E2. exists []. rewrite E1, E2, app_nil_r. split_and!; [done|cbn; set_solver..]. Qed.

Lemma ledger_refl w : ledger w w.
Proof. by apply ledger_quiet. Qed.

Lemma ledger_trans w1 w2 w3 : ledger w1 w2 → ledger w2 w3 → ledger w1 w3.
Proof.
  intros (n1 & E1 & O1 & D1) (n2 & E2 & O2 & D2). exists (n1 ++ n2). rewrite E2, E1, app_assoc. split; [done|].
  rewrite O2, O1, list_to_set_app_L. rewrite O1 in D2. split; set_solver.
Qed.

(** What [ledger] looks at did not change. *)
Lemma ledger_same w w' :
  handed w' = handed w → open_fds (os w') = open_fds (os w) → owned w' = owned w → ledger w w'.
Proof. intros E1 E2 E3. apply ledger_quiet; [done|]. by rewrite E2, E3. Qed.

Lemma owned_busy h w c ch : busy h w c ch → state_ (cn w) = kConnecting → owned w = {[fd_ ch]}.
Proof. intros (Ec & Eg & _) Es. unfold owned. by rewrite Es, Ec, Eg. Qed.

Lemma owned_idle w : state_ (cn w) ≠ kConnecting → owned w = ∅.
Proof. unfold owned. by destruct (state_ (cn w)). Qed.

Lemma idle_same_loop h (c : Connector) l l' : same_loop l l' → idle h c l → idle h c l'.
Proof.
  intros S Hid p E. destruct (Hid p E) as (ch & Hg & Hw & Hn). exists ch.
  by rewrite (sl_get _ _ S), <- (sl_has _ _ S).
Qed.

Lemma idle_none h (c : Connector) l : channel_ c = None → idle h c l.
Proof. intros E p. by rewrite E. Qed.

Lemma open_fds_minus_negative k : open_fds k ∖ {[-1]} = open_fds k.
Proof.
  apply set_eq. intros fd. rewrite elem_of_difference, elem_of_singleton. split; [naive_solver|].
  intros Hfd. split; [done|]. intros ->. pose proof (open_fds_nonneg _ _ Hfd). lia.
Qed.

(** * Giving up a socket *)

Lemma retry_spec h sockfd w :
  loop_inv (lp w) → isInLoopThread (lp w) = true → newConnectionCallback_ (cn w) = true →
  (∃ k, retryDelayMs_ (cn w) = backoff k) → timers w = [] → idle h (cn w) (lp w) →
  inv_with h (retry sockfd w) ∧ state_ (cn (retry sockfd w)) = kDisconnected ∧
  handed (retry sockfd w) = handed w ∧ open_fds (os (retry sockfd w)) = open_fds (os w) ∖ {[sockfd]} ∧
  timers (retry sockfd w) = if connect_ (cn w) then [retryDelayMs_ (cn w)] else [].
Proof.
  intros I Ht Hcb (k & Ek) Em Hi. unfold retry, close. cbn. destruct (connect_ (cn w)); cbn.
  - pose proof (runAfter_law (retryDelayMs_ (cn w)) (bind_functor FStartInLoop) (lp w)) as SL.
    rewrite close_law, Em, Ek in *. split_and!; try done. split; cbn; try done.
    + by apply (sl_inv _ _ SL).
    + by rewrite (sl_thread _ _ SL).
    + exists (S k). apply backoff_next.
    + right. by exists k.
    + by apply (idle_same_loop _ _ _ _ SL).
  - rewrite close_law. split_and!; try done. split; cbn; eauto.
Qed.

(** The channel of the attempt is taken from the loop. *)
Lemma removeAndReset_ok h w c ch :
  loop_inv (lp w) → isInLoopThread (lp w) = true → busy h w c ch → can_remove (lp w) c →
  safely (removeAndResetChannel w) (λ r, ∃ l', r = (set_lp l' w, fd_ ch) ∧
    loop_inv l' ∧ isInLoopThread l' = true ∧ idle h (cn w) l').
Proof.
  intros I Ht (Ec & Hg & Hw & Hh & Ho) Hr. unfold removeAndResetChannel. rewrite Ec.
  pose proof (disable_remove (lp w) c ch I Ht Hg Hh) as D.
  pose proof Hw as (He & Hev & _ & Htie & Hrd & Hcl & Hwr & Her).
  specialize (D ltac:(by rewrite He) Hr (open_fds_nonneg _ _ Ho)).
  destruct (disableAll c (lp w)) as [l1|f]; [|exact D]. cbn in *.
  destruct (remove c l1) as [l2|f]; [|exact D]. cbn in *.
  destruct D as (I2 & Ht2 & _ & Hno & (i & Hg2) & _). unfold deref. rewrite Hg2. cbn.
  destruct (queue_law (bind_functor FResetChannel) l2) as (l3 & -> & _ & S). cbn.
  exists l3. split_and!; [done|by apply (sl_inv _ _ S)|by rewrite (sl_thread _ _ S), Ht2|].
  intros p Ep. rewrite Ec in Ep. injection Ep as <-. eexists. rewrite (sl_get _ _ S), <- (sl_has _ _ S).
  split; [exact Hg2|]. split; [|done]. split_and!; done.
Qed.

(** Removing the channel and giving up its socket leaves a connector that waits. *)
Lemma give_up_ok h w c ch k' :
  inv_with h w → state_ (cn w) = kConnecting → busy h w c ch → can_remove (lp w) c →
  ∀ l', loop_inv l' → isInLoopThread l' = true → idle h (cn w) l' → open_fds k' = open_fds (os w) →
  ∀ cn', cn' = cn w ∨ cn' = setState kDisconnected (cn w) →
  let w' := retry (fd_ ch) (mkWorld cn' l' k' (handed w) (timers w)) in
  inv_with h w' ∧ state_ (cn w') = kDisconnected ∧ ledger w w'.
Proof.
  intros I Es B Hr l' Il' Htl' Hid Ek cn' Hcn w'. pose proof I as [_ _ Hcb Hd _ Hst]. rewrite Es in Hst.
  destruct Hst as [Em _].
  assert (Hcn' : newConnectionCallback_ cn' = true ∧ (∃ k, retryDelayMs_ cn' = backoff k) ∧ idle h cn' l').
  { by destruct Hcn as [-> | ->]. }
  destruct Hcn' as (Hcb' & Hd' & Hid').
  destruct (retry_spec h (fd_ ch) (mkWorld cn' l' k' (handed w) (timers w))) as (Iw & Ew & Eh & Eo & _); try done.
  split_and!; [done|done|]. apply ledger_quiet; [done|].
  rewrite (owned_busy _ _ _ _ B Es), owned_idle by (unfold w'; by rewrite Ew).
  unfold w'. rewrite Eo. cbn. rewrite Ek. set_solver.
Qed.

(** * Trying to connect *)

(** A new channel object can be created at [chan], and closed descriptors are free in the loop. *)
Definition room (chan : ChannelPtr) w : Prop :=
  get_channel chan (lp w) = None ∧ ∀ fd, 0 ≤ fd → fd ∉ open_fds (os w) → fd_free (lp w) fd.

(** No attempt, no timer, and the last channel is gone. *)
Definition at_rest w : Prop :=
  state_ (cn w) = kDisconnected ∧ timers w = [] ∧ channel_ (cn w) = None.

Lemma modify_put c f ch (l : L) : modify c f (put_channel c ch l) = Ok (put_channel c (f ch) l).
Proof. unfold modify, deref. rewrite get_put. cbn. by rewrite put_put. Qed.

Lemma connecting_ok chan fd w :
  inv_with false w → at_rest w → get_channel chan (lp w) = None → fd_free (lp w) fd → fd ∈ open_fds (os w) →
  safely (connecting chan fd w) (λ w', inv_with false w' ∧ state_ (cn w') = kConnecting ∧
    handed w' = handed w ∧ os w' = os w ∧ owned w' = {[fd]}).
Proof.
  intros [I Ht Hcb Hd _ _] (Es & Em & Ec) Hnone Hfree Hfd. unfold connecting. cbn.
  rewrite bool_decide_eq_true_2 by done. cbn. rewrite !modify_put. cbn. rewrite !modify_put, bind_Ok.
  set (ch := setErrorCallback _ _).
  pose proof (loop_new_law (lp w) chan ch I Hnone eq_refl eq_refl) as C.
  set (l1 := put_channel chan ch (lp w)) in *.
  assert (Ht1 : isInLoopThread l1 = true) by (by rewrite (cr_thread _ _ _ _ C)).
  destruct (change_mask l1 chan ch (enable kWriteEvent) (cr_inv _ _ _ _ C) Ht1 (cr_get _ _ _ _ C))
    as [E|(l2 & E & U)]; [by right; right; left|right; by apply (cr_add _ _ _ _ C)| |];
    rewrite enableWriting_eq, E; [by left|]. cbn.
  destruct (up_get _ _ _ _ _ U) as (ch2 & Hg & i & ->).
  split_and!; try done; [|by unfold owned; cbn; rewrite Hg].
  split; cbn; try done; [apply U|by rewrite (up_thread _ _ _ _ _ U)|by left|].
  split; [done|]. exists chan. eexists. unfold busy. cbn. split_and!; [done|exact Hg|done|apply U|done].
Qed.

Lemma connect_ok chan w :
  inv_with false w → at_rest w → room chan w →
  safely (connect chan w) (λ w', inv_with false w' ∧ ledger w w').
Proof.
  intros I R [Hnone Hroom]. pose proof R as (Es & Em & Ec). unfold connect, createNonblockingOrDie, SocketsOps.connect.
  destruct (k_socket _ _) as [k1 fd] eqn:E1.
  pose proof (connect_fds fd (serverAddr_ (cn w)) k1) as Ho2.
  pose proof (connect_negative fd (serverAddr_ (cn w)) k1) as Hneg.
  destruct (k_connect _ _ _) as [k2 ret] eqn:E2. cbn in Ho2, Hneg.
  assert (Ow : owned w = ∅) by (apply owned_idle; by rewrite Es).
  assert (Iw : inv_with false (set_os k2 w)).
  { destruct I as [? ? ? ? ? Hst]. split; try done. cbn. rewrite Es in *. done. }
  destruct (socket_law _ _ _ _ E1) as [(Hpos & Hfresh & Ho1)|[-> Ho1]].
  - destruct (in_progress _).
    + eapply safely_mono; [apply connecting_ok; cbn; try done; [by apply Hroom|rewrite Ho2, Ho1; set_solver]|].
      intros w' (Iw' & Es' & Eh & Eo & Ew'). split; [done|]. apply ledger_quiet; [done|].
      rewrite Ew', Eo, Ow. cbn. rewrite Ho2, Ho1. set_solver.
    + destruct (worth_retrying _); cbn.
      * pose proof Iw as [? ? ? ? _ Hst].
        destruct (retry_spec false fd (set_os k2 w)) as (Ir & Er & Eh & Eo & _); try done; [cbn in *; by rewrite Es in Hst|].
        split; [done|]. apply ledger_quiet; [done|].
        rewrite (owned_idle (retry _ _)) by (by rewrite Er). rewrite Eo, Ow. cbn. rewrite Ho2, Ho1. set_solver.
      * split.
        -- destruct Iw as [? ? ? ? ? Hst]. split; try done. cbn in *. by rewrite Es in *.
        -- apply ledger_quiet; [done|]. rewrite (owned_idle (set_os _ _)) by (cbn; by rewrite Es).
           rewrite Ow. cbn. unfold close. rewrite close_law, Ho2, Ho1. set_solver.
  - destruct (Hneg ltac:(lia)) as [-> Herr]. cbn [Z.eqb]. change (-1 =? 0) with false. cbv iota. rewrite Herr.
    change (in_progress EBADF) with false. change (worth_retrying EBADF) with false. cbn. split.
    + destruct Iw as [? ? ? ? ? Hst]. split; try done. cbn in *. by rewrite Es in *.
    + apply ledger_same; cbn; [done| |].
      * unfold close. by rewrite close_law, open_fds_minus_negative, Ho2, Ho1.
      * rewrite Ow. apply owned_idle. cbn. by rewrite Es.
Qed.
End facts.
