(* ===== verification/ConnectorRun.v ===== *)
(** The moves of a connector (Connector.cpp): its public methods, its functors in the loop, its
    retry timer and the events of its channel, and what every one of them preserves. *)
From S2P Require Import Prelude.
From S2P Require Import Endian.
From S2P Require Import StringPiece.
From S2P Require Import CurrentThread.
From S2P Require Import Channel.
From S2P Require Import Loop.
From S2P Require Import SocketsOps.
From S2P Require Import InetAddress.
From S2P Require Import Connector.
From S2P Require Import ConnectorFacts.

Section run.
  Context {CB F L : Type} `{!Loop CB F L, !LoopSpec CB F L, !LoopLaws CB F L}.
  Context `{!Host, !SocketKernel} `{!ConnectorEnv CB F L, !ConnectorEnvLaws CB F L} `{!CurrentThread}.
  Notation W := (World L).
  Implicit Types w : W.

(** * The handlers of the channel *)
Lemma retry_channel fd w : channel_ (cn (retry fd w)) = channel_ (cn w).
Proof. unfold retry. cbn. by destruct (connect_ (cn w)). Qed.

(** What every handler and functor keeps. *)
Definition kept (h : bool) w w' : Prop := inv_with h w' ∧ ledger w w' ∧ channel_ (cn w') = channel_ (cn w).

Lemma connector_kept_refl h w : inv_with h w → kept h w w.
Proof. intros I. split_and!; [done|apply ledger_refl|done]. Qed.

Lemma so_error_same fd k k' err : getSocketError fd k = (k', err) → open_fds k' = open_fds k.
Proof.
  unfold getSocketError. pose proof (so_error_fds fd k) as Ho.
  destruct (k_so_error fd k) as [k2 [v|]]; by intros [= <- <-].
Qed.

Lemma handleError_ok h w c :
  inv_with h w → state_ (cn w) = kConnecting → channel_ (cn w) = Some c → can_remove (lp w) c →
  safely (handleError w) (λ w', kept h w w' ∧ state_ (cn w') = kDisconnected).
Proof.
  intros I Es Ec Hr. pose proof (iv_state _ _ I) as Hst. rewrite Es in Hst. destruct Hst as (_ & c' & ch & B).
  pose proof B as [Ec' _]. rewrite Ec in Ec'. injection Ec' as <-.
  unfold handleError. rewrite bool_decide_eq_true_2 by done. apply safely_bind.
  eapply safely_mono; [exact (removeAndReset_ok h w c ch (iv_loop _ _ I) (iv_thread _ _ I) B Hr)|]. intros r (l' & -> & Il & Htl & Hid).
  destruct (getSocketError _ _) as [k' err] eqn:Ee. apply so_error_same in Ee. cbn in Ee.
  destruct (give_up_ok h w c ch k' I Es B Hr l' Il Htl Hid Ee (cn w)) as (Iw & Ew & Hl); [by left|].
  split; [|exact Ew]. split_and!; [exact Iw|exact Hl|]. cbn. by rewrite retry_channel.
Qed.

(** The attempt succeeded: the descriptor leaves the connector. *)
Lemma connected_ok h w c ch l' k' :
  inv_with h w → state_ (cn w) = kConnecting → busy h w c ch →
  loop_inv l' → isInLoopThread l' = true → idle h (cn w) l' → open_fds k' = open_fds (os w) →
  let w' := mkWorld (setState kConnected (cn w)) l' k' (handed w) (timers w) in
  safely (if connect_ (cn w') then call_newConnection (fd_ ch) w' else Ok (set_os (close (fd_ ch) (os w')) w'))
    (λ w2, kept h w w2 ∧ state_ (cn w2) = kConnected ∧
           handed w2 = handed w ++ if connect_ (cn w) then [fd_ ch] else []).
Proof.
  intros I Es B Il Htl Hid Ek w'. pose proof I as [_ _ Hcb Hd _ Hst]. rewrite Es in Hst. destruct Hst as [Em _].
  pose proof (owned_busy _ _ _ _ B Es) as Ow. pose proof B as (_ & _ & _ & _ & Hfd).
  cbn. destruct (connect_ (cn w)) eqn:Eco.
  - unfold call_newConnection, w'. cbn. rewrite Hcb. cbn. split; [|done]. split_and!; [|exists [fd_ ch]; split; [done|split]|done].
    + split; cbn; auto.
    + rewrite (owned_idle (mkWorld (setState kConnected (cn w)) _ _ _ _)) by done. cbn. rewrite Ek, Ow.
      apply set_eq. intros x. destruct (decide (x = fd_ ch)) as [->|]; set_solver.
    + rewrite Ow. set_solver.
  - cbn. rewrite app_nil_r. split; [|done]. split_and!; [|apply ledger_quiet; [done|]|done].
    + split; cbn; auto.
    + rewrite (owned_idle (set_os _ _)) by done. cbn. unfold close. rewrite close_law, Ek, Ow. set_solver.
Qed.

(** The verdict on an attempt whose socket became writable. *)
Definition attempt_succeeded (fd : Z) (k : kernel) : bool :=
  let '(k', err) := getSocketError fd k in (err =? 0) && negb (isSelfConnect fd k').

Lemma handleWrite_spec h w c ch :
  inv_with h w → state_ (cn w) = kConnecting → busy h w c ch → can_remove (lp w) c →
  safely (handleWrite w) (λ w', kept h w w' ∧
    if attempt_succeeded (fd_ ch) (os w)
    then state_ (cn w') = kConnected ∧ timers w' = [] ∧
         handed w' = handed w ++ if connect_ (cn w) then [fd_ ch] else []
    else state_ (cn w') = kDisconnected ∧ handed w' = handed w ∧
         timers w' = if connect_ (cn w) then [retryDelayMs_ (cn w)] else []).
Proof.
  intros I Es B Hr. pose proof (iv_state _ _ I) as Hst. rewrite Es in Hst. destruct Hst as [Em _].
  unfold handleWrite. rewrite bool_decide_eq_true_2 by done. apply safely_bind.
  eapply safely_mono; [exact (removeAndReset_ok h w c ch (iv_loop _ _ I) (iv_thread _ _ I) B Hr)|]. intros r (l' & -> & Il & Htl & Hid).
  unfold attempt_succeeded. cbn [os set_lp].
  destruct (getSocketError _ _) as [k' err] eqn:Ee. apply so_error_same in Ee. cbn [os set_os].
  destruct (give_up_ok h w c ch k' I Es B Hr l' Il Htl Hid Ee (cn w)) as (Iw & Ew & Hl); [by left|].
  destruct (retry_spec h (fd_ ch) (mkWorld (cn w) l' k' (handed w) (timers w))) as (_ & _ & Eh & _ & Et);
    try done; try apply I.
  assert (K : kept h w (retry (fd_ ch) (mkWorld (cn w) l' k' (handed w) (timers w))) ).
  { split_and!; [exact Iw|exact Hl|]. by rewrite retry_channel. }
  destruct (err =? 0); cbn [negb andb]; [|split_and!; [exact K|exact Ew|exact Eh|exact Et]].
  destruct (isSelfConnect _ _); cbn [negb]; [split_and!; [exact K|exact Ew|exact Eh|exact Et]|].
  pose proof (connected_ok h w c ch l' k' I Es B Il Htl Hid Ee) as C.
  eapply safely_mono; [exact C|]. intros w2 (K2 & Es2 & Eh2). split_and!; try done.
  pose proof (iv_state _ _ (proj1 K2)) as Hst2. rewrite Es2 in Hst2. apply Hst2.
Qed.

Lemma connector_handleWrite_ok h w c :
  inv_with h w → state_ (cn w) = kConnecting → channel_ (cn w) = Some c → can_remove (lp w) c →
  safely (handleWrite w) (kept h w).
Proof.
  intros I Es Ec Hr. pose proof (iv_state _ _ I) as Hst. rewrite Es in Hst. destruct Hst as (_ & c' & ch & B).
  pose proof B as [Ec' _]. rewrite Ec in Ec'. injection Ec' as <-.
  eapply safely_mono; [exact (handleWrite_spec h w c ch I Es B Hr)|]. by intros w2 [? _].
Qed.

(** Once the attempt is over, the write event of the same round finds nothing to do. *)
Lemma handleWrite_late w : state_ (cn w) = kDisconnected → handleWrite w = Ok w.
Proof. intros E. unfold handleWrite. rewrite E. done. Qed.

(** * The channel's events *)
Lemma any_channel h w c :
  inv_with h w → channel_ (cn w) = Some c → ∃ ch ev a, get_channel c (lp w) = Some ch ∧ wired h ev a ch.
Proof.
  intros [_ _ _ _ _ Hst] Ec. destruct (state_ (cn w)).
  - destruct (Hst c Ec) as (ch & ? & ? & _). eauto.
  - destruct Hst as (_ & c' & ch & Ec' & Hg & Hw & _). rewrite Ec in Ec'. injection Ec' as <-. eauto.
  - destruct Hst as [_ Hid]. destruct (Hid c Ec) as (ch & ? & ? & _). eauto.
Qed.

(** A field of the channel that neither the poller nor the connector reads. *)
Lemma connector_touch_ok h h' f w c ch :
  inv_with h w → channel_ (cn w) = Some c → get_channel c (lp w) = Some ch →
  fd_ (f ch) = fd_ ch → index_ (f ch) = index_ ch → events_ (f ch) = events_ ch →
  (∀ ev a, wired h ev a ch → wired h' ev a (f ch)) →
  ∃ w', modify c f w = Ok w' ∧ kept h' w w' ∧ cn w' = cn w ∧ (∀ c2, can_remove (lp w) c2 → can_remove (lp w') c2).
Proof.
  intros [Il Ht Hcb Hd Htm Hst] Ec Hg E1 E2 E3 Hwi. pose proof (loop_put_law _ _ _ (f ch) Il Hg E1 E2 E3) as T.
  exists (set_lp (put_channel c (f ch) (lp w)) w). split; [unfold modify, deref; cbn; by rewrite Hg|].
  assert (Hid : idle h (cn w) (lp w) → idle h' (cn w) (put_channel c (f ch) (lp w))).
  { intros Hid p Ep. rewrite Ec in Ep. injection Ep as <-. destruct (Hid c Ec) as (ch0 & Hg0 & Hw0 & Hn).
    rewrite Hg in Hg0. injection Hg0 as <-. exists (f ch). rewrite (to_get _ _ _ _ T), <- (to_has _ _ _ _ T). auto. }
  split; [|split; [done|]; cbn; apply (to_remove _ _ _ _ T)].
  assert (Ho : owned (set_lp (put_channel c (f ch) (lp w)) w) = owned w).
  { unfold owned. cbn. rewrite Ec, (to_get _ _ _ _ T), Hg, E1. done. }
  split_and!; [|by apply ledger_same|done].
  split; cbn; try done; [apply (to_inv _ _ _ _ T)|by rewrite (to_thread _ _ _ _ T)|].
  destruct (state_ (cn w)); [by apply Hid| |destruct Hst; auto].
  destruct Hst as (Em & c' & ch0 & Ec' & Hg0 & Hw0 & Hh & Hfd). split; [done|]. simplify_eq.
  exists c', (f ch0). unfold busy. cbn. rewrite (to_get _ _ _ _ T), <- (to_has _ _ _ _ T), E1. auto.
Qed.

Lemma flag_ok h v w c :
  inv_with h w → channel_ (cn w) = Some c →
  ∃ w', modify c (set_eventHandling v) w = Ok w' ∧ kept v w w' ∧ cn w' = cn w ∧
    (∀ c2, can_remove (lp w) c2 → can_remove (lp w') c2).
Proof.
  intros I Ec. destruct (any_channel _ _ _ I Ec) as (ch & _ & _ & Hg & _).
  apply (connector_touch_ok h v (set_eventHandling v) w c ch); try done.
  intros ev a (? & ? & ? & ? & ? & ? & ? & ?). split_and!; done.
Qed.

(** One of the tests of [handleEventWithGuard]. *)
Lemma dispatch_eq h fires slot cb w c :
  inv_with h w → channel_ (cn w) = Some c → (∀ ev a ch, wired h ev a ch → slot ch = cb) →
  ∃ b : bool, dispatch run_callback c fires slot w = if b then call run_callback cb w else Ok w.
Proof.
  intros I Ec Hs. destruct (any_channel _ _ _ I Ec) as (ch & ev & a & Hg & Hw).
  exists (fires (revents_ ch)). unfold dispatch, deref. cbn. rewrite Hg. cbn. by rewrite (Hs _ _ _ Hw).
Qed.

Lemma connector_kept_trans h1 h2 w1 w2 w3 : kept h1 w1 w2 → kept h2 w2 w3 → kept h2 w1 w3.
Proof. intros (_ & L1 & E1) (I & L2 & E2). split_and!; [done|by eapply ledger_trans|congruence]. Qed.

Lemma connector_guarded_ok w c :
  inv_with false w → state_ (cn w) = kConnecting → channel_ (cn w) = Some c → can_remove (lp w) c →
  safely (handleEventWithGuard run_callback c w) (kept false w).
Proof.
  intros I Es Ec Hr. unfold handleEventWithGuard.
  destruct (flag_ok false true w c I Ec) as (w1 & -> & K1 & E1 & Hr1). rewrite bind_Ok.
  pose proof K1 as (I1 & _ & Ec1). rewrite Ec in Ec1.
  destruct (dispatch_eq true close_fires closeCallback_ None w1 c I1 Ec1) as [b1 ->];
    [by intros ? ? ? (_ & _ & _ & _ & _ & ? & _)|].
  assert ((if b1 then call run_callback None w1 else Ok w1) = Ok w1) as -> by (by destruct b1). rewrite bind_Ok.
  destruct (dispatch_eq true error_fires errorCallback_ (Some (bind_handler HandleError)) w1 c I1 Ec1) as [b2 ->];
    [by intros ? ? ? (_ & _ & _ & _ & _ & _ & _ & ?)|].
  apply safely_bind.
  eapply (safely_mono _ (λ w2, kept true w1 w2 ∧ (w2 = w1 ∨ state_ (cn w2) = kDisconnected))).
  { destruct b2; cbn; [|split; [by apply connector_kept_refl|by left]]. unfold run_callback. rewrite decode_bind.
    eapply safely_mono; [apply (handleError_ok true w1 c); auto; by rewrite E1|]. intros w2 [? ?]. auto. }
  intros w2 [K2 Hw2]. pose proof K2 as (I2 & _ & Ec2). rewrite Ec1 in Ec2.
  destruct (dispatch_eq true read_fires readCallback_ None w2 c I2 Ec2) as [b3 ->];
    [by intros ? ? ? (_ & _ & _ & _ & ? & _)|].
  assert ((if b3 then call run_callback None w2 else Ok w2) = Ok w2) as -> by (by destruct b3). rewrite bind_Ok.
  destruct (dispatch_eq true write_fires writeCallback_ (Some (bind_handler HandleWrite)) w2 c I2 Ec2) as [b4 ->];
    [by intros ? ? ? (_ & _ & _ & _ & _ & _ & ? & _)|].
  apply safely_bind. eapply (safely_mono _ (kept true w2)).
  { destruct b4; cbn; [|by apply connector_kept_refl]. unfold run_callback. rewrite decode_bind. cbn.
    destruct Hw2 as [->|Hd]; [apply (connector_handleWrite_ok true w1 c); auto; by rewrite E1|].
    rewrite handleWrite_late by done. by apply connector_kept_refl. }
  intros w3 K3. pose proof K3 as (I3 & _ & Ec3). rewrite Ec2 in Ec3.
  destruct (flag_ok true false w3 c I3 Ec3) as (w4 & -> & K4 & _). cbn.
  eapply connector_kept_trans; [exact K1|]. eapply connector_kept_trans; [exact K2|]. by eapply connector_kept_trans.
Qed.

Lemma connector_dispatch_ok r w c :
  inv_with false w → state_ (cn w) = kConnecting → channel_ (cn w) = Some c → can_remove (lp w) c →
  safely (dispatch_events r w) (kept false w).
Proof.
  intros I Es Ec Hr. unfold dispatch_events. rewrite Ec.
  destruct (any_channel _ _ _ I Ec) as (ch & _ & _ & Hg & _).
  destruct (connector_touch_ok false false (set_revents r) w c ch I Ec Hg) as (w1 & -> & K1 & E1 & Hr1); try done.
  rewrite bind_Ok. pose proof K1 as (I1 & _ & Ec1). rewrite Ec in Ec1.
  destruct (any_channel _ _ _ I1 Ec1) as (ch1 & ev & a & Hg1 & _ & _ & _ & Htie & _).
  unfold handleEvent, deref. cbn. rewrite Hg1. cbn. rewrite Htie.
  eapply safely_mono; [apply connector_guarded_ok; auto; by rewrite E1|]. intros w2 K2. by eapply connector_kept_trans.
Qed.

(** * Stopping, and the end of a channel *)
Lemma stop_ok w : inv_with false w → safely (stop w) (λ w', inv_with false w' ∧ ledger w w').
Proof.
  intros [I Ht Hcb Hd Htm Hst]. unfold stop. cbn.
  destruct (queue_law (bind_functor FStopInLoop) (lp w)) as (l' & -> & _ & SL). cbn. split.
  - split; cbn; try done; [by apply (sl_inv _ _ SL)|by rewrite (sl_thread _ _ SL)|].
    destruct (state_ (cn w)); [by apply (idle_same_loop _ _ _ _ SL)| |].
    + destruct Hst as (Em & c & ch & Ec & Hg & Hw & Hh & Hfd). split; [done|]. exists c, ch. unfold busy. cbn.
      rewrite (sl_get _ _ SL), <- (sl_has _ _ SL). auto.
    + destruct Hst as [? Hid]. split; [done|]. by apply (idle_same_loop _ _ _ _ SL).
  - apply ledger_same; try done. unfold owned. cbn. destruct (state_ (cn w)), (channel_ (cn w)); try done.
    by rewrite (sl_get _ _ SL).
Qed.

Lemma stopInLoop_ok w :
  inv_with false w → (∀ c, channel_ (cn w) = Some c → state_ (cn w) = kConnecting → can_remove (lp w) c) →
  safely (stopInLoop w) (λ w', inv_with false w' ∧ ledger w w').
Proof.
  intros I Hr. unfold stopInLoop, assertInLoopThread. rewrite (iv_thread _ _ I). cbn.
  case_bool_decide as Es; [|split; [done|apply ledger_refl]].
  pose proof (iv_state _ _ I) as Hst. rewrite Es in Hst. destruct Hst as (_ & c & ch & B). pose proof B as [Ec _].
  apply safely_bind. eapply safely_mono.
  { apply (removeAndReset_ok false (on_cn (setState kDisconnected) w) c ch); [apply I|apply I|exact B|]. by apply Hr. }
  intros r (l' & -> & Il & Htl & Hid).
  destruct (give_up_ok false w c ch (os w) I Es B (Hr c Ec Es) l' Il Htl Hid eq_refl (setState kDisconnected (cn w)))
    as (Iw & _ & Hl); [by right|]. by split.
Qed.

(** The destructor of the channel finds it unregistered and not in use. *)
Lemma resetChannel_ok w :
  inv_with false w → state_ (cn w) ≠ kConnecting →
  ∃ w', resetChannel w = Ok w' ∧ inv_with false w' ∧ ledger w w' ∧ channel_ (cn w') = None.
Proof.
  intros I Hs. unfold resetChannel. destruct (channel_ (cn w)) as [c|] eqn:Ec.
  2:{ exists w. split_and!; try done. apply ledger_refl. }
  assert (Hid : idle false (cn w) (lp w)).
  { pose proof (iv_state _ _ I) as Hst. destruct (state_ (cn w)); [done|done|apply Hst]. }
  destruct (Hid c Ec) as (ch & Hg & (_ & Eh & Ea & _) & Hn). unfold deref. rewrite Hg, (iv_thread _ _ I). cbn.
  destruct (loop_has_law (lp w) c ch (iv_loop _ _ I) (iv_thread _ _ I) Hg) as (b & -> & Hb). cbn.
  unfold channel_dtor. rewrite Eh, Ea. cbn. destruct b; [exfalso; by apply Hn, Hb|]. cbn.
  eexists. split; [done|]. destruct I as [? ? ? ? ? Hst]. split_and!; [|apply ledger_same; try done|done].
  - split; cbn; try done. destruct (state_ (cn w)); [by apply idle_none|done|]. split; [apply Hst|by apply idle_none].
  - by rewrite !owned_idle.
Qed.

(** * Starting *)
Lemma startInLoop_ok chan w :
  inv_with false w → at_rest w → room chan w →
  safely (startInLoop chan w) (λ w', inv_with false w' ∧ ledger w w').
Proof.
  intros I R Hroom. unfold startInLoop, assertInLoopThread. rewrite (iv_thread _ _ I). cbn.
  rewrite bool_decide_eq_true_2 by apply R. cbn. destruct (connect_ (cn w)); [by apply connect_ok|].
  split; [done|apply ledger_refl].
Qed.

(** Changing what the invariant does not look at. *)
Lemma at_rest_with (g : Connector → Connector) w :
  inv_with false w → at_rest w → (∃ k, retryDelayMs_ (g (cn w)) = backoff k) →
  newConnectionCallback_ (g (cn w)) = true → state_ (g (cn w)) = kDisconnected → channel_ (g (cn w)) = None →
  inv_with false (on_cn g w) ∧ at_rest (on_cn g w) ∧ owned (on_cn g w) = ∅.
Proof.
  intros [I Ht Hcb Hd Htm Hst] (Es & Em & Ec) Hd' Hcb' Es' Ec'. split_and!; [|done|by apply owned_idle; cbn; rewrite Es'].
  split; cbn; try done. rewrite Es'. by apply idle_none.
Qed.

Lemma ledger_from (w0 w w' : W) :
  handed w0 = handed w → open_fds (os w0) = open_fds (os w) → owned w0 = owned w → ledger w0 w' → ledger w w'.
Proof. intros E1 E2 E3 (n & Eh & Eo & Ed). exists n. by rewrite <- E1, <- E2, <- E3. Qed.

Lemma connector_start_ok chan w :
  inv_with false w → at_rest w → room chan w → safely (start chan w) (λ w', inv_with false w' ∧ ledger w w').
Proof.
  intros I R Hroom. unfold start. cbn. rewrite (iv_thread _ _ I).
  destruct (at_rest_with (set_connect true) w I R) as (I' & R' & _); try apply I; try apply R.
  eapply safely_mono; [by apply startInLoop_ok|]. intros w' [? Hl]. split; [done|].
  eapply ledger_from; [..|exact Hl]; done.
Qed.

Lemma connector_restart_ok chan w :
  inv_with false w → state_ (cn w) ≠ kConnecting → timers w = [] → channel_ (cn w) = None → room chan w →
  safely (restart chan w) (λ w', inv_with false w' ∧ ledger w w').
Proof.
  intros I Hs Em Ec Hroom. unfold restart, assertInLoopThread. rewrite (iv_thread _ _ I). cbn.
  set (w1 := on_cn (set_connect true) _).
  assert (I1 : inv_with false w1).
  { destruct I as [? ? ? ? ? _]. split; cbn; try done; [by exists O|]. by apply idle_none. }
  eapply safely_mono; [by apply startInLoop_ok|]. intros w' [? Hl]. split; [done|].
  eapply ledger_from; [..|exact Hl]; try done. by rewrite !owned_idle.
Qed.

(** The retry timer fires. *)
Definition timer_fires (chan : ChannelPtr) w : outcome W := startInLoop chan (set_timers (tail (timers w)) w).

Lemma timer_ok chan w :
  inv_with false w → timers w ≠ [] → channel_ (cn w) = None → room chan w →
  safely (timer_fires chan w) (λ w', inv_with false w' ∧ ledger w w').
Proof.
  intros I Ht Ec Hroom. unfold timer_fires.
  assert (Es : state_ (cn w) = kDisconnected).
  { pose proof (iv_state _ _ I) as Hst. destruct (state_ (cn w)); [done| |]; by destruct Hst. }
  assert (Em : tail (timers w) = []) by (by destruct (iv_timers _ _ I) as [->|[k ->]]).
  eapply safely_mono; [apply startInLoop_ok; [|by split_and!|done]|].
  - destruct I as [? ? ? ? ? Hst]. split; cbn; try done; [by left|]. rewrite Es in *. done.
  - intros w' [? Hl]. split; [done|]. eapply ledger_from; [..|exact Hl]; done.
Qed.

(** * Every move *)
Inductive action := Start | Stop | Restart | TimerFires | RunFunctor (f : functor) | Events (r : Z).

(** [chan] is where the allocator puts the next channel object. *)
Definition perform (a : action) (chan : ChannelPtr) w : outcome W :=
  match a with
  | Start => start chan w
  | Stop => stop w
  | Restart => restart chan w
  | TimerFires => timer_fires chan w
  | RunFunctor f => run_functor chan f w
  | Events r => dispatch_events r w
  end.

(** When a move can happen: the contract of the public methods, and what the order of the
    loop's work guarantees (a queued [resetChannel] runs before the next timer fires). *)
Definition enabled (a : action) (chan : ChannelPtr) w : Prop :=
  match a with
  | Start | RunFunctor FStartInLoop => at_rest w ∧ room chan w
  | Stop => True
  | Restart => state_ (cn w) ≠ kConnecting ∧ timers w = [] ∧ channel_ (cn w) = None ∧ room chan w
  | TimerFires => timers w ≠ [] ∧ channel_ (cn w) = None ∧ room chan w
  | RunFunctor FStopInLoop =>
      ∀ c, channel_ (cn w) = Some c → state_ (cn w) = kConnecting → can_remove (lp w) c
  | RunFunctor FResetChannel => state_ (cn w) ≠ kConnecting
  | Events r => state_ (cn w) = kConnecting ∧ ∀ c, channel_ (cn w) = Some c → can_remove (lp w) c
  end.

Lemma perform_ok a chan w :
  inv_with false w → enabled a chan w →
  safely (perform a chan w) (λ w', inv_with false w' ∧ ledger w w').
Proof.
  intros I He. destruct a as [| | | |f|r]; cbn in *.
  - destruct He. by apply connector_start_ok.
  - by apply stop_ok.
  - apply connector_restart_ok; naive_solver.
  - apply timer_ok; naive_solver.
  - destruct f; cbn in *; [destruct He; by apply startInLoop_ok|by apply stopInLoop_ok|].
    destruct (resetChannel_ok w I He) as (w' & -> & I' & Hl & _). done.
  - destruct He as [Es Hr]. pose proof (iv_state _ _ I) as Hst. rewrite Es in Hst.
    destruct Hst as (_ & c & ch & Ec & _).
    eapply safely_mono; [by apply (connector_dispatch_ok r w c); auto|]. by intros w' (? & ? & _).
Qed.

(** A move of the connector, or of the rest of the program: it leaves the connector's channel
    and descriptor alone. *)
Inductive turn : W → W → Prop :=
| turn_action a chan w w' : enabled a chan w → perform a chan w = Ok w' → turn w w'
| turn_elsewhere w l k : same_loop (lp w) l → owned w ⊆ open_fds k → turn w (set_lp l (set_os k w)).

Lemma connector_turn_ok w w' : inv_with false w → turn w w' → inv_with false w'.
Proof.
  intros I Ht. destruct Ht as [a chan w w' He E|w l k SL Ho].
  - eapply (safely_ok _ (inv_with false)); [exact E|].
    eapply safely_mono; [by apply perform_ok|]. by intros w2 [? _].
  - destruct I as [Il Htl Hcb Hd Htm Hst]. split; cbn; try done.
    + by apply (sl_inv _ _ SL).
    + by rewrite (sl_thread _ _ SL).
    + destruct (state_ (cn w)) eqn:Es; [by apply (idle_same_loop _ _ _ _ SL)| |].
      * destruct Hst as (Em & c & ch & B). split; [done|]. exists c, ch.
        pose proof (owned_busy _ _ _ _ B Es) as Ow. destruct B as (Ec & Hg & Hw & Hh & _). unfold busy. cbn.
        rewrite (sl_get _ _ SL), <- (sl_has _ _ SL). split_and!; try done. set_solver.
      * destruct Hst as [? Hid]. split; [done|]. by apply (idle_same_loop _ _ _ _ SL).
Qed.

(** A connector that was just made, with its callback installed. *)
Lemma new_connector_ok addr (l : L) (k : kernel) :
  loop_inv l → isInLoopThread l = true →
  let w := mkWorld (setNewConnectionCallback (new_Connector addr)) l k [] [] in
  inv_with false w ∧ at_rest w ∧ owned w = ∅.
Proof.
  intros I Ht. split_and!; try done. split; cbn; try done; [by exists O|by left].
Qed.

(** * Where the contract ends *)
Lemma connecting_timers chan fd w w' : connecting chan fd w = Ok w' → timers w' = timers w.
Proof. unfold connecting. intros E. inv_ok. done. Qed.

(** An attempt under way was started without touching the timers. *)
Lemma connect_timers chan w w' :
  connect chan w = Ok w' → state_ (cn w) = kDisconnected → state_ (cn w') = kConnecting → timers w' = timers w.
Proof.
  unfold connect. destruct (createNonblockingOrDie _ _) as [k fd], (SocketsOps.connect _ _ _) as [k2 ret].
  intros E Es Es'. destruct (in_progress _); [by apply connecting_timers in E|].
  destruct (worth_retrying _); injection E as <-; [|cbn in Es'; congruence].
  unfold retry in Es'. cbn in Es'. by destruct (connect_ (cn w)).
Qed.

(** A timer that was set before [stop] finds the attempt of a later [start]. *)
Lemma timer_while_connecting chan w :
  isInLoopThread (lp w) = true → state_ (cn w) = kConnecting → timer_fires chan w = Fail AssertFailure.
Proof.
  intros Ht Es. unfold timer_fires, startInLoop, assertInLoopThread. cbn. rewrite Ht, Es. done.
Qed.

Lemma start_unless_disconnected chan w :
  isInLoopThread (lp w) = true → state_ (cn w) ≠ kDisconnected → start chan w = Fail AssertFailure.
Proof.
  intros Ht Es. unfold start, startInLoop, assertInLoopThread. cbn. rewrite Ht. cbn.
  by rewrite bool_decide_eq_false_2.
Qed.
End run.
