(* ===== verification/EventLoopThreadPool.v ===== *)
(** The I/O threads of a server: networker/net/EventLoopThreadPool.h and EventLoopThreadPool.cpp.

    Loops are named by their addresses.  [runs] says whether the calling thread is the one that
    runs a loop; where the loops of the new threads live is the argument of [pool_start]
    (EventLoopThread.v is about how a new thread hands its loop over). *)
From S2P Require Import Prelude.
From S2P Require Import Format.
From S2P Require Import StringPiece.

(** An [EventLoop*]. *)
Abbreviation LoopPtr := Z.

Record EventLoopThreadPool := mkPool {
  baseLoop_ : LoopPtr;
  name_ : list byte;
  started_ : bool;
  numThreads_ : Z;
  next_ : Z;
  threads_ : list (list byte);       (** the names of the threads *)
  loops_ : list LoopPtr
}.

Definition new_pool (baseLoop : LoopPtr) (nameArg : list byte) : EventLoopThreadPool :=
  mkPool baseLoop nameArg false 0 0 [] [].

Definition setThreadNum (numThreads : Z) (p : EventLoopThreadPool) : EventLoopThreadPool :=
  mkPool (baseLoop_ p) (name_ p) (started_ p) numThreads (next_ p) (threads_ p) (loops_ p).

Section pool.
  (** The loop whose thread executes the code. *)
  Variable here : LoopPtr.
  Implicit Types p : EventLoopThreadPool.

(** [baseLoop_->assertInLoopThread()]. *)
Definition assert_base p : outcome unit := if here =? baseLoop_ p then Ok tt else Fail FatalLog.

(** The name of the [i]-th thread, through a buffer of the pool's name and 32 bytes. *)
Definition thread_name p (i : Z) : list byte :=
  (snprintf (zlen (name_ p) + 32) (until_nul (name_ p) ++ decimal i)).1.

(** The [for] of [start]: the threads number [i], [i + 1], ... whose loops are [fresh]. *)
Fixpoint start_threads (i : Z) (fresh : list LoopPtr) p : EventLoopThreadPool :=
  match fresh with
  | [] => p
  | l :: fresh =>
      start_threads (i + 1) fresh
        (mkPool (baseLoop_ p) (name_ p) (started_ p) (numThreads_ p) (next_ p)
           (threads_ p ++ [thread_name p i]) (loops_ p ++ [l]))
  end.

(** [start(cb)]: the pool and the loops the initialisation callback is called with. *)
Definition pool_start (cb : bool) (fresh : nat → LoopPtr) p : outcome (EventLoopThreadPool * list LoopPtr) :=
  _ ← require (negb (started_ p));
  _ ← assert_base p;
  let p := mkPool (baseLoop_ p) (name_ p) true (numThreads_ p) (next_ p) (threads_ p) (loops_ p) in
  let new := fresh <$> seq 0 (Z.to_nat (numThreads_ p)) in
  let p := start_threads 0 new p in
  Ok (p, if cb then if numThreads_ p =? 0 then [baseLoop_ p] else new else []).

Definition set_next (n : Z) p : EventLoopThreadPool :=
  mkPool (baseLoop_ p) (name_ p) (started_ p) (numThreads_ p) n (threads_ p) (loops_ p).

(** [loops_[i]] of the vector. *)
Definition loop_at (i : Z) p : outcome LoopPtr :=
  match loops_ p !! Z.to_nat i with
  | Some l => if 0 <=? i then Ok l else Fail UndefinedBehaviour
  | None => Fail UndefinedBehaviour
  end.

Definition getNextLoop p : outcome (LoopPtr * EventLoopThreadPool) :=
  _ ← assert_base p;
  _ ← require (started_ p);
  if bool_decide (loops_ p = []) then Ok (baseLoop_ p, p) else
  loop ← loop_at (next_ p) p;
  let p := set_next (next_ p + 1) p in
  Ok (loop, if zlen (loops_ p) <=? next_ p then set_next 0 p else p).

Definition getLoopForHash (hashCode : Z) p : outcome LoopPtr :=
  _ ← assert_base p;
  if bool_decide (loops_ p = []) then Ok (baseLoop_ p) else loop_at (hashCode mod zlen (loops_ p)) p.

Definition getAllLoops p : outcome (list LoopPtr) :=
  _ ← assert_base p;
  _ ← require (started_ p);
  Ok (if bool_decide (loops_ p = []) then [baseLoop_ p] else loops_ p).

(** The loops that [k] calls of [getNextLoop] answer, one after the other. *)
Fixpoint next_loops (k : nat) p : outcome (list LoopPtr * EventLoopThreadPool) :=
  match k with
  | O => Ok ([], p)
  | S k => '(l, p) ← getNextLoop p; '(ls, p) ← next_loops k p; Ok (l :: ls, p)
  end.

(** * Round robin *)

(** The cursor is an index of the vector. *)
Record pool_ok p : Prop := {
  po_here : here = baseLoop_ p;
  po_started : started_ p = true;
  po_next : 0 ≤ next_ p ∧ (loops_ p = [] ∧ next_ p = 0 ∨ next_ p < zlen (loops_ p))
}.

(** The loops connections go to: those of the threads, or the base loop without threads. *)
Definition targets p : list LoopPtr := if bool_decide (loops_ p = []) then [baseLoop_ p] else loops_ p.

Lemma targets_nonempty p : 0 < zlen (targets p).
Proof. unfold targets. case_bool_decide as E; [done|]. destruct (loops_ p); [done|]. zlia. Qed.

Lemma assert_base_ok p : here = baseLoop_ p → assert_base p = Ok tt.
Proof. intros E. unfold assert_base. rewrite E. by rewrite Z.eqb_refl. Qed.

Lemma loop_at_ok i p l : 0 ≤ i → loops_ p !! Z.to_nat i = Some l → loop_at i p = Ok l.
Proof. intros Hi E. unfold loop_at. rewrite E. by rewrite (proj2 (Z.leb_le _ _)). Qed.

Lemma getNextLoop_ok p :
  pool_ok p → ∃ l p', getNextLoop p = Ok (l, p') ∧ targets p !! Z.to_nat (next_ p) = Some l ∧
    pool_ok p' ∧ targets p' = targets p ∧ next_ p' = (next_ p + 1) mod zlen (targets p).
Proof.
  intros [Hb Hs [H0 Hn]]. unfold getNextLoop. rewrite assert_base_ok, Hs by done. cbn. unfold targets.
  case_bool_decide as E.
  - assert (next_ p = 0) as E0 by (destruct Hn as [[_ ?]|Hn]; [done|rewrite E in Hn; zlia]). rewrite E0.
    do 2 eexists. split; [done|]. split; [done|]. rewrite bool_decide_eq_true_2 by done. split_and!; try done; auto.
  - destruct Hn as [[? _]|Hn]; [done|].
    destruct (lookup_lt_is_Some_2 (loops_ p) (Z.to_nat (next_ p))) as [l El]; [unfold zlen in Hn; lia|].
    rewrite (loop_at_ok _ _ l) by done. cbn. do 2 eexists. split; [done|]. split; [done|].
    destruct (Z.leb_spec (zlen (loops_ p)) (next_ p + 1)); cbn; rewrite bool_decide_eq_false_2 by done.
    + replace (next_ p + 1) with (zlen (loops_ p)) by lia. rewrite Z_mod_same by lia. split_and!; try done.
      split; cbn; try done. split; [lia|right; lia].
    + rewrite Z.mod_small by lia. split_and!; try done. split; cbn; try done. split; [lia|right; lia].
Qed.

Lemma next_loops_ok k p :
  pool_ok p → ∃ ls p', next_loops k p = Ok (ls, p') ∧ pool_ok p' ∧ targets p' = targets p ∧ length ls = k ∧
    next_ p' = (next_ p + Z.of_nat k) mod zlen (targets p) ∧
    ∀ i, (i < k)%nat → ls !! i = targets p !! Z.to_nat ((next_ p + Z.of_nat i) mod zlen (targets p)).
Proof.
  revert p. induction k as [|k IH]; intros p I.
  - exists [], p. cbn. pose proof I as [_ _ [H0 Hn]]. split_and!; try done; [|lia]. rewrite Z.add_0_r.
    symmetry. apply Z.mod_small. split; [done|]. destruct Hn as [[E ->]|Hn]; [apply targets_nonempty|].
    unfold targets. case_bool_decide as E; [rewrite E in Hn; zlia|done].
  - destruct (getNextLoop_ok p I) as (l & p1 & E1 & El & I1 & Et1 & En1). cbn. rewrite E1. cbn.
    destruct (IH p1 I1) as (ls & p2 & -> & I2 & Et2 & Hl & En2 & Hls). cbn.
    exists (l :: ls), p2. rewrite Et1 in *. pose proof (targets_nonempty p) as Hpos. split_and!; try done.
    + cbn. by rewrite Hl.
    + rewrite En2, En1, Zplus_mod_idemp_l. f_equal. lia.
    + intros [|i] Hi; cbn.
      * rewrite Z.add_0_r, Z.mod_small, El; [done|]. pose proof (po_next _ I) as [H0 Hn]. split; [done|].
        apply lookup_lt_Some in El. unfold zlen. lia.
      * rewrite Hls by lia. rewrite En1, Zplus_mod_idemp_l. do 3 f_equal. lia.
Qed.

(** * Starting *)
Lemma start_threads_fields i new p :
  loops_ (start_threads i new p) = loops_ p ++ new ∧
  baseLoop_ (start_threads i new p) = baseLoop_ p ∧ started_ (start_threads i new p) = started_ p ∧
  next_ (start_threads i new p) = next_ p ∧ numThreads_ (start_threads i new p) = numThreads_ p ∧
  name_ (start_threads i new p) = name_ p ∧
  threads_ (start_threads i new p) = threads_ p ++ ((λ j, thread_name p (i + Z.of_nat j)) <$> seq 0 (length new)).
Proof.
  revert i p. induction new as [|l new IH]; intros i p; cbn [start_threads]; [cbn; by rewrite !app_nil_r|].
  destruct (IH (i + 1) (mkPool (baseLoop_ p) (name_ p) (started_ p) (numThreads_ p) (next_ p)
    (threads_ p ++ [thread_name p i]) (loops_ p ++ [l]))) as (-> & -> & -> & -> & -> & -> & ->).
  cbn [loops_ baseLoop_ started_ next_ numThreads_ name_ threads_]. rewrite <- !app_assoc. split_and!; try done. f_equal. change (length (l :: new)) with (S (length new)).
  cbn [seq]. rewrite <- fmap_S_seq, fmap_cons, Z.add_0_r, <- list_fmap_compose. cbn [app]. f_equal.
  apply list_fmap_ext. intros j x _. cbn [compose]. rewrite Nat2Z.inj_succ.
  by replace (i + Z.succ (Z.of_nat x)) with (i + 1 + Z.of_nat x) by lia.
Qed.

Lemma pool_start_ok cb fresh p :
  here = baseLoop_ p → started_ p = false → next_ p = 0 → loops_ p = [] →
  ∃ p' inits, pool_start cb fresh p = Ok (p', inits) ∧ pool_ok p' ∧ next_ p' = 0 ∧ baseLoop_ p' = baseLoop_ p ∧
    loops_ p' = fresh <$> seq 0 (Z.to_nat (numThreads_ p)).
Proof.
  intros Hb Hs Hn Hl. unfold pool_start. rewrite Hs. cbn. rewrite assert_base_ok by done. cbn.
  set (p1 := mkPool _ _ _ _ _ _ _).
  destruct (start_threads_fields 0 (fresh <$> seq 0 (Z.to_nat (numThreads_ p))) p1) as (E1 & E2 & E3 & E4 & _).
  do 2 eexists. split; [done|]. split_and!; [|by rewrite E4|by rewrite E2|by rewrite E1; cbn; rewrite Hl].
  split; rewrite ?E2, ?E3, ?E4; cbn; try done. rewrite E1, Hn. cbn. rewrite Hl. cbn. split; [lia|].
  destruct (Z.to_nat (numThreads_ p)); cbn; [by left|right]. zlia.
Qed.
End pool.
