(* ===== verification/Thread.v ===== *)
(** Threads: networker/base/Thread.h, Thread.cpp and Atomic.h.

    The operations are those of one thread; EventLoopThread.v interleaves them.  A wait that
    would block is said to block. *)
From S2P Require Import Prelude.
From S2P Require Import Format.
From S2P Require Import StringPiece.
From S2P Require Import CurrentThread.
From S2P Require Import CountDownLatch.

(** * AtomicIntegerT<int32_t>: each operation is one atomic step *)
Section atomic.
  Implicit Types v : Z.
(** The new value and the result. *)
Definition atomic_get v : Z * Z := (v, v).
Definition getAndAdd (x v : Z) : Z * Z := (i32 (v + x), v).
Definition addAndGet (x v : Z) : Z * Z := let '(v, r) := getAndAdd x v in (v, i32 (r + x)).
Definition incrementAndGet v : Z * Z := addAndGet 1 v.
Definition decrementAndGet v : Z * Z := addAndGet (-1) v.
Definition getAndSet (newValue v : Z) : Z * Z := (newValue, v).
End atomic.

(** The result of [addAndGet] is the value that it stored. *)
Lemma addAndGet_stores x v : in_i32 v → (addAndGet x v).1 = (addAndGet x v).2.
Proof. done. Qed.

(** * Thread *)
Record Thread := mkThread {
  started_ : bool;
  joined_ : bool;
  tid_ : Z;
  name_ : list byte;
  latch_ : Z                (** the count of [latch_] *)
}.

(** [Thread::Thread], with the counter [numCreated_] of the class; [setDefaultName]. *)
Definition setDefaultName (name : list byte) (numCreated : Z) : Z * list byte :=
  let '(numCreated, num) := incrementAndGet numCreated in
  (numCreated,
   if bool_decide (name = []) then (snprintf 32 (bytes_of_string "Thread" ++ decimal num)).1 else name).

Definition new_Thread (name : list byte) (numCreated : Z) : Z * Thread :=
  let '(numCreated, name) := setDefaultName name numCreated in
  (numCreated, mkThread false false 0 name 1).

(** [start]: [created] is whether pthread_create(3) succeeds.  It goes on to wait for the latch
    exactly when it does. *)
Definition thread_start (created : bool) (t : Thread) : outcome Thread :=
  _ ← require (negb (started_ t));
  Ok (mkThread created (joined_ t) (tid_ t) (name_ t) (latch_ t)).

(** The end of [start], once the latch let it pass. *)
Definition thread_started (t : Thread) : outcome Thread := _ ← require (0 <? tid_ t); Ok t.

(** The new thread's [runInThread]: its id, and then the latch. *)
Definition publish_tid (tid : Z) (t : Thread) : Thread :=
  mkThread (started_ t) (joined_ t) tid (name_ t) (latch_ t).
Definition count_down_latch (t : Thread) : Thread * bool :=
  let '(n, wake) := countDown (latch_ t) in (mkThread (started_ t) (joined_ t) (tid_ t) (name_ t) n, wake).

Definition join (t : Thread) : outcome Thread :=
  _ ← require (started_ t);
  _ ← require (negb (joined_ t));
  Ok (mkThread (started_ t) true (tid_ t) (name_ t) (latch_ t)).

(** [Thread::~Thread]: whether the thread is detached. *)
Definition thread_dtor (t : Thread) : bool := started_ t && negb (joined_ t).

(** * The new thread *)

(** How a thread function ends. *)
Inductive ended :=
| Returned
| ThrewException (ex : Exception)          (** [networker::Exception] *)
| ThrewStd (what : list byte)              (** another [std::exception] *)
| ThrewOther.

(** [ThreadData]: what the new thread needs.  [func] is the function; it starts with the locals
    of the thread and answers with them, what it printed on stderr, and how it ended. *)
Record ThreadData := mkThreadData {
  func_ : thread_locals → thread_locals * list byte * ended;
  data_name_ : list byte
}.

(** What becomes of the thread's function: it returned; the process was aborted; or the exception
    left the thread. *)
Inductive fate := Finished | Aborted | Rethrown.

Record thread_end := mkThreadEnd {
  end_thread : Thread;                (** the [Thread] object *)
  end_locals : thread_locals;
  end_comm : list byte;               (** the name that the kernel shows, set by prctl(2) *)
  end_stderr : list byte;
  end_fate : fate
}.

Definition set_threadName (name : list byte) (t : thread_locals) : thread_locals :=
  mkLocals (t_cachedTid t) (t_tidString t) (t_tidStringLength t) name.

(** PR_SET_NAME keeps 15 bytes. *)
Definition prctl_set_name (name : list byte) : list byte := ztake 15 (until_nul name).

(** The C string that [t_threadName] points to. *)
Definition thread_name_of (name : list byte) : list byte :=
  if bool_decide (name = []) then bytes_of_string "Thread" else until_nul name.

(** One line of the catch clauses. *)
Definition print_line (label : string) (text : list byte) : list byte :=
  bytes_of_string label ++ until_nul text ++ [Byte.x0a].

(** The three catch clauses, in their order. *)
Definition caught (name : list byte) (e : ended) : list byte * fate :=
  match e with
  | Returned => ([], Finished)
  | ThrewException ex =>
      (print_line "exception caught in Thread " name ++ print_line "reason: " (what ex) ++
       print_line "stack trace: " (exception_stackTrace ex), Aborted)
  | ThrewStd w => (print_line "exception caught in Thread " name ++ print_line "reason: " w, Aborted)
  | ThrewOther => (print_line "unknown exception caught in Thread " name, Rethrown)
  end.

Definition name_at_end (e : ended) : list byte :=
  match e with Returned => bytes_of_string "finished" | _ => bytes_of_string "crashed" end.

(** What happens before the function is called: the id, the latch, the names. *)
Definition enter_thread `{CurrentThread} (d : ThreadData) (t : Thread) (l : thread_locals) :
    Thread * thread_locals :=
  let '(id, l) := tid l in
  let t := publish_tid id t in
  let t := (count_down_latch t).1 in
  (t, set_threadName (thread_name_of (data_name_ d)) l).

(** [ThreadData::runInThread]. *)
Definition runInThread `{CurrentThread} (d : ThreadData) (t : Thread) (l : thread_locals) : thread_end :=
  let '(t, l) := enter_thread d t l in
  let comm := prctl_set_name (t_threadName l) in
  let '(l, printed, e) := func_ d l in
  let '(report, fate) := caught (data_name_ d) e in
  mkThreadEnd t (set_threadName (name_at_end e) l) comm (printed ++ report) fate.

(** [startThread]: a thread starts with fresh locals; the data object is deleted unless the
    function did not return. *)
Definition startThread `{CurrentThread} (d : ThreadData) (t : Thread) : thread_end * bool :=
  let r := runInThread d t initial_locals in
  (r, match end_fate r with Finished => true | _ => false end).

(** * Default names *)
Lemma default_name numCreated :
  0 ≤ numCreated < 2 ^ 31 - 1 →
  setDefaultName [] numCreated = (numCreated + 1, bytes_of_string "Thread" ++ decimal (numCreated + 1)).
Proof.
  intros Hn. unfold setDefaultName, incrementAndGet, addAndGet, getAndAdd.
  rewrite !i32_small by (unfold in_i32; lia). rewrite bool_decide_eq_true_2 by done.
  rewrite snprintf_fits; [done|].
  assert (10 ^ Z.of_nat 10 = 10000000000) as E by done.
  rewrite zlen_app. pose proof (decimal_digits 10 (numCreated + 1) ltac:(rewrite E; lia) ltac:(lia)).
  change (zlen (bytes_of_string "Thread")) with 6. lia.
Qed.
