(* ===== verification/EventLoopThread.v ===== *)
(** A thread with a loop of its own: networker/net/EventLoopThread.h and EventLoopThread.cpp,
    on top of Thread.cpp.

    The owner runs [startLoop] and later the destructor, the new thread runs [runInThread] and
    [threadFunc].  One step is one critical section or one action outside; a thread in
    [pthread_cond_wait] is asleep until it is notified, or wakes for no reason. *)
From S2P Require Import Prelude.
From S2P Require Import EventLoopThreadPool.
From S2P Require Import CountDownLatch.
From S2P Require Import Thread.

(** What the owner executes next. *)
Inductive owner :=
| OStart                 (** [thread_.start()] *)
| OLatch                 (** about to test the latch, in [CountDownLatch::wait] *)
| OLatchAsleep
| OStarted               (** [assert(tid_ > 0)] *)
| OTest                  (** [while (loop_ == NULL)] *)
| OAsleep                (** [cond_.wait()] *)
| OReturned (l : LoopPtr)   (** [startLoop] has returned [l] *)
| OQuit (l : LoopPtr)    (** the destructor saw [loop_ = l] *)
| OJoin                  (** [thread_.join()] *)
| OEnd.                  (** destroyed *)

(** What the new thread executes next. *)
Inductive worker :=
| WNone                  (** not created *)
| WBorn                  (** [*tid_ = CurrentThread::tid()] *)
| WCount                 (** [latch_->countDown()] *)
| WCallback              (** [callback_(&loop)] *)
| WPublish               (** [loop_ = &loop; cond_.notify()] *)
| WEnter                 (** [loop.loop()], about to execute [quit_ = false] *)
| WLoop                  (** in the [while] of [loop()] *)
| WExit                  (** [loop_ = NULL] *)
| WDone.

Record system := mkSystem {
  at_owner : owner;
  at_worker : worker;
  thread_ : Thread;
  loop_ : option LoopPtr;
  quit_ : bool;            (** the loop was told to quit *)
  exiting_ : bool
}.

Section steps.
  (** The loop on the new thread's stack, the thread's id; whether pthread_create may fail, whether
      the loop may be told to quit by somebody else, and whether the owner may tell it before the
      new thread has entered the [while] of [loop()]. *)
  Variables (the_loop : LoopPtr) (tid : Z) (create_may_fail others_quit early_quit : bool).

(** Notifications reach the owner if it is asleep on that condition. *)
Definition wake_latch (wake : bool) (o : owner) : owner :=
  match o with OLatchAsleep => if wake then OLatch else o | _ => o end.
Definition wake_owner (o : owner) : owner := match o with OAsleep => OTest | _ => o end.

(** The flag marks a wake-up without reason. *)
Inductive step : bool → system → system → Prop :=
| owner_creates t t' lp q x :
    thread_start true t = Ok t' → step false (mkSystem OStart WNone t lp q x) (mkSystem OLatch WBorn t' lp q x)
| owner_creates_not t t' lp q x :
    create_may_fail = true → thread_start false t = Ok t' →
    step false (mkSystem OStart WNone t lp q x) (mkSystem OTest WNone t' lp q x)
| owner_latch w t lp q x :
    step false (mkSystem OLatch w t lp q x)
      (mkSystem (if latch_blocks (latch_ t) then OLatchAsleep else OStarted) w t lp q x)
| owner_latch_spurious w t lp q x :
    step true (mkSystem OLatchAsleep w t lp q x) (mkSystem OLatch w t lp q x)
| owner_started w t t' lp q x :
    thread_started t = Ok t' → step false (mkSystem OStarted w t lp q x) (mkSystem OTest w t' lp q x)
| owner_test w t lp q x :
    step false (mkSystem OTest w t lp q x)
      (mkSystem (match lp with Some l => OReturned l | None => OAsleep end) w t lp q x)
| owner_spurious w t lp q x :
    step true (mkSystem OAsleep w t lp q x) (mkSystem OTest w t lp q x)
| owner_dtor l w t lp q x :
    step false (mkSystem (OReturned l) w t lp q x)
      (mkSystem (match lp with Some l' => OQuit l' | None => OEnd end) w t lp q true)
| owner_quit l w t lp q x :
    early_quit = true ∨ w ≠ WEnter →
    step false (mkSystem (OQuit l) w t lp q x) (mkSystem OJoin w t lp true x)
| owner_join t t' lp q x :
    join t = Ok t' → step false (mkSystem OJoin WDone t lp q x) (mkSystem OEnd WDone t' lp q x)
| worker_tid o t lp q x :
    step false (mkSystem o WBorn t lp q x) (mkSystem o WCount (publish_tid tid t) lp q x)
| worker_count o t t' wake lp q x :
    count_down_latch t = (t', wake) →
    step false (mkSystem o WCount t lp q x) (mkSystem (wake_latch wake o) WCallback t' lp q x)
| worker_callback o t lp q x :
    step false (mkSystem o WCallback t lp q x) (mkSystem o WPublish t lp q x)
| worker_publish o t lp q x :
    step false (mkSystem o WPublish t lp q x) (mkSystem (wake_owner o) WEnter t (Some the_loop) q x)
| worker_enter o t lp q x :
    step false (mkSystem o WEnter t lp q x) (mkSystem o WLoop t lp false x)
| worker_quits o t lp q x :
    q = true ∨ others_quit = true → step false (mkSystem o WLoop t lp q x) (mkSystem o WExit t lp q x)
| worker_exit o t lp q x :
    step false (mkSystem o WExit t lp q x) (mkSystem o WDone t None q x).

(** [startLoop] is about to be called. *)
Definition initial (s : system) : Prop :=
  ∃ name, s = mkSystem OStart WNone (mkThread false false 0 name 1) None false false.

(** Executions, with their number of steps and of wake-ups without reason. *)
Inductive runs : system → nat → nat → system → Prop :=
| runs_0 s : runs s 0 0 s
| runs_S b s n k s1 s2 :
    runs s n k s1 → step b s1 s2 → runs s (S n) (if b then S k else k) s2.

(** * Every execution is short *)
Definition owner_left (o : owner) : Z :=
  match o with
  | OStart => 20 | OLatch => 9 | OLatchAsleep => 8 | OStarted => 7 | OTest => 6 | OAsleep => 5
  | OReturned _ => 3 | OQuit _ => 2 | OJoin => 1 | OEnd => 0
  end.
Definition worker_left (w : worker) : Z :=
  match w with
  | WNone => 24 | WBorn => 21 | WCount => 18 | WCallback => 15 | WPublish => 12 | WEnter => 9 | WLoop => 6 | WExit => 3 | WDone => 0
  end.
Definition left (s : system) : Z := owner_left (at_owner s) + worker_left (at_worker s).

Lemma left_nonneg s : 0 ≤ left s.
Proof. unfold left. destruct (at_owner s), (at_worker s); cbn; lia. Qed.

(** * What is where *)

(** The owner is in [startLoop], past the creation of the thread. *)
Definition waiting (o : owner) : Prop :=
  match o with OLatch | OLatchAsleep | OStarted | OTest | OAsleep => True | _ => False end.

(** The situations an execution can be in when nothing fails and nobody else quits the loop. *)
Definition situation (s : system) : Prop :=
  let t := thread_ s in
  match at_worker s with
  | WNone => at_owner s = OStart ∧ started_ t = false ∧ joined_ t = false ∧ latch_ t = 1 ∧ quit_ s = false ∧ loop_ s = None
  | WBorn => (at_owner s = OLatch ∨ at_owner s = OLatchAsleep) ∧ started_ t = true ∧ joined_ t = false ∧
             latch_ t = 1 ∧ quit_ s = false ∧ loop_ s = None
  | WCount => (at_owner s = OLatch ∨ at_owner s = OLatchAsleep) ∧ started_ t = true ∧ joined_ t = false ∧
              latch_ t = 1 ∧ tid_ t = tid ∧ quit_ s = false ∧ loop_ s = None
  | WCallback | WPublish =>
      (at_owner s = OLatch ∨ at_owner s = OStarted ∨ at_owner s = OTest ∨ at_owner s = OAsleep) ∧
      started_ t = true ∧ joined_ t = false ∧ latch_ t = 0 ∧ tid_ t = tid ∧ quit_ s = false ∧ loop_ s = None
  | WEnter =>
      (at_owner s = OLatch ∨ at_owner s = OStarted ∨ at_owner s = OTest ∨ at_owner s = OReturned the_loop ∨
       at_owner s = OQuit the_loop) ∧ quit_ s = false ∧
      started_ t = true ∧ joined_ t = false ∧ latch_ t = 0 ∧ tid_ t = tid ∧ loop_ s = Some the_loop
  | WLoop =>
      (((at_owner s = OLatch ∨ at_owner s = OStarted ∨ at_owner s = OTest ∨ at_owner s = OReturned the_loop ∨
         at_owner s = OQuit the_loop) ∧ quit_ s = false) ∨ at_owner s = OJoin ∧ quit_ s = true) ∧
      started_ t = true ∧ joined_ t = false ∧ latch_ t = 0 ∧ tid_ t = tid ∧ loop_ s = Some the_loop
  | WExit => at_owner s = OJoin ∧ started_ t = true ∧ joined_ t = false
  | WDone => at_owner s = OJoin ∧ started_ t = true ∧ joined_ t = false ∨ at_owner s = OEnd ∧ joined_ t = true
  end.

Lemma step_left b s s' : step b s s' → left s' ≤ left s + (if b then 1 else -1).
Proof.
  unfold left. destruct 1; cbn; try lia.
  - destruct (latch_blocks _); cbn; lia.
  - destruct lp; cbn; lia.
  - destruct lp; cbn; lia.
  - destruct o, wake; cbn; lia.
  - destruct o; cbn; lia.
Qed.

Lemma runs_left s n k s' : runs s n k s' → left s' + Z.of_nat n ≤ left s + 2 * Z.of_nat k.
Proof.
  induction 1 as [s|b s n k s1 s2 _ IH Hs]; [lia|]. apply step_left in Hs. destruct b; lia.
Qed.

(** * Without failures the situations are the only ones *)
Lemma step_situation b s s' :
  create_may_fail = false → others_quit = false → early_quit = false → 0 < tid → situation s → step b s s' →
  situation s'.
Proof.
  intros Hcf Hoq Heq Htid Hsit Hs.
  destruct Hs; unfold situation in *; cbn in *;
    unfold thread_start, thread_started, join, count_down_latch, countDown, latch_blocks, wake_latch, wake_owner in *;
    cbn in *; inv_ok; bool_prop; simplify_eq; try congruence; try (destruct w); cbn in *; try naive_solver.
  all: first [assert (latch_ t = 1) as E by naive_solver|assert (latch_ t = 0) as E by naive_solver];
    rewrite E; cbn; try destruct o; naive_solver.
Qed.

(** Nothing is left to do: the thread was joined. *)
Definition finished (s : system) : Prop := at_owner s = OEnd ∧ at_worker s = WDone.

Lemma situation_progress s : 0 < tid → situation s → (∃ s', step false s s') ∨ finished s.
Proof.
  intros Htid. destruct s as [o w t lp q x]. unfold situation, finished. cbn. intros Hsit. destruct w.
  - left. destruct Hsit as (-> & Es & _). eexists. eapply owner_creates. unfold thread_start. by rewrite Es.
  - left. eexists. apply worker_tid.
  - left. destruct (count_down_latch t) as [t' wake] eqn:E. eexists. by eapply worker_count.
  - left. eexists. apply worker_callback.
  - left. eexists. apply worker_publish.
  - left. eexists. apply worker_enter.
  - left. destruct Hsit as (Ho & Es & _ & _ & Et & _). destruct Ho as [[[->|[->|[->|[->| ->]]]] _]|[-> ->]].
    + eexists. apply owner_latch.
    + eexists. eapply owner_started. unfold thread_started. by rewrite require_true by (rewrite Et; bsolve).
    + eexists. apply owner_test.
    + eexists. apply owner_dtor.
    + eexists. apply owner_quit. by right.
    + eexists. apply worker_quits. by left.
  - left. eexists. apply worker_exit.
  - destruct Hsit as [(-> & Es & Ej)|[-> _]]; [left|by right]. eexists. eapply owner_join. unfold join.
    by rewrite Es, Ej.
Qed.

Lemma initial_situation s : initial s → situation s.
Proof. by intros [name ->]. Qed.

Lemma runs_situation s n k s' :
  create_may_fail = false → others_quit = false → early_quit = false → 0 < tid → situation s → runs s n k s' →
  situation s'.
Proof.
  intros Hcf Hoq Heq Htid Hs R. induction R as [s|b s n k s1 s2 _ IH Hst]; [done|].
  by eapply (step_situation b s1); [| | | |apply IH|].
Qed.

(** * When something fails *)

(** [startLoop] sleeps and nobody will ever publish a loop. *)
Definition hung (s : system) : Prop :=
  loop_ s = None ∧ (at_worker s = WNone ∨ at_worker s = WDone) ∧ (at_owner s = OTest ∨ at_owner s = OAsleep).

Lemma hung_step b s s' : hung s → step b s s' → hung s'.
Proof. intros (Hl & Hw & Ho) Hs. unfold hung. destruct Hs; cbn in *; naive_solver. Qed.

Lemma hung_forever s n k s' : hung s → runs s n k s' → hung s'.
Proof.
  intros Hh R. induction R as [s|b s n k s1 s2 _ IH Hst]; [done|]. by eapply hung_step; [apply IH|].
Qed.

(** pthread_create fails: [start] only clears [started_]. *)
Lemma create_failure_hangs s :
  create_may_fail = true → initial s → ∃ n s', runs s n 0 s' ∧ hung s'.
Proof.
  intros Hc [name ->]. exists 1%nat. eexists. split.
  - eapply (runs_S false _ _ _ _ _ (runs_0 _)). by apply owner_creates_not.
  - split_and!; cbn; auto.
Qed.

(** Several steps of an execution without spurious wake-ups. *)
Lemma runs_snoc s n s1 s2 : runs s n 0 s1 → step false s1 s2 → runs s (S n) 0 s2.
Proof. intros R Hs. exact (runs_S false _ _ _ _ _ R Hs). Qed.

(** The new thread publishes its loop while the owner is still at the latch. *)
Lemma reach_publish name :
  runs (mkSystem OStart WNone (mkThread false false 0 name 1) None false false) 5 0
    (mkSystem OLatch WEnter (mkThread true false tid name 0) (Some the_loop) false false).
Proof.
  pose proof (runs_snoc _ _ _ _ (runs_0 _) (owner_creates (mkThread false false 0 name 1) _ None false false eq_refl)) as R1.
  pose proof (runs_snoc _ _ _ _ R1 (worker_tid _ _ _ _ _)) as R2. cbn in R2.
  pose proof (runs_snoc _ _ _ _ R2 (worker_count _ _ _ _ _ _ _ eq_refl)) as R3. cbn in R3.
  pose proof (runs_snoc _ _ _ _ R3 (worker_callback _ _ _ _ _)) as R4.
  exact (runs_snoc _ _ _ _ R4 (worker_publish _ _ _ _ _)).
Qed.

Lemma thread_started_ok name :
  0 < tid → thread_started (mkThread true false tid name 0) = Ok (mkThread true false tid name 0).
Proof. intros Ht. unfold thread_started. rewrite require_true; [done|cbn; bsolve]. Qed.

(** The loop ends before the owner has looked at [loop_]. *)
Lemma early_quit_hangs s : others_quit = true → 0 < tid → initial s → ∃ n s', runs s n 0 s' ∧ hung s'.
Proof.
  intros Hq Ht [name ->]. pose proof (reach_publish name) as R5.
  pose proof (runs_snoc _ _ _ _ R5 (worker_enter _ _ _ _ _)) as R6.
  pose proof (runs_snoc _ _ _ _ R6 (worker_quits _ _ _ _ _ (or_intror Hq))) as R7.
  pose proof (runs_snoc _ _ _ _ R7 (worker_exit _ _ _ _ _)) as R8.
  pose proof (runs_snoc _ _ _ _ R8 (owner_latch _ _ _ _ _)) as R9. cbn in R9.
  pose proof (runs_snoc _ _ _ _ R9 (owner_started _ _ _ _ _ _ (thread_started_ok _ Ht))) as R10.
  do 2 eexists. split; [exact R10|]. split_and!; cbn; auto.
Qed.

(** The owner destroys the object before its thread has entered [loop()]: [quit_ = false] there
    undoes [quit()]. *)
Definition join_hangs (s : system) : Prop :=
  at_owner s = OJoin ∧ at_worker s = WLoop ∧ quit_ s = false ∧ loop_ s = Some the_loop.

Lemma join_hangs_step b s s' : others_quit = false → join_hangs s → ¬ step b s s'.
Proof. intros Hoq (Ho & Hw & Hq & _) Hs. destruct Hs; cbn in *; naive_solver. Qed.

Lemma early_dtor_hangs s : early_quit = true → 0 < tid → initial s → ∃ n s', runs s n 0 s' ∧ join_hangs s'.
Proof.
  intros Hq Ht [name ->]. pose proof (reach_publish name) as R5.
  pose proof (runs_snoc _ _ _ _ R5 (owner_latch _ _ _ _ _)) as R6. cbn in R6.
  pose proof (runs_snoc _ _ _ _ R6 (owner_started _ _ _ _ _ _ (thread_started_ok _ Ht))) as R7.
  pose proof (runs_snoc _ _ _ _ R7 (owner_test _ _ _ _ _)) as R8. cbn in R8.
  pose proof (runs_snoc _ _ _ _ R8 (owner_dtor _ _ _ _ _ _)) as R9. cbn in R9.
  pose proof (runs_snoc _ _ _ _ R9 (owner_quit _ _ _ _ _ _ (or_introl Hq))) as R10.
  pose proof (runs_snoc _ _ _ _ R10 (worker_enter _ _ _ _ _)) as R11.
  do 2 eexists. split; [exact R11|]. by split_and!.
Qed.
End steps.
