(* ===== verification/TcpServer.v ===== *)
(** The server: networker/net/TcpServer.h and TcpServer.cpp.

    A server owns its acceptor (Acceptor.v), its I/O threads (EventLoopThreadPool.v) and the
    map of the connections that are up.  Connection objects live on a heap of their own, the
    functors that were queued in the loops of the server are one list; [here] is the loop whose
    thread executes the code.  What a connection does is the interface [ServedConnection]
    (ServedConnection.v implements it by TcpConnection.v). *)
From S2P Require Import Prelude.
From S2P Require Import Endian.
From S2P Require Import Format.
From S2P Require Import StringPiece.
From S2P Require Import CurrentThread.
From S2P Require Import Channel.
From S2P Require Import Loop.
From S2P Require Import SocketsOps.
From S2P Require Import InetAddress.
From S2P Require Import TcpConnection.
From S2P Require Import Socket.
From S2P Require Import Acceptor.
From S2P Require Import EventLoopThreadPool.

(** The keys of [connections_] are strings. *)
#[export] Instance byte_countable : Countable byte := inj_countable' byte_val byte_of byte_of_val.

(** * What the server needs from a connection *)
Definition is_open (s : StateE) : bool := bool_decide (s = kConnected) || bool_decide (s = kDisconnecting).

(** The operations are called in the thread of the connection's loop. *)
Class ServedConnection (C : Type) := {
  conn_state : C → StateE;
  conn_new : list byte → Z → sockaddr → sockaddr → outcome C;
  conn_established : C → outcome C;      (** [connectEstablished] *)
  conn_closed : C → outcome C;           (** [handleClose], up to the close callback *)
  conn_destroyed : C → outcome C         (** [connectDestroyed] *)
}.

(** * State *)

(** A [TcpConnection*]. *)
Abbreviation ConnPtr := Z.

Record entry (C : Type) := mkEntry {
  e_conn : C;
  e_name : list byte;
  e_loop : LoopPtr;
  e_fd : Z;
  e_destroyed : bool                     (** [connectDestroyed] has run *)
}.
Arguments mkEntry {C}. Arguments e_conn {C}. Arguments e_name {C}. Arguments e_loop {C}.
Arguments e_fd {C}. Arguments e_destroyed {C}.

(** The functors a server gives to loops. *)
Inductive functor :=
| FListen
| FConnectEstablished (c : ConnPtr)
| FConnectDestroyed (c : ConnPtr)
| FRemoveConnectionInLoop (c : ConnPtr).

#[export] Instance functor_eq_dec : EqDecision functor.
Proof. intros x y. unfold Decision. decide equality; apply Z.eq_dec. Defined.

Record TcpServer := mkServer {
  loop_ : LoopPtr;
  ipPort_ : list byte;
  name_ : list byte;
  threadPool_ : EventLoopThreadPool;
  started_ : Z;
  nextConnId_ : Z;
  connections_ : gmap (list byte) ConnPtr
}.

Record World (L C : Type) `{!SocketKernel} := mkWorld {
  srv : TcpServer;
  aw : Acceptor.World L;                 (** the acceptor, the base loop and the kernel *)
  conns : gmap ConnPtr (entry C);        (** the connection objects *)
  queue : list (LoopPtr * functor);      (** the functors queued and not yet run *)
  inits : list LoopPtr                   (** the calls of [threadInitCallback_] *)
}.
Arguments mkWorld {L C _}. Arguments srv {L C _}. Arguments aw {L C _}. Arguments conns {L C _}.
Arguments queue {L C _}. Arguments inits {L C _}.

(** * Field updates *)
Definition set_pool (p : EventLoopThreadPool) (s : TcpServer) : TcpServer :=
  mkServer (loop_ s) (ipPort_ s) (name_ s) p (started_ s) (nextConnId_ s) (connections_ s).
Definition set_started (v : Z) (s : TcpServer) : TcpServer :=
  mkServer (loop_ s) (ipPort_ s) (name_ s) (threadPool_ s) v (nextConnId_ s) (connections_ s).
Definition set_nextConnId (v : Z) (s : TcpServer) : TcpServer :=
  mkServer (loop_ s) (ipPort_ s) (name_ s) (threadPool_ s) (started_ s) v (connections_ s).
Definition set_connections (m : gmap (list byte) ConnPtr) (s : TcpServer) : TcpServer :=
  mkServer (loop_ s) (ipPort_ s) (name_ s) (threadPool_ s) (started_ s) (nextConnId_ s) m.

Section server.
  Context {CB F L C : Type} `{!Loop CB F L} `{!Host, !InetText, !SocketKernel} `{!AcceptorEnv CB}.
  Context `{!CurrentThread} `{!ServedConnection C}.
  Notation W := (World L C).
  Implicit Types w : W.

Definition on_srv (f : TcpServer → TcpServer) w : W := mkWorld (f (srv w)) (aw w) (conns w) (queue w) (inits w).
Definition set_aw (a : Acceptor.World L) w : W := mkWorld (srv w) a (conns w) (queue w) (inits w).
Definition set_conns (m : gmap ConnPtr (entry C)) w : W := mkWorld (srv w) (aw w) m (queue w) (inits w).
Definition set_queue (q : list (LoopPtr * functor)) w : W := mkWorld (srv w) (aw w) (conns w) q (inits w).
Definition queue_in_loop (l : LoopPtr) (f : functor) w : W := set_queue (queue w ++ [(l, f)]) w.

(** [TcpServer::TcpServer]: the acceptor is built first. *)
Definition new_TcpServer (loop : LoopPtr) (listenAddr : sockaddr) (nameArg : list byte) (reusePort : bool)
    (chan : ChannelPtr) (l : L) (k : kernel) : outcome W :=
  ipPort ← address_toIpPort listenAddr;
  a ← new_Acceptor listenAddr reusePort chan l k;
  let a := Acceptor.setNewConnectionCallback a in
  Ok (mkWorld (mkServer loop ipPort nameArg (new_pool loop nameArg) 0 1 ∅) a ∅ [] []).

Definition server_setThreadNum (numThreads : Z) w : outcome W :=
  _ ← require (0 <=? numThreads);
  Ok (on_srv (λ s, set_pool (setThreadNum numThreads (threadPool_ s)) s) w).

(** The connection object behind a pointer. *)
Definition deref_conn (c : ConnPtr) w : outcome (entry C) :=
  match conns w !! c with Some e => Ok e | None => Fail UndefinedBehaviour end.
Definition put_conn (c : ConnPtr) (e : entry C) (v : C) w : W :=
  set_conns (<[c := mkEntry v (e_name e) (e_loop e) (e_fd e) (e_destroyed e)]> (conns w)) w.

  Variable here : LoopPtr.

Definition assert_loop (l : LoopPtr) : outcome unit := if here =? l then Ok tt else Fail FatalLog.

(** [loop->runInLoop(f)]; [body] is what calling [f] does. *)
Definition run_in_loop (l : LoopPtr) (f : functor) (body : W → outcome W) w : outcome W :=
  if here =? l then body w else Ok (queue_in_loop l f w).

Definition listen w : outcome W := a ← Acceptor.listen (aw w); Ok (set_aw a w).

(** [start]; [fresh] are the loops of the new threads. *)
Definition start (cb : bool) (fresh : nat → LoopPtr) w : outcome W :=
  let old := started_ (srv w) in
  let w := on_srv (set_started 1) w in
  if old =? 0 then
    '(p, ini) ← pool_start here cb fresh (threadPool_ (srv w));
    let w := on_srv (set_pool p) w in
    let w := mkWorld (srv w) (aw w) (conns w) (queue w) (inits w ++ ini) in
    _ ← require (negb (listenning_ (acc (aw w))));
    run_in_loop (loop_ (srv w)) FListen listen w
  else Ok w.

Definition connectEstablished (c : ConnPtr) w : outcome W :=
  e ← deref_conn c w;
  _ ← assert_loop (e_loop e);
  v ← conn_established (e_conn e);
  Ok (put_conn c e v w).

Definition connectDestroyed (c : ConnPtr) w : outcome W :=
  e ← deref_conn c w;
  _ ← assert_loop (e_loop e);
  v ← conn_destroyed (e_conn e);
  Ok (set_conns (<[c := mkEntry v (e_name e) (e_loop e) (e_fd e) true]> (conns w)) w).

(** The suffix of a connection's name, as [snprintf] leaves it in the buffer of 64 bytes. *)
Definition connection_suffix (ipPort : list byte) (id : Z) : list byte :=
  (snprintf 64 (bytes_of_string "-" ++ until_nul ipPort ++ bytes_of_string "#" ++ decimal id)).1.

(** [newConnection]; the new connection object is at [ptr]. *)
Definition newConnection (ptr : ConnPtr) (sockfd : Z) (peerAddr : sockaddr) w : outcome W :=
  _ ← assert_loop (loop_ (srv w));
  '(ioLoop, p) ← getNextLoop here (threadPool_ (srv w));
  let w := on_srv (set_pool p) w in
  let buf := connection_suffix (ipPort_ (srv w)) (nextConnId_ (srv w)) in
  _ ← defined (nextConnId_ (srv w) + 1 <? 2 ^ 31);
  let w := on_srv (set_nextConnId (nextConnId_ (srv w) + 1)) w in
  let connName := name_ (srv w) ++ buf in
  let localAddr := getLocalAddr sockfd (os (aw w)) in
  conn ← conn_new connName sockfd localAddr peerAddr;
  let w := set_conns (<[ptr := mkEntry conn connName ioLoop sockfd false]> (conns w)) w in
  let w := on_srv (λ s, set_connections (<[connName := ptr]> (connections_ s)) s) w in
  run_in_loop ioLoop (FConnectEstablished ptr) (connectEstablished ptr) w.

Definition removeConnectionInLoop (c : ConnPtr) w : outcome W :=
  _ ← assert_loop (loop_ (srv w));
  e ← deref_conn c w;
  let n := match connections_ (srv w) !! e_name e with Some _ => 1 | None => 0 end in
  let w := on_srv (λ s, set_connections (delete (e_name e) (connections_ s)) s) w in
  _ ← require (n =? 1);
  Ok (queue_in_loop (e_loop e) (FConnectDestroyed c) w).

Definition removeConnection (c : ConnPtr) w : outcome W :=
  run_in_loop (loop_ (srv w)) (FRemoveConnectionInLoop c) (removeConnectionInLoop c) w.

Definition run_functor (f : functor) w : outcome W :=
  match f with
  | FListen => listen w
  | FConnectEstablished c => connectEstablished c w
  | FConnectDestroyed c => connectDestroyed c w
  | FRemoveConnectionInLoop c => removeConnectionInLoop c w
  end.

(** The loop [here] takes a functor from its queue and calls it. *)
Definition run_queued (q1 : list (LoopPtr * functor)) (f : functor) (q2 : list (LoopPtr * functor)) w : outcome W :=
  run_functor f (set_queue (q1 ++ q2) w).

(** The listening socket is readable: [Acceptor::handleRead] with the callback bound to
    [newConnection]. *)
Definition on_accept (ptr : ConnPtr) w : outcome W :=
  a ← Acceptor.handleRead (aw w);
  let w' := set_aw a w in
  match drop (length (handed (aw w))) (handed a) with
  | (connfd, peerAddr) :: _ => newConnection ptr connfd peerAddr w'
  | [] => Ok w'
  end.

(** A connection closes: its [closeCallback_] is bound to [removeConnection]. *)
Definition on_close (c : ConnPtr) w : outcome W :=
  e ← deref_conn c w;
  _ ← assert_loop (e_loop e);
  v ← conn_closed (e_conn e);
  removeConnection c (put_conn c e v w).

(** The last [shared_ptr] goes: [TcpConnection::~TcpConnection] and its socket's destructor. *)
Definition release (c : ConnPtr) w : outcome W :=
  e ← deref_conn c w;
  _ ← require (bool_decide (conn_state (e_conn e) = kDisconnected));
  Ok (set_conns (delete c (conns w)) (set_aw (set_os (socket_dtor (e_fd e) (os (aw w))) (aw w)) w)).

(** The [for] of [~TcpServer], over the map's entries. *)
Fixpoint destroy_all (cs : list ConnPtr) w : outcome W :=
  match cs with
  | [] => Ok w
  | c :: cs =>
      e ← deref_conn c w;
      w ← run_in_loop (e_loop e) (FConnectDestroyed c) (connectDestroyed c) w;
      destroy_all cs w
  end.

Definition server_dtor w : outcome W :=
  _ ← assert_loop (loop_ (srv w));
  w ← destroy_all (map_to_list (connections_ (srv w))).*2 w;
  Ok (on_srv (set_connections ∅) w).
End server.
