(* ===== verification/TcpClient.v ===== *)
(** The client: networker/net/TcpClient.h and TcpClient.cpp.

    A client owns its connector (Connector.v) and at most one connection, which it tells apart
    by the pointer [connection_].  Connection objects live on a heap of their own and are what
    the interface [ServedConnection] says; the functors the client queues in its loop are a list.
    The user's callbacks are handed on to the connection unread; the mutex only guards
    [connection_] and is left out. *)
From S2P Require Import Prelude.
From S2P Require Import Endian.
From S2P Require Import Format.
From S2P Require Import StringPiece.
From S2P Require Import CurrentThread.
From S2P Require Import Channel.
From S2P Require Import Loop.
From S2P Require Import SocketsOps.
From S2P Require Import InetAddress.
From S2P Require Import TcpConnection.
From S2P Require Import TcpServer.
From S2P Require Import Connector.

(** What a client calls besides. *)
Class ClientConnection (C : Type) := {
  conn_shutdown : C → outcome C;
  conn_forceClose : C → outcome C
}.

(** What [closeCallback_] of a connection is bound to: [TcpClient::removeConnection], or
    [detail::removeConnection] once the client is gone. *)
Inductive close_callback := RemoveByClient | RemoveByDetail.

Record client_entry (C : Type) := mkClientEntry {
  ce_conn : C;
  ce_name : list byte;
  ce_fd : Z;
  ce_close : close_callback;
  ce_destroyed : bool                    (** [connectDestroyed] has run *)
}.
Arguments mkClientEntry {C}. Arguments ce_conn {C}. Arguments ce_name {C}. Arguments ce_fd {C}.
Arguments ce_close {C}. Arguments ce_destroyed {C}.

(** The functors a client gives to its loop. *)
Inductive client_functor := ClientDestroyed (c : ConnPtr) | ClientSetCloseCallback (c : ConnPtr).

Record TcpClient := mkClient {
  client_name_ : list byte;
  retry_ : bool;
  client_connect_ : bool;
  client_nextConnId_ : Z;
  connection_ : option ConnPtr
}.

Record ClientWorld (L C : Type) `{!SocketKernel} := mkClientWorld {
  cl : option TcpClient;                 (** [None]: the client was destroyed *)
  cw : Connector.World L;                (** the connector, the loop and the kernel *)
  cconns : gmap ConnPtr (client_entry C);
  cqueue : list client_functor
}.
Arguments mkClientWorld {L C _}. Arguments cl {L C _}. Arguments cw {L C _}.
Arguments cconns {L C _}. Arguments cqueue {L C _}.

(** * Field updates *)
Definition set_retry (v : bool) (x : TcpClient) : TcpClient :=
  mkClient (client_name_ x) v (client_connect_ x) (client_nextConnId_ x) (connection_ x).
Definition set_client_connect (v : bool) (x : TcpClient) : TcpClient :=
  mkClient (client_name_ x) (retry_ x) v (client_nextConnId_ x) (connection_ x).
Definition set_client_id (v : Z) (x : TcpClient) : TcpClient :=
  mkClient (client_name_ x) (retry_ x) (client_connect_ x) v (connection_ x).
Definition set_connection (c : option ConnPtr) (x : TcpClient) : TcpClient :=
  mkClient (client_name_ x) (retry_ x) (client_connect_ x) (client_nextConnId_ x) c.

(** The suffix of a connection's name, as [snprintf] leaves it in the buffer of 32 bytes. *)
Definition client_suffix (ipPort : list byte) (id : Z) : list byte :=
  (snprintf 32 (bytes_of_string ":" ++ until_nul ipPort ++ bytes_of_string "#" ++ decimal id)).1.

Section client.
  Context {CB F L C : Type} `{!Loop CB F L} `{!Host, !InetText, !SocketKernel} `{!ConnectorEnv CB F L}.
  Context `{!CurrentThread} `{!ServedConnection C, !ClientConnection C}.
  Notation W := (ClientWorld L C).
  Implicit Types w : W.

Definition set_cl (x : TcpClient) w : W := mkClientWorld (Some x) (cw w) (cconns w) (cqueue w).
Definition set_cw (a : Connector.World L) w : W := mkClientWorld (cl w) a (cconns w) (cqueue w).
Definition set_cconns (m : gmap ConnPtr (client_entry C)) w : W := mkClientWorld (cl w) (cw w) m (cqueue w).
Definition set_cqueue (q : list client_functor) w : W := mkClientWorld (cl w) (cw w) (cconns w) q.
Definition client_queue (f : client_functor) w : W := set_cqueue (cqueue w ++ [f]) w.

(** [TcpClient::TcpClient]. *)
Definition new_TcpClient (serverAddr : sockaddr) (nameArg : list byte) (l : L) (k : kernel) : W :=
  mkClientWorld (Some (mkClient nameArg false true 1 None))
    (Connector.mkWorld (setNewConnectionCallback (new_Connector serverAddr)) l k [] []) ∅ [].

(** Using a destroyed client is undefined. *)
Definition the_client w : outcome TcpClient :=
  match cl w with Some x => Ok x | None => Fail UndefinedBehaviour end.

Definition client_deref (c : ConnPtr) w : outcome (client_entry C) :=
  match cconns w !! c with Some e => Ok e | None => Fail UndefinedBehaviour end.
Definition put_client_conn (c : ConnPtr) (e : client_entry C) (v : C) w : W :=
  set_cconns (<[c := mkClientEntry v (ce_name e) (ce_fd e) (ce_close e) (ce_destroyed e)]> (cconns w)) w.

(** [newConnection]; the new connection object is at [ptr].  It ends in
    [TcpConnection::connectEstablished]. *)
Definition client_newConnection (ptr : ConnPtr) (sockfd : Z) w : outcome W :=
  x ← the_client w;
  _ ← assertInLoopThread (lp (cw w));
  let peerAddr := getPeerAddr sockfd (os (cw w)) in
  ipPort ← address_toIpPort peerAddr;
  let buf := client_suffix ipPort (client_nextConnId_ x) in
  _ ← defined (client_nextConnId_ x + 1 <? 2 ^ 31);
  let x := set_client_id (client_nextConnId_ x + 1) x in
  let connName := client_name_ x ++ buf in
  let localAddr := getLocalAddr sockfd (os (cw w)) in
  conn ← conn_new connName sockfd localAddr peerAddr;
  let x := set_connection (Some ptr) x in
  conn ← conn_established conn;
  Ok (set_cl x (set_cconns (<[ptr := mkClientEntry conn connName sockfd RemoveByClient false]> (cconns w)) w)).

(** The connector does something; its callback is bound to [newConnection]. *)
Definition with_connector (ptr : ConnPtr) (move : Connector.World L → outcome (Connector.World L)) w : outcome W :=
  a ← move (cw w);
  let w' := set_cw a w in
  match drop (length (handed (cw w))) (handed a) with
  | sockfd :: _ => client_newConnection ptr sockfd w'
  | [] => Ok w'
  end.

(** [connect]; a new channel of the connector is at [chan]. *)
Definition client_connect (chan : ChannelPtr) (ptr : ConnPtr) w : outcome W :=
  x ← the_client w;
  with_connector ptr (Connector.start chan) (set_cl (set_client_connect true x) w).

Definition client_disconnect w : outcome W :=
  x ← the_client w;
  let w := set_cl (set_client_connect false x) w in
  match connection_ x with
  | Some c => e ← client_deref c w; v ← conn_shutdown (ce_conn e); Ok (put_client_conn c e v w)
  | None => Ok w
  end.

Definition client_stop (ptr : ConnPtr) w : outcome W :=
  x ← the_client w;
  with_connector ptr Connector.stop (set_cl (set_client_connect false x) w).

Definition enableRetry w : outcome W := x ← the_client w; Ok (set_cl (set_retry true x) w).

(** [TcpClient::removeConnection]. *)
Definition client_removeConnection (chan : ChannelPtr) (ptr : ConnPtr) (c : ConnPtr) w : outcome W :=
  x ← the_client w;
  _ ← assertInLoopThread (lp (cw w));
  _ ← require (bool_decide (connection_ x = Some c));
  let w := set_cl (set_connection None x) w in
  let w := client_queue (ClientDestroyed c) w in
  if retry_ x && client_connect_ x then with_connector ptr (Connector.restart chan) w else Ok w.

(** [detail::removeConnection]. *)
Definition detail_removeConnection (c : ConnPtr) w : W := client_queue (ClientDestroyed c) w.

(** A connection closes and calls its [closeCallback_]. *)
Definition client_on_close (chan : ChannelPtr) (ptr : ConnPtr) (c : ConnPtr) w : outcome W :=
  e ← client_deref c w;
  v ← conn_closed (ce_conn e);
  let w := put_client_conn c e v w in
  match ce_close e with
  | RemoveByClient => client_removeConnection chan ptr c w
  | RemoveByDetail => Ok (detail_removeConnection c w)
  end.

Definition client_connectDestroyed (c : ConnPtr) w : outcome W :=
  e ← client_deref c w;
  v ← conn_destroyed (ce_conn e);
  Ok (set_cconns (<[c := mkClientEntry v (ce_name e) (ce_fd e) (ce_close e) true]> (cconns w)) w).

(** [TcpConnection::setCloseCallback] with [detail::removeConnection]. *)
Definition client_setCloseCallback (c : ConnPtr) w : outcome W :=
  e ← client_deref c w;
  Ok (set_cconns (<[c := mkClientEntry (ce_conn e) (ce_name e) (ce_fd e) RemoveByDetail (ce_destroyed e)]> (cconns w)) w).

(** The loop takes a functor from its queue and calls it. *)
Definition client_run_queued (q1 : list client_functor) (f : client_functor) (q2 : list client_functor) w : outcome W :=
  let w := set_cqueue (q1 ++ q2) w in
  match f with
  | ClientDestroyed c => client_connectDestroyed c w
  | ClientSetCloseCallback c => client_setCloseCallback c w
  end.

(** [TcpClient::~TcpClient]; [unique]: nobody else holds the connection.  Without a connection a
    timer keeps the connector alive for a while, otherwise it is destroyed with the client. *)
Definition client_dtor (unique : bool) (ptr : ConnPtr) w : outcome W :=
  x ← the_client w;
  w ← (match connection_ x with
       | Some c =>
           w ← (if isInLoopThread (lp (cw w)) then client_setCloseCallback c w
                else Ok (client_queue (ClientSetCloseCallback c) w));
           w ← (if unique then e ← client_deref c w; v ← conn_forceClose (ce_conn e); Ok (put_client_conn c e v w)
                else Ok w);
           _ ← connector_dtor (cn (cw w));
           Ok w
       | None => with_connector ptr Connector.stop w
       end);
  Ok (mkClientWorld None (cw w) (cconns w) (cqueue w)).

(** The last [shared_ptr] goes: [TcpConnection::~TcpConnection] and its socket's destructor. *)
Definition client_release (c : ConnPtr) w : outcome W :=
  e ← client_deref c w;
  _ ← require (bool_decide (conn_state (ce_conn e) = TcpConnection.kDisconnected));
  Ok (set_cconns (delete c (cconns w)) (set_cw (Connector.set_os (SocketsOps.close (ce_fd e) (os (cw w))) (cw w)) w)).
End client.
