(* ===== verification/TcpServerFacts.v ===== *)
(** What holds of a server at every moment (TcpServer.cpp): names and descriptors of its
    connections are distinct, the map holds exactly the connections that are not being taken
    down, and the functors queued for a connection are exactly the ones its stage calls for. *)
From S2P Require Import Prelude.
From S2P Require Import Endian.
From S2P Require Import Format.
From S2P Require Import StringPiece.
From S2P Require Import CurrentThread.
From S2P Require Import Channel.
From S2P Require Import Loop.
From S2P Require Import SocketsOps.
From S2P Require Import InetAddress.
From S2P Require Import TcpConnection.
From S2P Require Import Acceptor.
From S2P Require Import EventLoopThreadPool.
From S2P Require Import TcpServer.

(** * The promises of a connection *)
Class ServedConnectionLaws (C : Type) `{!ServedConnection C} := {
  conn_ok : C → Prop;
  new_law name fd a b : 0 ≤ fd → safely (conn_new name fd a b) (λ c, conn_ok c ∧ conn_state c = kConnecting);
  established_law c : conn_ok c → conn_state c = kConnecting →
    safely (conn_established c) (λ c', conn_ok c' ∧ is_open (conn_state c') = true);
  closed_law c : conn_ok c → is_open (conn_state c) = true →
    safely (conn_closed c) (λ c', conn_ok c' ∧ conn_state c' = kDisconnected);
  destroyed_law c : conn_ok c → conn_state c = kConnected ∨ conn_state c = kDisconnected →
    safely (conn_destroyed c) (λ c', conn_state c' = kDisconnected);
  half_closed_law c : conn_ok c → conn_state c = kDisconnecting → conn_destroyed c = Fail AssertFailure
}.

(** * Names *)
Definition conn_name (s : TcpServer) (id : Z) : list byte := name_ s ++ connection_suffix (ipPort_ s) id.

(** An address with its port takes at most 51 characters, an [int] at most 10: 63 of the 64
    bytes of the buffer. *)
Lemma connection_suffix_fits ipPort id :
  zlen (until_nul ipPort) ≤ 51 → 0 ≤ id < 2 ^ 31 →
  connection_suffix ipPort id = bytes_of_string "-" ++ until_nul ipPort ++ bytes_of_string "#" ++ decimal id.
Proof.
  intros Hip Hid. unfold connection_suffix. rewrite snprintf_fits; [done|].
  pose proof (decimal_digits 10 id ltac:(lia) ltac:(lia)). rewrite !zlen_app.
  change (zlen (bytes_of_string "-")) with 1. change (zlen (bytes_of_string "#")) with 1. lia.
Qed.

Lemma conn_name_inj s i j :
  zlen (until_nul (ipPort_ s)) ≤ 51 → 0 ≤ i < 2 ^ 31 → 0 ≤ j < 2 ^ 31 → conn_name s i = conn_name s j → i = j.
Proof.
  intros Hip Hi Hj E. unfold conn_name in E. rewrite !connection_suffix_fits in E by done.
  do 4 apply app_inv_head in E. by apply decimal_inj.
Qed.

(** * The invariant *)
Definition subject (f : functor) : option ConnPtr :=
  match f with
  | FListen => None
  | FConnectEstablished c | FConnectDestroyed c | FRemoveConnectionInLoop c => Some c
  end.

Section facts.
  Context {CB F L C : Type} `{!Loop CB F L, !LoopSpec CB F L, !LoopLaws CB F L}.
  Context `{!Host, !InetText, !SocketKernel} `{!AcceptorEnv CB}.
  Context `{!CurrentThread} `{!ServedConnection C, !ServedConnectionLaws C}.
  Notation W := (World L C).
  Implicit Types w : W.

(** The functor a connection waits for. *)
Definition awaited (s : TcpServer) (c : ConnPtr) (e : entry C) : option (LoopPtr * functor) :=
  if bool_decide (connections_ s !! e_name e = Some c) then
    match conn_state (e_conn e) with
    | kConnecting => Some (e_loop e, FConnectEstablished c)
    | kDisconnected => Some (loop_ s, FRemoveConnectionInLoop c)
    | _ => None
    end
  else if e_destroyed e then None else Some (e_loop e, FConnectDestroyed c).

Record conn_inv (s : TcpServer) (q : list (LoopPtr * functor)) (c : ConnPtr) (e : entry C) : Prop := {
  ci_id : ∃ id, 1 ≤ id < nextConnId_ s ∧ e_name e = conn_name s id;
  ci_ok : e_destroyed e = false → conn_ok (e_conn e);
  ci_out : connections_ s !! e_name e ≠ Some c → conn_state (e_conn e) = kDisconnected;
  ci_in : connections_ s !! e_name e = Some c → e_destroyed e = false;
  ci_await x : subject x.2 = Some c → (x ∈ q ↔ awaited s c e = Some x)
}.

Record server_inv w : Prop := {
  si_acceptor : acceptor_ok (aw w) ∧ newConnectionCallback_ (acc (aw w)) = true;
  si_base : baseLoop_ (threadPool_ (srv w)) = loop_ (srv w);
  si_started : started_ (srv w) = 0 ∧ EventLoopThreadPool.started_ (threadPool_ (srv w)) = false ∧
                 next_ (threadPool_ (srv w)) = 0 ∧ loops_ (threadPool_ (srv w)) = [] ∧
                 listenning_ (acc (aw w)) = false ∧ queue w = [] ∧ conns w = ∅ ∨
               started_ (srv w) ≠ 0 ∧ pool_ok (loop_ (srv w)) (threadPool_ (srv w));
  si_ids : 1 ≤ nextConnId_ (srv w) < 2 ^ 31;
  si_ip : zlen (until_nul (ipPort_ (srv w))) ≤ 51;
  si_queue : NoDup (queue w);
  si_listen l : (l, FListen) ∈ queue w → l = loop_ (srv w) ∧ listenning_ (acc (aw w)) = false;
  si_subject x c : x ∈ queue w → subject x.2 = Some c → is_Some (conns w !! c);
  si_map nm c : connections_ (srv w) !! nm = Some c → ∃ e, conns w !! c = Some e ∧ e_name e = nm;
  si_conns c e : conns w !! c = Some e → conn_inv (srv w) (queue w) c e;
  si_names c1 c2 e1 e2 : conns w !! c1 = Some e1 → conns w !! c2 = Some e2 → e_name e1 = e_name e2 → c1 = c2;
  si_open c e : conns w !! c = Some e → e_fd e ∈ open_fds (os (aw w));
  si_fds c1 c2 e1 e2 : conns w !! c1 = Some e1 → conns w !! c2 = Some e2 → e_fd e1 = e_fd e2 → c1 = c2
}.

(** The same connection, further in its life. *)
Definition same_entry (e e' : entry C) : Prop :=
  e_name e' = e_name e ∧ e_loop e' = e_loop e ∧ e_fd e' = e_fd e.

Lemma awaited_other (s s' : TcpServer) c2 (e2 : entry C) :
  loop_ s' = loop_ s → connections_ s' !! e_name e2 = connections_ s !! e_name e2 → awaited s' c2 e2 = awaited s c2 e2.
Proof. intros El Em. unfold awaited. by rewrite El, Em. Qed.

(** One connection moves on; its functors change with it, the rest stays. *)
Lemma update_conn w c e e' q' m' :
  server_inv w → conns w !! c = Some e → same_entry e e' → started_ (srv w) ≠ 0 →
  NoDup q' → (∀ x, subject x.2 ≠ Some c → (x ∈ q' ↔ x ∈ queue w)) →
  (∀ n, n ≠ e_name e → m' !! n = connections_ (srv w) !! n) →
  m' !! e_name e = connections_ (srv w) !! e_name e ∨ m' !! e_name e = None →
  conn_inv (set_connections m' (srv w)) q' c e' →
  server_inv (mkWorld (set_connections m' (srv w)) (aw w) (<[c := e']> (conns w)) q' (inits w)).
Proof.
  intros [Ia Ib Ist Iid Iip Iq Il Isu Im Ic In Io Ifd] He (En & El & Ef) Hst Hq Hx Hm Hme Hc.
  assert (Hother : ∀ c2 e2, <[c := e']> (conns w) !! c2 = Some e2 →
            ∃ e0, conns w !! c2 = Some e0 ∧ e_name e2 = e_name e0 ∧ e_fd e2 = e_fd e0).
  { intros c2 e2. destruct (decide (c2 = c)) as [->|]; [rewrite lookup_insert_eq|rewrite lookup_insert_ne by done; eauto].
    intros [= <-]. eauto. }
  split; cbn; try done.
  - destruct Ist as [[? _]|[_ ?]]; [done|]. by right.
  - intros l Hl. apply Il. by apply Hx.
  - intros x c2 Hin Hs. destruct (decide (c2 = c)) as [->|Hne]; [by rewrite lookup_insert_eq|].
    rewrite lookup_insert_ne by done. apply (Isu x); [|done]. apply Hx; [|done]. rewrite Hs. by intros [= ->].
  - intros nm c2 E2. destruct (decide (nm = e_name e)) as [->|Hne].
    + destruct Hme as [Hme|Hme]; rewrite Hme in E2; [|done]. destruct (Im _ _ E2) as (e0 & E0 & En0).
      assert (c2 = c) as -> by (by eapply In). exists e'. by rewrite lookup_insert_eq.
    + rewrite Hm in E2 by done. destruct (Im _ _ E2) as (e0 & E0 & En0). exists e0.
      rewrite lookup_insert_ne; [done|]. intros ->. congruence.
  - intros c2 e2 E2. destruct (decide (c2 = c)) as [->|Hne].
    + rewrite lookup_insert_eq in E2. by injection E2 as <-.
    + rewrite lookup_insert_ne in E2 by done.
      assert (Hnm : e_name e2 ≠ e_name e) by (intros E; by apply Hne, (In c2 c e2 e)).
      destruct (Ic c2 e2 E2) as [C1 C2 C3 C4 C5]. split; cbn; auto.
      * rewrite Hm by done. done.
      * rewrite Hm by done. done.
      * intros x Hs. rewrite (awaited_other (srv w) (set_connections m' (srv w)) c2 e2 eq_refl (Hm _ Hnm)), <- (C5 x Hs). apply Hx. rewrite Hs. by intros [= ->].
  - intros c1 c2 e1 e2 E1 E2 E. destruct (Hother _ _ E1) as (x1 & X1 & Y1 & _), (Hother _ _ E2) as (x2 & X2 & Y2 & _).
    eapply In; [done|done|congruence].
  - intros c2 e2 E2. destruct (Hother _ _ E2) as (x2 & X2 & _ & ->). by eapply Io.
  - intros c1 c2 e1 e2 E1 E2 E. destruct (Hother _ _ E1) as (x1 & X1 & _ & Y1), (Hother _ _ E2) as (x2 & X2 & _ & Y2).
    eapply Ifd; [done|done|congruence].
Qed.

Lemma set_connections_id (s : TcpServer) : set_connections (connections_ s) s = s.
Proof. by destruct s. Qed.

(** The same without a change of the map. *)
Lemma update_entry w c e e' q' :
  server_inv w → conns w !! c = Some e → same_entry e e' → started_ (srv w) ≠ 0 →
  NoDup q' → (∀ x, subject x.2 ≠ Some c → (x ∈ q' ↔ x ∈ queue w)) → conn_inv (srv w) q' c e' →
  server_inv (mkWorld (srv w) (aw w) (<[c := e']> (conns w)) q' (inits w)).
Proof.
  intros I He Hs Hst Hq Hx Hc.
  pose proof (update_conn w c e e' q' (connections_ (srv w)) I He Hs Hst Hq Hx) as U.
  rewrite set_connections_id in U. apply U; auto.
Qed.

(** * Running functors *)
Lemma queue_split q1 (x : LoopPtr * functor) q2 :
  NoDup (q1 ++ x :: q2) → NoDup (q1 ++ q2) ∧ x ∉ q1 ++ q2.
Proof.
  rewrite !list.NoDup_app, list.NoDup_cons, elem_of_app. setoid_rewrite elem_of_cons. naive_solver.
Qed.

(** Taking a functor of [c] from the queue leaves the functors of the others. *)
Lemma queue_without q1 (x : LoopPtr * functor) q2 c y :
  subject x.2 = Some c → subject y.2 ≠ Some c → (y ∈ q1 ++ q2 ↔ y ∈ q1 ++ x :: q2).
Proof. intros Hx Hy. rewrite !elem_of_app, elem_of_cons. naive_solver. Qed.


Lemma queue_started w x : server_inv w → x ∈ queue w → started_ (srv w) ≠ 0.
Proof.
  intros I Hx. destruct (si_started _ I) as [(_ & _ & _ & _ & _ & E & _)|[? _]]; [|done].
  rewrite E in Hx. by apply not_elem_of_nil in Hx.
Qed.

Lemma assert_loop_here here : assert_loop here here = Ok tt.
Proof. unfold assert_loop. by rewrite Z.eqb_refl. Qed.

(** The functor found in the queue is the one its connection waits for. *)
Lemma queued_awaited w l f c :
  server_inv w → (l, f) ∈ queue w → subject f = Some c →
  ∃ e, conns w !! c = Some e ∧ conn_inv (srv w) (queue w) c e ∧ awaited (srv w) c e = Some (l, f).
Proof.
  intros I Hin Hs. destruct (si_subject _ I (l, f) c Hin Hs) as [e He]. exists e.
  pose proof (si_conns _ I c e He) as Hc. split_and!; try done. by apply (ci_await _ _ _ _ Hc (l, f)).
Qed.

(** What a connection waits for once it is in a stage where it waits for nothing, or for [y]. *)
Lemma awaits_only (s : TcpServer) c e q1 x q2 :
  NoDup (q1 ++ x :: q2) → (∀ y, subject y.2 = Some c → (y ∈ q1 ++ x :: q2 ↔ Some x = Some y)) →
  awaited s c e = None → ∀ y, subject y.2 = Some c → (y ∈ q1 ++ q2 ↔ awaited s c e = Some y).
Proof.
  intros Hnd Hq Hn y Hy. rewrite Hn. split; [|done]. intros Hin. destruct (queue_split _ _ _ Hnd) as [_ Hx].
  assert (Hin' : y ∈ q1 ++ x :: q2) by (rewrite elem_of_app, elem_of_cons; apply elem_of_app in Hin; naive_solver).
  apply Hq in Hin'; [|done]. injection Hin' as <-. done.
Qed.

Lemma run_established_ok here q1 c q2 w :
  server_inv w → queue w = q1 ++ (here, FConnectEstablished c) :: q2 →
  safely (connectEstablished here c (set_queue (q1 ++ q2) w)) server_inv.
Proof.
  intros I Eq. assert (Hin : (here, FConnectEstablished c) ∈ queue w) by (rewrite Eq, elem_of_app, elem_of_cons; auto).
  destruct (queued_awaited w here _ c I Hin eq_refl) as (e & He & [C1 C2 C3 C4 C5] & Ha).
  pose proof (queue_started _ _ I Hin) as Hst. pose proof (si_queue _ I) as Hnd. rewrite Eq in Hnd, C5.
  rewrite Ha in C5. unfold awaited in Ha. case_bool_decide as Hm; [|by destruct (e_destroyed e)].
  destruct (conn_state (e_conn e)) eqn:Es; try done. injection Ha as El.
  unfold connectEstablished, deref_conn. cbn. rewrite He. cbn. rewrite El, assert_loop_here. cbn.
  apply safely_bind. eapply safely_mono; [apply established_law; auto|]. intros v [Hv Ho].
  apply (update_entry w c e); try done; [by eapply queue_split| |].
  - intros x Hx. rewrite Eq. by apply (queue_without _ _ _ c).
  - split; cbn; auto; [by intros ? | ].
    apply (awaits_only _ _ _ _ (here, FConnectEstablished c)); [done|done|].
    unfold awaited. cbn. rewrite bool_decide_eq_true_2 by done. by destruct (conn_state v).
Qed.

Lemma run_destroyed_ok here q1 c q2 w :
  server_inv w → queue w = q1 ++ (here, FConnectDestroyed c) :: q2 →
  safely (connectDestroyed here c (set_queue (q1 ++ q2) w)) server_inv.
Proof.
  intros I Eq. assert (Hin : (here, FConnectDestroyed c) ∈ queue w) by (rewrite Eq, elem_of_app, elem_of_cons; auto).
  destruct (queued_awaited w here _ c I Hin eq_refl) as (e & He & [C1 C2 C3 C4 C5] & Ha).
  pose proof (queue_started _ _ I Hin) as Hst. pose proof (si_queue _ I) as Hnd. rewrite Eq in Hnd, C5.
  rewrite Ha in C5. unfold awaited in Ha. case_bool_decide as Hm; [by destruct (conn_state (e_conn e))|].
  destruct (e_destroyed e) eqn:Ed; [done|]. injection Ha as El.
  unfold connectDestroyed, deref_conn. cbn. rewrite He. cbn. rewrite El, assert_loop_here. cbn.
  apply safely_bind. eapply safely_mono; [apply destroyed_law; auto|]. intros v Ev.
  apply (update_entry w c e); try done; [by eapply queue_split| |].
  - intros x Hx. rewrite Eq. by apply (queue_without _ _ _ c).
  - split; cbn; [exact C1|done|done|by intros ?|].
    apply (awaits_only _ _ _ _ (here, FConnectDestroyed c)); [done|done|].
    unfold awaited. cbn. by rewrite bool_decide_eq_false_2.
Qed.

(** The assert [n == 1] holds. *)
Lemma run_remove_ok here q1 c q2 w :
  server_inv w → queue w = q1 ++ (here, FRemoveConnectionInLoop c) :: q2 →
  safely (removeConnectionInLoop here c (set_queue (q1 ++ q2) w)) server_inv.
Proof.
  intros I Eq. assert (Hin : (here, FRemoveConnectionInLoop c) ∈ queue w) by (rewrite Eq, elem_of_app, elem_of_cons; auto).
  destruct (queued_awaited w here _ c I Hin eq_refl) as (e & He & [C1 C2 C3 C4 C5] & Ha).
  pose proof (queue_started _ _ I Hin) as Hst. pose proof (si_queue _ I) as Hnd. rewrite Eq in Hnd, C5.
  rewrite Ha in C5. unfold awaited in Ha. case_bool_decide as Hm; [|by destruct (e_destroyed e)].
  destruct (conn_state (e_conn e)) eqn:Es; try done. injection Ha as El.
  unfold removeConnectionInLoop, deref_conn. cbn. rewrite El, assert_loop_here. cbn. rewrite He. cbn. rewrite Hm. cbn.
  destruct (queue_split _ _ _ Hnd) as [Hnd' Hx].
  assert (Hno : (e_loop e, FConnectDestroyed c) ∉ q1 ++ q2).
  { intros Hd. assert ((e_loop e, FConnectDestroyed c) ∈ q1 ++ (here, FRemoveConnectionInLoop c) :: q2) as Hd'
      by (rewrite elem_of_app, elem_of_cons; apply elem_of_app in Hd; naive_solver).
    by apply C5 in Hd'. }
  unfold queue_in_loop, set_queue, on_srv. cbn. rewrite <- (insert_id (conns w) c e He).
  apply (update_conn w c e); try done.
  - apply list.NoDup_app. split_and!; [done| |apply NoDup_singleton]. intros y Hy. rewrite list_elem_of_singleton. by intros ->.
  - intros x Hxs. rewrite elem_of_app, list_elem_of_singleton, (queue_without _ (here, FRemoveConnectionInLoop c) _ c), Eq by done.
    split; [intros [?| ->]; [done|by destruct Hxs]|by left].
  - intros n Hn. by rewrite lookup_delete_ne.
  - right. apply lookup_delete_eq.
  - split; cbn; [exact C1|exact C2|done|by rewrite lookup_delete_eq|].
    intros y Hy. unfold awaited. cbn. rewrite bool_decide_eq_false_2 by (by rewrite lookup_delete_eq).
    rewrite (C4 Hm), elem_of_app, list_elem_of_singleton. split; [|intros [= <-]; by right].
    intros [Hin'| ->]; [|done]. exfalso.
    assert (y ∈ q1 ++ (here, FRemoveConnectionInLoop c) :: q2) as Hy' by (rewrite elem_of_app, elem_of_cons; apply elem_of_app in Hin'; naive_solver).
    apply C5 in Hy'; [|done]. injection Hy' as <-. done.
Qed.
End facts.
