(* ===== verification/TcpServerRun.v ===== *)
(** The moves of a server (TcpServer.cpp): starting, accepting, closing, the functors in the
    loops, and what every one of them preserves. *)
From S2P Require Import Prelude.
From S2P Require Import Endian.
From S2P Require Import Format.
From S2P Require Import StringPiece.
From S2P Require Import CurrentThread.
From S2P Require Import Channel.
From S2P Require Import Loop.
From S2P Require Import SocketsOps.
From S2P Require Import InetAddress.
From S2P Require Import TcpConnection.
From S2P Require Import Socket.
From S2P Require Import Acceptor.
From S2P Require Import EventLoopThreadPool.
From S2P Require Import TcpServer.
From S2P Require Import TcpServerFacts.

Section run.
  Context {CB F L C : Type} `{!Loop CB F L, !LoopSpec CB F L, !LoopLaws CB F L}.
  Context `{!Host, !InetText, !SocketKernel} `{!AcceptorEnv CB}.
  Context `{!CurrentThread} `{!ServedConnection C, !ServedConnectionLaws C}.
  Notation W := (World L C).
  Implicit Types w : W.

(** * Functors *)
Lemma run_listen_ok here q1 q2 w :
  server_inv w → queue w = q1 ++ (here, FListen) :: q2 →
  safely (listen (set_queue (q1 ++ q2) w)) server_inv.
Proof.
  intros I Eq. assert (Hin : (here, FListen) ∈ queue w) by (rewrite Eq, elem_of_app, elem_of_cons; auto).
  pose proof (queue_started _ _ I Hin) as Hst. destruct (si_listen _ I _ Hin) as [-> Hl].
  destruct I as [[Ia Icb] Ib Ist Iid Iip Iq Il Isu Im Ic In Io Ifd]. unfold listen. cbn. rewrite Eq in Iq.
  destruct (queue_split _ _ _ Iq) as [Hnd Hx]. apply safely_bind.
  eapply safely_mono; [by apply listen_ok|]. intros a (Ha & Hla & Hcb & Ho). cbn.
  assert (Hsub : ∀ y, y ∈ q1 ++ q2 → y ∈ queue w) by (intros y; rewrite Eq, !elem_of_app, elem_of_cons; naive_solver).
  split; cbn; try done.
  - by rewrite Hcb.
  - right. by destruct Ist as [[? _]|?].
  - intros l Hin'. destruct (Il l (Hsub _ Hin')) as [-> _]. done.
  - intros x c Hx' Hs. by apply (Isu x); [apply Hsub|].
  - intros c e E. destruct (Ic c e E) as [C1 C2 C3 C4 C5]. split; try done. intros x Hs. rewrite <- (C5 x Hs).
    rewrite Eq, !elem_of_app, elem_of_cons. split; [naive_solver|]. intros [?|[->|?]]; [by left|done|by right].
  - intros c e E. rewrite Ho. by eapply Io.
Qed.

Lemma run_queued_ok here q1 f q2 w :
  server_inv w → queue w = q1 ++ (here, f) :: q2 → safely (run_queued here q1 f q2 w) server_inv.
Proof.
  intros I Eq. unfold run_queued. destruct f; cbn.
  - by eapply run_listen_ok.
  - by apply run_established_ok.
  - by apply run_destroyed_ok.
  - by apply run_remove_ok.
Qed.

(** [runInLoop]: calling the functor at once is queueing and taking it. *)
Lemma run_in_loop_ok here l f body w :
  (∀ w', body w' = run_functor here f w') → server_inv (queue_in_loop l f w) →
  safely (run_in_loop here l f body w) server_inv.
Proof.
  intros Hb I. unfold run_in_loop. destruct (Z.eqb_spec here l) as [->|]; [|done].
  pose proof (run_queued_ok l (queue w) f [] _ I eq_refl) as R. unfold run_queued in R.
  rewrite app_nil_r in R. rewrite Hb. by destruct w.
Qed.

(** * Closing *)
Lemma started_of_conn w c e : server_inv w → conns w !! c = Some e → started_ (srv w) ≠ 0.
Proof.
  intros I He. destruct (si_started _ I) as [(_ & _ & _ & _ & _ & _ & E)|[? _]]; [|done].
  by rewrite E, lookup_empty in He.
Qed.

Lemma is_open_in_map (s : TcpServer) q c (e : entry C) :
  conn_inv s q c e → is_open (conn_state (e_conn e)) = true → connections_ s !! e_name e = Some c.
Proof.
  intros I Ho. destruct (decide (connections_ s !! e_name e = Some c)) as [|Hn]; [done|].
  by rewrite (ci_out _ _ _ _ I Hn) in Ho.
Qed.

Lemma is_open_waits_not (s : TcpServer) c (e : entry C) :
  connections_ s !! e_name e = Some c → is_open (conn_state (e_conn e)) = true → awaited s c e = None.
Proof. intros Hm Ho. unfold awaited. rewrite bool_decide_eq_true_2 by done. by destruct (conn_state (e_conn e)). Qed.

Lemma on_close_ok here c e w :
  server_inv w → conns w !! c = Some e → e_loop e = here → is_open (conn_state (e_conn e)) = true →
  safely (on_close here c w) server_inv.
Proof.
  intros I He El Ho. pose proof (si_conns _ I c e He) as Hc. pose proof (is_open_in_map _ _ _ _ Hc Ho) as Hm.
  pose proof (is_open_waits_not _ _ _ Hm Ho) as Ha. pose proof Hc as [C1 C2 C3 C4 C5].
  unfold on_close, deref_conn. rewrite He. cbn. rewrite El, assert_loop_here. cbn.
  apply safely_bind. eapply safely_mono; [apply closed_law; auto|]. intros v [Hv Es].
  unfold removeConnection. apply run_in_loop_ok; [done|]. unfold queue_in_loop, put_conn, set_conns, set_queue. cbn.
  assert (Hno : (loop_ (srv w), FRemoveConnectionInLoop c) ∉ queue w) by (intros Hin; apply C5 in Hin; [congruence|done]).
  apply (update_entry w c e); try done; [by eapply started_of_conn| | |].
  - apply list.NoDup_app. split; [apply I|]. split; [|apply NoDup_singleton]. intros y Hy. rewrite list_elem_of_singleton.
    by intros ->.
  - intros x Hx. rewrite elem_of_app, list_elem_of_singleton. split; [intros [?| ->]; [done|by destruct Hx]|by left].
  - split; cbn; [exact C1|done|done|exact C4|]. intros x Hx. unfold awaited. cbn. rewrite bool_decide_eq_true_2, Es by done.
    rewrite elem_of_app, list_elem_of_singleton, (C5 x Hx), Ha. split; [by intros [?| ->]|intros [= <-]; by right].
Qed.

(** * Accepting *)

(** A new connection object with a new name and a new descriptor, waiting to be established. *)
Lemma add_conn w ptr v io fd p a :
  server_inv w → started_ (srv w) ≠ 0 → conns w !! ptr = None → conn_ok v → conn_state v = kConnecting →
  nextConnId_ (srv w) + 1 < 2 ^ 31 →
  baseLoop_ p = loop_ (srv w) → pool_ok (loop_ (srv w)) p →
  acceptor_ok a → acc a = acc (aw w) → fd ∉ open_fds (os (aw w)) → open_fds (os a) = {[fd]} ∪ open_fds (os (aw w)) →
  let nm := conn_name (srv w) (nextConnId_ (srv w)) in
  server_inv (mkWorld
    (mkServer (loop_ (srv w)) (ipPort_ (srv w)) (name_ (srv w)) p (started_ (srv w)) (nextConnId_ (srv w) + 1)
       (<[nm := ptr]> (connections_ (srv w))))
    a (<[ptr := mkEntry v nm io fd false]> (conns w)) (queue w ++ [(io, FConnectEstablished ptr)]) (inits w)).
Proof.
  intros [[Ia Icb] Ib Ist Iid Iip Iq Il Isu Im Ic In Io Ifd] Hst Hptr Hv Es Hid Hpb Hp Ha Eacc Hfd Hopen nm.
  assert (Hnew : ∀ c e, conns w !! c = Some e → e_name e ≠ nm).
  { intros c e He. destruct (ci_id _ _ _ _ (Ic c e He)) as (id & Hr & ->). intros E.
    apply conn_name_inj in E; [|done|lia|lia]. lia. }
  assert (Hq : ∀ x, x ∈ queue w → subject x.2 ≠ Some ptr).
  { intros x Hx Hs. destruct (Isu x ptr Hx Hs) as [e He]. congruence. }
  split; cbn; try done.
  - by rewrite Eacc.
  - by right.
  - lia.
  - apply list.NoDup_app. split; [done|]. split; [|apply NoDup_singleton]. intros y Hy. rewrite list_elem_of_singleton.
    intros ->. by eapply Hq.
  - intros l. rewrite elem_of_app, list_elem_of_singleton, Eacc. intros [?|?]; [by apply Il|done].
  - intros x c. rewrite elem_of_app, list_elem_of_singleton. intros [Hx| ->] Hs.
    + destruct (decide (c = ptr)) as [->|]; [by rewrite lookup_insert_eq|]. rewrite lookup_insert_ne by done. by eapply Isu.
    + injection Hs as <-. by rewrite lookup_insert_eq.
  - intros n c Hn. destruct (decide (n = nm)) as [->|Hne].
    + rewrite lookup_insert_eq in Hn. injection Hn as <-. eexists. by rewrite lookup_insert_eq.
    + rewrite lookup_insert_ne in Hn by done. destruct (Im _ _ Hn) as (e & He & En). exists e.
      rewrite lookup_insert_ne; [done|congruence].
  - intros c e. destruct (decide (c = ptr)) as [->|Hne].
    + rewrite lookup_insert_eq. intros [= <-]. split; cbn; auto.
      * exists (nextConnId_ (srv w)). split; [lia|done].
      * by rewrite lookup_insert_eq.
      * intros x Hx. unfold awaited. cbn. rewrite bool_decide_eq_true_2 by (by rewrite lookup_insert_eq). rewrite Es.
        rewrite elem_of_app, list_elem_of_singleton. split; [|intros [= <-]; by right].
        intros [Hin| ->]; [by destruct (Hq x Hin)|done].
    + rewrite lookup_insert_ne by done. intros He. pose proof (Hnew c e He) as Hnm. destruct (Ic c e He) as [(id & Hr & En) C2 C3 C4 C5].
      split; cbn; auto.
      * exists id. split; [lia|done].
      * by rewrite lookup_insert_ne.
      * by rewrite lookup_insert_ne.
      * intros x Hx. rewrite (awaited_other (srv w)) by (cbn; rewrite ?lookup_insert_ne; done).
        rewrite <- (C5 x Hx), elem_of_app, list_elem_of_singleton. split; [|by left]. intros [?| ->]; [done|]. by injection Hx as <-.
  - intros c1 c2 e1 e2. destruct (decide (c1 = ptr)) as [->|], (decide (c2 = ptr)) as [->|];
      rewrite ?lookup_insert_eq, ?lookup_insert_ne by done; try done.
    + intros [= <-] He2 E. cbn in E. by destruct (Hnew _ _ He2).
    + intros He1 [= <-] E. cbn in E. by destruct (Hnew _ _ He1).
    + apply In.
  - intros c e. rewrite Hopen. destruct (decide (c = ptr)) as [->|].
    + rewrite lookup_insert_eq. intros [= <-]. set_solver.
    + rewrite lookup_insert_ne by done. intros He. specialize (Io c e He). set_solver.
  - intros c1 c2 e1 e2. destruct (decide (c1 = ptr)) as [->|], (decide (c2 = ptr)) as [->|];
      rewrite ?lookup_insert_eq, ?lookup_insert_ne by done; try done.
    + intros [= <-] He2 E. cbn in E. subst fd. by destruct Hfd; eapply Io.
    + intros He1 [= <-] E. cbn in E. subst fd. by destruct Hfd; eapply Io.
    + apply Ifd.
Qed.

Lemma on_accept_ok ptr w :
  server_inv w → listenning_ (acc (aw w)) = true → conns w !! ptr = None → nextConnId_ (srv w) + 1 < 2 ^ 31 →
  safely (on_accept (loop_ (srv w)) ptr w) server_inv.
Proof.
  intros I Hl Hptr Hid. pose proof (si_acceptor _ I) as [Ia Icb]. unfold on_accept. apply safely_bind.
  eapply safely_mono.
  { apply safely_and; [by apply acceptor_handleRead_ok|by apply handleRead_spec, ac_thread]. }
  intros a (Ha & Eacc & _ & Hh). rewrite Icb in Hh. destruct Hh as (fd & peer & -> & Hfd & _ & Hn & Ho).
  rewrite drop_app_length. destruct (si_started _ I) as [(_ & _ & _ & _ & E & _)|[Hst Hp]]; [congruence|].
  unfold newConnection. cbn. rewrite assert_loop_here. cbn.
  destruct (getNextLoop_ok _ _ Hp) as (io & p & -> & _ & Hp' & _). cbn. rewrite defined_true by bsolve. cbn.
  apply safely_bind. eapply safely_mono; [by apply new_law|]. intros v [Hv Es].
  apply run_in_loop_ok; [done|].
  apply (add_conn w ptr v io fd p a); try done. symmetry. apply (po_here _ _ Hp').
Qed.

(** * The rest *)
Lemma start_ok cb fresh w :
  server_inv w → safely (start (loop_ (srv w)) cb fresh w) server_inv.
Proof.
  intros I. pose proof I as [[Ia Icb] Ib Ist Iid Iip Iq Il Isu Im Ic In Io Ifd]. unfold start. cbn.
  destruct (Z.eqb_spec (started_ (srv w)) 0) as [E0|E0].
  - destruct Ist as [(_ & Es & En & El & Eli & Eq & Ec)|[? _]]; [|done].
    destruct (pool_start_ok (loop_ (srv w)) cb fresh (threadPool_ (srv w))) as (p & ini & -> & Hp & _ & Hb & _); try done.
    cbn. rewrite Eli. cbn. apply run_in_loop_ok; [done|]. unfold queue_in_loop, set_queue. cbn. rewrite Eq, Ec.
    split; cbn; try done.
    + by rewrite Hb.
    + right. done.
    + apply NoDup_singleton.
    + intros l. rewrite list_elem_of_singleton. by intros [= ->].
    + intros x c. rewrite list_elem_of_singleton. by intros ->.
    + intros nm c Hm. destruct (Im _ _ Hm) as (e & He & _). by rewrite Ec, lookup_empty in He.
  - cbn. destruct Ist as [(? & _)|[_ Hp]]; [done|]. split; cbn; try done; [by right|].
    intros c e He. destruct (Ic c e He). by split.
Qed.

Lemma release_ok c e w :
  server_inv w → conns w !! c = Some e → e_destroyed e = true →
  ∃ w', release c w = Ok w' ∧ server_inv w' ∧ open_fds (os (aw w')) = open_fds (os (aw w)) ∖ {[e_fd e]}.
Proof.
  intros I He Hd. pose proof I as [[Ia Icb] Ib Ist Iid Iip Iq Il Isu Im Ic In Io Ifd].
  pose proof (Ic c e He) as [C1 C2 C3 C4 C5].
  assert (Hm : connections_ (srv w) !! e_name e ≠ Some c) by (intros Hm; rewrite (C4 Hm) in Hd; done).
  assert (Ha : awaited (srv w) c e = None) by (unfold awaited; rewrite bool_decide_eq_false_2, Hd by done; done).
  unfold release, deref_conn. rewrite He. cbn. rewrite (C3 Hm). cbn. eexists. split; [done|].
  unfold socket_dtor, close. cbn. rewrite close_law. split; [|done].
  assert (Hsub : ∀ c2 (e2 : entry C), delete c (conns w) !! c2 = Some e2 → conns w !! c2 = Some e2 ∧ c2 ≠ c).
  { intros c2 e2. destruct (decide (c2 = c)) as [->|]; [by rewrite lookup_delete_eq|by rewrite lookup_delete_ne]. }
  split; cbn; try done.
  - split; [|done]. destruct Ia. by split.
  - right. by destruct Ist as [(_ & _ & _ & _ & _ & _ & E)|?]; [rewrite E, lookup_empty in He|].
  - intros x c2 Hx Hs. rewrite lookup_delete_ne; [by apply (Isu x)|]. intros <-. apply (C5 x Hs) in Hx. congruence.
  - intros nm c2 Hnm. destruct (Im _ _ Hnm) as (e2 & He2 & En). exists e2. rewrite lookup_delete_ne; [done|].
    intros <-. rewrite He in He2. injection He2 as <-. congruence.
  - intros c2 e2 E2. apply Hsub in E2 as [E2 _]. destruct (Ic c2 e2 E2). by split.
  - intros c1 c2 e1 e2 E1 E2. apply Hsub in E1 as [E1 _], E2 as [E2 _]. by eapply In.
  - intros c2 e2 E2. apply Hsub in E2 as [E2 Hne]. rewrite close_law. apply elem_of_difference. split; [by eapply Io|].
    rewrite elem_of_singleton. intros E. by apply Hne, (Ifd c2 c e2 e).
  - intros c1 c2 e1 e2 E1 E2. apply Hsub in E1 as [E1 _], E2 as [E2 _]. by eapply Ifd.
Qed.

(** The connection does something of its own: it stays up. *)
Lemma conn_moves_ok c e v w :
  server_inv w → conns w !! c = Some e → is_open (conn_state (e_conn e)) = true →
  conn_ok v → is_open (conn_state v) = true → server_inv (put_conn c e v w).
Proof.
  intros I He Ho Hv Hov. pose proof (si_conns _ I c e He) as Hc. pose proof (is_open_in_map _ _ _ _ Hc Ho) as Hm.
  pose proof Hc as [C1 C2 C3 C4 C5]. unfold put_conn, set_conns.
  apply (update_entry w c e); try done; [by eapply started_of_conn|apply I|].
  split; cbn; [exact C1|done|by intros ?|exact C4|]. intros x Hx. rewrite (C5 x Hx), (is_open_waits_not _ _ _ Hm Ho).
  by rewrite (is_open_waits_not _ _ (mkEntry v _ _ _ _) Hm Hov).
Qed.

Lemma setThreadNum_ok n w : 0 ≤ n → server_inv w → safely (server_setThreadNum n w) server_inv.
Proof.
  intros Hn [Ia Ib Ist Iid Iip Iq Il Isu Im Ic In Io Ifd]. unfold server_setThreadNum. rewrite require_true by bsolve. cbn.
  split; cbn; try done.
  - destruct Ist as [?|[? [? ? ?]]]; [by left|right]. split; [done|by split].
  - intros c e He. destruct (Ic c e He). by split.
Qed.

(** * Whole lives *)
Inductive turn : W → W → Prop :=
| turn_threads n w w' : 0 ≤ n → server_setThreadNum n w = Ok w' → turn w w'
| turn_start cb fresh w w' : start (loop_ (srv w)) cb fresh w = Ok w' → turn w w'
| turn_functor here q1 f q2 w w' :
    queue w = q1 ++ (here, f) :: q2 → run_queued here q1 f q2 w = Ok w' → turn w w'
| turn_accept ptr w w' :
    listenning_ (acc (aw w)) = true → conns w !! ptr = None → nextConnId_ (srv w) + 1 < 2 ^ 31 →
    on_accept (loop_ (srv w)) ptr w = Ok w' → turn w w'
| turn_close c e w w' :
    conns w !! c = Some e → is_open (conn_state (e_conn e)) = true → on_close (e_loop e) c w = Ok w' → turn w w'
| turn_conn c e v w :
    conns w !! c = Some e → is_open (conn_state (e_conn e)) = true →
    conn_ok v → is_open (conn_state v) = true → turn w (put_conn c e v w)
| turn_release c e w w' : conns w !! c = Some e → e_destroyed e = true → release c w = Ok w' → turn w w'.

Lemma turn_ok w w' : server_inv w → turn w w' → server_inv w'.
Proof.
  intros I Ht. destruct Ht as [n w w' Hn E|cb fresh w w' E|here q1 f q2 w w' Eq E|ptr w w' Hl Hp Hid E|c e w w' He Ho E|c e v w He Ho Hv Hov|c e w w' He Hd E].
  - eapply safely_ok; [exact E|by apply setThreadNum_ok].
  - eapply safely_ok; [exact E|by apply start_ok].
  - eapply safely_ok; [exact E|by apply run_queued_ok].
  - eapply safely_ok; [exact E|by apply on_accept_ok].
  - eapply safely_ok; [exact E|by eapply on_close_ok].
  - by apply conn_moves_ok.
  - destruct (release_ok c e w I He Hd) as (w2 & E2 & I2 & _). rewrite E in E2. by injection E2 as ->.
Qed.

Lemma turns_ok w w' : server_inv w → rtc turn w w' → server_inv w'.
Proof. intros I. induction 1; [done|]. eauto using turn_ok. Qed.

(** A new server. *)
Lemma new_TcpServer_ok loop listenAddr nameArg reuse chan (l : L) k :
  loop_inv l → isInLoopThread l = true → get_channel chan l = None → address_ok listenAddr →
  (∀ fd, 0 ≤ fd → fd ∉ open_fds k → fd_free l fd) →
  0 ≤ (k_open_null (k_socket (family listenAddr) k).1).2 →
  safely (new_TcpServer (C:=C) loop listenAddr nameArg reuse chan l k) (λ w, server_inv w ∧ conns w = ∅).
Proof.
  intros I Ht Hc Ha Hfree Hnull. unfold new_TcpServer. destruct (toIpPort_ok listenAddr Ha) as (s & -> & Hs). cbn.
  apply safely_bind. eapply safely_mono; [by apply new_Acceptor_ok|]. intros a (Hacc & Hl & _). cbn. split; [|done].
  split; cbn; try done.
  - split; [|done]. destruct Hacc as [? ? Hch]. by split.
  - left. done.
  - destruct (until_nul_prefix s) as [t Et]. rewrite Et in Hs. rewrite zlen_app in Hs. pose proof (zlen_nonneg t). lia.
  - apply NoDup_nil_2.
  - intros l0 Hin. by apply not_elem_of_nil in Hin.
  - intros x c Hin. by apply not_elem_of_nil in Hin.
Qed.
End run.
