(* ===== verification/TcpServerEnd.v ===== *)
(** The end of a server: [TcpServer::~TcpServer] and the functors it leaves behind
    (TcpServer.cpp). *)
From S2P Require Import Prelude.
From S2P Require Import Endian.
From S2P Require Import CurrentThread.
From S2P Require Import Channel.
From S2P Require Import Loop.
From S2P Require Import SocketsOps.
From S2P Require Import TcpConnection.
From S2P Require Import Acceptor.
From S2P Require Import EventLoopThreadPool.
From S2P Require Import TcpServer.
From S2P Require Import TcpServerFacts.

Lemma omap_ext_in {A B} (f g : A → option B) (l : list A) : (∀ x, x ∈ l → f x = g x) → omap f l = omap g l.
Proof.
  induction l as [|x l IH]; intros E; [done|]. cbn. rewrite (E x) by apply list_elem_of_here.
  rewrite IH; [done|]. intros y Hy. apply E. by apply list_elem_of_further.
Qed.

Section ends.
  Context {CB F L C : Type} `{!Loop CB F L, !LoopSpec CB F L, !LoopLaws CB F L}.
  Context `{!Host, !InetText, !SocketKernel} `{!AcceptorEnv CB}.
  Context `{!CurrentThread} `{!ServedConnection C, !ServedConnectionLaws C}.
  Notation W := (World L C).
  Implicit Types w : W.

(** The loops call what is queued, in order, until nothing is left. *)
Fixpoint drain (q : list (LoopPtr * functor)) w : outcome W :=
  match q with
  | [] => Ok w
  | (l, f) :: q => w ← run_functor l f (set_queue q w); drain q w
  end.

(** Nothing that refers to the server is under way, and no connection is half closed. *)
Definition quiet w : Prop :=
  (∀ nm c e, connections_ (srv w) !! nm = Some c → conns w !! c = Some e → conn_state (e_conn e) = kConnected) ∧
  (∀ l, (l, FListen) ∉ queue w).

(** A connection that can still be destroyed. *)
Definition destroyable w (c : ConnPtr) : Prop :=
  ∃ e, conns w !! c = Some e ∧ conn_ok (e_conn e) ∧ e_destroyed e = false ∧
    (conn_state (e_conn e) = kConnected ∨ conn_state (e_conn e) = kDisconnected).

Definition gone w (c : ConnPtr) : Prop :=
  ∃ e, conns w !! c = Some e ∧ e_destroyed e = true ∧ conn_state (e_conn e) = kDisconnected.

(** [w'] is [w], further on: [ds] were destroyed. *)
Record after_destroying w (ds : list ConnPtr) w' : Prop := {
  de_aw : aw w' = aw w;
  de_gone c : c ∈ ds → gone w' c;
  de_other c : c ∉ ds → conns w' !! c = conns w !! c;
  de_entry c e' : conns w' !! c = Some e' → ∃ e, conns w !! c = Some e ∧ same_entry e e'
}.

Lemma after_nothing w w' : aw w' = aw w → conns w' = conns w → after_destroying w [] w'.
Proof.
  intros Ha Hc. split; [done| | |].
  - intros c Hin. by apply not_elem_of_nil in Hin.
  - intros c _. by rewrite Hc.
  - intros c e'. rewrite Hc. intros E. exists e'. unfold same_entry. by split_and!.
Qed.

(** [connectDestroyed] in the connection's own loop. *)
Lemma connectDestroyed_once l c w :
  destroyable w c → (∀ e, conns w !! c = Some e → e_loop e = l) →
  safely (connectDestroyed l c w) (λ w', after_destroying w [c] w' ∧ srv w' = srv w ∧ queue w' = queue w).
Proof.
  intros (e & He & Hok & Hd & Hs) Hl. unfold connectDestroyed, deref_conn. rewrite He. cbn.
  pose proof (Hl _ He) as <-. rewrite assert_loop_here. cbn. apply safely_bind.
  eapply safely_mono; [by apply destroyed_law|]. intros v Ev. cbn. split; [|done]. split; cbn; [done| | |].
  - intros c2 ->%list_elem_of_singleton. unfold gone. cbn. eexists. rewrite lookup_insert_eq. by split_and!.
  - intros c2 Hne. rewrite lookup_insert_ne; [done|]. intros ->. by apply Hne, list_elem_of_singleton.
  - intros c2 e' [[<- <-]|[_ E]]%lookup_insert_Some; [exists e; unfold same_entry; by split_and!|exists e'; unfold same_entry; by split_and!].
Qed.

Lemma after_trans w ds1 w1 ds2 w2 :
  after_destroying w ds1 w1 → after_destroying w1 ds2 w2 → after_destroying w (ds1 ++ ds2) w2.
Proof.
  intros [A1 G1 O1 E1] [A2 G2 O2 E2]. split.
  - congruence.
  - intros c Hc. destruct (decide (c ∈ ds2)) as [Hin2|Hin2]; [by apply G2|].
    apply elem_of_app in Hc as [Hc|Hc]; [|done]. destruct (G1 c Hc) as (e & He & X). exists e. by rewrite O2.
  - intros c Hc. rewrite not_elem_of_app in Hc. by rewrite O2, O1 by tauto.
  - intros c e' E. destruct (E2 _ _ E) as (e1 & X1 & (Y1 & Z1 & W1)). destruct (E1 _ _ X1) as (e & X & (Y & Z & V)).
    exists e. split; [done|]. split_and!; congruence.
Qed.

Lemma after_destroyable w ds w' c : after_destroying w ds w' → c ∉ ds → destroyable w c → destroyable w' c.
Proof. intros A Hc (e & He & X). exists e. by rewrite (de_other _ _ _ A). Qed.

(** * The functors left in the loops *)
Definition names_own_loop w (x : LoopPtr * functor) : Prop :=
  ∃ c e, x.2 = FConnectDestroyed c ∧ conns w !! c = Some e ∧ e_loop e = x.1 ∧ destroyable w c.

Definition victims (q : list (LoopPtr * functor)) : list ConnPtr := omap (λ x, subject x.2) q.

Lemma drain_ok q w :
  NoDup (victims q) → Forall (names_own_loop w) q →
  safely (drain q w) (λ w', after_destroying w (victims q) w').
Proof.
  revert w. induction q as [|[l f] q IH]; intros w Hnd Hq; [by apply after_nothing|].
  apply list.Forall_cons in Hq as [(c & e & Ef & He & El & Hc) Hq]. cbn in Ef, El. subst f l.
  cbn in Hnd. apply list.NoDup_cons in Hnd as [Hc2 Hnd]. cbn [drain run_functor]. apply safely_bind.
  eapply safely_mono; [apply connectDestroyed_once|].
  { destruct Hc as (e1 & E1 & X). by exists e1. }
  { cbn. intros e2 E2. rewrite He in E2. by injection E2 as <-. }
  intros w1 (A1 & _ & _). assert (A1' : after_destroying w [c] w1) by (by destruct A1; split).
  eapply safely_mono; [apply IH; [done|]|].
  - apply list.Forall_forall. intros x Hx. pose proof (proj1 (list.Forall_forall _ _) Hq x Hx) as (c2 & e2 & Ef & E2 & El & Hd).
    assert (Hne : c2 ∉ [c]).
    { rewrite list_elem_of_singleton. intros ->. apply Hc2. apply list_elem_of_omap. exists x. by rewrite Ef. }
    exists c2, e2. split_and!; [done|by rewrite (de_other _ _ _ A1')|done|by eapply after_destroyable].
  - intros w2 A2. exact (after_trans _ [c] _ _ _ A1' A2).
Qed.

  Variable here : LoopPtr.

(** * The destructor *)
Definition elsewhere w (c : ConnPtr) : option (LoopPtr * functor) :=
  e ← conns w !! c; if here =? e_loop e then None else Some (e_loop e, FConnectDestroyed c).
Definition is_here w (c : ConnPtr) : option ConnPtr :=
  e ← conns w !! c; if here =? e_loop e then Some c else None.

Lemma destroy_all_ok cs w :
  NoDup cs → Forall (destroyable w) cs →
  safely (destroy_all here cs w) (λ w',
    after_destroying w (omap (is_here w) cs) w' ∧ srv w' = srv w ∧ queue w' = queue w ++ omap (elsewhere w) cs).
Proof.
  revert w. induction cs as [|c cs IH]; intros w Hnd Hcs.
  { split_and!; [by apply after_nothing|done|by rewrite app_nil_r]. }
  apply list.NoDup_cons in Hnd as [Hc Hnd]. apply list.Forall_cons in Hcs as [Hd Hcs].
  pose proof Hd as (e & He & Hok & Hnot & Hs). cbn [destroy_all omap list_omap]. unfold deref_conn. rewrite He. cbn [mbind outcome_bind].
  unfold is_here at 1, elsewhere at 1. rewrite He. cbn [mbind option_bind]. unfold run_in_loop.
  (* what is left of the list is looked at in the same way afterwards *)
  assert (Hrest : ∀ w1, after_destroying w [c] w1 ∨ conns w1 = conns w →
    Forall (destroyable w1) cs ∧ omap (is_here w1) cs = omap (is_here w) cs ∧ omap (elsewhere w1) cs = omap (elsewhere w) cs).
  { intros w1 Hw1. assert (Hsame : ∀ c2, c2 ∈ cs → conns w1 !! c2 = conns w !! c2).
    { intros c2 Hin. destruct Hw1 as [A| ->]; [|done]. apply (de_other _ _ _ A). rewrite list_elem_of_singleton. by intros ->. }
    split_and!.
    - apply list.Forall_forall. intros c2 Hin. pose proof (proj1 (list.Forall_forall _ _) Hcs _ Hin) as (e2 & E2 & X).
      exists e2. by rewrite Hsame.
    - apply omap_ext_in. intros c2 Hin. unfold is_here. by rewrite Hsame.
    - apply omap_ext_in. intros c2 Hin. unfold elsewhere. by rewrite Hsame. }
  destruct (Z.eqb_spec here (e_loop e)) as [Eh|Eh].
  - apply safely_bind. eapply safely_mono.
    { apply connectDestroyed_once; [done|]. intros e2 E2. rewrite He in E2. by injection E2 as <-. }
    intros w1 (A1 & Es1 & Eq1). destruct (Hrest w1 (or_introl A1)) as (Hf & E1 & E2).
    eapply safely_mono; [by apply IH|]. rewrite E1, E2. intros w2 (A2 & Es2 & Eq2).
    split_and!; [exact (after_trans _ [c] _ _ _ A1 A2)|congruence|congruence].
  - destruct (Hrest (queue_in_loop (e_loop e) (FConnectDestroyed c) w) (or_intror eq_refl)) as (Hf & E1 & E2).
    eapply safely_mono; [by apply (IH (queue_in_loop (e_loop e) (FConnectDestroyed c) w))|].
    rewrite E1, E2. intros w2 (A2 & Es2 & Eq2).
    split_and!; [by destruct A2; split|done|]. rewrite Eq2. cbn. by rewrite <- app_assoc.
Qed.
(** * From the invariant of a running server *)

(** A list of pointers to which a filter was applied. *)
Lemma NoDup_omap_id (f : ConnPtr → option ConnPtr) (l : list ConnPtr) :
  (∀ c c', f c = Some c' → c' = c) → NoDup l → NoDup (omap f l).
Proof.
  intros Hf. induction 1 as [|c l Hc _ IH]; [constructor|]. cbn. destruct (f c) as [c'|] eqn:E; [|done].
  apply Hf in E as ->. constructor; [|done]. rewrite list_elem_of_omap. intros (c2 & Hin & E2). apply Hf in E2 as ->. done.
Qed.

Definition victim_elsewhere w (c : ConnPtr) : option ConnPtr :=
  e ← conns w !! c; if here =? e_loop e then None else Some c.

Lemma victims_elsewhere w cs : victims (omap (elsewhere w) cs) = omap (victim_elsewhere w) cs.
Proof.
  induction cs as [|c cs IH]; [done|]. cbn. unfold elsewhere at 1, victim_elsewhere at 1.
  destruct (conns w !! c) as [e|]; cbn; [|done]. destruct (here =? e_loop e); cbn; [done|]. f_equal. apply IH.
Qed.

(** The connections in the map. *)
Definition mapped w : list ConnPtr := (map_to_list (connections_ (srv w))).*2.

Lemma elem_of_mapped w c : c ∈ mapped w ↔ ∃ nm, connections_ (srv w) !! nm = Some c.
Proof.
  unfold mapped. rewrite list_elem_of_fmap. split.
  - intros ([nm c'] & -> & Hin). exists nm. by apply elem_of_map_to_list.
  - intros [nm E]. exists (nm, c). by rewrite elem_of_map_to_list.
Qed.

Lemma mapped_NoDup w : server_inv w → NoDup (mapped w).
Proof.
  intros I. apply NoDup_fmap_2_strong; [|apply NoDup_map_to_list].
  intros [n1 c1] [n2 c2] Hin1 Hin2 E. cbn in E. subst c2. apply elem_of_map_to_list in Hin1, Hin2.
  destruct (si_map _ I _ _ Hin1) as (e1 & E1 & <-), (si_map _ I _ _ Hin2) as (e2 & E2 & <-). by simplify_eq.
Qed.

Lemma mapped_destroyable w c :
  server_inv w → quiet w → c ∈ mapped w → destroyable w c ∧ ∃ e, conns w !! c = Some e ∧ connections_ (srv w) !! e_name e = Some c.
Proof.
  intros I [Hq _] Hc. apply elem_of_mapped in Hc as [nm Em]. destruct (si_map _ I _ _ Em) as (e & He & <-).
  pose proof (si_conns _ I c e He) as [_ Cok _ Cin _]. pose proof (Cin Em) as Hd.
  split; [|eauto]. exists e. split_and!; auto. left. by eapply Hq.
Qed.

(** What is queued destroys connections that are out of the map. *)
Lemma queued_destroys w x :
  server_inv w → quiet w → x ∈ queue w → ∃ c, x.2 = FConnectDestroyed c ∧ c ∉ mapped w ∧ names_own_loop w x.
Proof.
  intros I Hquiet Hx. pose proof Hquiet as [Hq Hl]. destruct x as [l f].
  destruct (subject f) as [c|] eqn:Es; [|destruct f; try done; by apply Hl in Hx].
  destruct (queued_awaited w l f c I Hx Es) as (e & He & [_ Cok Cout _ _] & Ha). unfold awaited in Ha.
  case_bool_decide as Hm.
  - rewrite (Hq _ _ _ Hm He) in Ha. done.
  - destruct (e_destroyed e) eqn:Ed; [done|]. injection Ha as <- <-. exists c. split; [done|]. split.
    + intros Hc. destruct (mapped_destroyable w c I Hquiet Hc) as (_ & e2 & E2 & Em). by simplify_eq.
    + exists c, e. split_and!; try done. exists e. split_and!; auto.
Qed.

Lemma queued_victims w :
  server_inv w → quiet w → NoDup (victims (queue w)) ∧ Forall (names_own_loop w) (queue w) ∧
  (∀ c, c ∈ victims (queue w) → c ∉ mapped w).
Proof.
  intros I Hquiet. pose proof (si_queue _ I) as Hnd. pose proof (queued_destroys w) as Hd.
  assert (Hall : ∀ x, x ∈ queue w → ∃ c, x.2 = FConnectDestroyed c ∧ c ∉ mapped w ∧ names_own_loop w x) by auto.
  clear Hd. revert Hnd Hall. generalize (queue w). intros q Hnd Hall. split_and!.
  - induction Hnd as [|x q Hx _ IH]; [constructor|]. destruct (Hall x (list_elem_of_here _ _)) as (c & Ef & _ & (c1 & e & Ef1 & He & El & _)).
    cbn. rewrite Ef. cbn. constructor; [|apply IH; intros y Hy; apply Hall; by apply list_elem_of_further].
    intros Hin. apply list_elem_of_omap in Hin as (y & Hy & Es). destruct (Hall y (list_elem_of_further _ _ _ Hy)) as (c2 & Ef2 & _ & (c3 & e3 & Ef3 & He3 & El3 & _)).
    rewrite Ef2 in Es, Ef3. injection Es as ->. injection Ef3 as <-. rewrite Ef in Ef1. injection Ef1 as <-.
    apply Hx. destruct x as [l f], y as [l' f']. cbn in *. congruence.
  - apply list.Forall_forall. intros x Hx. by destruct (Hall x Hx) as (_ & _ & _ & ?).
  - intros c Hin. apply list_elem_of_omap in Hin as (x & Hx & Es). destruct (Hall x Hx) as (c2 & Ef & Hc & _).
    rewrite Ef in Es. by injection Es as <-.
Qed.

(** * Half-closed connections *)
Definition half_closed w (c : ConnPtr) : Prop :=
  ∃ e, conns w !! c = Some e ∧ conn_ok (e_conn e) ∧ conn_state (e_conn e) = kDisconnecting ∧ e_loop e = here.

Lemma connectDestroyed_others l c c2 w w' :
  connectDestroyed l c w = Ok w' → c2 ≠ c → conns w' !! c2 = conns w !! c2.
Proof.
  unfold connectDestroyed, deref_conn. intros E Hne. destruct (conns w !! c) as [e|]; [|done]. cbn in E.
  unfold assert_loop in E. destruct (l =? e_loop e); [|done]. cbn in E.
  destruct (conn_destroyed (e_conn e)) as [v|]; [|done]. injection E as <-. cbn. by rewrite lookup_insert_ne.
Qed.

(** The destructor does not get past such a connection of its own loop. *)
Lemma destroy_all_half_closed cs c w :
  c ∈ cs → half_closed w c → is_ok (destroy_all here cs w) = false.
Proof.
  revert w. induction cs as [|c1 cs IH]; intros w Hin Hc; [by apply elem_of_nil in Hin|].
  cbn [destroy_all]. unfold deref_conn. destruct (decide (c1 = c)) as [->|Hne].
  - destruct Hc as (e & He & Hok & Hs & Hl). rewrite He. cbn. unfold run_in_loop, connectDestroyed, deref_conn.
    rewrite Hl, Z.eqb_refl, He. cbn. rewrite Hl, assert_loop_here. cbn. by rewrite half_closed_law.
  - apply elem_of_cons in Hin as [->|Hin]; [done|]. destruct (conns w !! c1) as [e1|] eqn:E1; [|done]. cbn.
    unfold run_in_loop. destruct (here =? e_loop e1); [|by apply IH].
    destruct (connectDestroyed here c1 w) as [w1|] eqn:E; [|done]. apply IH; [done|].
    destruct Hc as (e & He & X). exists e. rewrite (connectDestroyed_others _ _ _ _ _ E); [done|congruence].
Qed.

(** * All of it *)
Lemma elem_of_is_here w c :
  c ∈ omap (is_here w) (mapped w) ↔ c ∈ mapped w ∧ ∃ e, conns w !! c = Some e ∧ here = e_loop e.
Proof.
  rewrite list_elem_of_omap. unfold is_here. split.
  - intros (c2 & Hin & E). destruct (conns w !! c2) as [e|] eqn:E2; cbn in E; [|done].
    destruct (Z.eqb_spec here (e_loop e)); [|done]. injection E as ->. eauto.
  - intros (Hin & e & E2 & Eh). exists c. rewrite E2. cbn. by rewrite Eh, Z.eqb_refl.
Qed.

Lemma elem_of_victim_elsewhere w c :
  c ∈ omap (victim_elsewhere w) (mapped w) ↔ c ∈ mapped w ∧ ∃ e, conns w !! c = Some e ∧ here ≠ e_loop e.
Proof.
  rewrite list_elem_of_omap. unfold victim_elsewhere. split.
  - intros (c2 & Hin & E). destruct (conns w !! c2) as [e|] eqn:E2; cbn in E; [|done].
    destruct (Z.eqb_spec here (e_loop e)); [done|]. injection E as ->. eauto.
  - intros (Hin & e & E2 & Hne). exists c. rewrite E2. cbn. destruct (Z.eqb_spec here (e_loop e)); done.
Qed.

(** What the destructor leaves in the loops can be called. *)
Lemma left_queue_ok w w1 :
  server_inv w → quiet w → after_destroying w (omap (is_here w) (mapped w)) w1 →
  NoDup (victims (queue w ++ omap (elsewhere w) (mapped w))) ∧
  Forall (names_own_loop w1) (queue w ++ omap (elsewhere w) (mapped w)).
Proof.
  intros I Hquiet A. destruct (queued_victims w I Hquiet) as (Hndq & Hown & Hout). split.
  - unfold victims. rewrite omap_app. apply list.NoDup_app. split_and!; [done| |].
    + intros c Hc Hc2. rewrite victims_elsewhere in Hc2. apply elem_of_victim_elsewhere in Hc2 as [Hm _]. by apply (Hout c).
    + change (NoDup (victims (omap (elsewhere w) (mapped w)))). rewrite victims_elsewhere.
      apply NoDup_omap_id; [|by apply mapped_NoDup]. intros c c'. unfold victim_elsewhere.
      destruct (conns w !! c) as [e|]; cbn; [|done]. destruct (here =? e_loop e); by intros [= ->].
  - apply list.Forall_app. split; apply list.Forall_forall; intros x Hx.
    + pose proof (proj1 (list.Forall_forall _ _) Hown x Hx) as (c & e & Ef & He & El & Hd).
      assert (Hc : c ∉ omap (is_here w) (mapped w)).
      { intros [Hm _]%elem_of_is_here. apply (Hout c); [|done]. apply list_elem_of_omap. exists x. by rewrite Ef. }
      exists c, e. split_and!; [done|by rewrite (de_other _ _ _ A)|done|by eapply after_destroyable].
    + apply list_elem_of_omap in Hx as (c & Hin & E). unfold elsewhere in E.
      destruct (conns w !! c) as [e|] eqn:He; cbn in E; [|done]. destruct (Z.eqb_spec here (e_loop e)) as [|Hne]; [done|].
      injection E as <-.
      assert (Hc : c ∉ omap (is_here w) (mapped w)).
      { intros (_ & e2 & E2 & ?)%elem_of_is_here. rewrite He in E2. by injection E2 as <-. }
      exists c, e. split_and!; [done|by rewrite (de_other _ _ _ A)|done|].
      eapply after_destroyable; [done..|]. by apply (mapped_destroyable w).
Qed.

(** A connection that was neither destroyed by the destructor nor has its functor queued had been
    destroyed before. *)
Lemma others_destroyed w c e :
  server_inv w → conns w !! c = Some e →
  c ∉ omap (is_here w) (mapped w) → c ∉ victims (queue w ++ omap (elsewhere w) (mapped w)) →
  e_destroyed e = true ∧ conn_state (e_conn e) = kDisconnected.
Proof.
  intros I He Hhere Hv. unfold victims in Hv. rewrite omap_app, not_elem_of_app in Hv. destruct Hv as [Hq Hv].
  change (c ∉ victims (omap (elsewhere w) (mapped w))) in Hv. rewrite victims_elsewhere in Hv.
  pose proof (si_conns _ I c e He) as [_ _ Cout _ Caw].
  assert (Hm : connections_ (srv w) !! e_name e ≠ Some c).
  { intros Hm. assert (Hmp : c ∈ mapped w) by (apply elem_of_mapped; eauto).
    destruct (decide (here = e_loop e)) as [Eh|Eh].
    - apply Hhere, elem_of_is_here. eauto.
    - apply Hv, elem_of_victim_elsewhere. eauto. }
  split; [|by apply Cout]. destruct (e_destroyed e) eqn:Ed; [done|]. exfalso. apply Hq, list_elem_of_omap.
  exists (e_loop e, FConnectDestroyed c). split; [|done]. apply Caw; [done|].
  unfold awaited. by rewrite bool_decide_eq_false_2, Ed.
Qed.

Lemma server_dtor_ok w :
  server_inv w → quiet w → here = loop_ (srv w) →
  safely (server_dtor here w) (λ w1, connections_ (srv w1) = ∅ ∧
    safely (drain (queue w1) w1) (λ w2, aw w2 = aw w ∧
      ∀ c e, conns w2 !! c = Some e → e_destroyed e = true ∧ conn_state (e_conn e) = kDisconnected ∧
        ∃ e0, conns w !! c = Some e0 ∧ same_entry e0 e)).
Proof.
  intros I Hquiet Hh. unfold server_dtor. rewrite <- Hh, assert_loop_here. cbn.
  assert (Hcs : Forall (destroyable w) (mapped w)).
  { apply list.Forall_forall. intros c Hc. by apply (mapped_destroyable w). }
  apply safely_bind. eapply safely_mono; [apply (destroy_all_ok (mapped w)); [by apply mapped_NoDup|done]|].
  intros w1 (A1 & Es & Eq). cbn. split; [done|].
  set (w1' := on_srv (set_connections ∅) w1).
  assert (A1' : after_destroying w (omap (is_here w) (mapped w)) w1') by (by destruct A1; split).
  destruct (left_queue_ok w w1' I Hquiet A1') as [Hnd Hown]. rewrite Eq.
  eapply safely_mono; [by apply (drain_ok _ w1')|].
  intros w2 A2. pose proof (after_trans _ _ _ _ _ A1' A2) as A. split; [apply A|].
  intros c e2 E2. destruct (de_entry _ _ _ A _ _ E2) as (e & He & Hsame).
  enough (e_destroyed e2 = true ∧ conn_state (e_conn e2) = kDisconnected) by (split_and!; [tauto..|eauto]).
  destruct (decide (c ∈ omap (is_here w) (mapped w) ++ victims (queue w ++ omap (elsewhere w) (mapped w)))) as [Hc|Hc].
  - destruct (de_gone _ _ _ A _ Hc) as (e3 & E3 & X). rewrite E2 in E3. by injection E3 as <-.
  - rewrite (de_other _ _ _ A _ Hc), He in E2. injection E2 as <-. rewrite not_elem_of_app in Hc.
    destruct Hc as [Hc1 Hc2]. by apply (others_destroyed w c e I He).
Qed.
End ends.
