(* ===== verification/TcpClientFacts.v ===== *)
(** What holds of a client at every moment (TcpClient.cpp): its connector, the connection it has,
    and the ones that are on their way out. *)
From S2P Require Import Prelude.
From S2P Require Import Endian.
From S2P Require Import Format.
From S2P Require Import StringPiece.
From S2P Require Import CurrentThread.
From S2P Require Import Channel.
From S2P Require Import Loop.
From S2P Require Import SocketsOps.
From S2P Require Import InetAddress.
From S2P Require Import TcpConnection.
From S2P Require Import TcpServer.
From S2P Require Import TcpServerFacts.
From S2P Require Import Connector.
From S2P Require Import ConnectorFacts.
From S2P Require Import ConnectorRun.
From S2P Require Import TcpClient.

Class ClientConnectionLaws (C : Type) `{!ServedConnection C, !ServedConnectionLaws C, !ClientConnection C} := {
  shutdown_law c : conn_ok c → is_open (conn_state c) = true →
    safely (conn_shutdown c) (λ c', conn_ok c' ∧ is_open (conn_state c') = true);
  forceClose_law c : conn_ok c → is_open (conn_state c) = true →
    safely (conn_forceClose c) (λ c', conn_ok c' ∧ is_open (conn_state c') = true)
}.

(** * What a connector hands over in one move *)
Section once.
  Context {CB F L : Type} `{!Loop CB F L} `{!Host, !SocketKernel} `{!ConnectorEnv CB F L} `{!CurrentThread}.
  Implicit Types w : Connector.World L.

(** Nothing, and a connected connector stays connected; or one descriptor, when it becomes connected
    without having been stopped. *)
Definition once w w' : Prop :=
  connect_ (cn w') = connect_ (cn w) ∧
  (handed w' = handed w ∧ (state_ (cn w) = kConnected → state_ (cn w') = kConnected) ∨
   state_ (cn w) ≠ kConnected ∧ connect_ (cn w) = true ∧ state_ (cn w') = kConnected ∧
   ∃ fd, handed w' = handed w ++ [fd]).

Lemma once_same w w' : cn w' = cn w → handed w' = handed w → once w w'.
Proof. intros E1 E2. split; [by rewrite E1|left]. by rewrite E1, E2. Qed.

Lemma once_trans w1 w2 w3 : once w1 w2 → once w2 w3 → once w1 w3.
Proof.
  intros [C1 A1] [C2 A2]. split; [congruence|].
  destruct A1 as [[E1 S1]|(N1 & T1 & S1 & fd & E1)], A2 as [[E2 S2]|(N2 & T2 & S2 & fd2 & E2)].
  - left. split; [congruence|auto].
  - right. split_and!; [auto|congruence|done|]. exists fd2. congruence.
  - right. split_and!; [done|done|auto|]. exists fd. congruence.
  - done.
Qed.

Lemma retry_once fd w : state_ (cn w) ≠ kConnected → once w (retry fd w).
Proof.
  intros Hs. unfold retry. cbn. destruct (connect_ (cn w)) eqn:E; (split; [done|left; by split]).
Qed.

Lemma removeAndReset_same w w' fd : removeAndResetChannel w = Ok (w', fd) → cn w' = cn w ∧ handed w' = handed w ∧ os w' = os w.
Proof. unfold removeAndResetChannel. destruct (channel_ (cn w)); intros E; inv_ok. by split_and!. Qed.

Lemma retry_removed fd w v k :
  state_ (cn w) ≠ kConnected → cn v = cn w → handed v = handed w → once w (retry fd (set_os k v)).
Proof.
  intros Es E1 E2. eapply once_trans; [by apply (once_same w (set_os k v))|]. apply retry_once. cbn. by rewrite E1.
Qed.

Lemma handleWrite_once w w' : handleWrite w = Ok w' → once w w'.
Proof.
  unfold handleWrite. case_bool_decide as Es; intros E; inv_ok; [| | | |by apply once_same].
  all: match goal with R : removeAndResetChannel _ = _ |- _ => apply removeAndReset_same in R as (E1 & E2 & _) end.
  1,2: by apply retry_removed; [by rewrite Es|..].
  - unfold call_newConnection in E. inv_ok. cbn in *. rewrite E1 in *. split; [done|]. right. rewrite Es, E2.
    split_and!; try done. by eexists.
  - split; cbn; [by rewrite E1|]. by left.
Qed.

Lemma handleError_once w w' : handleError w = Ok w' → once w w'.
Proof.
  unfold handleError. case_bool_decide as Es; intros E; inv_ok; [|by apply once_same].
  match goal with R : removeAndResetChannel _ = _ |- _ => apply removeAndReset_same in R as (E1 & E2 & _) end.
  apply retry_removed; [by rewrite Es|done..].
Qed.

Lemma modify_once c f w w' : modify c f w = Ok w' → once w w'.
Proof. unfold modify. intros E. inv_ok. by apply once_same. Qed.

Lemma dispatch_once c fires slot w w' : dispatch run_callback c fires slot w = Ok w' → once w w'.
Proof.
  unfold dispatch. intros E. inv_ok; [|by apply once_same]. unfold call in E. destruct (slot _) as [cb|]; [|injection E as <-; by apply once_same].
  unfold run_callback in E. destruct (decode_handler cb) as [[]|]; cbn in E;
    [by apply handleWrite_once|by apply handleError_once|injection E as <-; by apply once_same].
Qed.

Lemma guarded_once c w w' : handleEventWithGuard run_callback c w = Ok w' → once w w'.
Proof.
  unfold handleEventWithGuard. intros E. inv_ok.
  repeat match goal with
  | Hx : dispatch _ _ _ _ _ = Ok _ |- _ => apply dispatch_once in Hx
  | Hx : modify _ _ _ = Ok _ |- _ => apply modify_once in Hx
  end. eauto 10 using once_trans.
Qed.

Lemma dispatch_events_once r w w' : dispatch_events r w = Ok w' → once w w'.
Proof.
  unfold dispatch_events. destruct (channel_ (cn w)) as [c|]; intros E; inv_ok; [|by apply once_same].
  match goal with Hx : modify _ _ _ = Ok _ |- _ => apply modify_once in Hx end.
  eapply once_trans; [done|]. unfold handleEvent in E. inv_ok; by eapply guarded_once.
Qed.

(** An attempt hands over nothing. *)
Lemma connect_once chan w w' :
  state_ (cn w) = kDisconnected → connect chan w = Ok w' → connect_ (cn w') = connect_ (cn w) ∧ handed w' = handed w.
Proof.
  intros Es. unfold connect. destruct (createNonblockingOrDie _ _) as [k fd], (SocketsOps.connect _ _ _) as [k2 ret].
  destruct (in_progress _); [unfold connecting; intros E; inv_ok; done|]. intros E. destruct (worth_retrying _); injection E as <-; [|done].
  unfold retry. cbn. by destruct (connect_ (cn w)) eqn:?.
Qed.

Lemma startInLoop_once chan w w' :
  startInLoop chan w = Ok w' → connect_ (cn w') = connect_ (cn w) ∧ handed w' = handed w ∧ state_ (cn w) = kDisconnected.
Proof.
  unfold startInLoop. intros E. inv_ok; match goal with Hx : bool_decide _ = true |- _ => apply bool_decide_eq_true in Hx as Es end; [|done].
  destruct (connect_once chan w w' Es E) as [-> ->]. done.
Qed.

(** What a restart leaves: an attempt, or its failure with the first delay set. *)
Lemma restart_fresh chan w w' :
  timers w = [] → restart chan w = Ok w' →
  handed w' = handed w ∧ connect_ (cn w') = true ∧ state_ (cn w') ≠ kConnected ∧
  (timers w' = [] ∨ timers w' = [kInitRetryDelayMs]).
Proof.
  intros Em. unfold restart. intros E. inv_ok. destruct (startInLoop_once _ _ _ E) as (Ec & Eh & _). cbn in Ec, Eh.
  split; [done|]. split; [done|]. unfold startInLoop, connect in E. inv_ok.
  - unfold connecting in E. inv_ok. cbn. split; [done|by left].
  - unfold retry. cbn. rewrite Em. split; [done|by right].
  - split; [done|by left].
Qed.

(** The moves that are not calls of the connector's public methods. *)
Definition of_the_loop (a : action) : Prop := match a with TimerFires | RunFunctor _ | Events _ => True | _ => False end.

Lemma loop_move_once a chan w w' : of_the_loop a → perform a chan w = Ok w' → once w w'.
Proof.
  assert (HS : ∀ v v', startInLoop chan v = Ok v' → once v v').
  { intros v v' E. destruct (startInLoop_once _ _ _ E) as (E1 & E2 & E3). split; [done|left]. split; [done|]. by rewrite E3. }
  destruct a as [| | | |f|r]; try done; cbn; intros _ E.
  - unfold timer_fires in E. apply HS in E. eapply once_trans; [|exact E]. by apply once_same.
  - destruct f; cbn in E; [by apply HS| |].
    + unfold stopInLoop in E. inv_ok; [|by apply once_same].
      match goal with Hx : bool_decide _ = true |- _ => apply bool_decide_eq_true in Hx as Es end.
      match goal with R : removeAndResetChannel _ = _ |- _ => apply removeAndReset_same in R as (E1 & E2 & _) end.
      cbn in E1, E2. destruct (retry_once z w0) as [C1 A1]; [by rewrite E1|]. split; [by rewrite C1, E1|].
      destruct A1 as [[A1 _]|(_ & _ & A1 & _)]; [|unfold retry in A1; cbn in A1; by destruct (connect_ (cn w0))].
      left. rewrite A1, Es. by split.
    + unfold resetChannel in E. destruct (channel_ (cn w)); inv_ok; (split; [done|by left]).
  - by apply dispatch_events_once in E.
Qed.
End once.

(** * The invariant *)
Section facts.
  Context {CB F L C : Type} `{!Loop CB F L, !LoopSpec CB F L, !LoopLaws CB F L}.
  Context `{!Host, !InetText, !SocketKernel} `{!ConnectorEnv CB F L, !ConnectorEnvLaws CB F L}.
  Context `{!CurrentThread} `{!ServedConnection C, !ServedConnectionLaws C, !ClientConnection C, !ClientConnectionLaws C}.
  Notation W := (ClientWorld L C).
  Implicit Types w : W.

(** The descriptors that are not the connector's. *)
Definition outside (a : Connector.World L) : gset Z := open_fds (os a) ∖ owned a.

(** One connection: it is up, or down and waiting for [connectDestroyed], or destroyed.  Only the
    client's own connection, while it is up, calls the client. *)
Record entry_ok (x : option TcpClient) (q : list client_functor) (fds : gset Z) (c : ConnPtr) (e : client_entry C) : Prop := {
  en_ok : ce_destroyed e = false → conn_ok (ce_conn e);
  en_state : is_open (conn_state (ce_conn e)) = true ∨ conn_state (ce_conn e) = TcpConnection.kDisconnected;
  en_queue : ClientDestroyed c ∈ q ↔ conn_state (ce_conn e) = TcpConnection.kDisconnected ∧ ce_destroyed e = false;
  en_destroyed : ce_destroyed e = true → conn_state (ce_conn e) = TcpConnection.kDisconnected;
  en_client : ce_close e = RemoveByClient → is_open (conn_state (ce_conn e)) = true →
    ∃ y, x = Some y ∧ connection_ y = Some c;
  en_fd : ce_fd e ∈ fds
}.

Definition client_ok (x : option TcpClient) (a : Connector.World L) (m : gmap ConnPtr (client_entry C)) : Prop :=
  match x with
  | Some x => 1 ≤ client_nextConnId_ x < 2 ^ 31 ∧
      match connection_ x with
      | Some c => state_ (cn a) = kConnected ∧
          ∃ e, m !! c = Some e ∧ is_open (conn_state (ce_conn e)) = true ∧ ce_close e = RemoveByClient
      | None => True
      end
  | None => connect_ (cn a) = false ∨ state_ (cn a) = kConnected
  end.

Record client_inv w : Prop := {
  ki_connector : inv_with false (cw w);
  ki_client : client_ok (cl w) (cw w) (cconns w);
  ki_queue : NoDup (cqueue w);
  ki_subject f : f ∈ cqueue w → ∃ c, f = ClientDestroyed c ∧ is_Some (cconns w !! c);
  ki_entries c e : cconns w !! c = Some e → entry_ok (cl w) (cqueue w) (outside (cw w)) c e;
  ki_fds c1 c2 e1 e2 : cconns w !! c1 = Some e1 → cconns w !! c2 = Some e2 → ce_fd e1 = ce_fd e2 → c1 = c2
}.

Lemma open_not_down s : is_open s = true → s ≠ TcpConnection.kDisconnected.
Proof. by intros Ho ->. Qed.

(** The connector moves, the connections stay. *)
Lemma connector_moves w x a :
  client_inv w → inv_with false a → outside (cw w) ⊆ outside a → client_ok x a (cconns w) →
  (connection_ <$> x) = (connection_ <$> cl w) ∨ x = None ∧ (∀ y, cl w = Some y → connection_ y = None) →
  client_inv (mkClientWorld x a (cconns w) (cqueue w)).
Proof.
  intros [Ic Icl Iq Isu Ie Ifd] Ia Ho Hx Hc. split; cbn; try done.
  intros c e He. destruct (Ie c e He) as [Ok1 St Qu De Cl Fd]. split; try done; [|by apply Ho].
  intros Hr Hop. destruct (Cl Hr Hop) as (y & Ey & Ec). rewrite Ey in Hc. destruct Hc as [Hc|[-> Hc]].
  - destruct x as [x|]; [|done]. injection Hc as Hc. exists x. by rewrite Hc.
  - specialize (Hc y eq_refl). congruence.
Qed.

(** A connection moves on. *)
Lemma entry_moves w x c e e' q' :
  client_inv w → cconns w !! c = Some e → ce_fd e' = ce_fd e →
  NoDup q' → (∀ f, f ≠ ClientDestroyed c → (f ∈ q' ↔ f ∈ cqueue w)) →
  client_ok x (cw w) (<[c := e']> (cconns w)) →
  (∀ y c2, c2 ≠ c → cl w = Some y → connection_ y = Some c2 → ∃ y', x = Some y' ∧ connection_ y' = Some c2) →
  entry_ok x q' (outside (cw w)) c e' →
  client_inv (mkClientWorld x (cw w) (<[c := e']> (cconns w)) q').
Proof.
  intros [Ic Icl Iq Isu Ie Ifd] He Ef Hq Hqs Hx Hcl He'.
  assert (HL : ∀ c2 e2, <[c := e']> (cconns w) !! c2 = Some e2 →
            ∃ e0, cconns w !! c2 = Some e0 ∧ ce_fd e2 = ce_fd e0).
  { intros c2 e2. destruct (decide (c2 = c)) as [->|]; [rewrite lookup_insert_eq; intros [= <-]; eauto|].
    rewrite lookup_insert_ne by done. eauto. }
  split; cbn; try done.
  - intros f Hf. destruct f as [c2|c2]; destruct (decide (c2 = c)) as [->|Hne].
    + exists c. split; [done|]. by rewrite lookup_insert_eq.
    + apply Hqs in Hf; [|congruence]. destruct (Isu _ Hf) as (c3 & [= <-] & Hs). exists c2. by rewrite lookup_insert_ne.
    + apply Hqs in Hf; [|done]. by destruct (Isu _ Hf) as (c3 & ? & _).
    + apply Hqs in Hf; [|done]. by destruct (Isu _ Hf) as (c3 & ? & _).
  - intros c2 e2 He2. destruct (decide (c2 = c)) as [->|Hne].
    + rewrite lookup_insert_eq in He2. by injection He2 as <-.
    + rewrite lookup_insert_ne in He2 by done. destruct (Ie c2 e2 He2) as [Ok1 St Qu De Cl Fd]. split; try done.
      * rewrite Hqs by congruence. done.
      * intros Hr Ho. destruct (Cl Hr Ho) as (y & Ey & Ec). by eapply Hcl.
  - intros c1 c2 e1 e2 E1 E2 E. apply HL in E1 as (x1 & X1 & Y1), E2 as (x2 & X2 & Y2). eapply Ifd; [done|done|congruence].
Qed.

(** The connection of the client is the only one that is up and its own. *)
Lemma own_connection w c e :
  client_inv w → cconns w !! c = Some e → is_open (conn_state (ce_conn e)) = true → ce_close e = RemoveByClient →
  ∃ x, cl w = Some x ∧ connection_ x = Some c ∧ state_ (cn (cw w)) = kConnected ∧ timers (cw w) = [].
Proof.
  intros I He Ho Hr. destruct (en_client _ _ _ _ _ (ki_entries _ I c e He) Hr Ho) as (x & Ex & Ec). exists x.
  pose proof (ki_client _ I) as Hx. rewrite Ex in Hx. cbn in Hx. rewrite Ec in Hx. destruct Hx as (_ & Es & _).
  split_and!; try done. pose proof (iv_state _ _ (ki_connector _ I)) as Hst. rewrite Es in Hst. apply Hst.
Qed.

Lemma peer_address_ok fd k : address_ok (getPeerAddr fd k).
Proof.
  unfold address_ok, getPeerAddr. destruct (k_getpeername fd k) as [a|] eqn:E; [by eapply getpeername_size|done].
Qed.

(** A connected descriptor becomes the client's connection. *)
Lemma newConnection_ok ptr fd w x :
  client_inv w → cl w = Some x → connection_ x = None → state_ (cn (cw w)) = kConnected →
  client_nextConnId_ x + 1 < 2 ^ 31 → cconns w !! ptr = None → fd ∈ outside (cw w) →
  (∀ c e, cconns w !! c = Some e → ce_fd e ≠ fd) →
  safely (client_newConnection ptr fd w) client_inv.
Proof.
  intros I Ex Ec Es Hid Hp Hfd Hnew. pose proof I as [Ic Icl Iq Isu Ie Ifd].
  unfold client_newConnection, the_client, assertInLoopThread. rewrite Ex, (iv_thread _ _ Ic). cbn.
  destruct (toIpPort_ok _ (peer_address_ok fd (os (cw w)))) as (s & -> & _). cbn. rewrite defined_true by bsolve. cbn.
  assert (Hpos : 0 ≤ fd) by (apply (open_fds_nonneg (os (cw w))); unfold outside in Hfd; set_solver).
  apply safely_bind. eapply safely_mono; [by apply new_law|]. intros v [Hv Esv].
  apply safely_bind. eapply safely_mono; [by apply established_law|]. intros v2 [Hv2 Ho].
  rewrite Ex in Icl. cbn in Icl. destruct Icl as [Hids _].
  assert (Hno : ClientDestroyed ptr ∉ cqueue w).
  { intros Hin. destruct (Isu _ Hin) as (c & [= <-] & [e He]). congruence. }
  split; cbn; try done.
  - split; [lia|]. split; [done|]. eexists. by rewrite lookup_insert_eq.
  - intros f Hf. destruct (Isu f Hf) as (c & -> & [e He]). exists c. split; [done|].
    rewrite lookup_insert_ne by congruence. by eexists.
  - intros c e. destruct (decide (c = ptr)) as [->|Hne]; [rewrite lookup_insert_eq; intros [= <-]|rewrite lookup_insert_ne by done].
    + split; cbn; try done; [by left| |by eexists]. split; [done|]. intros [Hd _]. by apply open_not_down in Ho.
    + intros He. destruct (Ie c e He) as [Ok1 St Qu De Cl Fd]. split; try done.
      intros Hr Hop. destruct (Cl Hr Hop) as (y & Ey & Ec2). rewrite Ex in Ey. injection Ey as <-. congruence.
  - intros c1 c2 e1 e2. destruct (decide (c1 = ptr)) as [->|N1], (decide (c2 = ptr)) as [->|N2]; try done.
    + rewrite lookup_insert_eq, lookup_insert_ne by done. intros [= <-] E2 E. cbn in E. by destruct (Hnew _ _ E2).
    + rewrite lookup_insert_eq, lookup_insert_ne by done. intros E1 [= <-] E. cbn in E. by destruct (Hnew _ _ E1).
    + rewrite !lookup_insert_ne by done. apply Ifd.
Qed.

(** Where the next connection can be created. *)
Definition client_room (ptr : ConnPtr) w : Prop :=
  cconns w !! ptr = None ∧ ∀ x, cl w = Some x → client_nextConnId_ x + 1 < 2 ^ 31.

Lemma outside_grows (a b : Connector.World L) : ledger a b → outside a ⊆ outside b.
Proof. intros (n & _ & E & _). unfold outside. set_solver. Qed.

(** The connector moves by itself: it may hand over a descriptor. *)
Lemma with_connector_ok ptr move w :
  client_inv w → client_room ptr w →
  safely (move (cw w)) (λ a, inv_with false a ∧ ledger (cw w) a) →
  (∀ a, move (cw w) = Ok a → once (cw w) a) →
  safely (with_connector ptr move w) client_inv.
Proof.
  intros I [Hp Hid] Hm Ho. unfold with_connector. destruct (move (cw w)) as [a|f] eqn:Em; [|exact Hm].
  cbn in Hm. destruct Hm as [Ia Hl]. cbn. destruct (Ho a eq_refl) as [Eco Hcase]. pose proof (outside_grows _ _ Hl) as Hgr.
  pose proof (ki_client _ I) as Hcl.
  destruct Hcase as [[Eh Hst]|(Hs & Hc & Es & fd & Eh)]; rewrite Eh.
  - rewrite drop_all. apply connector_moves; try done; [|by left].
    destruct (cl w) as [x|]; cbn in *.
    + destruct Hcl as [? Hcl]. split; [done|]. destruct (connection_ x); [|done]. destruct Hcl as [Es He]. by split; [apply Hst|].
    + rewrite Eco. destruct Hcl as [?|?]; [by left|right; by apply Hst].
  - rewrite drop_app_length. destruct (cl w) as [x|] eqn:Ex; cbn in Hcl; [|by destruct Hcl; [congruence|]].
    assert (Ec : connection_ x = None).
    { destruct Hcl as [_ Hcl]. destruct (connection_ x); [|done]. by destruct Hcl as [? _]. }
    destruct Hl as (new & Eh2 & Eo & Hd). rewrite Eh in Eh2. apply app_inv_head in Eh2. subst new. cbn in Eo, Hd.
    eapply (newConnection_ok ptr fd (set_cw a w) x); cbn; auto.
    + unfold set_cw. rewrite Ex. apply connector_moves; try done; [|by left; rewrite Ex].
      cbn. rewrite Ec. destruct Hcl as [? _]. by split.
    + unfold outside. rewrite Eo. set_solver.
    + intros c e He E. pose proof (en_fd _ _ _ _ _ (ki_entries _ I c e He)) as Hf. unfold outside in Hf. rewrite E in Hf. set_solver.
Qed.

(** The same for a call that hands over nothing. *)
Lemma quiet_connector_ok ptr move w x' :
  client_inv w → safely (move (cw w)) (λ a, inv_with false a ∧ ledger (cw w) a) →
  (∀ a, move (cw w) = Ok a → handed a = handed (cw w) ∧ client_ok x' a (cconns w)) →
  (connection_ <$> x') = (connection_ <$> cl w) ∨ x' = None ∧ (∀ y, cl w = Some y → connection_ y = None) →
  safely (with_connector ptr move (mkClientWorld x' (cw w) (cconns w) (cqueue w))) client_inv.
Proof.
  intros I Hm Hq Hx. unfold with_connector. cbn. destruct (move (cw w)) as [a|f] eqn:Em; [|exact Hm].
  cbn in *. destruct Hm as [Ia Hl]. destruct (Hq a eq_refl) as [-> Hok]. rewrite drop_all.
  apply (connector_moves w x' a); try done. by apply outside_grows.
Qed.
End facts.
