(* ===== verification/TcpClientRun.v ===== *)
(** The moves of a client (TcpClient.cpp): its methods, its connector in the loop, its connection,
    its destructor, and what every one of them preserves. *)
From S2P Require Import Prelude.
From S2P Require Import Endian.
From S2P Require Import Format.
From S2P Require Import StringPiece.
From S2P Require Import CurrentThread.
From S2P Require Import Channel.
From S2P Require Import Loop.
From S2P Require Import SocketsOps.
From S2P Require Import InetAddress.
From S2P Require Import TcpConnection.
From S2P Require Import TcpServer.
From S2P Require Import TcpServerFacts.
From S2P Require Import Connector.
From S2P Require Import ConnectorFacts.
From S2P Require Import ConnectorRun.
From S2P Require Import TcpClient.
From S2P Require Import TcpClientFacts.

Section run.
  Context {CB F L C : Type} `{!Loop CB F L, !LoopSpec CB F L, !LoopLaws CB F L}.
  Context `{!Host, !InetText, !SocketKernel} `{!ConnectorEnv CB F L, !ConnectorEnvLaws CB F L}.
  Context `{!CurrentThread} `{!ServedConnection C, !ServedConnectionLaws C, !ClientConnection C, !ClientConnectionLaws C}.
  Notation W := (ClientWorld L C).
  Implicit Types w : W.

Lemma new_TcpClient_ok addr name (l : L) (k : kernel) :
  loop_inv l → isInLoopThread l = true → client_inv (C:=C) (new_TcpClient addr name l k).
Proof.
  intros Il Ht. destruct (new_connector_ok addr l k Il Ht) as (I & _). split; cbn; try done.
  - apply NoDup_nil_2.
  - intros f Hf. by apply not_elem_of_nil in Hf.
Qed.

(** * The public methods *)
Lemma client_connect_ok chan ptr w x :
  client_inv w → cl w = Some x → at_rest (cw w) → room chan (cw w) → safely (client_connect chan ptr w) client_inv.
Proof.
  intros I Ex R Hroom. pose proof (ki_connector _ I) as Ic. unfold client_connect, the_client. rewrite Ex. cbn.
  apply (quiet_connector_ok ptr _ w (Some (set_client_connect true x))); [done|by apply connector_start_ok| |left; by rewrite Ex].
  intros a Ea. unfold start in Ea. cbn in Ea. rewrite (iv_thread _ _ Ic) in Ea.
  destruct (startInLoop_once _ _ _ Ea) as (_ & Eh & _). split; [done|].
  pose proof (ki_client _ I) as Hx. rewrite Ex in Hx. destruct Hx as [Hid Hx]. split; [done|]. cbn.
  destruct (connection_ x); [|done]. destruct Hx as [Es _]. destruct R as [Ed _]. congruence.
Qed.

(** Stopping hands over nothing and leaves the state alone. *)
Lemma stop_once (a b : Connector.World L) :
  Connector.stop a = Ok b → handed b = handed a ∧ state_ (cn b) = state_ (cn a) ∧ connect_ (cn b) = false.
Proof. unfold Connector.stop. intros E. inv_ok. done. Qed.

Lemma client_stop_ok ptr w x : client_inv w → cl w = Some x → safely (client_stop ptr w) client_inv.
Proof.
  intros I Ex. unfold client_stop, the_client. rewrite Ex. cbn.
  apply (quiet_connector_ok ptr _ w (Some (set_client_connect false x))); [done|by apply stop_ok, I| |left; by rewrite Ex].
  intros a Ea. apply stop_once in Ea as (-> & Es & _). split; [done|].
  pose proof (ki_client _ I) as Hx. rewrite Ex in Hx. destruct Hx as [Hid Hx]. split; [done|]. cbn.
  destruct (connection_ x); [|done]. by rewrite Es.
Qed.

(** A change of the client's flags. *)
Lemma flags_ok w x x' :
  client_inv w → cl w = Some x → connection_ x' = connection_ x → client_nextConnId_ x' = client_nextConnId_ x →
  client_inv (set_cl x' w).
Proof.
  intros I Ex Ec Eid. apply (connector_moves w (Some x') (cw w)); try done; [apply I| |left; rewrite Ex; cbn; by rewrite Ec].
  pose proof (ki_client _ I) as Hx. rewrite Ex in Hx. cbn in *. by rewrite Ec, Eid.
Qed.

(** A connection that is up does something of its own and stays up. *)
Lemma conn_stays_up w c e v :
  client_inv w → cconns w !! c = Some e → is_open (conn_state (ce_conn e)) = true →
  conn_ok v → is_open (conn_state v) = true → client_inv (put_client_conn c e v w).
Proof.
  intros I He Ho Hv Hov. pose proof (ki_entries _ I c e He) as [Ok1 St Qu De Cl Fd].
  unfold put_client_conn, set_cconns. eapply (entry_moves w (cl w) c e); try done; [apply I| |eauto|].
  - pose proof (ki_client _ I) as Hx. destruct (cl w) as [x|]; [|done]. destruct Hx as [? Hx]. split; [done|].
    destruct (connection_ x) as [c2|]; [|done]. destruct Hx as (Es & e2 & He2 & Ho2 & Hr). split; [done|].
    destruct (decide (c2 = c)) as [->|]; [rewrite lookup_insert_eq|rewrite lookup_insert_ne by done; eauto].
    eexists. split; [done|]. cbn. split; [done|]. congruence.
  - split; cbn; auto.
    + rewrite Qu. split; intros [Hd _]; exfalso; [by apply open_not_down in Ho|by apply open_not_down in Hov].
    + intros Hd. apply De in Hd. by apply open_not_down in Ho.
Qed.

Lemma up_not_destroyed w c e :
  client_inv w → cconns w !! c = Some e → is_open (conn_state (ce_conn e)) = true → ce_destroyed e = false.
Proof.
  intros I He Ho. destruct (ce_destroyed e) eqn:Ed; [|done].
  exfalso. by apply (open_not_down _ Ho), (en_destroyed _ _ _ _ _ (ki_entries _ I c e He)).
Qed.

Lemma client_disconnect_ok w x : client_inv w → cl w = Some x → safely (client_disconnect w) client_inv.
Proof.
  intros I Ex. unfold client_disconnect, the_client. rewrite Ex. cbn.
  assert (I' : client_inv (set_cl (set_client_connect false x) w)) by (by apply (flags_ok w x)).
  pose proof (ki_client _ I) as Hx. rewrite Ex in Hx. destruct Hx as [_ Hx].
  destruct (connection_ x) as [c|]; [|exact I']. destruct Hx as (_ & e & He & Ho & _).
  unfold client_deref. cbn. rewrite He. cbn. apply safely_bind.
  eapply safely_mono; [apply shutdown_law; [|done]|].
  - by apply (en_ok _ _ _ _ _ (ki_entries _ I c e He)), (up_not_destroyed w c).
  - intros v [Hv Hov]. by apply (conn_stays_up (set_cl (set_client_connect false x) w) c e v I').
Qed.

(** * The end of a connection *)

(** A connection that is up goes down: its destruction is queued. *)
Lemma goes_down w x c e v :
  client_inv w → cconns w !! c = Some e → is_open (conn_state (ce_conn e)) = true →
  conn_ok v → conn_state v = TcpConnection.kDisconnected →
  client_ok x (cw w) (<[c := mkClientEntry v (ce_name e) (ce_fd e) (ce_close e) (ce_destroyed e)]> (cconns w)) →
  (∀ y c2, c2 ≠ c → cl w = Some y → connection_ y = Some c2 → ∃ y', x = Some y' ∧ connection_ y' = Some c2) →
  client_inv (mkClientWorld x (cw w) (<[c := mkClientEntry v (ce_name e) (ce_fd e) (ce_close e) (ce_destroyed e)]> (cconns w))
    (cqueue w ++ [ClientDestroyed c])).
Proof.
  intros I He Ho Hv Ev Hx Hcl. pose proof (ki_entries _ I c e He) as [Ok1 St Qu De Cl Fd].
  assert (Hno : ClientDestroyed c ∉ cqueue w) by (intros [Hd _]%Qu; by apply open_not_down in Ho).
  eapply (entry_moves w x c e); try done.
  - apply list.NoDup_app. split_and!; [apply I| |apply NoDup_singleton]. intros f Hf. rewrite list_elem_of_singleton. by intros ->.
  - intros f Hf. rewrite elem_of_app, list_elem_of_singleton. naive_solver.
  - split; cbn; auto.
    + rewrite elem_of_app, list_elem_of_singleton. split; [|by right]. intros _. split; [done|]. by apply (up_not_destroyed w c e).
    + intros _ Hop. rewrite Ev in Hop. done.
Qed.

Lemma client_on_close_ok chan ptr c e w :
  client_inv w → cconns w !! c = Some e → is_open (conn_state (ce_conn e)) = true →
  channel_ (cn (cw w)) = None → room chan (cw w) → safely (client_on_close chan ptr c w) client_inv.
Proof.
  intros I He Ho Hch Hroom. pose proof (ki_connector _ I) as Ic. pose proof (ki_client _ I) as Hx.
  unfold client_on_close, client_deref. rewrite He. cbn. apply safely_bind.
  eapply safely_mono; [apply closed_law; [|done]|].
  { by apply (en_ok _ _ _ _ _ (ki_entries _ I c e He)), (up_not_destroyed w c). }
  intros v [Hv Ev]. destruct (ce_close e) eqn:Er.
  - destruct (own_connection w c e I He Ho Er) as (x & Ex & Ec & Es & Em). rewrite Ex in Hx. destruct Hx as [Hid _].
    unfold client_removeConnection, the_client, put_client_conn, assertInLoopThread. cbn.
    rewrite Ex, (iv_thread _ _ Ic). cbn. rewrite bool_decide_eq_true_2 by done. cbn.
    assert (I2 : client_inv (client_queue (ClientDestroyed c) (set_cl (set_connection None x) (put_client_conn c e v w)))).
    { apply (goes_down w (Some (set_connection None x)) c e v); try done.
      intros y c2 Hne Ey Ec2. rewrite Ex in Ey. injection Ey as <-. congruence. }
    destruct (retry_ x && client_connect_ x); [|exact I2].
    unfold client_queue, set_cl, put_client_conn, set_cconns, set_cqueue in I2 |- *. cbn in I2 |- *.
    match type of I2 with client_inv ?w2 => apply (quiet_connector_ok ptr _ w2 (Some (set_connection None x)) I2) end; cbn.
    + apply connector_restart_ok; try done. by rewrite Es.
    + intros a Ea. unfold restart in Ea. inv_ok. apply startInLoop_once in Ea as (_ & -> & _). done.
    + by left.
  - unfold detail_removeConnection, put_client_conn, client_queue, set_cconns, set_cqueue. cbn.
    apply (goes_down w (cl w) c e v); try done; [|eauto].
    destruct (cl w) as [x|]; [|done]. destruct Hx as [? Hx]. split; [done|].
    destruct (connection_ x) as [c2|]; [|done]. destruct Hx as (Es & e2 & He2 & Ho2 & Hr2). split; [done|].
    exists e2. rewrite lookup_insert_ne; [done|]. intros ->. congruence.
Qed.

Lemma client_functor_ok q1 f q2 w :
  client_inv w → cqueue w = q1 ++ f :: q2 → safely (client_run_queued q1 f q2 w) client_inv.
Proof.
  intros I Eq. assert (Hin : f ∈ cqueue w) by (rewrite Eq, elem_of_app, elem_of_cons; auto).
  destruct (ki_subject _ I f Hin) as (c & -> & e & He). pose proof (ki_entries _ I c e He) as [Ok1 St Qu De Cl Fd].
  apply Qu in Hin as [Es Ed]. unfold client_run_queued, client_connectDestroyed, client_deref. cbn. rewrite He. cbn.
  apply safely_bind. eapply safely_mono; [apply destroyed_law; auto|]. intros v Ev.
  pose proof (ki_queue _ I) as Hnd. rewrite Eq in Hnd. apply list.NoDup_app in Hnd as (N1 & N2 & N3).
  apply list.NoDup_cons in N3 as [N3 N4].
  assert (Hno : ClientDestroyed c ∉ q1 ++ q2).
  { rewrite elem_of_app. intros [Hin|Hin]; [|done]. apply (N2 _ Hin). left. }
  eapply (entry_moves w (cl w) c e); try done.
  - apply list.NoDup_app. split_and!; [done| |done]. intros f Hf Hf2. apply (N2 f Hf). by right.
  - intros f Hf. cbn. rewrite Eq, !elem_of_app, elem_of_cons. tauto.
  - pose proof (ki_client _ I) as Hx. destruct (cl w) as [x|]; [|done]. destruct Hx as [? Hx]. split; [done|].
    destruct (connection_ x) as [c2|]; [|done]. destruct Hx as (Est & e2 & He2 & Ho2 & Hr2). split; [done|].
    exists e2. rewrite lookup_insert_ne; [done|]. intros ->. rewrite He in He2. injection He2 as <-. by apply open_not_down in Ho2.
  - eauto.
  - cbn in Ev. split; cbn; auto; [done| |].
    + split; [done|]. by intros [_ ?].
    + intros _ Hop. rewrite Ev in Hop. done.
Qed.

(** The descriptor of an attempt is open. *)
Lemma owned_open (a : Connector.World L) : inv_with false a → owned a ⊆ open_fds (os a).
Proof.
  intros I. unfold owned. pose proof (iv_state _ _ I) as Hst. destruct (state_ (cn a)); [set_solver| |set_solver].
  destruct Hst as (_ & p & ch & Ep & Hg & _ & _ & Hin). rewrite Ep, Hg. set_solver.
Qed.

Lemma client_release_ok c e w :
  client_inv w → cconns w !! c = Some e → ce_destroyed e = true →
  ∃ w', client_release c w = Ok w' ∧ client_inv w' ∧ open_fds (os (cw w')) = open_fds (os (cw w)) ∖ {[ce_fd e]}.
Proof.
  intros I He Hd. pose proof I as [Ic Icl Iq Isu Ie Ifd]. pose proof (Ie c e He) as [Ok1 St Qu De Cl Fd].
  unfold client_release, client_deref, SocketsOps.close. rewrite He. cbn. rewrite bool_decide_eq_true_2 by auto. cbn.
  eexists. split; [done|]. cbn. rewrite close_law. split; [|done].
  set (k := (k_close (ce_fd e) (os (cw w))).1).
  assert (Ow : owned (Connector.set_os k (cw w)) = owned (cw w)) by done.
  assert (Hout : outside (Connector.set_os k (cw w)) = outside (cw w) ∖ {[ce_fd e]}).
  { unfold outside. rewrite Ow. cbn. unfold k. rewrite close_law. set_solver. }
  assert (Hfd : ce_fd e ∉ owned (cw w)) by (unfold outside in Fd; set_solver).
  assert (Ho : owned (cw w) ⊆ open_fds k).
  { unfold k. rewrite close_law. pose proof (owned_open _ Ic). set_solver. }
  assert (Hsub : ∀ c2 e2, delete c (cconns w) !! c2 = Some e2 → cconns w !! c2 = Some e2 ∧ c2 ≠ c).
  { intros c2 e2. destruct (decide (c2 = c)) as [->|]; [by rewrite lookup_delete_eq|by rewrite lookup_delete_ne]. }
  split; cbn; try done.
  - eapply (connector_turn_ok (cw w)); [done|].
    assert (SL : same_loop (lp (cw w)) (lp (cw w))) by by split.
    exact (turn_elsewhere (cw w) (lp (cw w)) k SL Ho).
  - destruct (cl w) as [x|]; [|done]. destruct Icl as [? Icl]. split; [done|].
    destruct (connection_ x) as [c2|]; [|done]. destruct Icl as (Est & e2 & He2 & Ho2 & Hr2). split; [done|].
    exists e2. rewrite lookup_delete_ne; [done|]. intros <-. rewrite He in He2. injection He2 as <-.
    by apply (open_not_down _ Ho2), De.
  - intros f Hf. destruct (Isu f Hf) as (c2 & -> & e2 & He2). exists c2. split; [done|].
    rewrite lookup_delete_ne; [by eexists|]. intros <-. apply Qu in Hf as [_ Hf]. congruence.
  - intros c2 e2 E2. apply Hsub in E2 as [E2 Hne]. destruct (Ie c2 e2 E2) as [? ? ? ? ? Fd2]. split; try done.
    fold k. rewrite Hout. apply elem_of_difference. split; [done|]. rewrite elem_of_singleton. intros E. by apply Hne, (Ifd c2 c e2 e).
  - intros c1 c2 e1 e2 E1 E2. apply Hsub in E1 as [E1 _], E2 as [E2 _]. by eapply Ifd.
Qed.

(** * The destructor *)
Lemma client_dtor_ok unique ptr w x :
  client_inv w → cl w = Some x → (is_Some (connection_ x) → channel_ (cn (cw w)) = None) →
  safely (client_dtor unique ptr w) (λ w', client_inv w' ∧ cl w' = None).
Proof.
  intros I Ex Hch. pose proof (ki_connector _ I) as Ic. pose proof (ki_client _ I) as Hx. rewrite Ex in Hx. destruct Hx as [Hid Hx].
  unfold client_dtor, the_client. rewrite Ex. cbn. destruct (connection_ x) as [c|] eqn:Ec.
  - destruct Hx as (Es & e & He & Ho & Hr). rewrite (iv_thread _ _ Ic). unfold client_setCloseCallback, client_deref. rewrite He. cbn.
    set (e' := mkClientEntry (ce_conn e) (ce_name e) (ce_fd e) RemoveByDetail (ce_destroyed e)).
    pose proof (ki_entries _ I c e He) as [Ok1 St Qu De Cl Fd].
    assert (I' : client_inv (mkClientWorld None (cw w) (<[c := e']> (cconns w)) (cqueue w))).
    { eapply (entry_moves w None c e); try done; [apply I|by right|].
      intros y c2 Hne Ey Ec2. rewrite Ex in Ey. injection Ey as <-. congruence. }
    rewrite lookup_insert_eq. destruct unique; cbn; unfold connector_dtor.
    + pose proof (forceClose_law (ce_conn e) (Ok1 (up_not_destroyed w c e I He Ho)) Ho) as Hf.
      destruct (conn_forceClose (ce_conn e)) as [v|f]; [|exact Hf]. cbn in Hf |- *. destruct Hf as [Hv Hov].
      rewrite Hch by done. cbn. split; [|done].
      by apply (conn_stays_up _ c e' v I'); [cbn; by rewrite lookup_insert_eq|..].
    + rewrite Hch by done. cbn. by split.
  - assert (Q : safely (with_connector ptr Connector.stop (mkClientWorld None (cw w) (cconns w) (cqueue w))) client_inv).
    { apply (quiet_connector_ok ptr _ w None); [done|by apply stop_ok| |].
      - intros a Ea. apply stop_once in Ea as (Eh & _ & Ec2). split; [exact Eh|by left].
      - right. split; [done|]. intros y Ey. rewrite Ex in Ey. by injection Ey as <-. }
    unfold with_connector in *. cbn in Q. destruct (Connector.stop (cw w)) as [a|f] eqn:Ea; [|exact Q].
    cbn in *. pose proof (stop_once _ _ Ea) as (Eh & _). rewrite Eh, drop_all in *. cbn. by split.
Qed.

(** * Whole lives *)

(** A move of the client or of what it owns; the other arguments are where new objects are created. *)
Inductive client_move :=
| MoveConnect (chan : ChannelPtr) (ptr : ConnPtr)
| MoveDisconnect
| MoveStop (ptr : ConnPtr)
| MoveRetry
| MoveConnector (a : action) (chan : ChannelPtr) (ptr : ConnPtr)
| MoveClose (chan : ChannelPtr) (ptr : ConnPtr) (c : ConnPtr)
| MoveFunctor (q1 : list client_functor) (f : client_functor) (q2 : list client_functor)
| MoveRelease (c : ConnPtr)
| MoveDestroy (unique : bool) (ptr : ConnPtr).

Definition client_perform (m : client_move) w : outcome W :=
  match m with
  | MoveConnect chan ptr => client_connect chan ptr w
  | MoveDisconnect => client_disconnect w
  | MoveStop ptr => client_stop ptr w
  | MoveRetry => enableRetry w
  | MoveConnector a chan ptr => with_connector ptr (perform a chan) w
  | MoveClose chan ptr c => client_on_close chan ptr c w
  | MoveFunctor q1 f q2 => client_run_queued q1 f q2 w
  | MoveRelease c => client_release c w
  | MoveDestroy unique ptr => client_dtor unique ptr w
  end.

(** When it can happen.  [connect] is called while nothing is under way; a connection closes, and
    the client is destroyed under one, only after the functor that frees the connector's channel. *)
Definition client_enabled (m : client_move) w : Prop :=
  match m with
  | MoveConnect chan ptr => is_Some (cl w) ∧ at_rest (cw w) ∧ room chan (cw w)
  | MoveDisconnect | MoveStop _ | MoveRetry => is_Some (cl w)
  | MoveConnector a chan ptr => of_the_loop a ∧ enabled a chan (cw w) ∧ client_room ptr w
  | MoveClose chan ptr c => channel_ (cn (cw w)) = None ∧ room chan (cw w) ∧
      ∃ e, cconns w !! c = Some e ∧ is_open (conn_state (ce_conn e)) = true
  | MoveFunctor q1 f q2 => cqueue w = q1 ++ f :: q2
  | MoveRelease c => ∃ e, cconns w !! c = Some e ∧ ce_destroyed e = true
  | MoveDestroy _ _ => ∃ x, cl w = Some x ∧ (is_Some (connection_ x) → channel_ (cn (cw w)) = None)
  end.

Lemma client_perform_ok m w : client_inv w → client_enabled m w → safely (client_perform m w) client_inv.
Proof.
  intros I He. destruct m as [chan ptr| |ptr| |a chan ptr|chan ptr c|q1 f q2|c|unique ptr]; cbn in *.
  - destruct He as ([x Ex] & R & Hr). by eapply client_connect_ok.
  - destruct He as [x Ex]. by eapply client_disconnect_ok.
  - destruct He as [x Ex]. by eapply client_stop_ok.
  - destruct He as [x Ex]. unfold enableRetry, the_client. rewrite Ex. cbn. by apply (flags_ok w x).
  - destruct He as (Ha & He & Hr). apply with_connector_ok; [done|done|apply perform_ok; [apply I|done]|].
    intros b. by apply loop_move_once.
  - destruct He as (Hc & Hr & e & He & Ho). by eapply client_on_close_ok.
  - by apply client_functor_ok.
  - destruct He as (e & He & Hd). by destruct (client_release_ok c e w I He Hd) as (w' & -> & I' & _).
  - destruct He as (x & Ex & Hch). eapply safely_mono; [by eapply client_dtor_ok|]. by intros w' [? _].
Qed.

Inductive client_turn : W → W → Prop :=
| client_turn_move m w w' : client_enabled m w → client_perform m w = Ok w' → client_turn w w'
| client_turn_conn c e v w :
    cconns w !! c = Some e → is_open (conn_state (ce_conn e)) = true →
    conn_ok v → is_open (conn_state v) = true → client_turn w (put_client_conn c e v w)
| client_turn_elsewhere w l k :
    same_loop (lp (cw w)) l → open_fds (os (cw w)) ⊆ open_fds k →
    client_turn w (set_cw (Connector.set_lp l (Connector.set_os k (cw w))) w).

Lemma client_turn_ok w w' : client_inv w → client_turn w w' → client_inv w'.
Proof.
  intros I Ht. destruct Ht as [m w w' He E|c e v w He Ho Hv Hov|w l k SL Hk].
  - eapply safely_ok; [exact E|by apply client_perform_ok].
  - by apply conn_stays_up.
  - pose proof (ki_connector _ I) as Ic. pose proof (owned_open _ Ic).
    assert (Ow : owned (Connector.set_lp l (Connector.set_os k (cw w))) = owned (cw w)).
    { unfold owned. cbn. destruct (state_ (cn (cw w))), (channel_ (cn (cw w))); try done. by rewrite (sl_get _ _ SL). }
    apply (connector_moves w (cl w)); try done; [| |apply I|by left].
    + eapply (connector_turn_ok (cw w)); [done|]. apply turn_elsewhere; [done|set_solver].
    + unfold outside. rewrite Ow. cbn. set_solver.
Qed.

Lemma client_turns_ok w w' : client_inv w → rtc client_turn w w' → client_inv w'.
Proof. intros I. induction 1; [done|]. eauto using client_turn_ok. Qed.
End run.
