(* ===== verification/ServedConnection.v ===== *)
(** A TCP connection is what a server and a client need: TcpConnection.cpp implements the interfaces
    of TcpServer.v and TcpClient.v.

    The connection is looked at together with the loop it was given to, in that loop's thread. *)
From S2P Require Import Prelude.
From S2P Require Import CurrentThread.
From S2P Require Import StringPiece.
From S2P Require Import Buffer.
From S2P Require Import Channel.
From S2P Require Import Loop.
From S2P Require Import SocketsOps.
From S2P Require Import TcpServer.
From S2P Require Import TcpServerFacts.
From S2P Require Import TcpClient.
From S2P Require Import TcpClientFacts.
From S2P Require Import TcpConnection.
From S2P Require Import TcpConnectionFacts.
From S2P Require Import TcpConnectionLife.
From S2P Require Import TcpConnectionRun.

(** Where connections are created: the loop, the address of the channel object, the socket
    behind a descriptor, and what the user's callbacks do. *)
Class Site (CB F L : Type) `{!Loop CB F L, !TcpSocket} := {
  site_loop : L;
  site_channel : ChannelPtr;
  site_socket : Z → sock;
  site_user : UserCallbacks sockaddr
}.

Class SiteLaws (CB F L : Type) `{!Loop CB F L, !LoopSpec CB F L, !TcpSocket, !Site CB F L, !CurrentThread} := {
  site_inv : loop_inv site_loop;
  site_thread : isInLoopThread site_loop = true;
  site_fresh : get_channel site_channel site_loop = None;
  site_room fd : 0 ≤ fd → fd_free site_loop fd;
  site_quiet : can_remove site_loop site_channel;
  site_user_ok : user_ok site_user
}.

Section served.
  Context {CB F L : Type} `{!Loop CB F L, !LoopSpec CB F L, !LoopLaws CB F L}.
  Context `{!TcpSocket} `{!ConnEnv CB F L, !ConnEnvLaws CB F L} `{!CurrentThread}.
  Context `{!Site CB F L, !SiteLaws CB F L}.
  Notation W := (TcpConnection.World sockaddr L).
  Implicit Types w : W.

Definition served_new (name : list byte) (fd : Z) (localAddr peerAddr : sockaddr) : outcome W :=
  '(c, ch) ← new_TcpConnection name fd site_channel localAddr peerAddr;
  Ok (TcpConnection.mkWorld c (put_channel site_channel ch site_loop) (site_socket fd) [] false []).

#[export] Instance tcp_served : ServedConnection W := {
  conn_state w := state_ (conn w);
  conn_new := served_new;
  conn_established := connectEstablished site_user;
  conn_closed := handleClose site_user;
  conn_destroyed := connectDestroyed site_user
}.

Definition served_ok w : Prop :=
  inv w ∧ isInLoopThread (lp w) = true ∧ can_remove (lp w) (channel_ (conn w)).

(** The connection goes on as [TcpConnectionLife] says. *)
Lemma served_advances evs w w' sent :
  served_ok w → advances (logged evs w) w' sent → served_ok w'.
Proof.
  intros (I & Ht & Hr) A. split_and!; [apply A|by rewrite (ad_thread _ _ _ A)|].
  rewrite (ad_channel _ _ _ A). by apply (ad_remove _ _ _ A).
Qed.

#[export] Instance tcp_served_laws : ServedConnectionLaws W.
Proof.
  refine {| conn_ok := served_ok |}.
  - intros name fd a b Hfd. cbn. unfold served_new.
    destruct (new_connection_alive name fd site_channel a b site_loop (site_socket fd) site_inv site_thread
      site_fresh (site_room fd Hfd) Hfd) as (c & ch & E & [I Ht _] & Es). rewrite E. cbn. split; [|done].
    split_and!; [done|done|]. cbn. unfold new_TcpConnection in E.
    destruct (new_buffer kInitialSize) as [buf|f]; cbn in E; [|done]. injection E as <- <-. cbn.
    match goal with |- can_remove (put_channel _ ?x _) _ =>
      pose proof (loop_new_law site_loop site_channel x site_inv site_fresh eq_refl eq_refl) as C end.
    apply (cr_remove _ _ _ _ C), site_quiet.
  - intros w Hok Es. pose proof Hok as (I & Ht & _). cbn.
    eapply safely_mono; [by apply (connectEstablished_ok site_user site_user_ok)|].
    intros w' (sent & A & Ho). split; [by eapply served_advances|]. exact Ho.
  - intros w Hok Ho. pose proof Hok as (I & Ht & _). cbn.
    eapply safely_mono; [by apply (handleClose_ok site_user site_user_ok)|].
    intros w' [A Es]. split; [by eapply served_advances|done].
  - intros w (I & Ht & Hr) Hs. cbn.
    eapply safely_mono; [by apply (connectDestroyed_ok site_user site_user_ok)|].
    intros w' [Hd _]. apply Hd.
  - intros w (I & Ht & _) Hs. by apply connectDestroyed_while_disconnecting.
Defined.

(** * For clients *)
#[export] Instance tcp_client : ClientConnection W := {
  conn_shutdown := shutdown;
  conn_forceClose := forceClose
}.

(** A call of the interface leaves the connection up. *)
Lemma api_stays_up (a : api) w :
  apis_ok (state_ (conn w)) 0 [a] → served_ok w → is_open (state_ (conn w)) = true →
  safely (run_api a w) (λ w', served_ok w' ∧ is_open (state_ (conn w')) = true).
Proof.
  intros Ha Hok Ho. pose proof Hok as (I & Ht & _). assert (Hs : state_ (conn w) ≠ kConnecting) by (by intros E; rewrite E in Ho).
  destruct (run_api_ok a [] w 0 I Ht Hs Ha (readable_nonneg _)) as (n & _ & R).
  eapply safely_mono; [exact R|]. intros w' [K _]. pose proof (kept_state _ _ K Hs) as Hs'.
  destruct K as (sent & A & _ & Hd). split; [eapply (served_advances []); [exact Hok|]; by rewrite logged_nil|].
  destruct (state_ (conn w')); try done. destruct Hd as [Hd _]. by rewrite Hd in Ho.
Qed.

#[export] Instance tcp_client_laws : ClientConnectionLaws W.
Proof. split; intros w Hok Ho; cbn in *; [exact (api_stays_up AShutdown w I Hok Ho)|exact (api_stays_up AForceClose w I Hok Ho)]. Qed.
End served.
