(* ===== verification/EventLoop.v ===== *)
(** The reactor: networker/net/EventLoop.h and EventLoop.cpp.

    A loop owns the channel objects registered with its poller; the heap of
    them is a component of the state.  What functors and callbacks do to the rest
    of the program is a parameter: they act on a world that contains the loop
    (class [HasLoop]). *)
From S2P Require Import Prelude.
From S2P Require Import CurrentThread.
From S2P Require Import Channel.
From S2P Require Import Poller.
From S2P Require Import Loop.

Definition kPollTimeMs : Z := 10000.

(** eventfd(2): the counter of the wake-up descriptor. *)
Class EventFd := {
  eventfd_state : Type;
  readable : eventfd_state → bool;
  eventfd_new : eventfd_state;
  (** [sockets::write(wakeupFd_, &one, 8)] and [sockets::read]: the new state and
      the number of bytes, -1 on error. *)
  eventfd_write : eventfd_state → eventfd_state * Z;
  eventfd_read : eventfd_state → eventfd_state * Z;
  eventfd_write_readable e : readable (eventfd_write e).1 = true;
  eventfd_read_drains e : readable (eventfd_read e).1 = false
}.

Section event_loop.
  Context {CB F P : Type} `{!Poller CB P} `{!EventFd}.

Record EventLoop := mkLoop {
  looping_ : bool;
  quit_ : bool;
  loop_eventHandling_ : bool;             (** [eventHandling_] *)
  callingPendingFunctors_ : bool;
  iteration_ : Z;
  threadId_ : Z;
  poller_ : P;
  heap : gmap ChannelPtr (Channel CB);    (** the channel objects *)
  wakeupFd_ : eventfd_state;
  wakeupChannel_ : ChannelPtr;
  activeChannels_ : list ChannelPtr;
  currentActiveChannel_ : option ChannelPtr;
  pendingFunctors_ : list F
}.

(** * Field updates *)
Definition set_looping (v : bool) (l : EventLoop) : EventLoop :=
  mkLoop v (quit_ l) (loop_eventHandling_ l) (callingPendingFunctors_ l) (iteration_ l) (threadId_ l)
    (poller_ l) (heap l) (wakeupFd_ l) (wakeupChannel_ l) (activeChannels_ l)
    (currentActiveChannel_ l) (pendingFunctors_ l).
Definition set_quit (v : bool) (l : EventLoop) : EventLoop :=
  mkLoop (looping_ l) v (loop_eventHandling_ l) (callingPendingFunctors_ l) (iteration_ l) (threadId_ l)
    (poller_ l) (heap l) (wakeupFd_ l) (wakeupChannel_ l) (activeChannels_ l)
    (currentActiveChannel_ l) (pendingFunctors_ l).
Definition set_calling (v : bool) (l : EventLoop) : EventLoop :=
  mkLoop (looping_ l) (quit_ l) (loop_eventHandling_ l) v (iteration_ l) (threadId_ l)
    (poller_ l) (heap l) (wakeupFd_ l) (wakeupChannel_ l) (activeChannels_ l)
    (currentActiveChannel_ l) (pendingFunctors_ l).
Definition set_poller (p : P) (m : gmap ChannelPtr (Channel CB)) (l : EventLoop) : EventLoop :=
  mkLoop (looping_ l) (quit_ l) (loop_eventHandling_ l) (callingPendingFunctors_ l) (iteration_ l)
    (threadId_ l) p m (wakeupFd_ l) (wakeupChannel_ l) (activeChannels_ l)
    (currentActiveChannel_ l) (pendingFunctors_ l).
Definition set_wakeupFd (e : eventfd_state) (l : EventLoop) : EventLoop :=
  mkLoop (looping_ l) (quit_ l) (loop_eventHandling_ l) (callingPendingFunctors_ l) (iteration_ l)
    (threadId_ l) (poller_ l) (heap l) e (wakeupChannel_ l) (activeChannels_ l)
    (currentActiveChannel_ l) (pendingFunctors_ l).
Definition set_pending (fs : list F) (l : EventLoop) : EventLoop :=
  mkLoop (looping_ l) (quit_ l) (loop_eventHandling_ l) (callingPendingFunctors_ l) (iteration_ l)
    (threadId_ l) (poller_ l) (heap l) (wakeupFd_ l) (wakeupChannel_ l) (activeChannels_ l)
    (currentActiveChannel_ l) fs.
(** [eventHandling_] and [currentActiveChannel_], written together by [loop]. *)
Definition set_handling (v : bool) (c : option ChannelPtr) (l : EventLoop) : EventLoop :=
  mkLoop (looping_ l) (quit_ l) v (callingPendingFunctors_ l) (iteration_ l)
    (threadId_ l) (poller_ l) (heap l) (wakeupFd_ l) (wakeupChannel_ l) (activeChannels_ l)
    c (pendingFunctors_ l).
(** The results of one [poll]. *)
Definition set_polled (p : P) (m : gmap ChannelPtr (Channel CB)) (active : list ChannelPtr)
    (l : EventLoop) : EventLoop :=
  mkLoop (looping_ l) (quit_ l) (loop_eventHandling_ l) (callingPendingFunctors_ l)
    (i64 (iteration_ l + 1)) (threadId_ l) p m (wakeupFd_ l) (wakeupChannel_ l) active
    (currentActiveChannel_ l) (pendingFunctors_ l).

(** * Threads *)
Definition in_loop_thread `{!CurrentThread} (l : EventLoop) : bool := threadId_ l =? gettid.

Definition assert_in_loop_thread `{!CurrentThread} (l : EventLoop) : outcome unit :=
  if in_loop_thread l then Ok tt else Fail FatalLog.

(** * Wake-up *)
Definition wakeup (l : EventLoop) : EventLoop :=
  set_wakeupFd (eventfd_write (wakeupFd_ l)).1 l.

Definition handleRead (l : EventLoop) : EventLoop :=
  set_wakeupFd (eventfd_read (wakeupFd_ l)).1 l.

(** * Functors *)
Definition push_functor (f : F) (l : EventLoop) : EventLoop :=
  set_pending (pendingFunctors_ l ++ [f]) l.

Definition queueInLoop_ `{!CurrentThread} (f : F) (l : EventLoop) : EventLoop :=
  let l := push_functor f l in
  if negb (in_loop_thread l) || callingPendingFunctors_ l then wakeup l else l.

Definition queueSize (l : EventLoop) : Z := zlen (pendingFunctors_ l).

Definition quit `{!CurrentThread} (l : EventLoop) : EventLoop :=
  let l := set_quit true l in
  if in_loop_thread l then l else wakeup l.

(** * Channels *)
Definition updateChannel_ `{!CurrentThread} (c : ChannelPtr) (l : EventLoop) : outcome EventLoop :=
  _ ← assert_in_loop_thread l;
  '(p, m) ← updateChannel c (poller_ l) (heap l);
  Ok (set_poller p m l).

Definition may_remove (c : ChannelPtr) (l : EventLoop) : bool :=
  negb (loop_eventHandling_ l) || bool_decide (currentActiveChannel_ l = Some c)
  || bool_decide (c ∉ activeChannels_ l).

Definition removeChannel_ `{!CurrentThread} (c : ChannelPtr) (l : EventLoop) : outcome EventLoop :=
  _ ← assert_in_loop_thread l;
  _ ← require (may_remove c l);
  '(p, m) ← removeChannel c (poller_ l) (heap l);
  Ok (set_poller p m l).

Definition hasChannel_ `{!CurrentThread} (c : ChannelPtr) (l : EventLoop) : outcome bool :=
  _ ← assert_in_loop_thread l;
  hasChannel c (poller_ l) (heap l).

(** Each object belongs to one loop: the asserts on [ownerLoop] compare the
    address of the loop whose heap holds the channel. *)
#[export] Instance event_loop_owner : ChannelOwner CB EventLoop := {
  get_channel c l := heap l !! c;
  put_channel c ch l := set_poller (poller_ l) (<[c := ch]> (heap l)) l;
  loop_updateChannel _ := updateChannel_;
  loop_removeChannel _ := removeChannel_
}.

#[export] Instance event_loop_loop : Loop CB F EventLoop := {
  loop_owner := event_loop_owner;
  loop_hasChannel _ := hasChannel_;
  isInLoopThread _ := in_loop_thread;
  queueInLoop _ f l := Ok (queueInLoop_ f l);
  pending := pendingFunctors_
}.

(** [createEventfd]: what eventfd(2) answered; the process is aborted if it failed. *)
Definition createEventfd (evtfd : Z) : outcome Z := if evtfd <? 0 then Fail FatalLog else Ok evtfd.

(** [EventLoop::EventLoop].  The constructor does not initialise
    [callingPendingFunctors_]: its value is the argument [junk].
    [other_loop] says whether this thread already has one;
    [timer_queue] is the construction of [timerQueue_] (TimerQueue.v). *)
Definition new_EventLoop `{!CurrentThread} (junk other_loop : bool) (p : P) (wake_fd : Z) (wake : ChannelPtr)
    (wake_cb : CB) (timer_queue : EventLoop → outcome EventLoop) : outcome EventLoop :=
  let l := mkLoop false false false junk 0 gettid p ∅ eventfd_new wake [] None [] in
  l ← timer_queue l;
  wake_fd ← createEventfd wake_fd;
  _ ← (if other_loop then Fail FatalLog else Ok tt);
  let l := put_channel wake (setReadCallback wake_cb (new_channel wake_fd)) l in
  enableReading wake l.

(** [EventLoop::~EventLoop]. *)
Definition event_loop_dtor `{!CurrentThread} (l : EventLoop) : outcome EventLoop :=
  l ← disableAll (wakeupChannel_ l) l;
  remove (wakeupChannel_ l) l.
End event_loop.
Arguments EventLoop CB F P {_}.

(** * Running the loop *)

(** A world that contains the loop. *)
Class HasLoop (CB F P W : Type) `{!EventFd} := {
  the_loop : W → EventLoop CB F P;
  put_loop : EventLoop CB F P → W → W
}.

Class HasLoopLaws (CB F P W : Type) `{!EventFd} `{!HasLoop CB F P W} := {
  the_put l w : the_loop (put_loop l w) = l;
  put_the w : put_loop (the_loop w) w = w;
  put_put_loop l l' w : put_loop l' (put_loop l w) = put_loop l' w
}.

Section world.
  Context {CB F P W : Type} `{!Poller CB P} `{!EventFd} `{!HasLoop CB F P W}.

Definition on_loop (f : EventLoop CB F P → EventLoop CB F P) (w : W) : W :=
  put_loop (f (the_loop w)) w.

#[export] Instance world_owner : ChannelOwner CB W := {
  get_channel c w := heap (the_loop w) !! c;
  put_channel c ch w := on_loop (put_channel c ch) w;
  loop_updateChannel _ c w := l ← updateChannel_ c (the_loop w); Ok (put_loop l w);
  loop_removeChannel _ c w := l ← removeChannel_ c (the_loop w); Ok (put_loop l w)
}.
End world.

Section run.
  Context {CB F P W : Type} `{!Poller CB P} `{!EventFd} `{!CurrentThread} `{!HasLoop CB F P W}.
  (** What calling a functor or an installed callback does. *)
  Variable run_functor : F → W → outcome W.
  Variable run_callback : CB → W → outcome W.
  Variable tie_alive : ChannelPtr → W → bool.

Fixpoint run_functors (fs : list F) (w : W) : outcome W :=
  match fs with
  | [] => Ok w
  | f :: fs => w ← run_functor f w; run_functors fs w
  end.

Definition doPendingFunctors (w : W) : outcome W :=
  let w := on_loop (set_calling true) w in
  let functors := pendingFunctors_ (the_loop w) in
  let w := on_loop (set_pending []) w in
  w ← run_functors functors w;
  Ok (on_loop (set_calling false) w).

(** The body of the loop over [activeChannels_]. *)
Fixpoint handle_active (cs : list ChannelPtr) (w : W) : outcome W :=
  match cs with
  | [] => Ok w
  | c :: cs =>
      let w := on_loop (set_handling true (Some c)) w in
      w ← handleEvent run_callback (tie_alive c) c w;
      handle_active cs w
  end.

(** One round of the [while] of [loop]; [r] is what the wait answered. *)
Definition iterate (r : wait_result) (w : W) : outcome W :=
  let l := the_loop w in
  '(p, m, active) ← poll r (poller_ l) (heap l) [];
  let w := on_loop (set_polled p m active) w in
  let w := on_loop (λ l, set_handling true (currentActiveChannel_ l) l) w in
  w ← handle_active (activeChannels_ (the_loop w)) w;
  let w := on_loop (set_handling false None) w in
  doPendingFunctors w.

(** The [while], over the answers of the successive waits: [Ok (w, true)] when it
    ended, [Ok (w, false)] when it would wait again. *)
Fixpoint loop_rounds (rs : list wait_result) (w : W) : outcome (W * bool) :=
  if quit_ (the_loop w) then Ok (on_loop (set_looping false) w, true) else
  match rs with
  | [] => Ok (w, false)
  | r :: rs => w ← iterate r w; loop_rounds rs w
  end.

Definition loop (rs : list wait_result) (w : W) : outcome (W * bool) :=
  _ ← require (negb (looping_ (the_loop w)));
  _ ← assert_in_loop_thread (the_loop w);
  let w := on_loop (set_looping true) w in
  let w := on_loop (set_quit false) w in
  loop_rounds rs w.
End run.

(** * The loop implements the interface of its clients *)
Section laws.
  Context {CB F P : Type} `{!Poller CB P, !PollerLaws CB P} `{!EventFd}.
  Implicit Types (l : EventLoop CB F P) (c : ChannelPtr) (ch : Channel CB).

#[export] Instance event_loop_spec : LoopSpec CB F (EventLoop CB F P) := {
  loop_inv l := poller_inv (poller_ l) (heap l);
  has_channel l c := ∃ ch, heap l !! c = Some ch ∧ registered (poller_ l) c ch;
  can_add l c := ∃ ch, heap l !! c = Some ch ∧ addable (poller_ l) ch;
  fd_free l fd := 0 ≤ fd ∧ channels_ (poller_ l) !! fd = None ∧ has_room (poller_ l);
  can_remove l c := may_remove c l = true;
  loop_watched l fd := watched (poller_ l) fd
}.

Lemma registered_change p c ch ch' : fd_ ch' = fd_ ch → registered p c ch → registered p c ch'.
Proof. unfold registered. by intros ->. Qed.

Lemma loop_updateChannel_law `{!CurrentThread} l c ch ch' :
  loop_inv l → isInLoopThread l = true → get_channel c l = Some ch →
  fd_ ch' = fd_ ch → index_ ch' = index_ ch → mask_ok (events_ ch') →
  has_channel l c ∨ can_add l c →
  loop_updateChannel c (put_channel c ch' l) = Fail FatalLog ∨
  ∃ l', loop_updateChannel c (put_channel c ch' l) = Ok l' ∧ updated l c ch ch' l'.
Proof.
  intros I Ht Hc Ef Ei Hm Hreg. cbn in *.
  assert (Hr : registered (poller_ l) c ch ∨ addable (poller_ l) ch).
  { destruct Hreg as [(ch0 & E & ?)|(ch0 & E & ?)]; simplify_eq; auto. }
  unfold updateChannel_, assert_in_loop_thread, in_loop_thread in *. cbn. rewrite Ht. cbn.
  destruct (update_law _ _ _ _ _ I Hc (conj Ef Ei) Hm Hr)
    as [->|(p' & m' & -> & I' & Hsim & Hoth & Hch & Hw & Hw1 & Hw0)]; [by left|right].
  eexists. split; [done|]. split; cbn; try done.
  - destruct (heap_sim_lookup _ _ c ch' Hsim) as [i Hi]; [by rewrite lookup_insert_eq|].
    eexists. split; [exact Hi|]. by exists i.
  - destruct (heap_sim_lookup _ _ c ch' Hsim) as [i Hi]; [by rewrite lookup_insert_eq|].
    eexists. split; [exact Hi|]. unfold registered. cbn. by rewrite Hch, Ef, lookup_insert_eq.
  - intros c2 Hne (ch2 & Hc2 & Hr2). exists ch2. split; [by rewrite Hoth|].
    unfold registered in *. rewrite Hch. destruct (decide (fd_ ch2 = fd_ ch)) as [E|].
    + rewrite E in Hr2. destruct Hr as [Hr|(_ & _ & Hr & _)]; unfold registered in *; congruence.
    + by rewrite lookup_insert_ne.
  - intros Hz (ch0 & E & Hr0) Hne. simplify_eq. auto.
Qed.

Lemma loop_removeChannel_law `{!CurrentThread} l c ch ch' :
  loop_inv l → isInLoopThread l = true → get_channel c l = Some ch →
  fd_ ch' = fd_ ch → index_ ch' = index_ ch → events_ ch = 0 → events_ ch' = 0 →
  has_channel l c → can_remove l c → loop_watched l (fd_ ch) = None →
  ∃ l', loop_removeChannel c (put_channel c ch' l) = Ok l' ∧ removed l c ch ch' l'.
Proof.
  intros I Ht Hc Ef Ei Hz Hz' (ch0 & E & Hr) Hrem Hw. cbn in *. simplify_eq.
  unfold removeChannel_, assert_in_loop_thread, in_loop_thread in *. cbn. rewrite Ht. cbn.
  rewrite require_true by done. cbn.
  destruct (remove_law _ _ _ _ _ I Hc (conj Ef Ei) Hr Hz Hz' Hw)
    as (p' & m' & -> & I' & Hsim & Hch & Hw').
  eexists. split; [done|]. split; cbn; try done.
  - destruct (heap_sim_lookup _ _ c ch' Hsim) as [i Hi]; [by rewrite lookup_insert_eq|].
    eexists. split; [exact Hi|]. by exists i.
  - intros c2 ch2 Hne Hc2.
    destruct (heap_sim_lookup _ _ c2 ch2 Hsim) as [i Hi]; [by rewrite lookup_insert_ne|].
    eexists. split; [exact Hi|]. by exists i.
  - intros (ch0 & E & Hr0). unfold registered in Hr0. rewrite Hch in Hr0.
    destruct (heap_sim_lookup _ _ c ch' Hsim) as [i Hi]; [by rewrite lookup_insert_eq|].
    rewrite Hi in E. simplify_eq. cbn in Hr0. by rewrite Ef, lookup_delete_eq in Hr0.
  - intros c2 Hne (ch2 & Hc2 & Hr2).
    destruct (heap_sim_lookup _ _ c2 ch2 Hsim) as [i Hi]; [by rewrite lookup_insert_ne|].
    eexists. split; [exact Hi|]. unfold registered in *. rewrite Hch. cbn.
    rewrite lookup_delete_ne; [done|]. intros E. rewrite <- E in Hr2. congruence.
Qed.

Lemma loop_new_channel_law l c ch :
  loop_inv l → get_channel c l = None → index_ ch = -1 → events_ ch = 0 →
  created l c ch (put_channel c ch l).
Proof.
  intros I Hc Hi He. cbn in *. split; cbn; try done.
  - by apply inv_fresh.
  - by rewrite lookup_insert_eq.
  - intros. by rewrite lookup_insert_ne.
  - intros c2 (ch2 & Hc2 & Hr). exists ch2. by rewrite lookup_insert_ne by congruence.
  - intros (? & ? & ?). exists ch. rewrite lookup_insert_eq. split; [done|].
    unfold addable. rewrite Hi. done.
Qed.

Lemma loop_put_channel_law l c ch ch' :
  loop_inv l → get_channel c l = Some ch →
  fd_ ch' = fd_ ch → index_ ch' = index_ ch → events_ ch' = events_ ch →
  touched l c ch' (put_channel c ch' l).
Proof.
  intros I Hc Ef Ei Ee. cbn in *. split; cbn; try done.
  - by eapply inv_put.
  - by rewrite lookup_insert_eq.
  - intros. by rewrite lookup_insert_ne.
  - intros c2. unfold registered. destruct (decide (c2 = c)) as [->|].
    + rewrite lookup_insert_eq. split; intros (ch0 & E & ?); simplify_eq; eexists; (split; [done|]); congruence.
    + by rewrite lookup_insert_ne.
  - intros c2 (ch2 & Hc2 & Ha). unfold addable in *. destruct (decide (c2 = c)) as [->|].
    + rewrite lookup_insert_eq. simplify_eq. exists ch'. by rewrite Ef, Ei.
    + rewrite lookup_insert_ne by done. eauto.
Qed.

Lemma wakeup_same l : same_loop l (wakeup l).
Proof. by split. Qed.

Lemma queueInLoop_same `{!CurrentThread} f l : same_loop l (queueInLoop_ f l).
Proof. unfold queueInLoop_. by split; case_match. Qed.

Lemma loop_hasChannel_law `{!CurrentThread} l c ch :
  loop_inv l → isInLoopThread l = true → get_channel c l = Some ch →
  ∃ b, loop_hasChannel c l = Ok b ∧ (b = true ↔ has_channel l c).
Proof.
  intros I Ht Hc. cbn in *. unfold hasChannel_, assert_in_loop_thread. rewrite Ht. cbn.
  unfold hasChannel. rewrite Hc. eexists. split; [done|]. rewrite bool_decide_eq_true. unfold registered.
  split; [intros E; by exists ch|]. intros (ch0 & E & Hr). congruence.
Qed.

#[export] Instance event_loop_laws : LoopLaws CB F (EventLoop CB F P).
Proof.
  split.
  - intros. cbn. by rewrite lookup_insert_eq.
  - intros. cbn. by rewrite lookup_insert_ne.
  - intros. cbn. unfold set_poller. cbn. by rewrite insert_insert_eq.
  - intros l c ch I Hc. exact (inv_mask _ _ c ch I Hc).
  - intros l c ch I Hc (ch0 & E & Hr) Hne. cbn in *. simplify_eq. by eapply inv_watched.
  - apply loop_new_channel_law.
  - apply loop_put_channel_law.
  - intros ? l c ch ch'. apply loop_updateChannel_law.
  - intros ? l c ch ch'. apply loop_removeChannel_law.
  - intros ? l c ch. apply loop_hasChannel_law.
  - intros ? f l. eexists. split; [done|]. split; [|apply queueInLoop_same].
    cbn. unfold queueInLoop_. by case_match.
Qed.
End laws.
