(* ===== verification/LoopSetup.v ===== *)
(** Making and deleting an event loop: the constructor of EventLoop.cpp with the poller of
    DefaultPoller.cpp and the timer queue of TimerQueue.cpp, and the destructors. *)
From S2P Require Import Prelude.
From S2P Require Import CurrentThread.
From S2P Require Import Timestamp.
From S2P Require Import Channel.
From S2P Require Import Poller.
From S2P Require Import EPollPoller.
From S2P Require Import DefaultPoller.
From S2P Require Import Loop.
From S2P Require Import EventLoop.
From S2P Require Import TimerQueue.
From S2P Require Import TimerFacts.

Section setup.
  Context {CB F P : Type} `{!Poller CB P, !PollerLaws CB P} `{!EventFd} `{!CurrentThread}.
  Notation L := (EventLoop CB F P).
  Implicit Types (l : L) (c : ChannelPtr).

(** What the system calls answer and where the objects are. *)
Record site := mkSite {
  wake_fd : Z; wake_channel : ChannelPtr; wake_callback : CB;
  timer_fd : Z; timer_channel : ChannelPtr; timer_callback : CB;
  created_timers : Z;          (** [Timer::s_numCreated_] *)
  clock : list Timestamp
}.

(** [new TimerQueue(this)], as the loop's constructor sees it. *)
Definition make_timers (s : site) l : outcome L :=
  w ← new_TimerQueue (created_timers s) (clock s) (timer_fd s) (timer_channel s) (timer_callback s) l;
  Ok (timer_loop w).

(** [junk] is the uninitialised [callingPendingFunctors_]. *)
Definition make_loop (junk other_loop : bool) (p : P) (s : site) : outcome L :=
  new_EventLoop junk other_loop p (wake_fd s) (wake_channel s) (wake_callback s) (make_timers s).

(** [EventLoop::~EventLoop] and then the destructor of its member [timerQueue_]. *)
Definition delete_loop (s : site) (q : TimerQueue) l : outcome (TimerWorld L) :=
  l ← event_loop_dtor l;
  TimerQueue_dtor (mkTW q l (timer_channel s)).

(** * Registering a new channel *)

(** The channel at [c] watches [fd] for reading. *)
Record listens l c (fd : Z) : Prop := {
  li_channel : ∃ ch, heap l !! c = Some ch ∧ fd_ ch = fd ∧ events_ ch = kReadEvent;
  li_has : has_channel l c
}.

Lemma listens_watched l c fd : loop_inv l → listens l c fd → loop_watched l fd = Some kReadEvent.
Proof.
  intros I [(ch & Hc & <- & He) Hh]. rewrite <- He. apply (loop_inv_watched l c ch I Hc Hh). by rewrite He.
Qed.

Lemma assert_thread_poller p m l : assert_in_loop_thread (set_poller p m l) = assert_in_loop_thread l.
Proof. done. Qed.

Lemma register_new l c (cb : CB) fd n :
  loop_inv l → isInLoopThread l = true → heap l !! c = None → 0 ≤ fd → channels_ (poller_ l) !! fd = None →
  room_for (poller_ l) n → room_for (poller_ l) 1 →
  safely (enableReading c (put_channel c (setReadCallback cb (new_channel fd)) l)) (λ l',
    loop_inv l' ∧ listens l' c fd ∧
    (∀ c2 fd2, c2 ≠ c → listens l c2 fd2 → listens l' c2 fd2) ∧
    (∀ c2, c2 ≠ c → heap l' !! c2 = heap l !! c2) ∧
    channels_ (poller_ l') = <[fd := c]> (channels_ (poller_ l)) ∧ room_for (poller_ l') (n - 1) ∧
    ∃ p m, l' = set_poller p m l).
Proof.
  intros I Ht Hc Hfd Hfree Hn H1room. set (ch := setReadCallback cb (new_channel fd)).
  pose proof (loop_new_law l c ch I Hc eq_refl eq_refl) as C. set (l0 := put_channel c ch l) in *.
  set (ch1 := pushed (enable kReadEvent 0) ch).
  assert (Hadd : addable (poller_ l) ch) by (split_and!; [cbn; lia|done|done|done]).
  assert (Ic : poller_inv (poller_ l) (<[c := ch]> (heap l))) by apply (cr_inv _ _ _ _ C).
  assert (Hput : <[c := ch]> (heap l) !! c = Some ch) by (by rewrite lookup_insert_eq).
  assert (E : enableReading c l0 = '(p, m) ← updateChannel c (poller_ l) (<[c := ch1]> (<[c := ch]> (heap l)));
              Ok (set_poller p m l)).
  { etransitivity; [exact (change_mask_eq l0 c ch (enable kReadEvent) (cr_get _ _ _ _ C))|]. cbn. unfold updateChannel_.
    assert (Hth : assert_in_loop_thread l = Ok tt) by (unfold assert_in_loop_thread; cbn in Ht; by rewrite Ht).
    rewrite !assert_thread_poller, Hth, bind_Ok. done. }
  rewrite E. pose proof (mask_ok_enable_read 0 mask_ok_none) as Hm.
  destruct (update_law _ _ c ch ch1 Ic Hput (conj eq_refl eq_refl) Hm (or_intror Hadd))
    as [->|(p & m & Eu & I' & Hsim & Hoth & Hch & Hw & Hw1 & _)]; [by left|].
  pose proof (room_law _ _ c ch ch1 p m n Ic Hput (conj eq_refl eq_refl) Hm (or_intror Hadd) Eu Hn) as Hroom.
  rewrite Eu. cbn. destruct (heap_sim_lookup _ _ c ch1 Hsim) as [i Hi]; [by rewrite lookup_insert_eq|].
  split_and!; try done.
  - split; [by eexists|]. eexists. split; [exact Hi|]. unfold registered. cbn. by rewrite Hch, lookup_insert_eq.
  - intros c2 fd2 Hne [(ch2 & Hc2 & <- & He2) (ch2' & Hc2' & Hr2)]. rewrite Hc2 in Hc2'. injection Hc2' as <-.
    assert (Hm2 : m !! c2 = Some ch2) by (rewrite Hoth, lookup_insert_ne by done; done).
    split; [by exists ch2|]. exists ch2. split; [done|]. unfold registered in *. cbn. rewrite Hch.
    rewrite lookup_insert_ne; [done|]. cbn. intros E2. rewrite <- E2 in Hr2. congruence.
  - intros c2 Hne. by rewrite Hoth, lookup_insert_ne by done.
  - by exists p, m.
Qed.

(** * The whole constructor and destructor *)

Definition fresh_loop (junk : bool) (p : P) (wake : ChannelPtr) : L :=
  mkLoop false false false junk 0 gettid p ∅ eventfd_new wake [] None [].

(** A loop that was just made. *)
Record made (junk : bool) (s : site) l : Prop := {
  md_inv : loop_inv l;
  md_thread : isInLoopThread l = true;
  md_wake : listens l (wake_channel s) (wake_fd s);
  md_timer : listens l (timer_channel s) (timer_fd s);
  md_known : channels_ (poller_ l) = <[wake_fd s := wake_channel s]> {[timer_fd s := timer_channel s]};
  md_rest : ∃ p m, l = set_poller p m (fresh_loop junk p (wake_channel s))
}.

(** The two descriptors and the two channel objects are different. *)
Definition distinct (s : site) : Prop := wake_fd s ≠ timer_fd s ∧ wake_channel s ≠ timer_channel s.

Lemma make_loop_ok junk other p s :
  poller_inv p ∅ → channels_ p = ∅ → room_for p 2 → room_for p 1 → distinct s →
  safely (make_loop junk other p s) (made junk s).
Proof.
  intros I Hch H2room H1room [Hfd Hc]. unfold make_loop, new_EventLoop, make_timers, new_TimerQueue, createTimerfd, createEventfd.
  fold (fresh_loop junk p (wake_channel s)). set (l0 := fresh_loop junk p (wake_channel s)).
  assert (Hthread : isInLoopThread l0 = true) by (cbn; unfold in_loop_thread; cbn; apply Z.eqb_refl).
  destruct (Z.ltb_spec (timer_fd s) 0); [by left|]. rewrite bind_Ok.
  do 3 apply safely_bind.
  eapply safely_mono; [apply (register_new l0 (timer_channel s) (timer_callback s) (timer_fd s) 2)|]; try done.
  { cbn. by rewrite Hch. }
  intros l1 (I1 & L1 & _ & Hh1 & Hch1 & Hr1 & p1 & m1 & E1). rewrite !safely_Ok. cbn [timer_loop].
  destruct (Z.ltb_spec (wake_fd s) 0); [by left|]. rewrite bind_Ok.
  destruct other; [by left|]. rewrite bind_Ok.
  assert (Ht1 : isInLoopThread l1 = true) by (by rewrite E1).
  eapply safely_mono; [apply (register_new l1 (wake_channel s) (wake_callback s) (wake_fd s) 1)|]; try done.
  { rewrite Hh1 by done. done. }
  { rewrite Hch1. cbn. by rewrite Hch, lookup_insert_ne. }
  intros l2 (I2 & L2 & Hk2 & _ & Hch2 & _ & p2 & m2 & E2). split; try done.
  - by rewrite E2, E1.
  - by apply Hk2.
  - rewrite Hch2, Hch1. cbn. by rewrite Hch, insert_empty.
  - exists p2, m2. by rewrite E2, E1.
Qed.

(** The timers left in the queue are all deleted, each once. *)
Lemma delete_all_ok es q :
  NoDup (map snd es) → (∀ p, p ∈ map snd es → is_Some (heap_ q !! p)) →
  ∃ q', delete_all es q = Ok q' ∧ ∀ p, heap_ q' !! p = if decide (p ∈ map snd es) then None else heap_ q !! p.
Proof.
  revert q. induction es as [|[t p] es IH]; intros q Hn Hh; cbn.
  { exists q. split; [done|]. intros p. by rewrite decide_False by apply not_elem_of_nil. }
  cbn in Hn. apply list.NoDup_cons in Hn as [Hp Hn]. destruct (Hh p) as [tm Htm]; [by left|].
  unfold delete_timer. rewrite (timer_at_ok _ _ _ Htm). cbn.
  destruct (IH (set_heap (delete p (heap_ q)) q) Hn) as (q' & E & Hq').
  { intros p' Hin. cbn. rewrite lookup_delete_ne by (intros ->; done). apply Hh. by right. }
  exists q'. split; [done|]. intros p'. rewrite Hq'. cbn.
  destruct (decide (p' ∈ map snd es)) as [Hin|Hin].
  - by rewrite decide_True by by right.
  - destruct (decide (p' = p)) as [->|Hne].
    + rewrite decide_True by by left. by rewrite lookup_delete_eq.
    + rewrite decide_False by (rewrite elem_of_cons; naive_solver). by rewrite lookup_delete_ne.
Qed.

Lemma delete_timers q : tq_inv q [] → ∃ q', delete_all (timers_ q) q = Ok q' ∧ heap_ q' = ∅.
Proof.
  intros I. pose proof (iq_nodup _ _ I) as Hn. rewrite app_nil_r in Hn.
  destruct (delete_all_ok (timers_ q) q Hn) as (q' & E & Hq').
  { intros p Hp. apply (iq_heap _ _ I). by rewrite app_nil_r. }
  exists q'. split; [done|]. apply map_eq. intros p. rewrite Hq', lookup_empty.
  destruct (decide _) as [|Hp]; [done|]. apply eq_None_not_Some. intros Hs%(iq_heap _ _ I).
  by rewrite app_nil_r in Hs.
Qed.

(** * The destructor *)
Lemma updateChannel_shape c l l' : updateChannel_ c l = Ok l' → ∃ p m, l' = set_poller p m l.
Proof. unfold updateChannel_. intros E. inv_ok. eauto. Qed.

Lemma disable_remove_shape c l l' :
  (l ← disableAll c l; remove c l) = Ok l' → loop_eventHandling_ l' = loop_eventHandling_ l.
Proof.
  intros E. apply bind_ok in E as (l1 & E1 & E). unfold disableAll, remove, Channel.update, modify, deref in *. cbn in *.
  inv_ok. unfold updateChannel_, removeChannel_ in *. inv_ok. done.
Qed.

(** The destructor reads [wakeupChannel_] twice; it does not change. *)
Lemma event_loop_dtor_eq l :
  event_loop_dtor l = (l1 ← disableAll (wakeupChannel_ l) l; remove (wakeupChannel_ l) l1).
Proof.
  unfold event_loop_dtor. destruct (disableAll (wakeupChannel_ l) l) as [l1|] eqn:E; [|done]. rewrite !bind_Ok.
  assert (wakeupChannel_ l1 = wakeupChannel_ l) as ->; [|done].
  unfold disableAll, Channel.update, modify, deref in E. cbn in E. inv_ok. unfold updateChannel_ in *. by inv_ok.
Qed.

Lemma unregister l c fd :
  loop_inv l → isInLoopThread l = true → loop_eventHandling_ l = false → 0 ≤ fd → listens l c fd →
  safely (l ← disableAll c l; remove c l) (λ l',
    loop_inv l' ∧ isInLoopThread l' = true ∧ loop_eventHandling_ l' = false ∧
    ¬ has_channel l' c ∧ loop_watched l' fd = None ∧
    (∀ c2 fd2, c2 ≠ c → listens l c2 fd2 → listens l' c2 fd2) ∧
    (∀ fd2, 0 ≤ fd2 → fd2 ≠ fd → loop_watched l' fd2 = loop_watched l fd2)).
Proof.
  intros I Ht He Hfd [(ch & Hc & Hf & Hev) Hh].
  assert (Hrem : can_remove l c) by (cbn; unfold may_remove; by rewrite He).
  assert (Hne : events_ ch ≠ 0) by (by rewrite Hev).
  pose proof (disable_remove l c ch I Ht Hc Hh Hne Hrem ltac:(lia)) as Hd. rewrite Hf in Hd.
  pose proof (disable_remove_shape c l) as Hshape.
  destruct (l ← disableAll c l; remove c l) as [l'|]; cbn in Hd |- *; [|done].
  destruct Hd as (I' & Ht' & _ & Hn & _ & Hoth & Hho & Hw & Hwo). cbn in Ht, Ht'.
  split_and!; try done.
  - by rewrite Ht', Ht.
  - by rewrite (Hshape l' eq_refl).
  - intros c2 fd2 Hne2 [(ch2 & Hc2 & Hf2 & He2) Hh2]. split; [|by apply Hho].
    destruct (Hoth c2 ch2 Hne2 Hc2) as (ch2' & Hc2' & i & ->). by exists (set_index i ch2).
Qed.

Lemma delete_loop_ok s q l :
  loop_inv l → isInLoopThread l = true → loop_eventHandling_ l = false → distinct s →
  0 ≤ wake_fd s → 0 ≤ timer_fd s → wakeupChannel_ l = wake_channel s →
  listens l (wake_channel s) (wake_fd s) → listens l (timer_channel s) (timer_fd s) → tq_inv q [] →
  safely (delete_loop s q l) (λ w, loop_inv (timer_loop w) ∧
    loop_watched (timer_loop w) (wake_fd s) = None ∧ loop_watched (timer_loop w) (timer_fd s) = None ∧
    (∀ c fd, c ≠ wake_channel s → c ≠ timer_channel s → listens l c fd → listens (timer_loop w) c fd) ∧
    heap_ (queue w) = ∅).
Proof.
  intros I Ht He [Hfd Hc] Hw0 Ht0 Ewake Lw Lt Iq. unfold delete_loop, TimerQueue_dtor.
  rewrite event_loop_dtor_eq, Ewake. apply safely_bind.
  eapply safely_mono; [exact (unregister l (wake_channel s) (wake_fd s) I Ht He Hw0 Lw)|].
  intros l1 (I1 & Ht1 & He1 & _ & Hw1 & Hl1 & _). cbn [timerfdChannel_ timer_loop queue].
  assert (Lt1 : listens l1 (timer_channel s) (timer_fd s)) by (by apply Hl1).
  pose proof (unregister l1 (timer_channel s) (timer_fd s) I1 Ht1 He1 Ht0 Lt1) as Hu.
  destruct (delete_timers q Iq) as (q' & Eq & Hq').
  change (safely (l2 ← disableAll (timer_channel s) l1; l3 ← remove (timer_channel s) l2;
                  q2 ← delete_all (timers_ q) q; Ok (mkTW q2 l3 (timer_channel s))) (λ w, loop_inv (timer_loop w) ∧
    loop_watched (timer_loop w) (wake_fd s) = None ∧ loop_watched (timer_loop w) (timer_fd s) = None ∧
    (∀ c fd, c ≠ wake_channel s → c ≠ timer_channel s → listens l c fd → listens (timer_loop w) c fd) ∧
    heap_ (queue w) = ∅)).
  apply safely_bind in Hu. apply safely_bind. eapply safely_mono; [exact Hu|]. intros l2 Hu2.
  apply safely_bind. eapply safely_mono; [exact Hu2|].
  intros l3 (I3 & _ & _ & _ & Hw3 & Hl3 & Hwo3). rewrite Eq, bind_Ok, safely_Ok. cbn [timer_loop queue].
  split_and!; [done| |done| |done].
  - by rewrite Hwo3.
  - intros c fd Hcw Hct Lc. apply Hl3; [done|]. by apply Hl1.
Qed.
End setup.
