(* ===== verification/LoopThreads.v ===== *)
(** One loop and the threads that use it: the interleavings of [loop],
    [queueInLoop] and [quit] (EventLoop.cpp).

    The loop thread goes through the phases of [loop]; other threads push a
    functor (or store [quit_]) and then write to the eventfd, in two separate
    steps.  The theorems are the two promises of the wake-up protocol: no functor
    is lost, duplicated or reordered, and the loop never sleeps on work. *)
From S2P Require Import Prelude.
From S2P Require Import CurrentThread.
From S2P Require Import Channel.
From S2P Require Import Poller.
From S2P Require Import Loop.
From S2P Require Import EventLoop.

Section threads.
  Context {CB F P : Type} `{!Poller CB P} `{!EventFd} `{!CurrentThread}.
  Implicit Types l : EventLoop CB F P.

(** What the loop thread executes next. *)
Inductive phase :=
| AtTest                 (** [while (!quit_)] *)
| AtPoll                 (** inside [poller_->poll] *)
| Handling               (** the callbacks of the active channels *)
| BeforeSwap             (** about to take the pending functors *)
| Running (fs : list F)  (** the functors taken and not yet called *)
| Returned.

Record system := mkSystem {
  sys_loop : EventLoop CB F P;
  sys_phase : phase;
  sys_wakers : nat;        (** threads between their store and their [wakeup] *)
  submitted : list F;      (** every functor given to [queueInLoop], in order *)
  executed : list F        (** every functor called, in order *)
}.

(** The loop thread's own [queueInLoop], [quit] and the wake-up callback. *)
Inductive own_action := OwnQueue (f : F) | OwnQuit | OwnDrain.

Definition own (a : own_action) l : EventLoop CB F P :=
  match a with
  | OwnQueue f => queueInLoop_ f l
  | OwnQuit => quit l
  | OwnDrain => handleRead l
  end.

Definition own_submits (a : own_action) : list F :=
  match a with OwnQueue f => [f] | _ => [] end.

(** The wake-up callback runs among the channels' callbacks only. *)
Definition own_allowed (a : own_action) (ph : phase) : Prop :=
  match ph, a with
  | Handling, _ => True
  | Running _, OwnDrain => False
  | Running _, _ => True
  | _, _ => False
  end.

Inductive step : system → system → Prop :=
| remote_push l ph n sub ex f :
    step (mkSystem l ph n sub ex) (mkSystem (push_functor f l) ph (S n) (sub ++ [f]) ex)
| remote_quit l ph n sub ex :
    step (mkSystem l ph n sub ex) (mkSystem (set_quit true l) ph (S n) sub ex)
| remote_wakeup l ph n sub ex :
    step (mkSystem l ph (S n) sub ex) (mkSystem (wakeup l) ph n sub ex)
| loop_test l n sub ex :
    step (mkSystem l AtTest n sub ex)
         (mkSystem l (if quit_ l then Returned else AtPoll) n sub ex)
| loop_wait_returns l n sub ex p m active :
    step (mkSystem l AtPoll n sub ex) (mkSystem (set_polled p m active l) Handling n sub ex)
| loop_own l ph n sub ex a :
    own_allowed a ph →
    step (mkSystem l ph n sub ex) (mkSystem (own a l) ph n (sub ++ own_submits a) ex)
| loop_handled l n sub ex :
    step (mkSystem l Handling n sub ex)
         (mkSystem (set_handling false None l) BeforeSwap n sub ex)
| loop_swap l n sub ex :
    step (mkSystem l BeforeSwap n sub ex)
         (mkSystem (set_pending [] (set_calling true l)) (Running (pendingFunctors_ l)) n sub ex)
| loop_call l n sub ex f fs :
    step (mkSystem l (Running (f :: fs)) n sub ex) (mkSystem l (Running fs) n sub (ex ++ [f]))
| loop_done l n sub ex :
    step (mkSystem l (Running []) n sub ex) (mkSystem (set_calling false l) AtTest n sub ex).

(** [loop] has just been entered: nothing is queued yet. *)
Definition entered (s : system) : Prop :=
  sys_phase s = AtTest ∧ pendingFunctors_ (sys_loop s) = [] ∧ sys_wakers s = O ∧
  submitted s = [] ∧ executed s = [] ∧ threadId_ (sys_loop s) = gettid.

Inductive reachable : system → Prop :=
| reach_entered s : entered s → reachable s
| reach_step s s' : reachable s → step s s' → reachable s'.

(** The loop thread sleeps in the wait until its timeout: the wake-up descriptor
    is not readable, and nobody is about to write to it. *)
Definition asleep (s : system) : Prop :=
  sys_phase s = AtPoll ∧ readable (wakeupFd_ (sys_loop s)) = false ∧ sys_wakers s = O.

Definition in_flight (ph : phase) : list F :=
  match ph with Running fs => fs | _ => [] end.

(** A wake-up is on its way. *)
Definition woken (s : system) : Prop :=
  readable (wakeupFd_ (sys_loop s)) = true ∨ (0 < sys_wakers s)%nat.

Record protocol (s : system) : Prop := {
  pr_order : submitted s = executed s ++ in_flight (sys_phase s) ++ pendingFunctors_ (sys_loop s);
  pr_thread : threadId_ (sys_loop s) = gettid;
  pr_calling fs : sys_phase s = Running fs → callingPendingFunctors_ (sys_loop s) = true;
  pr_wake : match sys_phase s with AtTest | AtPoll | Running _ => True | _ => False end →
            pendingFunctors_ (sys_loop s) ≠ [] → woken s;
  pr_quit : sys_phase s = AtPoll → quit_ (sys_loop s) = true → woken s
}.

Lemma queueInLoop_pending f l : pendingFunctors_ (queueInLoop_ f l) = pendingFunctors_ l ++ [f].
Proof. unfold queueInLoop_. by case_match. Qed.

Lemma own_fields a l :
  pendingFunctors_ (own a l) = pendingFunctors_ l ++ own_submits a ∧
  threadId_ (own a l) = threadId_ l ∧
  callingPendingFunctors_ (own a l) = callingPendingFunctors_ l.
Proof.
  destruct a; cbn; unfold queueInLoop_, quit; rewrite ?app_nil_r; by repeat case_match.
Qed.

(** While functors run, a functor queued by the loop thread wakes the loop. *)
Lemma own_wakes a l n sub ex fs :
  own_allowed a (Running fs) → callingPendingFunctors_ l = true →
  (pendingFunctors_ l ≠ [] → woken (mkSystem l (Running fs) n sub ex)) →
  pendingFunctors_ (own a l) ≠ [] →
  woken (mkSystem (own a l) (Running fs) n (sub ++ own_submits a) ex).
Proof.
  intros Ha Hc Hw Hp. destruct a; cbn in Ha; [| |done].
  - left. cbn. unfold queueInLoop_. cbn. rewrite Hc, orb_true_r. apply eventfd_write_readable.
  - cbn in Hp. assert (pendingFunctors_ l ≠ []) as Hl by (unfold quit in Hp; by case_match).
    destruct (Hw Hl) as [Hr|?]; [left|by right]. cbn in *. unfold quit.
    case_match; [done|apply eventfd_write_readable].
Qed.

Lemma protocol_step s s' : protocol s → step s s' → protocol s'.
Proof.
  intros [Ho Ht Hc Hw Hq] Hs. destruct Hs; cbn in *.
  - split; cbn; try done.
    + rewrite Ho. by rewrite <- !app_assoc.
    + intros _ _. right. cbn. lia.
    + intros _ _. right. cbn. lia.
  - split; cbn; try done; intros; right; cbn; lia.
  - split; cbn; try done; intros; left; apply eventfd_write_readable.
  - split; cbn; try done.
    + by case_match.
    + by case_match.
    + intros _ Hp. apply Hw in Hp; [|done]. done.
    + by case_match.
  - by split.
  - destruct (own_fields a l) as (E1 & E2 & E3). split; cbn; rewrite ?E1, ?E2, ?E3; try done.
    + rewrite Ho. by rewrite <- !app_assoc.
    + intros Hph Hp. destruct ph; try done. rewrite <- E1 in Hp.
      apply own_wakes; try done; eauto.
    + intros ->. by destruct a.
  - by split.
  - split; cbn; try done. by rewrite app_nil_r.
  - split; cbn in *; try done; eauto. rewrite Ho. by rewrite <- !app_assoc.
  - by split.
Qed.

Lemma protocol_reachable s : reachable s → protocol s.
Proof.
  induction 1 as [s (Hph & Hp & Hn & Hsub & Hex & Ht)|s s' _ IH Hs].
  - split; rewrite ?Hph, ?Hp, ?Hsub, ?Hex; done.
  - by eapply protocol_step.
Qed.

(** The remote steps are the two halves of the code's [queueInLoop] and [quit]. *)
Lemma queueInLoop_remote f l :
  threadId_ l ≠ gettid → queueInLoop_ f l = wakeup (push_functor f l).
Proof.
  intros Hne. unfold queueInLoop_, in_loop_thread. cbn.
  by rewrite (proj2 (Z.eqb_neq _ _) Hne).
Qed.

Lemma quit_remote l : threadId_ l ≠ gettid → quit l = wakeup (set_quit true l).
Proof.
  intros Hne. unfold quit, in_loop_thread. cbn. by rewrite (proj2 (Z.eqb_neq _ _) Hne).
Qed.
End threads.
