(* ===== verification/Service.v ===== *)
(** Many connections on one loop: what TcpServer::newConnection, the std::binds of
    TcpConnection's constructor and EventLoop::loop make together in one I/O thread.

    EventLoop.v runs callbacks and functors that are parameters, TcpConnection.v is one
    connection over the interface of a loop.  Here the callbacks of a loop over epoll(7) are those
    of its wake-up channel and of any number of connections, its functors are the connections'.
    A connection is named by the address of its channel.

    The server's map of names is TcpServer.v's; clients are accepted, timers go
    off and other threads call between the rounds of the loop. *)
From S2P Require Import Prelude.
From S2P Require Import CurrentThread.
From S2P Require Import StringPiece.
From S2P Require Import Buffer.
From S2P Require Import Channel.
From S2P Require Import Poller.
From S2P Require Import EPollPoller.
From S2P Require Import Loop.
From S2P Require Import EventLoop.
From S2P Require Import TcpConnection.

(** What the channels of the loop call. *)
Inductive callback :=
| OnWakeup                                        (** [EventLoop::handleRead] *)
| OnConnection (c : ChannelPtr) (h : handler).

(** A functor in the loop, with the connection it is bound to. *)
Abbreviation bound_functor := (ChannelPtr * functor)%type.

(** No hang-up together with data, which the channel would take for a close and a read. *)
Definition tame (r : Z) : Prop := close_fires r = false ∨ read_fires r = false.

(** What the program relies on from epoll_wait(2): entries of the interest list, a descriptor at most
    once, and events that do not ask for a close and a read at once. *)
Definition wait_ok (r : epoll_wait_result) `{!EpollKernel} (p : EPollPoller) : Prop :=
  epoll_wait_valid r p ∧ match r with
  | WaitEvents evs => NoDup (map snd evs) ∧ Forall (λ ev, tame ev.1) evs
  | WaitError _ => True
  end.

Section service.
  Context {Addr : Type} `{!TcpSocket, !EpollKernel, !EventFd, !CurrentThread}.
  Notation L := (EventLoop callback bound_functor EPollPoller).
  Notation W := (World Addr L).

(** How the connection [c] is bound to the loop.  [closeCallback_] ends in
    [TcpServer::removeConnectionInLoop], which queues [connectDestroyed].  When the timer of
    [forceCloseWithDelay] goes off is left open: [step_timer] below may happen at any time. *)
#[export] Instance connection_env (c : ChannelPtr) : ConnEnv callback bound_functor L | 100.
Proof.
  refine {| bind_functor f := (c, f);
            bind_handler h := OnConnection c h;
            decode_handler cb := match cb with OnConnection c' h => if decide (c' = c) then Some h else None | _ => None end;
            runAfter _ _ l := l;
            closeCallback l := queueInLoop_ (c, FConnectDestroyed) l |}.
  intros h. by rewrite decide_True.
Defined.

(** A connection without its loop. *)
Record seat := mkSeat {
  s_conn : TcpConnection Addr;
  s_sk : sock;
  s_wire : list byte;
  s_fin : bool;
  s_trace : list event;
  s_first : sock                 (** the socket as it was accepted *)
}.

Record Service := mkService { sv_loop : L; sv_conns : gmap ChannelPtr seat }.

Definition enter (s : seat) (l : L) : W := mkWorld (s_conn s) l (s_sk s) (s_wire s) (s_fin s) (s_trace s).
Definition leave (first : sock) (w : W) : seat := mkSeat (conn w) (sk w) (wire w) (fin w) (trace w) first.
Definition put_seat (c : ChannelPtr) (first : sock) (w : W) (m : gmap ChannelPtr seat) : Service :=
  mkService (lp w) (<[c := leave first w]> m).

#[export] Instance service_loop : HasLoop callback bound_functor EPollPoller Service := {
  the_loop := sv_loop;
  put_loop l sv := mkService l (sv_conns sv)
}.

(** A method of the connection [c] is called; its object is alive. *)
Definition run_on (c : ChannelPtr) (op : W → outcome W) (sv : Service) : outcome Service :=
  match sv_conns sv !! c with
  | Some s => w ← op (enter s (sv_loop sv)); Ok (put_seat c (s_first s) w (sv_conns sv))
  | None => Fail UndefinedBehaviour
  end.

  Variable user : UserCallbacks Addr.

Definition service_callback (cb : callback) (sv : Service) : outcome Service :=
  match cb with
  | OnWakeup => Ok (on_loop EventLoop.handleRead sv)
  | OnConnection c h => run_on c (run_handler (ConnEnv0 := connection_env c) user h) sv
  end.

(** [tie_.lock()]: whether the connection of the channel is alive. *)
Definition service_tie (c : ChannelPtr) (sv : Service) : bool := bool_decide (is_Some (sv_conns sv !! c)).

(** The last [shared_ptr] goes with the functor of [connectDestroyed]. *)
Definition release (c : ChannelPtr) (sv : Service) : outcome Service :=
  match sv_conns sv !! c with
  | Some s => _ ← connection_dtor (s_conn s); Ok (mkService (sv_loop sv) (delete c (sv_conns sv)))
  | None => Fail UndefinedBehaviour
  end.

Definition service_functor (f : bound_functor) (sv : Service) : outcome Service :=
  sv ← run_on f.1 (run_functor (ConnEnv0 := connection_env f.1) user f.2) sv;
  match f.2 with FConnectDestroyed => release f.1 sv | _ => Ok sv end.

(** A new connection in the loop's own thread: [TcpServer::newConnection], whose [runInLoop] calls
    [connectEstablished] at once.  The user's callbacks it installs are [user], its close callback is
    in [connection_env]. *)
Definition admit_connection (name : list byte) (fd : Z) (chan : ChannelPtr) (localAddr peerAddr : Addr) (s : sock)
    (sv : Service) : outcome Service :=
  '(c, ch) ← new_TcpConnection (ConnEnv0 := connection_env chan) name fd chan localAddr peerAddr;
  let w := mkWorld c (put_channel chan ch (sv_loop sv)) s [] false [] in
  w ← connectEstablished (ConnEnv0 := connection_env chan) user w;
  Ok (put_seat chan s w (sv_conns sv)).

(** The timer of [forceCloseWithDelay]: a weak callback, which does nothing when the connection is gone. *)
Definition fire_timer (c : ChannelPtr) (sv : Service) : outcome Service :=
  match sv_conns sv !! c with
  | Some _ => run_on c (run_functor (ConnEnv0 := connection_env c) user FForceClose) sv
  | None => Ok sv
  end.

(** Whether some callback of the program sets such a timer. *)
Definition sets_timers : Prop :=
  ∃ c n us, AForceCloseWithDelay us ∈ connectionCallback user c ++ messageCallback user c ++
    writeCompleteCallback user c ++ highWaterMarkCallback user c n.

(** What other threads may call on a connection they hold: each call is one step. *)
Definition thread_safe (a : api) : Prop :=
  match a with ASend d | ASendString d => zlen d < 2 ^ 31 | AShutdown | AForceClose => True | _ => False end.

(** No other thread calls anything. *)
Definition nothing (a : api) : Prop := False.

(** The thread [tid] calls the method [a]. *)
Definition as_thread (tid : Z) : CurrentThread := {| gettid := tid |}.

Definition call_elsewhere (tid : Z) (c : ChannelPtr) (a : api) (sv : Service) : outcome Service :=
  run_on c (run_api (H0 := as_thread tid) (ConnEnv0 := connection_env c) a) sv.

(** One round of [EventLoop::loop]. *)
Definition service_round (r : epoll_wait_result) (sv : Service) : outcome Service :=
  iterate service_functor service_callback service_tie r sv.

(** ** Whole lives *)

(** The loop of [EventLoop::EventLoop] over a new epoll instance, without connections and timers. *)
Definition new_service (junk other_loop : bool) (epfd wake_fd : Z) (wake : ChannelPtr) : outcome Service :=
  p ← new_EPollPoller epfd;
  l ← new_EventLoop junk other_loop p wake_fd wake OnWakeup Ok;
  Ok (mkService l ∅).

(** A client is accepted on a descriptor that is not in use, the loop goes once around, a timer of the
    program goes off, or another thread makes one of the [calls]. *)
Inductive service_step (calls : api → Prop) : Service → Service → Prop :=
| step_admit name fd c a1 a2 s sv sv' :
    heap (sv_loop sv) !! c = None → chmap (poller_ (sv_loop sv)) !! fd = None → 0 ≤ fd →
    admit_connection name fd c a1 a2 s sv = Ok sv' → service_step calls sv sv'
| step_round r sv sv' :
    wait_ok r (poller_ (sv_loop sv)) → service_round r sv = Ok sv' → service_step calls sv sv'
| step_timer c sv sv' :
    sets_timers → fire_timer c sv = Ok sv' → service_step calls sv sv'
| step_elsewhere tid c a sv sv' :
    calls a → threadId_ (sv_loop sv) ≠ tid → is_Some (sv_conns sv !! c) →
    call_elsewhere tid c a sv = Ok sv' → service_step calls sv sv'.
End service.
