(* ===== verification/Footprint.v ===== *)
(** What an operation of one connection does to the loop it shares with others (Service.v): it
    touches its own channel and descriptor, and queues functors of its own.

    These facts are about successful calls and need no invariant: they are read off the code. *)
From S2P Require Import Prelude.
From S2P Require Import CurrentThread.
From S2P Require Import StringPiece.
From S2P Require Import Buffer.
From S2P Require Import Channel.
From S2P Require Import Poller.
From S2P Require Import EPollPoller.
From S2P Require Import Loop.
From S2P Require Import EventLoop.
From S2P Require Import TcpConnection.
From S2P Require Import TcpConnectionLife.
From S2P Require Import Service.

(** * The poller *)
Section poller.
  Context {CB : Type} `{!EpollKernel}.
  Implicit Types (p : EPollPoller) (m : gmap ChannelPtr (Channel CB)) (ch : Channel CB).

(** Two states of the poller that agree but for one descriptor. *)
Definition agree_but (fd : Z) p p' : Prop :=
  ∀ fd2, fd2 ≠ fd → chmap p' !! fd2 = chmap p !! fd2 ∧ interest (epollfd p') !! fd2 = interest (epollfd p) !! fd2.

Lemma agree_refl fd p : agree_but fd p p.
Proof. done. Qed.

Lemma agree_trans fd p1 p2 p3 : agree_but fd p1 p2 → agree_but fd p2 p3 → agree_but fd p1 p3.
Proof. intros A B fd2 Hne. destruct (A fd2 Hne), (B fd2 Hne). split; congruence. Qed.

Lemma agree_chmap fd p c : agree_but fd p (mkEPoll (<[fd := c]> (chmap p)) (events_size p) (epollfd p)).
Proof. intros fd2 Hne. cbn. by rewrite lookup_insert_ne. Qed.

Lemma update_agrees op c ch p p' : EPollPoller.update op c ch p = Ok p' → agree_but (fd_ ch) p p'.
Proof.
  unfold EPollPoller.update. destruct (epoll_ctl _ _ _ _) as [k []] eqn:E; intros E2.
  - injection E2 as <-. intros fd2 Hne. cbn. split; [done|]. rewrite (epoll_ctl_ok _ _ _ _ _ E).
    destruct op; rewrite ?lookup_insert_ne, ?lookup_delete_ne by done; done.
  - destruct op; [done|done|]. injection E2 as <-. intros fd2 Hne. cbn. by rewrite (epoll_ctl_fail _ _ _ _ _ E).
Qed.

Lemma updateChannel_agrees c p m ch p' m' :
  epoll_updateChannel c p m = Ok (p', m') → m !! c = Some ch →
  agree_but (fd_ ch) p p' ∧ (∀ c2, c2 ≠ c → m' !! c2 = m !! c2) ∧ ∃ i, m' !! c = Some (set_index i ch).
Proof.
  intros E Hc. unfold epoll_updateChannel, find_channel in E. rewrite Hc, bind_Ok in E.
  destruct (_ || _) in E.
  - apply bind_ok in E as (p1 & E1 & E). apply bind_ok in E as (p2 & E2 & E). injection E as <- <-.
    split_and!.
    + eapply agree_trans; [|exact (update_agrees _ _ _ _ _ E2)].
      destruct (index_ ch =? kNew); inv_ok; [apply agree_chmap|apply agree_refl].
    + intros. by rewrite lookup_insert_ne.
    + eexists. apply lookup_insert_eq.
  - inv_ok; (split_and!; [by eapply update_agrees| |]).
    + intros. by rewrite lookup_insert_ne.
    + eexists. apply lookup_insert_eq.
    + done.
    + exists (index_ ch). rewrite Hc. by destruct ch.
Qed.

Lemma removeChannel_agrees c p m ch p' m' :
  epoll_removeChannel c p m = Ok (p', m') → m !! c = Some ch →
  agree_but (fd_ ch) p p' ∧ (∀ c2, c2 ≠ c → m' !! c2 = m !! c2) ∧ ∃ i, m' !! c = Some (set_index i ch).
Proof.
  intros E Hc. unfold epoll_removeChannel, find_channel in E. rewrite Hc, bind_Ok in E.
  apply bind_ok in E as (_ & _ & E). apply bind_ok in E as (_ & _ & E). apply bind_ok in E as (_ & _ & E).
  apply bind_ok in E as (_ & _ & E). apply bind_ok in E as (p2 & E2 & E). injection E as <- <-.
  split_and!.
  - assert (A : agree_but (fd_ ch) p (mkEPoll (delete (fd_ ch) (chmap p)) (events_size p) (epollfd p)))
      by (intros fd2 Hne; cbn; by rewrite lookup_delete_ne).
    destruct (index_ ch =? kAdded) in E2; [|by injection E2 as <-].
    eapply agree_trans; [exact A|by eapply update_agrees].
  - intros. by rewrite lookup_insert_ne.
  - eexists. apply lookup_insert_eq.
Qed.
Lemma update_chmap op c ch p p' : EPollPoller.update op c ch p = Ok p' → chmap p' = chmap p.
Proof.
  unfold EPollPoller.update. destruct (epoll_ctl _ _ _ _) as [k []]; [by intros [= <-]|].
  destruct op; [done|done|by intros [= <-]].
Qed.

(** The descriptor's entry is gone. *)
Lemma removeChannel_clears c p m ch p' m' :
  epoll_removeChannel c p m = Ok (p', m') → m !! c = Some ch → chmap p' !! fd_ ch = None.
Proof.
  intros E Hc. unfold epoll_removeChannel, find_channel in E. rewrite Hc, bind_Ok in E.
  apply bind_ok in E as (_ & _ & E). apply bind_ok in E as (_ & _ & E). apply bind_ok in E as (_ & _ & E).
  apply bind_ok in E as (_ & _ & E). apply bind_ok in E as (p2 & E2 & E). injection E as <- <-.
  destruct (index_ ch =? kAdded) in E2; [rewrite (update_chmap _ _ _ _ _ E2)|injection E2 as <-];
    cbn; apply lookup_delete_eq.
Qed.
End poller.

(** * The loop *)
Section loop.
  Context `{!EpollKernel, !EventFd, !CurrentThread}.
  Notation L := (EventLoop callback bound_functor EPollPoller).
  Implicit Types (l : L) (c : ChannelPtr).

(** What only the loop itself changes. *)
Definition flags l :=
  (threadId_ l, looping_ l, quit_ l, loop_eventHandling_ l, callingPendingFunctors_ l, currentActiveChannel_ l,
   activeChannels_ l).

(** The connection [c] turned [l] into [l'] and queued [fs]. *)
Record foot c l (fs : list functor) l' : Prop := {
  ft_flags : flags l' = flags l;
  ft_pending : pendingFunctors_ l' = pendingFunctors_ l ++ map (pair c) fs;
  ft_others c2 : c2 ≠ c → heap l' !! c2 = heap l !! c2;
  ft_own ch : heap l !! c = Some ch →
    (∃ ch', heap l' !! c = Some ch' ∧ fd_ ch' = fd_ ch) ∧ agree_but (fd_ ch) (poller_ l) (poller_ l')
}.

Lemma foot_refl c l : foot c l [] l.
Proof. split; [done|by rewrite app_nil_r|done|]. intros ch Hc. split; [by exists ch|apply agree_refl]. Qed.

Lemma foot_trans c l1 l2 l3 fs gs : foot c l1 fs l2 → foot c l2 gs l3 → foot c l1 (fs ++ gs) l3.
Proof.
  intros [F1 P1 O1 W1] [F2 P2 O2 W2]. split.
  - congruence.
  - by rewrite P2, P1, map_app, app_assoc.
  - intros c2 Hne. by rewrite O2, O1.
  - intros ch Hc. destruct (W1 ch Hc) as [(ch2 & Hc2 & E2) A1]. destruct (W2 ch2 Hc2) as [(ch3 & Hc3 & E3) A2].
    rewrite E2 in *. split; [exists ch3; split; congruence|by eapply agree_trans].
Qed.

Lemma foot_put c ch ch' l : heap l !! c = Some ch → fd_ ch' = fd_ ch → foot c l [] (put_channel c ch' l).
Proof.
  intros Hc Ef. split; cbn; [done|by rewrite app_nil_r| |].
  - intros. by rewrite lookup_insert_ne.
  - intros ch0 Hc0. rewrite lookup_insert_eq. simplify_eq. split; [by exists ch'|apply agree_refl].
Qed.

Lemma foot_modify c f l l' : (∀ ch, fd_ (f ch) = fd_ ch) → modify c f l = Ok l' → foot c l [] l'.
Proof.
  intros Hf E. unfold modify, deref in E. cbn in E. destruct (heap l !! c) as [ch|] eqn:Hc; [|done].
  injection E as <-. by eapply foot_put.
Qed.

Lemma foot_poller c l p m ch :
  heap l !! c = Some ch → agree_but (fd_ ch) (poller_ l) p → (∀ c2, c2 ≠ c → m !! c2 = heap l !! c2) →
  (∃ i, m !! c = Some (set_index i ch)) → foot c l [] (set_poller p m l).
Proof.
  intros Hc A Ho [i Hi]. split; cbn; [done|by rewrite app_nil_r|done|].
  intros ch0 Hc0. simplify_eq. split; [by eexists|done].
Qed.

Lemma foot_update c l l' : Channel.update c l = Ok l' → foot c l [] l'.
Proof.
  intros E. unfold Channel.update in E. apply bind_ok in E as (l1 & E1 & E).
  apply (foot_trans c l l1 l' [] []); [by eapply foot_modify, E1|].
  cbn in E. unfold updateChannel_ in E. apply bind_ok in E as (_ & _ & E). apply bind_ok in E as ([p m] & E2 & E).
  injection E as <-. cbn in E2. destruct (heap l1 !! c) as [ch|] eqn:Hc.
  - destruct (updateChannel_agrees _ _ _ _ _ _ E2 Hc) as (A & Ho & Hi). by eapply foot_poller.
  - unfold epoll_updateChannel, find_channel in E2. by rewrite Hc in E2.
Qed.

Lemma foot_mask c (g : Z → Z) l l' :
  (modify c (λ ch, set_events (g (events_ ch)) ch) l ≫= Channel.update c) = Ok l' → foot c l [] l'.
Proof.
  intros E. apply bind_ok in E as (l1 & E1 & E).
  apply (foot_trans c l l1 l' [] []); [by eapply foot_modify, E1|by apply foot_update].
Qed.

Lemma foot_remove c l l' : remove c l = Ok l' → foot c l [] l'.
Proof.
  intros E. unfold remove in E. apply bind_ok in E as (ch0 & _ & E). apply bind_ok in E as (_ & _ & E).
  apply bind_ok in E as (l1 & E1 & E). apply (foot_trans c l l1 l' [] []); [by eapply foot_modify, E1|].
  cbn in E. unfold removeChannel_ in E. apply bind_ok in E as (_ & _ & E). apply bind_ok in E as (_ & _ & E).
  apply bind_ok in E as ([p m] & E2 & E).
  injection E as <-. cbn in E2. destruct (heap l1 !! c) as [ch|] eqn:Hc.
  - destruct (removeChannel_agrees _ _ _ _ _ _ E2 Hc) as (A & Ho & Hi). by eapply foot_poller.
  - unfold epoll_removeChannel, find_channel in E2. by rewrite Hc in E2.
Qed.

Lemma remove_clears c l l' ch : remove c l = Ok l' → heap l !! c = Some ch → chmap (poller_ l') !! fd_ ch = None.
Proof.
  intros E Hc. unfold remove in E. apply bind_ok in E as (ch0 & _ & E). apply bind_ok in E as (_ & _ & E).
  unfold modify, deref in E. cbn in E. rewrite Hc, bind_Ok in E. cbn in E.
  unfold removeChannel_ in E. apply bind_ok in E as (_ & _ & E). apply bind_ok in E as (_ & _ & E).
  apply bind_ok in E as ([p m] & E2 & E). injection E as <-. cbn in E2 |- *.
  apply (removeChannel_clears _ _ _ (set_addedToLoop false ch) _ _ E2). apply lookup_insert_eq.
Qed.

Lemma foot_queue c f l : foot c l [f] (queueInLoop_ (c, f) l).
Proof.
  split.
  - unfold queueInLoop_. by case_match.
  - unfold queueInLoop_. by case_match.
  - intros. unfold queueInLoop_. by case_match.
  - intros ch Hc. unfold queueInLoop_. split; [exists ch|]; case_match; done || apply agree_refl.
Qed.

Lemma foot_thread c l fs l' : foot c l fs l' → isInLoopThread l' = isInLoopThread l.
Proof. intros [F _ _ _]. cbn. unfold in_loop_thread. by injection F as ->. Qed.
End loop.

(** * The operations of a connection *)

(** Functors that a connection queues while it is up, in the loop's thread. *)
Definition plain (f : functor) : bool :=
  match f with FWriteComplete | FHighWaterMark _ | FForceCloseInLoop => true | _ => false end.

(** Functors of the methods that other threads may call. *)
Definition remote (f : functor) : bool :=
  match f with FSendInLoop d => zlen d <? 2 ^ 31 | FShutdownInLoop => true | _ => false end.

Definition ordinary (f : functor) : bool := plain f || remote f.

(** What is queued while the state goes from [s] to [s']: plain functors, and [connectDestroyed]
    last when the connection goes down; nothing once it is down. *)
Definition queued_while (s : StateE) (fs : list functor) (s' : StateE) : Prop :=
  match s, s' with
  | kDisconnected, kDisconnected => fs = []
  | kDisconnected, _ => False
  | _, kDisconnected => ∃ gs, fs = gs ++ [FConnectDestroyed] ∧ Forall plain gs
  | _, _ => Forall plain fs
  end.

Lemma queued_trans s1 s2 s3 fs gs :
  queued_while s1 fs s2 → queued_while s2 gs s3 → queued_while s1 (fs ++ gs) s3.
Proof.
  destruct s1, s2, s3; cbn; try done;
    first [by intros -> ->|by intros; apply list.Forall_app|by intros Hf ->; rewrite app_nil_r
          |intros Hf (hs & -> & Hh); exists (fs ++ hs); by rewrite app_assoc, list.Forall_app
          |by intros (hs & -> & Hh) ->; exists hs; rewrite app_nil_r|tauto].
Qed.

Lemma queued_none s : queued_while s [] s.
Proof. destruct s; cbn; [done|by constructor..]. Qed.

Section moves.
  Context {Addr : Type} `{!TcpSocket, !EpollKernel, !EventFd, !CurrentThread}.
  Notation L := (EventLoop callback bound_functor EPollPoller).
  Notation W := (World Addr L).
  Variable c : ChannelPtr.
  #[local] Hint Extern 0 (ConnEnv _ _ _) => exact (connection_env c) : typeclass_instances.
  Implicit Types w : W.

Record moves w w' : Prop := {
  mv_foot : ∃ fs, foot c (lp w) fs (lp w') ∧ queued_while (state_ (conn w)) fs (state_ (conn w'));
  mv_channel : channel_ (conn w') = channel_ (conn w);
  mv_sockfd : sockfd_ (conn w') = sockfd_ (conn w)
}.

Lemma moves_refl w : moves w w.
Proof. split; [|done|done]. exists []. split; [apply foot_refl|apply queued_none]. Qed.

Lemma moves_trans w1 w2 w3 : moves w1 w2 → moves w2 w3 → moves w1 w3.
Proof.
  intros [(fs & F1 & Q1) C1 S1] [(gs & F2 & Q2) C2 S2]. split; [|congruence|congruence].
  exists (fs ++ gs). split; [by eapply foot_trans|by eapply queued_trans].
Qed.

Definition mine w : Prop := channel_ (conn w) = c ∧ isInLoopThread (lp w) = true.

Lemma moves_mine w w' : moves w w' → mine w → mine w'.
Proof. intros [(fs & F & _) C _] [E T]. split; [congruence|]. by rewrite (foot_thread _ _ _ _ F). Qed.

(** Changes of the world that do not reach the loop. *)
Lemma moves_here w w' :
  lp w' = lp w → channel_ (conn w') = channel_ (conn w) → sockfd_ (conn w') = sockfd_ (conn w) →
  state_ (conn w') = state_ (conn w) → moves w w'.
Proof. intros El Ec Es Est. split; [|done|done]. exists []. rewrite El, Est. split; [apply foot_refl|apply queued_none]. Qed.

(** A call of the loop that queues nothing. *)
Lemma moves_loop w l : foot c (lp w) [] l → moves w (set_lp l w).
Proof. intros F. split; [|done|done]. exists []. split; [exact F|apply queued_none]. Qed.

Lemma moves_queue f w w' :
  plain f = true → state_ (conn w) ≠ kDisconnected → TcpConnection.queue f w = Ok w' → moves w w'.
Proof.
  intros Hf Hs E. unfold TcpConnection.queue in E. cbn in E. injection E as <-. split; [|done|done].
  exists [f]. split; [apply foot_queue|]. cbn. destruct (state_ (conn w)); cbn; try done; repeat constructor; by rewrite Hf.
Qed.

Lemma moves_on_channel (m : ChannelPtr → L → outcome L) w w' :
  mine w → (∀ l l', m c l = Ok l' → foot c l [] l') → on_channel m w = Ok w' → moves w w'.
Proof.
  intros [Hc _] Hm E. unfold on_channel in E. apply bind_ok in E as (l & E1 & E). injection E as <-.
  rewrite Hc in E1. by apply moves_loop, Hm.
Qed.

Lemma moves_disconnecting w : @open Addr (conn w) = true → moves w (on_conn (setState kDisconnecting) w).
Proof.
  intros Ho. split; [|done|done]. exists []. split; [apply foot_refl|]. cbn. unfold open in Ho.
  destruct (state_ (conn w)); cbn; done || constructor.
Qed.

(** * Sending *)
Lemma moves_try_write data w w' n r fault :
  state_ (conn w) ≠ kDisconnected → try_write data w = Ok (w', n, r, fault) → moves w w' ∧ state_ (conn w') = state_ (conn w).
Proof.
  intros Hs E. unfold try_write in E. destruct (sock_write (sk w) data) as [s [nw|e]].
  - apply bind_ok in E as (w1 & E1 & E). injection E as <- _ _ _. destruct (_ && _) in E1.
    + split; [|by unfold TcpConnection.queue in E1; cbn in E1; injection E1 as <-].
      eapply moves_trans; [|by eapply moves_queue, E1]. by apply moves_here.
    + injection E1 as <-. split; [by apply moves_here|done].
  - injection E as <- _ _ _. split; [by apply moves_here|done].
Qed.

Lemma moves_buffer_rest data n r w w' :
  mine w → state_ (conn w) ≠ kDisconnected → buffer_rest data n r w = Ok w' → moves w w'.
Proof.
  intros Hm Hs E. unfold buffer_rest in E. apply bind_ok in E as (w1 & E1 & E).
  assert (M1 : moves w w1).
  { destruct (_ && _) in E1; [by eapply moves_queue, E1|injection E1 as <-; apply moves_refl]. }
  apply bind_ok in E as (b & _ & E). apply bind_ok in E as (ch & _ & E).
  assert (M2 : moves w1 (on_conn (set_output b) w1)) by (by apply moves_here).
  pose proof (moves_trans _ _ _ M1 M2) as M. eapply moves_trans; [exact M|].
  destruct (negb _); [|injection E as <-; apply moves_refl].
  eapply moves_on_channel, E; [by eapply moves_mine|]. intros l l'. rewrite enableWriting_eq. apply foot_mask.
Qed.

Lemma moves_sendInLoop data w w' : mine w → sendInLoop data w = Ok w' → moves w w'.
Proof.
  intros Hm E. unfold sendInLoop in E. apply bind_ok in E as (_ & _ & E).
  case_bool_decide as Hs; [injection E as <-; apply moves_refl|]. apply bind_ok in E as (ch & _ & E).
  apply bind_ok in E as ([[[w1 n] r] fault] & E1 & E). apply bind_ok in E as (_ & _ & E).
  assert (M1 : moves w w1 ∧ state_ (conn w1) = state_ (conn w)).
  { destruct (_ && _) in E1; [by eapply moves_try_write|injection E1 as <- _ _ _; split; [apply moves_refl|done]]. }
  destruct M1 as [M1 Es]. eapply moves_trans; [exact M1|].
  destruct (_ && _) in E; [|injection E as <-; apply moves_refl].
  eapply moves_buffer_rest; [by eapply moves_mine|by rewrite Es|exact E].
Qed.

(** * Closing and reading *)
Lemma moves_shutdownInLoop w w' : shutdownInLoop w = Ok w' → moves w w'.
Proof.
  intros E. unfold shutdownInLoop in E. apply bind_ok in E as (_ & _ & E). apply bind_ok in E as (ch & _ & E).
  destruct (negb _) in E; injection E as <-; by apply moves_here.
Qed.

Lemma moves_forceClose w w' : forceClose w = Ok w' → moves w w'.
Proof.
  intros E. unfold forceClose in E. destruct (open (conn w)) eqn:Ho; [|injection E as <-; apply moves_refl].
  eapply moves_trans; [by apply moves_disconnecting|]. by eapply moves_queue, E.
Qed.

Lemma moves_startReadInLoop w w' : mine w → startReadInLoop w = Ok w' → moves w w'.
Proof.
  intros Hm E. unfold startReadInLoop in E. apply bind_ok in E as (_ & _ & E). apply bind_ok in E as (ch & _ & E).
  destruct (_ || _) in E; [|injection E as <-; apply moves_refl]. apply bind_ok in E as (w1 & E1 & E).
  injection E as <-. apply (moves_trans w w1); [|by apply moves_here].
  eapply moves_on_channel, E1; [done|]. intros l l'. rewrite enableReading_eq. apply foot_mask.
Qed.

(** * The calls of a user callback *)
Lemma moves_send data w w' : mine w → send data w = Ok w' → moves w w'.
Proof.
  intros Hm E. unfold send in E. destruct (connected _); [|injection E as <-; apply moves_refl].
  rewrite run_in_loop_here in E by apply Hm. by eapply moves_sendInLoop.
Qed.

Lemma moves_run_api a w w' : mine w → run_api a w = Ok w' → moves w w'.
Proof.
  intros Hm E. destruct a; cbn in E.
  - by eapply moves_send.
  - unfold send_string in E. apply bind_ok in E as (piece & _ & E). by eapply moves_send.
  - unfold send_input in E. destruct (connected _); [|injection E as <-; apply moves_refl].
    cbn zeta in E. rewrite (proj2 Hm) in E. apply bind_ok in E as (data & _ & E). apply bind_ok in E as (w1 & E1 & E).
    injection E as <-. eapply moves_trans; [by eapply moves_sendInLoop, E1|by apply moves_here].
  - unfold shutdown in E. destruct (connected _) eqn:Hc; [|injection E as <-; apply moves_refl].
    rewrite run_in_loop_here in E by apply Hm.
    eapply moves_trans; [apply moves_disconnecting; by apply connected_open in Hc as [? _]|by apply moves_shutdownInLoop].
  - by apply moves_forceClose.
  - unfold forceCloseWithDelay in E. destruct (open _) eqn:Ho; [|injection E as <-; apply moves_refl].
    injection E as <-. eapply moves_trans; [by apply moves_disconnecting|]. by apply moves_here.
  - unfold startRead in E. rewrite run_in_loop_here in E by apply Hm. by eapply moves_startReadInLoop.
  - apply bind_ok in E as (b & _ & E). injection E as <-. by apply moves_here.
  - injection E as <-. by apply moves_here.
  - injection E as <-. by apply moves_here.
  - injection E as <-. by apply moves_here.
Qed.

Lemma moves_run_apis l w w' : mine w → run_apis l w = Ok w' → moves w w'.
Proof.
  revert w. induction l as [|a l IH]; intros w Hm E; cbn in E; [injection E as <-; apply moves_refl|].
  apply bind_ok in E as (w1 & E1 & E). pose proof (moves_run_api _ _ _ Hm E1) as M.
  eapply moves_trans; [exact M|]. apply IH; [by eapply moves_mine|done].
Qed.

(** A callback of the user, with what it records. *)
Lemma moves_calls e l w w' : mine w → run_apis l (log_event e w) = Ok w' → moves w w'.
Proof.
  intros Hm E. assert (M : moves w (log_event e w)) by (by apply moves_here).
  eapply moves_trans; [exact M|]. by eapply moves_run_apis; [eapply moves_mine|].
Qed.

  Variable user : UserCallbacks Addr.

(** * The channel's callbacks *)
Lemma moves_handleClose w w' : mine w → handleClose user w = Ok w' → moves w w' ∧ state_ (conn w') = kDisconnected.
Proof.
  intros Hm E. unfold handleClose in E. apply bind_ok in E as (_ & _ & E). apply bind_ok in E as (u & Ho & E).
  apply require_ok in Ho. apply bind_ok in E as (w1 & E1 & E). apply bind_ok in E as (w2 & E2 & E).
  set (w0 := on_conn (setState kDisconnected) w) in *.
  assert (M1 : moves w0 w1).
  { eapply moves_on_channel, E1; [exact Hm|]. intros l l'. rewrite disableAll_eq. apply (foot_mask c (λ _, kNoneEvent)). }
  assert (Hm1 : mine w1) by (by eapply moves_mine).
  assert (M2 : moves w1 w2) by (by eapply moves_calls).
  pose proof (moves_trans _ _ _ M1 M2) as [(fs & F & Q) C Sk].
  assert (Hs : state_ (conn w2) = kDisconnected ∧ fs = []).
  { cbn in Q. by destruct (state_ (conn w2)). }
  destruct Hs as [Hs ->]. unfold call_close in E. cbn in E. injection E as <-. split; [|exact Hs].
  split; [|exact C|exact Sk]. exists [FConnectDestroyed]. cbn [lp set_lp log_event conn]. split.
  - apply (foot_trans c _ (lp w2) _ []); [exact F|apply foot_queue].
  - rewrite Hs. unfold open in Ho. destruct (state_ (conn w)); try discriminate Ho; by exists [].
Qed.

Lemma moves_handleRead w w' : mine w → handleRead user w = Ok w' → moves w w'.
Proof.
  intros Hm E. unfold handleRead in E. apply bind_ok in E as (_ & _ & E).
  destruct (sock_readv _ _) as [s r]. apply bind_ok in E as ([[n o] b] & _ & E).
  set (w1 := on_conn (set_input b) (set_sk s w)) in *.
  assert (M : moves w w1) by (by apply moves_here). assert (Hm1 : mine w1) by (by eapply moves_mine).
  eapply moves_trans; [exact M|]. destruct (0 <? n); [by eapply moves_calls|].
  destruct (n =? 0); [by eapply moves_handleClose|]. injection E as <-. apply moves_refl.
Qed.

Lemma moves_handleWrite w w' : mine w → state_ (conn w) ≠ kDisconnected → handleWrite w = Ok w' → moves w w'.
Proof.
  intros Hm Hs E. unfold handleWrite in E. apply bind_ok in E as (_ & _ & E). apply bind_ok in E as (ch & _ & E).
  destruct (isWriting ch); [|injection E as <-; apply moves_refl]. apply bind_ok in E as (data & _ & E).
  destruct (sock_write _ _) as [s [n|e]]; [|injection E as <-; by apply moves_here].
  destruct (0 <? n); [|injection E as <-; by apply moves_here].
  apply bind_ok in E as (b & _ & E). set (w1 := on_conn (set_output b) _) in E.
  assert (M1 : moves w w1) by (by apply moves_here). eapply moves_trans; [exact M1|].
  destruct (readableBytes b =? 0); [|injection E as <-; apply moves_refl].
  apply bind_ok in E as (w2 & E2 & E). apply bind_ok in E as (w3 & E3 & E).
  assert (M2 : moves w1 w2).
  { eapply moves_on_channel, E2; [by eapply moves_mine|]. intros l l' El.
    by apply (foot_mask c (disable kWriteEvent)). }
  assert (Es : state_ (conn w2) = state_ (conn w)) by (unfold on_channel in E2; by inv_ok).
  assert (M3 : moves w2 w3).
  { destruct (writeCompleteCallback_ _) in E3; [|injection E3 as <-; apply moves_refl].
    eapply moves_queue, E3; [done|by rewrite Es]. }
  eapply moves_trans; [exact M2|]. eapply moves_trans; [exact M3|].
  case_bool_decide; [by apply moves_shutdownInLoop|]. injection E as <-. apply moves_refl.
Qed.

Lemma moves_run_handler h w w' :
  mine w → (h = HandleWrite → state_ (conn w) ≠ kDisconnected) → run_handler user h w = Ok w' → moves w w'.
Proof.
  intros Hm Hs E. destruct h; cbn in E.
  - by eapply moves_handleRead.
  - eapply moves_handleWrite; [done|by apply Hs|done].
  - by eapply moves_handleClose.
  - injection E as <-. apply moves_refl.
Qed.

(** * Functors *)
Lemma moves_ordinary f w w' : mine w → ordinary f = true → run_functor user f w = Ok w' → moves w w'.
Proof.
  intros Hm Hf E. destruct f; try discriminate Hf; cbn in E.
  - by eapply moves_sendInLoop.
  - by apply moves_shutdownInLoop.
  - unfold forceCloseInLoop in E. apply bind_ok in E as (_ & _ & E).
    destruct (open _) in E; [by eapply moves_handleClose|]. injection E as <-. apply moves_refl.
  - by eapply moves_calls.
  - by eapply moves_calls.
Qed.

Lemma moves_connectEstablished w w' :
  mine w → connectEstablished user w = Ok w' → moves (on_conn (setState kConnected) w) w'.
Proof.
  intros Hm E. unfold connectEstablished in E. apply bind_ok in E as (_ & _ & E). apply bind_ok in E as (_ & _ & E).
  apply bind_ok in E as (w1 & E1 & E). apply bind_ok in E as (w2 & E2 & E).
  set (w0 := on_conn (setState kConnected) w) in *.
  assert (M1 : moves w0 w1).
  { eapply moves_on_channel, E1; [exact Hm|]. intros l l' El. by eapply foot_modify, El. }
  assert (M2 : moves w1 w2).
  { eapply moves_on_channel, E2; [by eapply moves_mine|]. intros l l'. rewrite enableReading_eq. apply foot_mask. }
  pose proof (moves_trans _ _ _ M1 M2) as M. eapply moves_trans; [exact M|].
  eapply moves_calls, E. by eapply moves_mine.
Qed.

(** [connectDestroyed] of a connection that is down. *)
Lemma moves_connectDestroyed w w' :
  mine w → state_ (conn w) = kDisconnected → connectDestroyed user w = Ok w' →
  moves w w' ∧ conn w' = conn w ∧ ∀ ch, heap (lp w) !! c = Some ch → chmap (poller_ (lp w')) !! fd_ ch = None.
Proof.
  intros Hm Hs E. unfold connectDestroyed in E. apply bind_ok in E as (_ & _ & E).
  rewrite bool_decide_eq_false_2, bind_Ok in E by congruence. split_and!.
  - eapply moves_on_channel, E; [done|]. intros l l'. apply foot_remove.
  - unfold on_channel in E. by inv_ok.
  - intros ch Hc. unfold on_channel in E. apply bind_ok in E as (l & E1 & E). injection E as <-.
    rewrite (proj1 Hm) in E1. by eapply remove_clears.
Qed.
End moves.
