(* ===== verification/ServiceFacts.v ===== *)
(** The invariant of a loop with many connections (Service.v).

    Every connection keeps the invariant it has on a loop of its own, because the others touch
    neither its channel nor its descriptor (Footprint.v); what is queued for it fits its state. *)
From S2P Require Import Prelude.
From S2P Require Import CurrentThread.
From S2P Require Import StringPiece.
From S2P Require Import Buffer.
From S2P Require Import Channel.
From S2P Require Import Poller.
From S2P Require Import EPollPoller.
From S2P Require Import Loop.
From S2P Require Import EventLoop.
From S2P Require Import TcpConnection.
From S2P Require Import TcpConnectionFacts.
From S2P Require Import TcpConnectionLife.
From S2P Require Import TcpConnectionRun.
From S2P Require Import Service.
From S2P Require Import Footprint.

(** * The functors of one connection *)
Definition own (c : ChannelPtr) (q : list bound_functor) : list functor :=
  omap (λ x, if decide (x.1 = c) then Some x.2 else None) q.

Lemma own_app c q1 q2 : own c (q1 ++ q2) = own c q1 ++ own c q2.
Proof. apply omap_app. Qed.

Lemma own_pairs c c2 fs : own c (map (pair c2) fs) = if decide (c2 = c) then fs else [].
Proof. unfold own. induction fs as [|f fs IH]; cbn; [by case_decide|]. rewrite IH. by case_decide. Qed.

Lemma own_elem c f q : f ∈ own c q → (c, f) ∈ q.
Proof.
  unfold own. intros ([c2 g] & Hin & E)%list_elem_of_omap. cbn in E. case_decide; [|done]. by simplify_eq.
Qed.

(** What may be queued for a connection in each state: functors that satisfy [G]. *)
Section queue_ok.
  Variable G : functor → bool.

Definition queue_ok (s : StateE) (fs : list functor) : Prop :=
  match s with
  | kConnecting => False
  | kDisconnected => ∃ gs, fs = gs ++ [FConnectDestroyed] ∧ Forall G gs
  | _ => Forall G fs
  end.

Lemma queue_ok_grows s fs gs s' :
  (∀ f, plain f → G f) → queue_ok s fs → queued_while s gs s' → s' ≠ kConnecting → queue_ok s' (fs ++ gs).
Proof.
  intros HG. assert (Hall : ∀ hs, Forall plain hs → Forall G hs) by (intros hs Hh; by eapply list.Forall_impl).
  destruct s, s'; cbn; try done; try tauto.
  - by intros Hf ->; rewrite app_nil_r.
  - intros Hf (hs & -> & Hh) _. exists (fs ++ hs). by rewrite app_assoc, list.Forall_app; auto.
  - intros. apply list.Forall_app; auto.
  - intros. apply list.Forall_app; auto.
  - intros Hf (hs & -> & Hh) _. exists (fs ++ hs). by rewrite app_assoc, list.Forall_app; auto.
  - intros. apply list.Forall_app; auto.
  - intros. apply list.Forall_app; auto.
Qed.

(** A functor that another thread queues while the connection is up. *)
Lemma queue_ok_more s s' fs gs :
  queue_ok s fs → s ≠ kDisconnected → s' = s ∨ s' = kDisconnecting → Forall G gs → queue_ok s' (fs ++ gs).
Proof. intros Hf Hs [-> | ->] Hg; destruct s; cbn in *; try done; by apply list.Forall_app. Qed.

(** The first functor of a connection: a good one, or the last of all. *)
Lemma queue_ok_cons s f fs :
  queue_ok s (f :: fs) →
  G f = true ∧ queue_ok s fs ∨ f = FConnectDestroyed ∧ fs = [] ∧ s = kDisconnected.
Proof.
  destruct s; cbn; try done.
  - intros ([|g gs] & E & Hg); cbn in E; injection E as -> ->; [by right|left].
    apply list.Forall_cons in Hg as [Hp Hg]. split; [by destruct (G g)|by exists gs].
  - intros [Hp Hg]%list.Forall_cons. left. split; [by destruct (G f)|done].
  - intros [Hp Hg]%list.Forall_cons. left. split; [by destruct (G f)|done].
Qed.
End queue_ok.

(** * One connection's view of the loop *)
Section view.
  Context {Addr : Type} `{!TcpSocket, !EpollKernel, !EventFd, !CurrentThread}.
  Notation L := (EventLoop callback bound_functor EPollPoller).
  Notation W := (World Addr L).
  Implicit Types (l : L) (w : W).

#[export] Instance connection_env_laws c :
  ConnEnvLaws (ConnEnv0 := connection_env c) callback bound_functor L.
Proof. split; [by split|]. intros l. apply queueInLoop_same. Qed.

(** The channel [c] and the descriptor [fd] are in [l'] as they were in [l]; what was last reported
    and the flag of [handleEvent] may differ. *)
Definition marked (o o' : option (Channel callback)) : Prop :=
  ∃ r e, o' = (λ ch, set_revents r (set_eventHandling e ch)) <$> o.

Record unmoved c (fd : Z) l l' : Prop := {
  um_inv : loop_inv l';
  um_channel : marked (heap l !! c) (heap l' !! c);
  um_chmap : chmap (poller_ l') !! fd = chmap (poller_ l) !! fd;
  um_interest : interest (epollfd (poller_ l')) !! fd = interest (epollfd (poller_ l)) !! fd
}.

Lemma marked_refl o : marked o o.
Proof. destruct o as [ch|]; [exists (revents_ ch), (eventHandling_ ch); by destruct ch|by exists 0, false]. Qed.

Lemma marked_trans o1 o2 o3 : marked o1 o2 → marked o2 o3 → marked o1 o3.
Proof. intros (r & e & ->) (r2 & e2 & ->). exists r2, e2. by destruct o1. Qed.

  Variable c : ChannelPtr.
  #[local] Hint Extern 0 (ConnEnv _ _ _) => exact (connection_env c) : typeclass_instances.

Lemma inv_unmoved w l :
  inv w → state_ (conn w) ≠ kConnecting → unmoved (channel_ (conn w)) (sockfd_ (conn w)) (lp w) l → inv (set_lp l w).
Proof.
  intros [IL If Ii Io (ch & Hc & [Hb Hst])] Hs [IL' (r & e & Hm) Hmap Hint]. split; cbn; auto.
  cbn in Hc. rewrite Hc in Hm. cbn in Hm. eexists. split; [exact Hm|]. split; [exact Hb|].
  destruct Hb as [Hfd _].
  assert (Hhas : has_channel (lp w) (channel_ (conn w)) → has_channel l (channel_ (conn w))).
  { intros (ch0 & E & Hr). cbn in E. simplify_eq. eexists. split; [exact Hm|]. unfold registered in *. cbn in *.
    by rewrite Hfd, Hmap, <- Hfd. }
  destruct (state_ (conn w)) eqn:Es; cbn in *; try done; rewrite ?Es; cbn.
  - destruct Hst as (? & ? & Hw). split_and!; [done|auto|]. by rewrite Hint.
  - destruct Hst as (? & ? & ?). by split_and!; [auto|..].
  - destruct Hst as (? & ? & ?). by split_and!; [auto|..].
Qed.

(** A registered connection knows its descriptor's entry. *)
Lemma inv_registered w : inv w → state_ (conn w) ≠ kConnecting →
  chmap (poller_ (lp w)) !! sockfd_ (conn w) = Some (channel_ (conn w)).
Proof.
  intros [_ _ _ _ (ch & Hc & [[Hfd _] Hst])] Hs.
  assert (Hh : has_channel (lp w) (channel_ (conn w))) by (destruct (state_ (conn w)); tauto).
  destruct Hh as (ch0 & E & Hr). cbn in Hc, E. simplify_eq. rewrite <- Hfd. exact Hr.
Qed.

Lemma alive_unmoved w l :
  alive w → state_ (conn w) ≠ kConnecting → isInLoopThread l = isInLoopThread (lp w) →
  unmoved (channel_ (conn w)) (sockfd_ (conn w)) (lp w) l → alive (set_lp l w).
Proof. intros [I Ht Hl] Hs Et U. split; [by apply inv_unmoved|by rewrite <- Ht|done]. Qed.
End view.

(** * What the program must keep *)
Section program.
  Context {Addr : Type} `{!TcpSocket, !EpollKernel, !EventFd, !CurrentThread}.
  Notation L := (EventLoop callback bound_functor EPollPoller).
  Notation W := (World Addr L).
  Variable c : ChannelPtr.
  #[local] Hint Extern 0 (ConnEnv _ _ _) => exact (connection_env c) : typeclass_instances.

(** [Q s w]: what the program [user] wants of the world [w] of the connection [c], whose socket was
    accepted as [s]. *)
Record keeps_on (user : UserCallbacks Addr) (Q : sock → W → Prop) (G : functor → bool) : Prop := {
  kp_loop s l w : Q s w → Q s (set_lp l w);
  kp_new s name fd a1 a2 conn ch l :
    new_TcpConnection name fd c a1 a2 = Ok (conn, ch) → Q s (mkWorld conn l s [] false []);
  kp_established s w : inv w → isInLoopThread (lp w) = true → state_ (conn w) = kConnecting → Q s w →
    safely (connectEstablished user w) (λ w', progress w w' ∧ Q s w' ∧ open (conn w') = true);
  kp_close s w : inv w → isInLoopThread (lp w) = true → open (conn w) = true → Q s w →
    safely (handleClose user w) (λ w', progress w w' ∧ Q s w');
  kp_read s w : inv w → isInLoopThread (lp w) = true → open (conn w) = true → Q s w →
    safely (handleRead user w) (λ w', progress w w' ∧ Q s w');
  kp_write s w : inv w → isInLoopThread (lp w) = true → Q s w →
    safely (handleWrite w) (λ w', progress w w' ∧ Q s w');
  kp_plain s f w : inv w → isInLoopThread (lp w) = true → state_ (conn w) ≠ kConnecting → G f = true → Q s w →
    safely (run_functor user f w) (λ w', progress w w' ∧ Q s w');
  kp_timer s w : inv w → isInLoopThread (lp w) = true → state_ (conn w) ≠ kConnecting → sets_timers user → Q s w →
    safely (run_functor user FForceClose w) (λ w', progress w w' ∧ Q s w')
}.
End program.

(** [G]: the functors that may be queued besides [connectDestroyed]; [calls]: what other threads call. *)
Record keeps {Addr} `{!TcpSocket, !EpollKernel, !EventFd, !CurrentThread} (user : UserCallbacks Addr)
    (Q : sock → World Addr (EventLoop callback bound_functor EPollPoller) → Prop) (G : functor → bool)
    (calls : api → Prop) : Prop := {
  kp_on c : keeps_on c user Q G;
  kp_local f : plain f → G f;
  kp_queued f : G f → ordinary f;
  kp_calls a : calls a → thread_safe a ∧ (∀ f, ordinary f → G f) ∧
    ∀ s w, Q s w → Q s (on_conn (setState kDisconnecting) w)
}.

(** * The invariant *)
Section service_inv.
  Context {Addr : Type} `{!TcpSocket, !EpollKernel, !EventFd, !CurrentThread}.
  Notation L := (EventLoop callback bound_functor EPollPoller).
  Notation W := (World Addr L).
  Notation V := (Service (Addr := Addr)).
  Variable Q : sock → W → Prop.
  Variable G : functor → bool.
  Hypothesis Q_loop : ∀ s l w, Q s w → Q s (set_lp l w).
  Hypothesis G_plain : ∀ f, plain f → G f.
  Implicit Types (l : L) (sv : V) (q : list bound_functor) (s : seat (Addr := Addr)).

(** The functors that will run: those of the batch at work, and those queued meanwhile. *)
Definition to_run q l : list bound_functor := q ++ pendingFunctors_ l.

Record seat_ok c s l (fs : list functor) : Prop := {
  so_alive : alive (ConnEnv0 := connection_env c) (enter s l);
  so_channel : channel_ (s_conn s) = c;
  so_queue : queue_ok G (state_ (s_conn s)) fs;
  so_program : Q (s_first s) (enter s l)
}.

(** The channel of something that is not a connection: at most the loop's wake-up descriptor. *)
Definition wakeup_only (ch : Channel callback) : Prop :=
  ∀ cb, cb ∈ [readCallback_ ch; writeCallback_ ch; closeCallback_ ch; errorCallback_ ch] → cb = None ∨ cb = Some OnWakeup.

Record service_inv q sv : Prop := {
  si_loop : loop_inv (sv_loop sv);
  si_thread : isInLoopThread (sv_loop sv) = true;
  si_seats c s : sv_conns sv !! c = Some s → seat_ok c s (sv_loop sv) (own c (to_run q (sv_loop sv)));
  si_strangers c : sv_conns sv !! c = None → own c (to_run q (sv_loop sv)) = [];
  si_others c ch : sv_conns sv !! c = None → heap (sv_loop sv) !! c = Some ch →
    registered (poller_ (sv_loop sv)) c ch → wakeup_only ch
}.

Lemma seat_up c s l fs : seat_ok c s l fs → state_ (s_conn s) ≠ kConnecting.
Proof. intros [_ _ Hq _] E. by rewrite E in Hq. Qed.

Lemma seat_registered c s l fs : seat_ok c s l fs → chmap (poller_ l) !! sockfd_ (s_conn s) = Some c.
Proof.
  intros So. pose proof (seat_up _ _ _ _ So) as Hs. pose proof (so_channel _ _ _ _ So) as Ec.
  pose proof (inv_registered c (enter s l) (al_inv _ (so_alive _ _ _ _ So)) Hs) as E. cbn in E. congruence.
Qed.

Lemma seat_unmoved c s l l' fs :
  seat_ok c s l fs → isInLoopThread l' = isInLoopThread l → unmoved c (sockfd_ (s_conn s)) l l' → seat_ok c s l' fs.
Proof.
  intros So Et U. pose proof (seat_up _ _ _ _ So) as Hs. destruct So as [Ha Ec Hq HQ]. split; [|done|done|].
  - apply (alive_unmoved c (enter s l) l'); [done|done|done|]. cbn. by rewrite Ec.
  - by apply (Q_loop _ l' (enter s l)).
Qed.

(** ** What concerns the loop only *)
Record quiet l l' : Prop := {
  qt_inv : loop_inv l → loop_inv l';
  qt_thread : isInLoopThread l' = isInLoopThread l;
  qt_pending : pendingFunctors_ l' = pendingFunctors_ l;
  qt_chmap : chmap (poller_ l') = chmap (poller_ l);
  qt_interest : interest (epollfd (poller_ l')) = interest (epollfd (poller_ l));
  qt_heap c : marked (heap l !! c) (heap l' !! c)
}.

Lemma quiet_trans l1 l2 l3 : quiet l1 l2 → quiet l2 l3 → quiet l1 l3.
Proof.
  intros [] []. split; [auto|congruence..|]. intros c. by eapply marked_trans.
Qed.

Lemma quiet_unmoved l l' c fd : loop_inv l → quiet l l' → unmoved c fd l l'.
Proof. intros I [J _ _ Em Ei Eh]. split; [auto|auto|by rewrite Em|by rewrite Ei]. Qed.

Lemma service_quiet q sv l : service_inv q sv → quiet (sv_loop sv) l → service_inv q (mkService l (sv_conns sv)).
Proof.
  intros [IL It Is In Io] Qt. pose proof Qt as [J Et Ep Em _ Eh].
  assert (Er : to_run q l = to_run q (sv_loop sv)) by (unfold to_run; by rewrite Ep).
  split; cbn.
  - exact (J IL).
  - rewrite <- It. exact Et.
  - intros c s Hc. rewrite Er. eapply seat_unmoved; [by apply Is|done|]. by apply quiet_unmoved.
  - intros c Hc. rewrite Er. by apply In.
  - intros c ch Hc Hh Hr. destruct (Eh c) as (r & e & E). rewrite Hh in E.
    destruct (heap (sv_loop sv) !! c) as [ch0|] eqn:Hh0; [|done]. cbn in E. injection E as ->.
    unfold registered in *. cbn in Hr. rewrite Em in Hr. by apply (Io c ch0 Hc Hh0 Hr).
Qed.

(** ** One connection moves *)
Lemma own_more q l l' c fs c2 :
  pendingFunctors_ l' = pendingFunctors_ l ++ map (pair c) fs →
  own c2 (to_run q l') = own c2 (to_run q l) ++ (if decide (c = c2) then fs else []).
Proof. intros E. unfold to_run. by rewrite E, !own_app, own_pairs, app_assoc. Qed.

(** What the move of [c] is to the others. *)
Lemma foot_unmoved c s l fs l' gs c2 s2 hs :
  seat_ok c s l gs → seat_ok c2 s2 l hs → c2 ≠ c → loop_inv l' → foot c l fs l' → unmoved c2 (sockfd_ (s_conn s2)) l l'.
Proof.
  intros So So2 Hne I F.
  assert (Hfd : sockfd_ (s_conn s2) ≠ sockfd_ (s_conn s)).
  { intros E. pose proof (seat_registered _ _ _ _ So) as E1. pose proof (seat_registered _ _ _ _ So2) as E2. congruence. }
  destruct (iv_channel (ConnEnv0 := connection_env c) _ (al_inv _ (so_alive _ _ _ _ So))) as (ch & Hc & [Hf _] & _).
  cbn in Hc, Hf. rewrite (so_channel _ _ _ _ So) in Hc.
  destruct (ft_own _ _ _ _ F ch Hc) as [_ A]. destruct (A (sockfd_ (s_conn s2))) as [A1 A2]; [congruence|].
  split; [done| |done|done]. rewrite (ft_others _ _ _ _ F) by done. apply marked_refl.
Qed.

Lemma foot_others q sv c s l' fs c2 ch2 :
  service_inv q sv → sv_conns sv !! c = Some s → foot c (sv_loop sv) fs l' →
  c2 ≠ c → sv_conns sv !! c2 = None → heap l' !! c2 = Some ch2 → registered (poller_ l') c2 ch2 →
  fd_ ch2 ≠ sockfd_ (s_conn s) → wakeup_only ch2.
Proof.
  intros I Hs F Hne Hn Hh Hr Hfd. rewrite (ft_others _ _ _ _ F) in Hh by done. apply (si_others _ _ I c2 ch2 Hn Hh).
  pose proof (si_seats _ _ I c s Hs) as So.
  destruct (iv_channel (ConnEnv0 := connection_env c) _ (al_inv _ (so_alive _ _ _ _ So))) as (ch & Hc & [Hf _] & _).
  cbn in Hc, Hf. rewrite (so_channel _ _ _ _ So) in Hc.
  destruct (ft_own _ _ _ _ F ch Hc) as [_ A]. destruct (A (fd_ ch2)) as [A1 _]; [congruence|].
  unfold registered in *. cbn in *. by rewrite <- A1.
Qed.

Lemma enter_leave first (w : W) : enter (leave first w) (lp w) = w.
Proof. by destruct w. Qed.

(** The connection [c] changed and queued [fs], whoever called it. *)
Lemma service_change q sv c s fs (w' : W) :
  service_inv q sv → sv_conns sv !! c = Some s → foot c (sv_loop sv) fs (lp w') →
  channel_ (conn w') = channel_ (s_conn s) → sockfd_ (conn w') = sockfd_ (s_conn s) →
  alive (ConnEnv0 := connection_env c) w' →
  queue_ok G (state_ (conn w')) (own c (to_run q (sv_loop sv)) ++ fs) → Q (s_first s) w' →
  service_inv q (put_seat c (s_first s) w' (sv_conns sv)).
Proof.
  intros I Hs F Ec Esk Ha Hq HQ. pose proof (si_seats _ _ I c s Hs) as So. rewrite (so_channel _ _ _ _ So) in Ec.
  pose proof (own_more q _ _ _ _ c (ft_pending _ _ _ _ F)) as Eo. rewrite decide_True in Eo by done.
  assert (So' : seat_ok c (leave (s_first s) w') (lp w') (own c (to_run q (lp w')))).
  { split; rewrite ?enter_leave; auto. by rewrite Eo. }
  split; cbn [put_seat sv_loop sv_conns].
  - apply Ha.
  - apply Ha.
  - intros c2 s2. destruct (decide (c2 = c)) as [->|Hne]; [rewrite lookup_insert_eq; by intros [= <-]|].
    rewrite lookup_insert_ne by done. intros Hs2. pose proof (si_seats _ _ I c2 s2 Hs2) as So2.
    rewrite (own_more q _ _ _ _ c2 (ft_pending _ _ _ _ F)), decide_False, app_nil_r by done.
    eapply seat_unmoved; [exact So2|by apply (foot_thread _ _ _ _ F)|].
    eapply foot_unmoved; [exact So|exact So2|done|apply Ha|exact F].
  - intros c2 Hn. apply lookup_insert_None in Hn as [Hn Hne].
    rewrite (own_more q _ _ _ _ c2 (ft_pending _ _ _ _ F)), decide_False, app_nil_r by done. by apply (si_strangers _ _ I).
  - intros c2 ch2 Hn Hh Hr. apply lookup_insert_None in Hn as [Hn Hne].
    eapply (foot_others q sv c s); [done|done|done|by apply not_eq_sym|done|done|done|].
    intros E. pose proof (seat_registered _ _ _ _ So') as Hreg. cbn in Hreg. rewrite Esk in Hreg.
    unfold registered in Hr. cbn in Hr. rewrite E in Hr. congruence.
Qed.

Lemma service_move q sv c s (w' : W) :
  service_inv q sv → sv_conns sv !! c = Some s → moves c (enter s (sv_loop sv)) w' →
  alive (ConnEnv0 := connection_env c) w' → state_ (conn w') ≠ kConnecting → Q (s_first s) w' →
  service_inv q (put_seat c (s_first s) w' (sv_conns sv)).
Proof.
  intros I Hs [(fs & F & Hq) Ec Esk] Ha Hst HQ. apply (service_change q sv c s fs w'); auto.
  eapply queue_ok_grows; [exact G_plain|apply (si_seats _ _ I c s Hs)|exact Hq|exact Hst].
Qed.
End service_inv.
