(* ===== verification/ServiceRun.v ===== *)
(** A round of a loop with many connections (Service.v) keeps the invariant of ServiceFacts.v: the
    functors of all connections run in the order they were queued, the events of all channels are
    handled, connections come and go. *)
From S2P Require Import Prelude.
From S2P Require Import CurrentThread.
From S2P Require Import StringPiece.
From S2P Require Import Buffer.
From S2P Require Import Channel.
From S2P Require Import Poller.
From S2P Require Import EPollPoller.
From S2P Require Import Loop.
From S2P Require Import EventLoop.
From S2P Require Import LoopSetup.
From S2P Require Import TcpConnection.
From S2P Require Import TcpConnectionFacts.
From S2P Require Import TcpConnectionLife.
From S2P Require Import TcpConnectionRun.
From S2P Require Import Service.
From S2P Require Import Footprint.
From S2P Require Import ServiceFacts.

Section run.
  Context {Addr : Type} `{!TcpSocket, !EpollKernel, !EventFd, !CurrentThread}.
  Notation L := (EventLoop callback bound_functor EPollPoller).
  Notation W := (World Addr L).
  Notation V := (Service (Addr := Addr)).
  Variable user : UserCallbacks Addr.
  Variable Q : sock → W → Prop.
  Variables (G : functor → bool) (calls : api → Prop).
  Hypothesis Huser : keeps user Q G calls.
  Implicit Types (l : L) (sv : V) (q : list bound_functor) (s : seat (Addr := Addr)).

Lemma Q_loop (first : sock) l (w : W) : Q first w → Q first (set_lp l w).
Proof. apply (kp_loop _ _ _ _ (kp_on _ _ _ _ Huser 0)). Qed.

(** Functors are only added to the queue, and no connection appears. *)
Record grown sv sv' : Prop := {
  gr_queue : ∃ more, pendingFunctors_ (sv_loop sv') = pendingFunctors_ (sv_loop sv) ++ more;
  gr_none c : sv_conns sv !! c = None → sv_conns sv' !! c = None
}.

Lemma grown_trans sv1 sv2 sv3 : grown sv1 sv2 → grown sv2 sv3 → grown sv1 sv3.
Proof.
  intros [[m1 E1] N1] [[m2 E2] N2]. split; [|auto]. exists (m1 ++ m2). by rewrite E2, E1, app_assoc.
Qed.

Lemma grown_same sv sv' :
  pendingFunctors_ (sv_loop sv') = pendingFunctors_ (sv_loop sv) → sv_conns sv' = sv_conns sv → grown sv sv'.
Proof. intros E1 E2. split; [exists []; by rewrite app_nil_r|by rewrite E2]. Qed.

Lemma grown_move c s sv (w' : W) :
  sv_conns sv !! c = Some s → moves c (enter s (sv_loop sv)) w' → grown sv (put_seat c (s_first s) w' (sv_conns sv)).
Proof.
  intros Hs [(fs & F & _) _ _]. split; [eexists; apply (ft_pending _ _ _ _ F)|].
  intros c2 Hn. cbn. rewrite lookup_insert_ne; [done|]. intros ->. congruence.
Qed.

(** The invariant, what only the loop itself changes, and how far the rest can have changed. *)
Definition kept_service q sv sv' : Prop :=
  service_inv Q G q sv' ∧ flags (sv_loop sv') = flags (sv_loop sv) ∧ grown sv sv'.

Lemma moves_flags c (w w' : W) : moves c w w' → flags (lp w') = flags (lp w).
Proof. intros [(fs & F & _) _ _]. apply F. Qed.

(** * Functors *)

(** A method that is safe on a connection alone is safe among the others. *)
Lemma run_on_safely q sv c s (op : W → outcome W) :
  service_inv Q G q sv → sv_conns sv !! c = Some s →
  safely (op (enter s (sv_loop sv)))
    (λ w', progress (ConnEnv0 := connection_env c) (enter s (sv_loop sv)) w' ∧ Q (s_first s) w') →
  (∀ w', op (enter s (sv_loop sv)) = Ok w' → moves c (enter s (sv_loop sv)) w') →
  safely (run_on c op sv) (kept_service q sv).
Proof.
  intros I Hs Hop Hm. pose proof (si_seats _ _ _ _ I c s Hs) as So. unfold run_on. rewrite Hs.
  destruct (op _) as [w'|e] eqn:E; [|done]. destruct Hop as [Hp HQ]. cbn. split_and!.
  - apply (service_move _ _ Q_loop (kp_local _ _ _ _ Huser) q sv c s w'); auto.
    + eapply progress_alive; [apply So|exact Hp].
    + eapply progress_not_connecting; [exact Hp|]. by eapply seat_up.
  - by apply (moves_flags c _ _ (Hm w' eq_refl)).
  - by apply (grown_move c s sv w' Hs), Hm.
Qed.

Lemma seat_mine q sv c s : service_inv Q G q sv → sv_conns sv !! c = Some s → mine c (enter s (sv_loop sv)).
Proof. intros I Hs. split; [apply (si_seats _ _ _ _ I c s Hs)|apply I]. Qed.

(** The functor at the head of the batch. *)
Lemma own_head c f q l : own c (to_run ((c, f) :: q) l) = f :: own c (to_run q l).
Proof. unfold own, to_run. cbn. by rewrite decide_True. Qed.

Lemma own_head_ne c c2 f q l : c2 ≠ c → own c2 (to_run ((c, f) :: q) l) = own c2 (to_run q l).
Proof. intros Hne. unfold own, to_run. cbn. by rewrite decide_False. Qed.

Lemma head_seat c f q sv : service_inv Q G ((c, f) :: q) sv → ∃ s, sv_conns sv !! c = Some s.
Proof.
  intros I. destruct (sv_conns sv !! c) as [s|] eqn:E; [by exists s|].
  pose proof (si_strangers _ _ _ _ I c E) as En. by rewrite own_head in En.
Qed.

Lemma G_ordinary f : G f = true → ordinary f = true.
Proof. intros Hf. apply Is_true_eq_true, (kp_queued _ _ _ _ Huser). by rewrite Hf. Qed.

Lemma pop_ordinary c f q sv : service_inv Q G ((c, f) :: q) sv → G f = true → service_inv Q G q sv.
Proof.
  intros [IL It Is In Io] Hf. split; auto.
  - intros c2 s2 Hs2. specialize (Is c2 s2 Hs2). destruct (decide (c2 = c)) as [->|Hne]; [|by rewrite own_head_ne in Is].
    rewrite own_head in Is. destruct Is as [Ha Ec Hq HQ]. split; auto.
    destruct (queue_ok_cons _ _ _ _ Hq) as [[_ ?]|[-> _]]; [done|by apply G_ordinary in Hf].
  - intros c2 Hn. specialize (In c2 Hn). destruct (decide (c2 = c)) as [->|Hne]; [by rewrite own_head in In|].
    by rewrite own_head_ne in In.
Qed.

Lemma functor_ordinary c f q sv :
  service_inv Q G ((c, f) :: q) sv → G f = true → safely (service_functor user (c, f) sv) (kept_service q sv).
Proof.
  intros I Hf. destruct (head_seat _ _ _ _ I) as [s Hs]. apply pop_ordinary in I; [|done].
  pose proof (si_seats _ _ _ _ I c s Hs) as So. unfold service_functor. cbn [fst snd]. apply safely_bind.
  eapply safely_mono; [eapply (run_on_safely q sv c s)|]; auto.
  - apply (kp_plain _ _ _ _ (kp_on _ _ _ _ Huser c)); auto; [apply So|apply So|by eapply seat_up|apply So].
  - intros w'. apply moves_ordinary; [by eapply seat_mine|by apply G_ordinary].
  - intros sv' K. apply G_ordinary in Hf. by destruct f.
Qed.

(** The last functor of a connection: its channel leaves the loop and the object is deleted. *)
Lemma service_gone q sv c s l' :
  service_inv Q G ((c, FConnectDestroyed) :: q) sv → sv_conns sv !! c = Some s → own c (to_run q (sv_loop sv)) = [] →
  foot c (sv_loop sv) [] l' → loop_inv l' → chmap (poller_ l') !! sockfd_ (s_conn s) = None → ¬ has_channel l' c →
  service_inv Q G q (mkService l' (delete c (sv_conns sv))).
Proof.
  intros I Hs Ho F I' Hfree Hno. pose proof (si_seats _ _ _ _ I c s Hs) as So.
  assert (Ep : to_run q l' = to_run q (sv_loop sv)) by (unfold to_run; by rewrite (ft_pending _ _ _ _ F), app_nil_r).
  split; cbn [sv_loop sv_conns]; [done| | | |].
  - rewrite (foot_thread _ _ _ _ F). apply I.
  - intros c2 s2 Hs2. apply lookup_delete_Some in Hs2 as [Hne Hs2]. pose proof (si_seats _ _ _ _ I c2 s2 Hs2) as So2.
    rewrite own_head_ne in So2 by congruence. rewrite Ep.
    eapply seat_unmoved; [exact Q_loop|exact So2|by apply (foot_thread _ _ _ _ F)|].
    eapply foot_unmoved; [exact So|exact So2|congruence|done|exact F].
  - intros c2 Hn. rewrite Ep. destruct (decide (c2 = c)) as [->|Hne]; [done|].
    rewrite lookup_delete_ne in Hn by congruence. pose proof (si_strangers _ _ _ _ I c2 Hn) as En.
    by rewrite own_head_ne in En.
  - intros c2 ch2 Hn Hh Hr. destruct (decide (c2 = c)) as [->|Hne]; [destruct Hno; by exists ch2|].
    rewrite lookup_delete_ne in Hn by congruence. eapply (foot_others Q G _ _ c s); [exact I|exact Hs|exact F|done..|].
    intros E. unfold registered in Hr. cbn in Hr. rewrite E in Hr. congruence.
Qed.

Lemma functor_destroyed c q sv :
  service_inv Q G ((c, FConnectDestroyed) :: q) sv → loop_eventHandling_ (sv_loop sv) = false →
  safely (service_functor user (c, FConnectDestroyed) sv) (λ sv', kept_service q sv sv' ∧ sv_conns sv' !! c = None).
Proof.
  intros I Hev. destruct (head_seat _ _ _ _ I) as [s Hs]. pose proof (si_seats _ _ _ _ I c s Hs) as So.
  pose proof So as [Ha Ec Hq _]. rewrite own_head in Hq.
  destruct (queue_ok_cons _ _ _ _ Hq) as [[Hf _]|(_ & Ho & Hdown)]; [by apply G_ordinary in Hf|].
  pose proof (seat_mine _ _ _ _ I Hs) as Hm. set (w := enter s (sv_loop sv)) in *.
  unfold service_functor, run_on. cbn [fst snd]. rewrite Hs. cbn [run_functor].
  assert (E : connectDestroyed (ConnEnv0 := connection_env c) user w = on_channel remove w).
  { unfold connectDestroyed. rewrite assert_thread_ok, bind_Ok by apply Ha.
    rewrite bool_decide_eq_false_2, bind_Ok; [done|]. cbn. by rewrite Hdown. }
  destruct (remove_down (ConnEnv0 := connection_env c) w) as (w' & Er & D & Ew & _); [apply Ha|apply Ha|done| |].
  { cbn. unfold may_remove. by rewrite Hev. }
  pose proof (eq_trans E Er) as E2. fold w. rewrite E2, !bind_Ok. unfold release. cbn. rewrite lookup_insert_eq. cbn.
  unfold connection_dtor. rewrite bool_decide_eq_true_2 by (by rewrite Ew). cbn.
  destruct (moves_connectDestroyed c user w w' Hm Hdown E2) as ([(fs & F & Hfs) _ _] & _ & Hclr).
  rewrite Ew in Hfs. cbn in Hfs. rewrite Hdown in Hfs. cbn in Hfs. subst fs.
  destruct D as (_ & IL & Hno & _). rewrite delete_insert_eq. split; [split_and!|apply lookup_delete_eq].
  2: apply F.
  2:{ split; [eexists; apply (ft_pending _ _ _ _ F)|]. intros c2 Hn. cbn. by apply lookup_delete_None; right. }
  apply (service_gone q sv c s (lp w')); auto.
  - destruct (iv_channel (ConnEnv0 := connection_env c) _ (al_inv _ Ha)) as (ch & Hc & [Hfd _] & _).
    cbn in Hc, Hfd. rewrite Ec in Hc. rewrite <- Hfd. by apply Hclr.
  - rewrite Ew in Hno. cbn in Hno. by rewrite Ec in Hno.
Qed.

(** A batch of functors, in order; what they queue waits for the next. *)
Lemma functor_ok_head c f q sv :
  service_inv Q G ((c, f) :: q) sv → loop_eventHandling_ (sv_loop sv) = false →
  safely (service_functor user (c, f) sv) (λ sv',
    kept_service q sv sv' ∧ (f = FConnectDestroyed → sv_conns sv' !! c = None)).
Proof.
  intros I Hev. assert (Hk : G f = true ∨ f = FConnectDestroyed).
  { destruct (head_seat _ _ _ _ I) as [s Hs]. pose proof (so_queue _ _ _ _ _ _ (si_seats _ _ _ _ I c s Hs)) as Hq.
    rewrite own_head in Hq. destruct (queue_ok_cons _ _ _ _ Hq) as [[? _]|[-> _]]; auto. }
  destruct Hk as [Hf| ->].
  - eapply safely_mono; [by apply functor_ordinary|]. intros sv' K. split; [done|]. intros ->. by apply G_ordinary in Hf.
  - eapply safely_mono; [by apply functor_destroyed|]. by intros sv' [? ?].
Qed.

Lemma run_functors_ok q sv :
  service_inv Q G q sv → loop_eventHandling_ (sv_loop sv) = false →
  safely (run_functors (service_functor user) q sv) (λ sv',
    kept_service [] sv sv' ∧ ∀ c, (c, FConnectDestroyed) ∈ q → sv_conns sv' !! c = None).
Proof.
  revert sv. induction q as [|[c f] q IH]; intros sv I Hev; cbn.
  { split; [split_and!; [done|done|by apply grown_same]|]. by intros c ?%elem_of_nil. }
  apply safely_bind. eapply safely_mono; [by apply functor_ok_head|]. intros sv1 [(I1 & F1 & G1) D1].
  assert (Hev1 : loop_eventHandling_ (sv_loop sv1) = false) by (rewrite <- Hev; by injection F1).
  eapply safely_mono; [by apply IH|]. intros sv2 [(I2 & F2 & G2) D2]. split.
  - split_and!; [done|congruence|by eapply grown_trans].
  - intros c2 [E|Hin]%elem_of_cons; [|by apply D2]. injection E as -> <-. by apply (gr_none _ _ G2), D1.
Qed.

(** * Events *)

(** A reported channel, when its turn comes. *)
Definition ready c sv : Prop :=
  match sv_conns sv !! c with
  | Some s => open (s_conn s) = true ∧ ∃ ch, heap (sv_loop sv) !! c = Some ch ∧ tame (revents_ ch)
  | None => ∃ ch, heap (sv_loop sv) !! c = Some ch ∧ wakeup_only ch
  end.

(** What handling the events of [c] leaves alone. *)
Definition others_same c sv sv' : Prop :=
  ∀ c2, c2 ≠ c → heap (sv_loop sv') !! c2 = heap (sv_loop sv) !! c2 ∧ sv_conns sv' !! c2 = sv_conns sv !! c2.

Lemma others_ready c c2 sv sv' : others_same c sv sv' → c2 ≠ c → ready c2 sv → ready c2 sv'.
Proof. intros O Hne. destruct (O c2 Hne) as [E1 E2]. unfold ready. by rewrite E1, E2. Qed.

Lemma leave_enter s l : leave (s_first s) (enter s l) = s.
Proof. by destruct s. Qed.

(** ** A connection's channel *)
Section one_connection.
  Variables (c : ChannelPtr) (s : seat (Addr := Addr)) (sv : V).
  #[local] Hint Extern 0 (ConnEnv _ _ _) => exact (connection_env c) : typeclass_instances.
  Hypothesis I : service_inv Q G [] sv.
  Hypothesis Hs : sv_conns sv !! c = Some s.

Definition embed_seat (w : W) : V := put_seat c (s_first s) w (sv_conns sv).
Definition under_way (w : W) : Prop := moves c (enter s (sv_loop sv)) w ∧ Q (s_first s) w.

Lemma embed_call h w :
  service_callback user (bind_handler h) (embed_seat w) = (w ← run_handler user h w; Ok (embed_seat w)).
Proof.
  cbn. unfold run_on, embed_seat. cbn. rewrite lookup_insert_eq. cbn. rewrite enter_leave.
  destruct (run_handler _ _ _) as [w'|]; [|done]. cbn. f_equal. unfold put_seat. by rewrite insert_insert_eq.
Qed.

Lemma under_way_mine w : under_way w → mine c w.
Proof. intros [M _]. eapply moves_mine; [exact M|]. by eapply seat_mine. Qed.

Lemma under_way_step (op : W → outcome W) w :
  under_way w → safely (op w) (λ w', progress w w' ∧ Q (s_first s) w') →
  (∀ w', op w = Ok w' → moves c w w') → safely (op w) (λ w', progress w w' ∧ under_way w').
Proof.
  intros [M _] Hop Hm. destruct (op w) as [w'|] eqn:E; [|done]. destruct Hop as [Hp HQ]. split; [done|].
  split; [|done]. eapply moves_trans; [exact M|by apply Hm].
Qed.

Lemma under_way_touch ch ch' w :
  get_channel (channel_ (conn w)) (lp w) = Some ch → fd_ ch' = fd_ ch → under_way w →
  under_way (set_lp (put_channel (channel_ (conn w)) ch' (lp w)) w).
Proof.
  intros Hc Ef U. pose proof U as [M HQ]. split; [|by apply Q_loop].
  eapply moves_trans; [exact M|]. apply moves_loop. destruct (under_way_mine _ U) as [Ec _].
  rewrite Ec in *. by eapply foot_put.
Qed.

(** A connection that went down is not watched for writing any more. *)
Lemma down_not_writing (w : W) : inv w → isInLoopThread (lp w) = true → state_ (conn w) = kDisconnected → handleWrite w = Ok w.
Proof.
  intros [_ _ _ _ (ch & Hc & _ & Hst)] Ht Hd. rewrite Hd in Hst. unfold handleWrite, the_channel, deref.
  rewrite assert_thread_ok, bind_Ok, Hc by done. cbn. unfold isWriting. by rewrite (proj1 Hst).
Qed.

Lemma handle_connection ch :
  open (s_conn s) = true → heap (sv_loop sv) !! c = Some ch → tame (revents_ ch) →
  safely (handleEvent (service_callback user) (service_tie c) c sv)
    (λ sv', kept_service [] sv sv' ∧ others_same c sv sv').
Proof.
  intros Ho Hc Htame. pose proof (si_seats _ _ _ _ I c s Hs) as So. pose proof (kp_on _ _ _ _ Huser c) as K.
  set (w0 := enter s (sv_loop sv)).
  assert (U0 : under_way w0) by (split; [apply moves_refl|apply So]).
  assert (Ec : channel_ (conn w0) = c) by apply So.
  assert (E0 : sv = embed_seat w0).
  { unfold embed_seat, put_seat, w0. rewrite leave_enter, insert_id by done. by destruct sv. }
  assert (X : safely (handleEvent (service_callback user) (service_tie c) (channel_ (conn w0)) (embed_seat w0))
                (λ sv', ∃ w', sv' = embed_seat w' ∧ progress w0 w' ∧ under_way w')).
  { apply (handleEvent_with user embed_seat (service_callback user)) with (P := under_way) (r := revents_ ch);
      try done; try apply So.
    - apply embed_call.
    - apply under_way_touch.
    - intros w Iw Ht Hw U. apply under_way_step; [done|by apply (kp_close _ _ _ _ K), U|].
      intros w' E. apply (moves_handleClose c user w w' (under_way_mine _ U) E).
    - intros w Iw Ht Hw U. apply under_way_step; [done|by apply (kp_read _ _ _ _ K), U|].
      intros w' E. apply (moves_handleRead c user w w' (under_way_mine _ U) E).
    - intros w Iw Ht U. apply under_way_step; [done|by apply (kp_write _ _ _ _ K), U|].
      intros w' E. destruct (decide (state_ (conn w) = kDisconnected)) as [Hd|Hd].
      + rewrite down_not_writing in E by done. injection E as <-. apply moves_refl.
      + apply (moves_handleWrite c w w' (under_way_mine _ U) Hd E).
    - unfold reported. rewrite Ec. cbn. by rewrite Hc.
    - unfold service_tie. cbn. rewrite lookup_insert_eq. by apply bool_decide_eq_true. }
  rewrite Ec, <- E0 in X. eapply safely_mono; [exact X|]. intros sv' (w' & -> & Hp & M & HQ). split; [split_and!|].
  - apply (service_move _ _ Q_loop (kp_local _ _ _ _ Huser) [] sv c s w'); try done.
    + eapply progress_alive; [apply So|exact Hp].
    + eapply progress_not_connecting; [exact Hp|]. by eapply seat_up.
  - apply (moves_flags c _ _ M).
  - by apply (grown_move c s sv w' Hs).
  - intros c2 Hne. destruct M as [(fs & F & _) _ _]. cbn. split; [by apply (ft_others _ _ _ _ F)|].
    by rewrite lookup_insert_ne.
Qed.
End one_connection.

(** ** The wake-up channel, and other channels without callbacks *)
Record stirred c sv sv' : Prop := {
  st_conns : sv_conns sv' = sv_conns sv;
  st_quiet : quiet (sv_loop sv) (sv_loop sv');
  st_flags : flags (sv_loop sv') = flags (sv_loop sv);
  st_heap c2 : c2 ≠ c → heap (sv_loop sv') !! c2 = heap (sv_loop sv) !! c2
}.

Lemma stirred_trans c sv1 sv2 sv3 : stirred c sv1 sv2 → stirred c sv2 sv3 → stirred c sv1 sv3.
Proof.
  intros [A1 B1 C1 D1] [A2 B2 C2 D2]. split; [congruence|by eapply quiet_trans|congruence|].
  intros c2 Hne. by rewrite D2, D1.
Qed.

Lemma quiet_mark r e l c ch :
  heap l !! c = Some ch → quiet l (put_channel c (set_revents r (set_eventHandling e ch)) l).
Proof.
  intros Hc. split; try done.
  - intros I. apply (to_inv _ _ _ _ (loop_put_law l c ch (set_revents r (set_eventHandling e ch)) I Hc eq_refl eq_refl eq_refl)).
  - intros c2. cbn. destruct (decide (c2 = c)) as [->|Hne].
    + rewrite lookup_insert_eq, Hc. by exists r, e.
    + rewrite lookup_insert_ne by done. apply marked_refl.
Qed.

Lemma stirred_refl c sv : stirred c sv sv.
Proof. split; try done. split; try done. intros c2. apply marked_refl. Qed.

(** The wake-up descriptor is read, which no channel and no poller notices. *)
Lemma stirred_wakeup c sv : stirred c sv (on_loop EventLoop.handleRead sv).
Proof. split; try done. split; try done. intros c2. apply marked_refl. Qed.

Lemma wakeup_only_mark r e ch : wakeup_only ch → wakeup_only (set_revents r (set_eventHandling e ch)).
Proof. done. Qed.

Lemma stirred_channel c sv sv' ch :
  stirred c sv sv' → heap (sv_loop sv) !! c = Some ch → wakeup_only ch →
  ∃ ch', heap (sv_loop sv') !! c = Some ch' ∧ wakeup_only ch'.
Proof.
  intros [_ Qt _ _] Hc Hw. destruct (qt_heap _ _ Qt c) as (r & e & E). rewrite Hc in E.
  eexists. split; [exact E|]. by apply wakeup_only_mark.
Qed.

Lemma flag_stirred v c sv ch :
  heap (sv_loop sv) !! c = Some ch → ∃ sv', modify c (set_eventHandling v) sv = Ok sv' ∧ stirred c sv sv'.
Proof.
  intros Hc. unfold modify, deref. cbn. rewrite Hc. eexists. split; [done|]. split; try done.
  - assert (E : set_eventHandling v ch = set_revents (revents_ ch) (set_eventHandling v ch)) by (by destruct ch).
    cbn [put_channel world_owner on_loop put_loop the_loop service_loop sv_loop]. rewrite E. by apply quiet_mark.
  - intros c2 Hne. cbn. by rewrite lookup_insert_ne.
Qed.

Lemma dispatch_stirred fires slot c sv ch :
  heap (sv_loop sv) !! c = Some ch → slot ch = None ∨ slot ch = Some OnWakeup →
  ∃ sv', dispatch (service_callback user) c fires slot sv = Ok sv' ∧ stirred c sv sv'.
Proof.
  intros Hc Hslot. unfold dispatch, deref. cbn. rewrite Hc. cbn.
  destruct (fires _); [|exists sv; split; [done|apply stirred_refl]].
  destruct Hslot as [-> | ->]; cbn.
  - exists sv. split; [done|apply stirred_refl].
  - eexists. split; [done|apply stirred_wakeup].
Qed.

Lemma slots_wakeup ch : wakeup_only ch →
  (closeCallback_ ch = None ∨ closeCallback_ ch = Some OnWakeup) ∧
  (errorCallback_ ch = None ∨ errorCallback_ ch = Some OnWakeup) ∧
  (readCallback_ ch = None ∨ readCallback_ ch = Some OnWakeup) ∧
  (writeCallback_ ch = None ∨ writeCallback_ ch = Some OnWakeup).
Proof. intros Hw. split_and!; apply Hw; set_solver. Qed.

(** One step of [handleEventWithGuard] after others. *)
Lemma stirred_step c sv0 sv ch0 (op : V → outcome V) (k : V → outcome V) :
  heap (sv_loop sv0) !! c = Some ch0 → wakeup_only ch0 → stirred c sv0 sv →
  (∀ ch, heap (sv_loop sv) !! c = Some ch → wakeup_only ch → ∃ sv', op sv = Ok sv' ∧ stirred c sv sv') →
  (∀ sv', stirred c sv0 sv' → safely (k sv') (stirred c sv0)) → safely (op sv ≫= k) (stirred c sv0).
Proof.
  intros Hc Hw St Hop Hk. destruct (stirred_channel _ _ _ _ St Hc Hw) as (ch & Hc' & Hw').
  destruct (Hop ch Hc' Hw') as (sv' & -> & St'). cbn. apply Hk. by eapply stirred_trans.
Qed.

Lemma guarded_stirred c sv ch :
  heap (sv_loop sv) !! c = Some ch → wakeup_only ch →
  safely (handleEventWithGuard (service_callback user) c sv) (stirred c sv).
Proof.
  intros Hc Hw. unfold handleEventWithGuard.
  eapply stirred_step; [exact Hc|exact Hw|apply stirred_refl|intros; by eapply flag_stirred|]. intros sv1 S1.
  eapply stirred_step; [exact Hc|exact Hw|exact S1|intros; eapply dispatch_stirred; [done|by apply slots_wakeup]|]. intros sv2 S2.
  eapply stirred_step; [exact Hc|exact Hw|exact S2|intros; eapply dispatch_stirred; [done|by apply slots_wakeup]|]. intros sv3 S3.
  eapply stirred_step; [exact Hc|exact Hw|exact S3|intros; eapply dispatch_stirred; [done|by apply slots_wakeup]|]. intros sv4 S4.
  eapply stirred_step; [exact Hc|exact Hw|exact S4|intros; eapply dispatch_stirred; [done|by apply slots_wakeup]|]. intros sv5 S5.
  destruct (stirred_channel _ _ _ _ S5 Hc Hw) as (ch' & Hc' & _).
  destruct (flag_stirred false c sv5 ch' Hc') as (sv6 & -> & S6). by eapply stirred_trans.
Qed.

Lemma handle_wakeup c sv ch :
  service_inv Q G [] sv → heap (sv_loop sv) !! c = Some ch → wakeup_only ch →
  safely (handleEvent (service_callback user) (service_tie c) c sv)
    (λ sv', kept_service [] sv sv' ∧ others_same c sv sv').
Proof.
  intros I Hc Hw. apply (safely_mono _ (stirred c sv)).
  - unfold handleEvent, deref. cbn. rewrite Hc. cbn.
    destruct (tied_ ch); [destruct (service_tie c sv)|]; try (by eapply guarded_stirred). apply stirred_refl.
  - intros sv' [Ec Qt Ef Eh]. split; [split_and!|].
    + pose proof (service_quiet Q G Q_loop [] sv (sv_loop sv') I Qt) as J. rewrite <- Ec in J. by destruct sv'.
    + done.
    + by apply grown_same; [apply Qt|].
    + intros c2 Hne. split; [by apply Eh|by rewrite Ec].
Qed.

(** ** All of them *)
Lemma handle_one c sv :
  service_inv Q G [] sv → ready c sv →
  safely (handleEvent (service_callback user) (service_tie c) c sv)
    (λ sv', kept_service [] sv sv' ∧ others_same c sv sv').
Proof.
  intros I Hr. unfold ready in Hr. destruct (sv_conns sv !! c) as [s|] eqn:Hs.
  - destruct Hr as (Ho & ch & Hc & Ht). by eapply handle_connection.
  - destruct Hr as (ch & Hc & Hw). by eapply handle_wakeup.
Qed.

Lemma quiet_handling b o l : quiet l (set_handling b o l).
Proof. split; try done. intros c. apply marked_refl. Qed.

Lemma quiet_calling b l : quiet l (set_calling b l).
Proof. split; try done. intros c. apply marked_refl. Qed.

Lemma service_on_loop q sv (f : L → L) :
  service_inv Q G q sv → quiet (sv_loop sv) (f (sv_loop sv)) → service_inv Q G q (on_loop f sv).
Proof. intros I Qt. by apply (service_quiet Q G Q_loop q sv). Qed.

Lemma handle_active_ok cs sv :
  service_inv Q G [] sv → NoDup cs → (∀ c, c ∈ cs → ready c sv) →
  safely (handle_active (service_callback user) service_tie cs sv) (λ sv', service_inv Q G [] sv' ∧ grown sv sv').
Proof.
  revert sv. induction cs as [|c cs IH]; intros sv I Hn Hr; cbn; [by split; [|apply grown_same]|].
  apply list.NoDup_cons in Hn as [Hnc Hn]. set (sv1 := on_loop (set_handling true (Some c)) sv).
  assert (I1 : service_inv Q G [] sv1) by (apply service_on_loop; [done|apply quiet_handling]).
  apply safely_bind. eapply safely_mono; [apply (handle_one c sv1 I1)|].
  { apply (Hr c). by left. }
  intros sv2 [(I2 & _ & Gr) O]. eapply safely_mono; [apply IH; [done|done|]|].
  - intros c2 Hin. apply (others_ready c c2 sv1 sv2 O); [by intros ->|]. apply (Hr c2). by right.
  - intros sv3 [I3 G3]. split; [done|]. apply (grown_trans sv sv1); [by apply grown_same|]. by eapply grown_trans.
Qed.

(** * A wait *)

Lemma store_revents_other evs (m : gmap ChannelPtr (Channel callback)) c :
  c ∉ map snd evs → store_revents evs m !! c = m !! c.
Proof.
  unfold store_revents. revert m. induction evs as [|[rev c2] evs IH]; intros m Hn; cbn; [done|].
  cbn in Hn. apply not_elem_of_cons in Hn as [Hne Hn]. by rewrite IH, lookup_alter_ne.
Qed.

Lemma store_revents_at evs (m : gmap ChannelPtr (Channel callback)) rev c ch :
  NoDup (map snd evs) → (rev, c) ∈ evs → m !! c = Some ch → store_revents evs m !! c = Some (set_revents rev ch).
Proof.
  revert m. induction evs as [|[rev2 c2] evs IH]; intros m Hn Hin Hc; cbn in *; [by apply not_elem_of_nil in Hin|].
  apply list.NoDup_cons in Hn as [Hn2 Hn]. unfold store_revents. cbn. fold (store_revents evs (alter (set_revents rev2) c2 m)).
  apply elem_of_cons in Hin as [E|Hin].
  - injection E as <- <-. by rewrite store_revents_other, lookup_alter_eq, Hc.
  - apply (IH _ Hn Hin). rewrite lookup_alter_ne; [done|]. intros ->. apply Hn2.
    apply list_elem_of_fmap. by exists (rev, c).
Qed.

Lemma quiet_rev l p m (active : list ChannelPtr) :
  epoll_inv p m → heap_rev (heap l) m → chmap p = chmap (poller_ l) → epollfd p = epollfd (poller_ l) →
  quiet l (set_polled p m active l).
Proof.
  intros I Hrev Em Ek. split; try done.
  - cbn. by rewrite Ek.
  - intros c. cbn. destruct (heap l !! c) as [ch|] eqn:Hc.
    + destruct (heap_rev_lookup _ _ _ _ Hrev Hc) as [r ->]. exists r, (eventHandling_ ch). by destruct ch.
    + specialize (Hrev c). rewrite Hc in Hrev. destruct (m !! c); [done|]. by exists 0, false.
Qed.

Lemma reported_open c s sv rev ev ch :
  service_inv Q G [] sv → sv_conns sv !! c = Some s → heap (sv_loop sv) !! c = Some ch →
  interest (epollfd (poller_ (sv_loop sv))) !! fd_ ch = Some (ev, rev) → open (s_conn s) = true.
Proof.
  intros I Hs Hc Hi. pose proof (si_seats _ _ _ _ I c s Hs) as So. pose proof (seat_up _ _ _ _ _ _ So) as Hup.
  destruct (iv_channel (ConnEnv0 := connection_env c) _ (al_inv _ (so_alive _ _ _ _ _ _ So))) as (ch0 & Hc0 & [Hfd _] & Hst).
  cbn in Hc0, Hfd, Hst. rewrite (so_channel _ _ _ _ _ _ So) in Hc0. rewrite Hc in Hc0. injection Hc0 as <-.
  unfold open. destruct (state_ (s_conn s)); try done. destruct Hst as (_ & _ & Hw). by rewrite <- Hfd, Hi in Hw.
Qed.

Lemma reported_ready sv evs p act rev c :
  service_inv Q G [] sv → epoll_wait_valid (WaitEvents evs) (poller_ (sv_loop sv)) → NoDup (map snd evs) →
  Forall (λ ev, tame ev.1) evs → (rev, c) ∈ evs →
  ready c (on_loop (set_polled p (store_revents evs (heap (sv_loop sv))) act) sv).
Proof.
  intros I [_ V] Hn Ht Hin. destruct (V _ _ Hin) as (fd & ev & Hi).
  destruct (epoll_interest_registered _ _ _ _ _ (si_loop _ _ _ _ I) Hi) as (ch & Hc & <- & Hreg).
  pose proof (store_revents_at evs _ rev c ch Hn Hin Hc) as Hc'. unfold ready. cbn.
  destruct (sv_conns sv !! c) as [s|] eqn:Hs.
  - split; [by eapply reported_open|]. exists (set_revents rev ch). split; [exact Hc'|].
    by apply (proj1 (list.Forall_forall _ _) Ht (rev, c)).
  - exists (set_revents rev ch). split; [exact Hc'|]. exact (si_others _ _ _ _ I c ch Hs Hc Hreg).
Qed.

Lemma poll_ready r sv :
  service_inv Q G [] sv → wait_ok r (poller_ (sv_loop sv)) →
  ∃ p m active, epoll_poll r (poller_ (sv_loop sv)) (heap (sv_loop sv)) [] = Ok (p, m, active) ∧
    let sv1 := on_loop (set_polled p m active) sv in
    service_inv Q G [] sv1 ∧ NoDup active ∧ ∀ c, c ∈ active → ready c sv1.
Proof.
  intros I [V Hr]. pose proof (si_loop _ _ _ _ I) as IL. cbn in IL.
  assert (Hnone : ∃ p m active, Ok (poller_ (sv_loop sv), heap (sv_loop sv), []) = Ok (p, m, active) ∧
    let sv1 := on_loop (set_polled p m active) sv in
    service_inv Q G [] sv1 ∧ NoDup active ∧ ∀ c, c ∈ active → ready c sv1).
  { do 3 eexists. split; [done|]. split_and!; [|constructor|by intros c ?%elem_of_nil].
    apply service_on_loop; [done|]. by apply quiet_rev; [|apply heap_rev_refl|..]. }
  destruct r as [[|ev evs]|err]; [exact Hnone| |exact Hnone].
  destruct Hr as [Hn Ht]. cbn [epoll_poll]. unfold fillActiveChannels.
  rewrite require_true by (destruct V; bsolve). rewrite bind_Ok, fill_loop_spec, bind_Ok.
  2:{ intros rev c Hin. destruct V as [_ V]. destruct (V _ _ Hin) as (fd & mask & Hi).
      destruct (epoll_interest_registered _ _ _ _ _ IL Hi) as (ch & ? & <- & ?). by exists ch. }
  do 3 eexists. split; [done|]. cbn [app]. split_and!; [|done|].
  - apply service_on_loop; [done|]. pose proof (store_revents_rev (ev :: evs) (heap (sv_loop sv))) as Hrev.
    apply quiet_rev; [eapply epoll_inv_rev; [exact IL|exact Hrev|..]; by case_match|done|by case_match|by case_match].
  - intros c Hin. apply list_elem_of_fmap in Hin as ([rev c'] & -> & Hin). by eapply reported_ready.
Qed.

(** * A round *)
Lemma pending_to_batch sv :
  service_inv Q G [] sv → service_inv Q G (pendingFunctors_ (sv_loop sv)) (on_loop (set_pending []) sv).
Proof.
  intros I. assert (E : to_run (pendingFunctors_ (sv_loop sv)) (set_pending [] (sv_loop sv)) = to_run [] (sv_loop sv))
    by (unfold to_run; cbn; by rewrite app_nil_r).
  assert (Hu : ∀ c fd, unmoved c fd (sv_loop sv) (set_pending [] (sv_loop sv))).
  { intros c fd. split; [apply I|apply marked_refl|done|done]. }
  split; cbn [on_loop put_loop the_loop service_loop sv_loop sv_conns].
  - apply I.
  - apply I.
  - intros c s Hs. rewrite E. eapply seat_unmoved; [exact Q_loop|by apply (si_seats _ _ _ _ I)|done|apply Hu].
  - intros c Hn. rewrite E. by apply (si_strangers _ _ _ _ I).
  - apply (si_others _ _ _ _ I).
Qed.

Lemma service_round_ok r sv :
  service_inv Q G [] sv → wait_ok r (poller_ (sv_loop sv)) → safely (service_round user r sv) (λ sv',
    service_inv Q G [] sv' ∧ ∀ c, FConnectDestroyed ∈ own c (pendingFunctors_ (sv_loop sv)) → sv_conns sv' !! c = None).
Proof.
  intros I Hr. unfold service_round, iterate.
  destruct (poll_ready r sv I Hr) as (p & m & active & E & I1 & Hn & Hready).
  cbn [the_loop service_loop poll epoll_poller]. rewrite E, bind_Ok. set (sv1 := on_loop (set_polled p m active) sv) in *.
  set (sv2 := on_loop (λ l, set_handling true (currentActiveChannel_ l) l) sv1).
  assert (I2 : service_inv Q G [] sv2) by (apply service_on_loop; [done|apply quiet_handling]).
  apply safely_bind. eapply safely_mono; [apply (handle_active_ok active sv2 I2 Hn)|].
  { intros c Hin. by apply Hready. }
  intros sv3 [I3 G3]. unfold doPendingFunctors. set (sv4 := on_loop (set_calling true) (on_loop (set_handling false None) sv3)).
  assert (I4 : service_inv Q G [] sv4).
  { apply service_on_loop; [|apply quiet_calling]. apply service_on_loop; [done|apply quiet_handling]. }
  apply safely_bind. eapply safely_mono; [apply (run_functors_ok _ _ (pending_to_batch sv4 I4)); done|].
  intros sv5 [(I5 & _ & _) D5]. split; [apply service_on_loop; [done|apply quiet_calling]|].
  intros c Hc. apply D5. destruct (gr_queue _ _ G3) as [more Em]. cbn in Em |- *. rewrite Em. apply elem_of_app. left.
  by apply own_elem.
Qed.

(** * A new connection *)
Lemma seated_newcomer c (first : sock) l0 sv ch (w w' : W) :
  service_inv Q G [] sv → l0 = put_channel c ch (sv_loop sv) → sv_conns sv !! c = None →
  chmap (poller_ (sv_loop sv)) !! fd_ ch = None → lp w = l0 → state_ (conn w) = kConnected → sockfd_ (conn w) = fd_ ch →
  channel_ (conn w) = c → moves c w w' → alive (ConnEnv0 := connection_env c) w' → state_ (conn w') ≠ kConnecting →
  Q first w' → service_inv Q G [] (put_seat c first w' (sv_conns sv)).
Proof.
  intros I -> Hn Hfree El Est Esk Ec M Ha Hup HQ. pose proof M as [(fs & F & Hq) Ec' Esk']. rewrite El, Est in *.
  pose proof (si_strangers _ _ _ _ I c Hn) as Eown.
  destruct (ft_own _ _ _ _ F ch) as [_ A]; [apply lookup_insert_eq|].
  assert (Eh : ∀ c2, c2 ≠ c → heap (lp w') !! c2 = heap (sv_loop sv) !! c2).
  { intros c2 Hne. rewrite (ft_others _ _ _ _ F) by done. cbn. by rewrite lookup_insert_ne. }
  pose proof (own_more [] _ _ _ _ c (ft_pending _ _ _ _ F)) as Eo. rewrite decide_True in Eo by done.
  change (own c (to_run [] (put_channel c ch (sv_loop sv)))) with (own c (to_run [] (sv_loop sv))) in Eo.
  rewrite Eown in Eo. cbn [app] in Eo.
  assert (So' : seat_ok Q G c (leave first w') (lp w') (own c (to_run [] (lp w')))).
  { split; rewrite ?enter_leave; auto; [cbn; congruence|]. rewrite Eo. cbn.
    apply (queue_ok_grows G kConnected [] fs); [apply (kp_local _ _ _ _ Huser)|by constructor|done|done]. }
  pose proof (seat_registered _ _ _ _ _ _ So') as Hreg. cbn in Hreg. rewrite Esk', Esk in Hreg.
  split; cbn [put_seat sv_loop sv_conns]; [apply Ha|apply Ha|..].
  - intros c2 s2. destruct (decide (c2 = c)) as [->|Hne]; [rewrite lookup_insert_eq; by intros [= <-]|].
    rewrite lookup_insert_ne by done. intros Hs2. pose proof (si_seats _ _ _ _ I c2 s2 Hs2) as So2.
    rewrite (own_more [] _ _ _ _ c2 (ft_pending _ _ _ _ F)), decide_False, app_nil_r by done.
    eapply seat_unmoved; [exact Q_loop|exact So2|by rewrite (foot_thread _ _ _ _ F)|].
    assert (Hfd : sockfd_ (s_conn s2) ≠ fd_ ch).
    { intros E. pose proof (seat_registered _ _ _ _ _ _ So2) as Hr. rewrite E in Hr. congruence. }
    destruct (A _ Hfd) as [A1 A2]. split; [apply Ha|rewrite (Eh c2 Hne); apply marked_refl|done|done].
  - intros c2 Hn2. apply lookup_insert_None in Hn2 as [Hn2 Hne].
    rewrite (own_more [] _ _ _ _ c2 (ft_pending _ _ _ _ F)), decide_False, app_nil_r by done. by apply (si_strangers _ _ _ _ I).
  - intros c2 ch2 Hn2 Hh Hr. apply lookup_insert_None in Hn2 as [Hn2 Hne]. rewrite Eh in Hh by done.
    apply (si_others _ _ _ _ I c2 ch2 Hn2 Hh). unfold registered in *. cbn in *.
    destruct (A (fd_ ch2)) as [A1 _]; [|by rewrite <- A1]. intros E. rewrite E in Hr. congruence.
Qed.

Lemma admit_ok name fd c (a1 a2 : Addr) (first : sock) sv :
  service_inv Q G [] sv → heap (sv_loop sv) !! c = None → chmap (poller_ (sv_loop sv)) !! fd = None → 0 ≤ fd →
  safely (admit_connection user name fd c a1 a2 first sv) (service_inv Q G []).
Proof.
  intros I Hc Hfree Hfd. assert (Hn : sv_conns sv !! c = None).
  { destruct (sv_conns sv !! c) as [s|] eqn:Hs; [|done]. pose proof (si_seats _ _ _ _ I c s Hs) as So.
    destruct (iv_channel (ConnEnv0 := connection_env c) _ (al_inv _ (so_alive _ _ _ _ _ _ So))) as (ch & Hc2 & _).
    cbn in Hc2. rewrite (so_channel _ _ _ _ _ _ So) in Hc2. congruence. }
  destruct (new_connection_alive (ConnEnv0 := connection_env c) name fd c a1 a2 (sv_loop sv) first
    (si_loop _ _ _ _ I) (si_thread _ _ _ _ I) Hc) as (conn & ch & E & Ha & Hst); [by split_and!|done|].
  unfold admit_connection. rewrite E, bind_Ok. cbv zeta. set (w := mkWorld conn _ _ _ _ _).
  pose proof (kp_new _ _ _ _ (kp_on _ _ _ _ Huser c) first name fd a1 a2 conn ch (put_channel c ch (sv_loop sv)) E) as HQ.
  assert (Hconn : channel_ conn = c ∧ sockfd_ conn = fd ∧ fd_ ch = fd).
  { unfold new_TcpConnection in E. destruct (new_buffer kInitialSize) as [b|]; [|done].
    rewrite !bind_Ok in E. by injection E as <- <-. }
  destruct Hconn as (Ec & Ef & Efch). apply safely_bind.
  pose proof (kp_established _ _ _ _ (kp_on _ _ _ _ Huser c) first w (al_inv _ Ha) (al_thread _ Ha) Hst HQ) as Hest.
  destruct (connectEstablished user w) as [w'|] eqn:Ew; [|done]. destruct Hest as (Hp & HQ' & Ho). cbn.
  apply (seated_newcomer c first _ sv ch (on_conn (setState kConnected) w) w' I eq_refl Hn); cbn; try done; try congruence.
  - apply (moves_connectEstablished c user w w'); [|done]. split; [done|apply Ha].
  - eapply progress_alive; [exact Ha|exact Hp].
  - by apply open_not_connecting.
Qed.

Lemma fire_timer_ok c sv :
  service_inv Q G [] sv → sets_timers user → safely (fire_timer user c sv) (service_inv Q G []).
Proof.
  intros I Hset. unfold fire_timer. destruct (sv_conns sv !! c) as [s|] eqn:Hs; [|done].
  pose proof (si_seats _ _ _ _ I c s Hs) as So.
  eapply safely_mono; [eapply (run_on_safely [] sv c s _ I Hs)|by intros sv' [? _]].
  - apply (kp_timer _ _ _ _ (kp_on _ _ _ _ Huser c)); [apply So|apply So|by eapply seat_up|done|apply So].
  - intros w'. apply moves_forceClose.
Qed.

(** * Calls from other threads *)

(** What such a call leaves: at most the state is [kDisconnecting], and a functor waits. *)
Definition handed_over (tid : Z) c f st (w : W) : W :=
  set_lp (queueInLoop_ (H0 := as_thread tid) (c, f) (lp w)) (on_conn (setState st) w).

Definition left_elsewhere (tid : Z) c (w w' : W) : Prop :=
  w' = w ∨ ∃ f st, open (conn w) = true ∧ ordinary f = true ∧ (st = state_ (conn w) ∨ st = kDisconnecting) ∧
    w' = handed_over tid c f st w.

Lemma set_same_state (w : W) : on_conn (setState (state_ (conn w))) w = w.
Proof. by destruct w as [[]]. Qed.

(** A send that finds the connection up hands its bytes over. *)
Lemma elsewhere_send tid c d (w : W) :
  zlen d < 2 ^ 31 → threadId_ (lp w) ≠ tid →
  ∃ w', send (H0 := as_thread tid) (ConnEnv0 := connection_env c) d w = Ok w' ∧ left_elsewhere tid c w w'.
Proof.
  intros Hd Ht. unfold send. destruct (connected (conn w)) eqn:Hc; [|exists w; by split; [|left]].
  unfold run_in_loop, runInLoop. cbn. unfold in_loop_thread. rewrite (proj2 (Z.eqb_neq _ _) (Ht : _ ≠ @gettid (as_thread tid))).
  eexists. split; [done|]. right. exists (FSendInLoop d), (state_ (conn w)).
  split_and!; [by apply connected_open in Hc as [? _]|by apply Z.ltb_lt|by left|]. unfold handed_over. by rewrite set_same_state.
Qed.

Lemma elsewhere_runs tid c a (w : W) :
  thread_safe a → threadId_ (lp w) ≠ tid →
  ∃ w', run_api (H0 := as_thread tid) (ConnEnv0 := connection_env c) a w = Ok w' ∧ left_elsewhere tid c w w'.
Proof.
  intros Ha Ht. destruct a; try done; cbn in Ha |- *.
  - by apply elsewhere_send.
  - unfold send_string. destruct (of_string_view s Ha) as (p & -> & _ & Hv). rewrite bind_Ok, Hv.
    apply elsewhere_send; [|done]. pose proof (until_nul_len s). lia.
  - unfold shutdown. destruct (connected (conn w)) eqn:Hc; [|exists w; by split; [|left]].
    unfold run_in_loop, runInLoop. cbn. unfold in_loop_thread. rewrite (proj2 (Z.eqb_neq _ _) (Ht : _ ≠ @gettid (as_thread tid))).
    eexists. split; [done|]. right. exists FShutdownInLoop, kDisconnecting.
    split_and!; [by apply connected_open in Hc as [? _]|done|by right|done].
  - unfold forceClose. destruct (open (conn w)) eqn:Ho; [|exists w; by split; [|left]].
    eexists. split; [done|]. right. exists FForceCloseInLoop, kDisconnecting. by split_and!; [..|right|].
Qed.

Lemma handed_over_alive tid c f st (w : W) :
  alive (ConnEnv0 := connection_env c) w → open (conn w) = true → st = state_ (conn w) ∨ st = kDisconnecting →
  alive (ConnEnv0 := connection_env c) (handed_over tid c f st w).
Proof.
  intros [I Ht Hl] Ho Hst. pose proof (queueInLoop_same (H0 := as_thread tid) (c, f) (lp w)) as Sm.
  assert (K : kept (ConnEnv0 := connection_env c) w (on_conn (setState st) w)).
  { apply kept_conn; try done; [apply I|]. cbn. destruct Hst as [->| ->]; auto. }
  split.
  - unfold handed_over. apply (inv_same_loop (ConnEnv0 := connection_env c) (on_conn (setState st) w)); [|done].
    by eapply kept_inv.
  - cbn [handed_over lp set_lp]. by rewrite (sl_thread _ _ Sm).
  - change (connection_events (trace w) = calls_of st). rewrite Hl, (open_calls _ Ho).
    destruct Hst as [->| ->]; [by rewrite (open_calls _ Ho)|done].
Qed.

Lemma elsewhere_ok tid c a sv :
  service_inv Q G [] sv → calls a → threadId_ (sv_loop sv) ≠ tid → is_Some (sv_conns sv !! c) →
  safely (call_elsewhere tid c a sv) (service_inv Q G []).
Proof.
  intros I Ha Ht [s Hs]. pose proof (si_seats _ _ _ _ I c s Hs) as So. destruct (kp_calls _ _ _ _ Huser a Ha) as (Hsafe & HG & HQ).
  destruct (elsewhere_runs tid c a (enter s (sv_loop sv)) Hsafe Ht) as (w' & E & Hw).
  unfold call_elsewhere, run_on. rewrite Hs, E, bind_Ok.
  destruct Hw as [-> |(f & st & Ho & Hf & Hst & ->)].
  - unfold put_seat. rewrite leave_enter, insert_id by done. by destruct sv.
  - set (w := enter s (sv_loop sv)) in *.
    apply (service_change Q G Q_loop [] sv c s [f] (handed_over tid c f st w) I Hs); try done.
    + apply (foot_queue (H1 := as_thread tid)).
    + apply handed_over_alive; [apply So|done|done].
    + apply (queue_ok_more G (state_ (s_conn s))); [apply So| |exact Hst|].
      * unfold w, open in Ho. cbn in Ho. by destruct (state_ (s_conn s)).
      * constructor; [|done]. apply HG. by rewrite Hf.
    + apply Q_loop. destruct Hst as [->| ->]; [rewrite set_same_state; apply So|]. apply HQ, So.
Qed.

Lemma service_step_ok sv sv' : service_inv Q G [] sv → service_step user calls sv sv' → service_inv Q G [] sv'.
Proof.
  intros I T. destruct T as [name fd c a1 a2 s sv sv' Hc Hf Hfd E|r sv sv' Hr E|c sv sv' Hset E|tid c a sv sv' Ha Ht Hc E].
  - eapply safely_ok; [exact E|]. by apply admit_ok.
  - by apply (safely_ok _ _ _ E (service_round_ok r sv I Hr)).
  - exact (safely_ok _ _ _ E (fire_timer_ok c sv I Hset)).
  - exact (safely_ok _ _ _ E (elsewhere_ok tid c a sv I Ha Ht Hc)).
Qed.

Lemma service_steps_ok sv sv' : service_inv Q G [] sv → rtc (service_step user calls) sv sv' → service_inv Q G [] sv'.
Proof. intros I T. induction T; eauto using service_step_ok. Qed.

(** * The beginning *)
Lemma enableReading_slots c l l' ch :
  enableReading c l = Ok l' → heap l !! c = Some ch →
  ∃ i, heap l' !! c = Some (set_index i (pushed (enable kReadEvent (events_ ch)) ch)).
Proof.
  intros E0 Hc. pose proof (eq_trans (eq_sym (change_mask_eq l c ch (enable kReadEvent) Hc)) E0) as E. cbn in E.
  unfold updateChannel_ in E. apply bind_ok in E as (_ & _ & E). apply bind_ok in E as ([p m] & Eu & E).
  injection E as <-. cbn in Eu |- *.
  by destruct (updateChannel_agrees _ _ _ _ _ _ Eu (lookup_insert_eq _ _ _)) as (_ & _ & ?).
Qed.

Lemma new_service_ok junk other epfd wake_fd wake :
  safely (new_service (Addr := Addr) junk other epfd wake_fd wake) (service_inv Q G []).
Proof.
  unfold new_service. destruct (new_EPollPoller epfd) as [p|] eqn:Ep.
  2:{ unfold new_EPollPoller in Ep. destruct (epfd <? 0); simplify_eq. by left. }
  pose proof (epoll_inv_new (CB := callback) epfd p Ep) as Ip. rewrite bind_Ok. unfold new_EventLoop. rewrite bind_Ok.
  unfold createEventfd. destruct (Z.ltb_spec wake_fd 0); [by left|]. rewrite bind_Ok.
  destruct other; [by left|]. rewrite bind_Ok.
  fold (fresh_loop (CB := callback) (F := bound_functor) junk p wake).
  set (l0 := fresh_loop junk p wake). set (ch := setReadCallback OnWakeup (new_channel wake_fd)).
  assert (Hp : chmap p = ∅) by (unfold new_EPollPoller in Ep; destruct (epfd <? 0); [done|by injection Ep as <-]).
  assert (Ht : isInLoopThread l0 = true) by (cbn; unfold in_loop_thread; cbn; apply Z.eqb_refl).
  assert (Hfree : chmap (poller_ l0) !! wake_fd = None) by (cbn; by rewrite Hp).
  pose proof (register_new l0 wake OnWakeup wake_fd 1 Ip Ht eq_refl ltac:(lia) Hfree Logic.I Logic.I) as R. fold ch in R.
  destruct (enableReading wake (put_channel wake ch l0)) as [l|] eqn:E; [|exact R]. cbn.
  destruct R as (Il & _ & _ & Hoth & _ & _ & p2 & m2 & El).
  destruct (enableReading_slots _ _ _ ch E) as [i Hi]; [apply lookup_insert_eq|].
  split; cbn [sv_loop sv_conns]; try done.
  - by rewrite El.
  - by rewrite El.
  - intros c ch2 _ Hc _. destruct (decide (c = wake)) as [->|Hne]; [|by rewrite Hoth in Hc].
    rewrite Hi in Hc. injection Hc as <-. intros cb Hcb. cbn in Hcb. set_solver.
Qed.
End run.

(** * Programs *)

(** Any program that keeps to what TcpConnectionLife.v asks of its callbacks, with any safe calls of
    other threads. *)
Lemma user_keeps_on {Addr} `{!TcpSocket, !EpollKernel, !EventFd, !CurrentThread} (user : UserCallbacks Addr) c :
  user_ok user → keeps_on c user (λ _ _, True) ordinary.
Proof.
  intros Hu. split; try done.
  - intros s w I Ht Hs _. eapply safely_mono; [by apply connectEstablished_ok|].
    intros w' (sent & A & Ho). split_and!; [|done|done].
    eapply progress_intro; [exact A|]. by rewrite Hs, (open_calls _ Ho).
  - intros s w I Ht Ho _. eapply safely_mono; [by apply handleClose_progress|done].
  - intros s w I Ht Ho _. eapply safely_mono; [by apply handleRead_progress|done].
  - intros s w I Ht _. eapply safely_mono; [by apply handleWrite_progress|done].
  - intros s f w I Ht Hs Hf _. eapply safely_mono; [apply run_functor_ok; try done|done].
    destruct f; try done. cbn in Hf. apply Z.ltb_lt in Hf. split; [done|lia].
  - intros s w I Ht Hs _ _. eapply safely_mono; [by apply run_functor_ok|done].
Qed.

Lemma user_keeps {Addr} `{!TcpSocket, !EpollKernel, !EventFd, !CurrentThread} (user : UserCallbacks Addr) :
  user_ok user → keeps user (λ _ _, True) ordinary thread_safe.
Proof.
  intros Hu. split; try done.
  - intros c. by apply user_keeps_on.
  - intros f Hf. unfold ordinary. apply orb_prop_intro. by left.
Qed.
