(* ===== verification/Demo.v ===== *)
(** A concrete environment in which the model can be evaluated: one thread, an
    epoll instance, an eventfd counter and a scripted socket.  The examples and the
    witnesses of the theorems use it; it also shows that the assumptions about the
    kernel can be met together. *)
From S2P Require Import Prelude.
From S2P Require Import CurrentThread.
From S2P Require Import StringPiece.
From S2P Require Import Buffer.
From S2P Require Import Channel.
From S2P Require Import Poller.
From S2P Require Import EPollPoller.
From S2P Require Import Loop.
From S2P Require Import EventLoop.
From S2P Require Import TcpConnection.
From S2P Require Import TcpConnectionFacts.
From S2P Require Import TcpConnectionLife.
From S2P Require Import TcpConnectionRun.

#[export] Instance demo_thread : CurrentThread := {| gettid := 1 |}.

#[export] Existing Instance simple_kernel.

(** The counter of an eventfd. *)
#[export] Instance demo_eventfd : EventFd.
Proof.
  refine {| eventfd_state := N; readable e := (0 <? e)%N; eventfd_new := 0%N;
            eventfd_write e := ((e + 1)%N, 8); eventfd_read e := (0%N, if (0 <? e)%N then 8 else -1) |}.
  - intros e. apply N.ltb_lt. cbn. lia.
  - done.
Defined.

(** A socket that follows a script: for each write, how much it takes (a negative
    number is an errno); for each read, what has arrived. *)
Record script := mkScript { limits : list Z; arriving : list (list byte) }.

#[export] Instance demo_socket : TcpSocket.
Proof.
  refine {| sock := script;
    sock_write s d := match limits s with
                      | [] => (s, WriteN (zlen d))
                      | n :: ns => (mkScript ns (arriving s),
                                    if n <? 0 then WriteError (- n) else WriteN (n `min` zlen d))
                      end;
    sock_readv s cap := match arriving s with
                        | [] => (s, ReadError EWOULDBLOCK)
                        | bs :: r => (mkScript (limits s) r, ReadBytes (ztake cap bs))
                        end;
    sock_shutdownWrite s := s |}.
  - intros s d s' n. pose proof (zlen_nonneg d). destruct (limits s) as [|m ms]; [intros [= _ <-]; lia|].
    destruct (Z.ltb_spec m 0); intros [= _ <-]. lia.
  - intros s cap s' bs Hcap. destruct (arriving s) as [|b r]; [done|]. intros [= _ <-].
    destruct (Z.le_ge_cases (zlen b) cap).
    + by rewrite ztake_all.
    + rewrite zlen_ztake; lia.
Defined.

Abbreviation DemoLoop := (EventLoop handler functor EPollPoller).
Abbreviation DemoWorld := (World unit DemoLoop).

(** The functors are the connection's own; [removeConnection] queues
    [connectDestroyed], timers are not run. *)
#[export] Instance demo_env : ConnEnv handler functor DemoLoop.
Proof.
  refine {| bind_functor f := f; bind_handler h := h; decode_handler h := Some h;
            runAfter _ _ l := l; closeCallback l := queueInLoop_ FConnectDestroyed l |}.
  done.
Defined.

#[export] Instance demo_env_laws : ConnEnvLaws handler functor DemoLoop.
Proof. split; [by split|]. intros l. apply queueInLoop_same. Qed.

Definition demo_poller : EPollPoller := mkEPoll ∅ kInitEventListSize epoll_create.

Definition demo_loop : DemoLoop :=
  mkLoop true false false false 0 1 demo_poller ∅ eventfd_new 1 [] None [].

Lemma demo_loop_inv : loop_inv demo_loop.
Proof. by apply (epoll_inv_new 3). Qed.

(** A connection on descriptor 7 whose peer follows the script [s]. *)
Definition demo_connection (s : @sock demo_socket) : outcome DemoWorld :=
  '(c, ch) ← new_TcpConnection (F:=functor) (L:=DemoLoop) (bytes_of_string "c") 7 100 tt tt;
  Ok (mkWorld c (put_channel 100 ch demo_loop) s [] false []).

Lemma demo_connection_alive s :
  ∃ w, demo_connection s = Ok w ∧ alive w ∧ state_ (conn w) = kConnecting ∧
       can_remove (lp w) (channel_ (conn w)).
Proof.
  destruct (new_connection_alive (bytes_of_string "c") 7 100 tt tt demo_loop s demo_loop_inv)
    as (c & ch & E & Ha & Hs); try done.
  unfold demo_connection. rewrite E. eexists. by split_and!.
Qed.

(** Running a demo and looking at the result. *)
Definition run_demo (user : UserCallbacks unit) (s : @sock demo_socket) (fs : list functor) : outcome DemoWorld :=
  w ← demo_connection s;
  foldl (λ m f, w ← m; run_functor user f w) (Ok w) fs.

Definition observe (m : outcome DemoWorld)
  : option (list byte * list byte * bool * StateE * list event * list functor) :=
  match m with
  | Ok w => Some (wire w, content (outputBuffer_ (conn w)), fin w, state_ (conn w), trace w,
                  pendingFunctors_ (lp w))
  | Fail _ => None
  end.

(** Half of the data is written at once, the rest waits in the output buffer. *)
Example demo_partial_write :
  observe (run_demo default_user (mkScript [2] [])
             [FConnectEstablished; FSendInLoop (bytes_of_string "abcd")])
  = Some (bytes_of_string "ab", bytes_of_string "cd", false, kConnected,
          [EvConnection kConnected], []).
Proof. by vm_compute. Qed.
