(* ===== verification/NetDemo.v ===== *)
(** A concrete network for the witnesses: the text of an address, a kernel whose calls follow a
    script, and an empty event loop.  It shows that what is assumed of inet_ntop(3) and of the
    system calls can be met together. *)
From S2P Require Import Prelude.
From S2P Require Import Endian.
From S2P Require Import CurrentThread.
From S2P Require Import Channel.
From S2P Require Import Poller.
From S2P Require Import EPollPoller.
From S2P Require Import Loop.
From S2P Require Import EventLoop.
From S2P Require Import Demo.
From S2P Require Import SocketsOps.

(** * Text: two hexadecimal digits for each byte *)
Definition hex_digits : list byte := bytes_of_string "0123456789abcdef".
Definition hex_digit (v : Z) : byte := default Byte.x00 (hex_digits !! Z.to_nat v).
Definition hex_byte (b : byte) : list byte := [hex_digit (byte_val b / 16); hex_digit (byte_val b mod 16)].
Definition hex_text (ip : list byte) : list byte := foldr (λ b s, hex_byte b ++ s) [] ip.

Definition hex_value (d : byte) : option Z := Z.of_nat ∘ fst <$> list_find (λ x, x = d) hex_digits.
Fixpoint hex_parse (s : list byte) : option (list byte) :=
  match s with
  | [] => Some []
  | a :: b :: s => x ← hex_value a; y ← hex_value b; r ← hex_parse s; Some (byte_of (16 * x + y) :: r)
  | _ => None
  end.

Lemma hex_byte_parse b s r : hex_parse s = Some r → hex_parse (hex_byte b ++ s) = Some (b :: r).
Proof.
  intros E. cbn [hex_byte app hex_parse].
  assert (Hb : (x ← hex_value (hex_digit (byte_val b / 16)); y ← hex_value (hex_digit (byte_val b mod 16));
                Some (byte_of (16 * x + y))) = Some b) by (destruct b; vm_compute; reflexivity).
  destruct (hex_value (hex_digit (byte_val b / 16))) as [x|]; [|discriminate Hb]. cbn [mbind option_bind] in *.
  destruct (hex_value (hex_digit (byte_val b mod 16))) as [y|]; [|discriminate Hb]. cbn [mbind option_bind] in *.
  rewrite E. cbn. by injection Hb as ->.
Qed.

Lemma hex_roundtrip ip : hex_parse (hex_text ip) = Some ip.
Proof. induction ip as [|b ip IH]; [done|]. unfold hex_text. cbn [foldr]. by apply hex_byte_parse. Qed.

Lemma hex_text_len ip : zlen (hex_text ip) = 2 * zlen ip.
Proof.
  induction ip as [|b ip IH]; [done|]. unfold hex_text in *. cbn [foldr].
  rewrite zlen_app, IH, zlen_cons. change (zlen (hex_byte b)) with 2. lia.
Qed.

Lemma hex_text_no_nul ip : Byte.x00 ∉ hex_text ip.
Proof.
  induction ip as [|b ip IH]; [apply not_elem_of_nil|]. unfold hex_text in *. cbn [foldr].
  rewrite elem_of_app. intros [Hin|]; [|done]. assert (Hb : bool_decide (Byte.x00 ∈ hex_byte b) = false)
    by (destruct b; vm_compute; reflexivity). by apply bool_decide_eq_false in Hb.
Qed.

(** An address of [n] bytes. *)
Definition parse_ip (n : Z) (s : list byte) : option (list byte) :=
  ip ← hex_parse s; if zlen ip =? n then Some ip else None.

Lemma parse_ip_size n s ip : parse_ip n s = Some ip → zlen ip = n.
Proof. unfold parse_ip. destruct (hex_parse s) as [x|]; [|done]. cbn. destruct (Z.eqb_spec (zlen x) n); [|done]. by intros [= <-]. Qed.

Lemma parse_ip_text n ip : zlen ip = n → parse_ip n (hex_text ip) = Some ip.
Proof. intros <-. unfold parse_ip. rewrite hex_roundtrip. cbn. by rewrite Z.eqb_refl. Qed.

#[export] Instance demo_text : InetText.
Proof.
  refine {| ntop4 := hex_text; ntop6 := hex_text; pton4 := parse_ip 4; pton6 := parse_ip 16 |}.
  - intros ip Hip. rewrite hex_text_len, Hip. split; [done|apply hex_text_no_nul].
  - intros ip Hip. rewrite hex_text_len, Hip. split; [done|apply hex_text_no_nul].
  - apply parse_ip_size.
  - apply parse_ip_size.
  - intros ip Hip. by apply parse_ip_text.
  - intros ip Hip. by apply parse_ip_text.
Defined.

(** * A kernel: open descriptors, errno, how the next connects end, how many clients wait *)
Record demo_kernel := mkKernel {
  dk_fds : list nat;
  dk_errno : Z;
  dk_connects : list Z;
  dk_clients : nat
}.

Definition dk_open (k : demo_kernel) : gset Z := list_to_set (Z.of_nat <$> dk_fds k).
Definition dk_fresh (k : demo_kernel) : nat := S (max_list (dk_fds k)).
Definition dk_fail (e : Z) (k : demo_kernel) : demo_kernel := mkKernel (dk_fds k) e (dk_connects k) (dk_clients k).
Definition dk_new (k : demo_kernel) : demo_kernel * Z :=
  (mkKernel (dk_fresh k :: dk_fds k) (dk_errno k) (dk_connects k) (dk_clients k), Z.of_nat (dk_fresh k)).
Definition dk_close (fd : Z) (k : demo_kernel) : demo_kernel * Z :=
  (mkKernel (filter (λ n, Z.of_nat n ≠ fd) (dk_fds k)) (dk_errno k) (dk_connects k) (dk_clients k), 0).

Definition dk_accept (k : demo_kernel) : demo_kernel * Z * sockaddr :=
  match dk_clients k with
  | O => (dk_fail EAGAIN k, -1, zero_in6)
  | S n => (dk_new (mkKernel (dk_fds k) (dk_errno k) (dk_connects k) n), zero_in6)
  end.

Definition dk_connect (fd : Z) (k : demo_kernel) : demo_kernel * Z :=
  if fd <? 0 then (dk_fail EBADF k, -1)
  else match dk_connects k with
       | [] => (k, 0)
       | e :: es => (mkKernel (dk_fds k) e es (dk_clients k), if e =? 0 then 0 else -1)
       end.

Lemma dk_new_law k k' fd : dk_new k = (k', fd) → 0 ≤ fd ∧ fd ∉ dk_open k ∧ dk_open k' = {[fd]} ∪ dk_open k.
Proof.
  intros [= <- <-]. split; [lia|]. split; [|done]. unfold dk_open. rewrite elem_of_list_to_set, list_elem_of_fmap.
  intros (n & E & Hn). apply max_list_elem_of_le in Hn. unfold dk_fresh in E. lia.
Qed.

#[export] Instance demo_sockets : SocketKernel.
Proof.
  refine {| kernel := demo_kernel; errno := dk_errno; open_fds := dk_open;
    k_socket _ k := dk_new k;
    k_bind fd _ k := if fd <? 0 then (dk_fail EBADF k, -1) else (k, 0);
    k_listen fd k := (k, 0);
    k_accept _ k := dk_accept k;
    k_connect fd _ k := dk_connect fd k;
    k_close := dk_close;
    k_fcntl fd k := if fd <? 0 then dk_fail EBADF k else k;
    k_setsockopt fd _ _ k := (k, 0);
    k_shutdown fd k := (k, 0);
    k_open_null k := dk_new k;
    k_so_error fd k := (k, Some 0);
    k_getsockname fd k := Some zero_in6;
    k_getpeername fd k := Some zero_in6 |}.
  - intros k fd. unfold dk_open. rewrite elem_of_list_to_set, list_elem_of_fmap. intros (n & -> & _). lia.
  - intros d k k' fd E. left. by apply dk_new_law.
  - intros s k k' fd a. unfold dk_accept. destruct (dk_clients k) as [|n].
    + intros [= <- <- <-]. split; [done|]. by right.
    + intros [= <- <- <-]. split; [done|]. left.
      exact (dk_new_law (mkKernel (dk_fds k) (dk_errno k) (dk_connects k) n) _ _ eq_refl).
  - intros k k' fd E. left. by apply dk_new_law.
  - intros fd k. unfold dk_open, dk_close. cbn. apply set_eq. intros x.
    rewrite elem_of_difference, !elem_of_list_to_set, !list_elem_of_fmap, elem_of_singleton.
    setoid_rewrite list_elem_of_filter. naive_solver.
  - intros fd a k. by destruct (fd <? 0).
  - done.
  - intros fd a k. unfold dk_connect. destruct (fd <? 0); [done|]. by destruct (dk_connects k).
  - intros fd k. by destruct (fd <? 0).
  - done.
  - done.
  - done.
  - intros fd k Hfd. by rewrite (proj2 (Z.ltb_lt _ _) Hfd).
  - intros fd a k Hfd. by rewrite (proj2 (Z.ltb_lt _ _) Hfd).
  - intros fd a k Hfd. unfold dk_connect. by rewrite (proj2 (Z.ltb_lt _ _) Hfd).
  - by intros fd k a [= <-].
  - by intros fd k a [= <-].
Defined.

(** * An empty loop of thread 1, for any callbacks and functors *)
Definition net_loop (CB F : Type) : EventLoop CB F EPollPoller :=
  mkLoop true false false false 0 1 (mkEPoll ∅ kInitEventListSize epoll_create) ∅ eventfd_new 1 [] None [].

Lemma net_loop_inv CB F : loop_inv (net_loop CB F).
Proof. by apply (epoll_inv_new 3). Qed.

Lemma net_loop_free CB F fd : 0 ≤ fd → fd_free (net_loop CB F) fd.
Proof. done. Qed.

(** No descriptor is open; the next connects end as [es] says, [n] clients wait. *)
Definition demo_os (es : list Z) (n : nat) : @kernel demo_sockets := mkKernel [] 0 es n.

#[export] Instance demo_host : Host := LittleEndian.
