(* ===== verification/NetTheorems.v ===== *)
(** Properties of addresses, the listening socket and the I/O threads (InetAddress.v, Acceptor.v,
    EventLoopThreadPool.v, EventLoopThread.v). *)
From S2P Require Import Prelude.
From S2P Require Import Endian.
From S2P Require Import Format.
From S2P Require Import CurrentThread.
From S2P Require Import Channel.
From S2P Require Import Poller.
From S2P Require Import EPollPoller.
From S2P Require Import Loop.
From S2P Require Import EventLoop.
From S2P Require Import Demo.
From S2P Require Import SocketsOps.
From S2P Require Import InetAddress.
From S2P Require Import NetDemo.
From S2P Require Import Acceptor.
From S2P Require Import EventLoopThreadPool.
From S2P Require Import EventLoopThread.

(** C34: addresses and text.  An address made from the text of an IP address (of either
    version) and a port shows the address family, the port and the same texts, whatever the
    object's memory held before and whatever the byte order of the host; made again from its
    own text and port it has the same family, port and address bytes. *)
Theorem address_roundtrip `{!Host, !InetText} (v6 : bool) junk junk' ip port :
  address_ok junk → address_ok junk' → zlen ip = (if v6 then 16 else 4) → 0 ≤ port < 2 ^ 16 →
  let text := if v6 then ntop6 ip else ntop4 ip in
  let a := InetAddress_of_ip junk text port v6 in
  let a' := InetAddress_of_ip junk' text (toPort a) v6 in
  family a = (if v6 then AF_INET6 else AF_INET) ∧ toPort a = port ∧ address_toIp a = Ok text ∧
  address_toIpPort a = Ok (text ++ bytes_of_string ":" ++ decimal port) ∧
  family a' = family a ∧ sin_port a' = sin_port a ∧
  (if v6 then sin6_addr a' = ip else sin_addr a' = ip).
Proof.
  intros Hj Hj' Hip Hp. destruct v6; cbv zeta.
  - pose proof (of_ip6_shows junk ip port Hj Hip) as S1. pose proof (of_ip6_shows junk' ip port Hj' Hip) as S2.
    rewrite (shows_toPort _ _ _ _ _ _ Hp S1). destruct (shows_text6 port ip _ Hp Hip S1) as [-> ->].
    destruct S1 as [_ F1 P1 _], S2 as [_ F2 P2 A2]. unfold family. rewrite F1, F2, P1, P2. split_and!; done.
  - pose proof (of_ip4_shows junk ip port Hj Hip) as S1. pose proof (of_ip4_shows junk' ip port Hj' Hip) as S2.
    rewrite (shows_toPort _ _ _ _ _ _ Hp S1). destruct (shows_text4 port ip _ Hp Hip S1) as [-> ->].
    destruct S1 as [_ F1 P1 _], S2 as [_ F2 P2 A2]. unfold family. rewrite F1, F2, P1, P2. split_and!; done.
Qed.



(** C32: accepting.  When its socket is readable a listening acceptor passes on one new
    descriptor and opens nothing else (or closes it, without a callback), and goes on listening;
    but every failure of accept(2), even the ones the code means to tolerate, ends the
    process: fcntl(2) on the descriptor -1 has replaced errno before it is looked at. *)
Theorem acceptor_accepts {CB F L} `{!Loop CB F L, !LoopSpec CB F L, !LoopLaws CB F L}
    `{!Host, !InetText, !SocketKernel} `{!AcceptorEnv CB} `{!CurrentThread} (w : World L) :
  acceptor_ok w →
  safely (handleRead w) (λ w', acceptor_ok w' ∧
    if newConnectionCallback_ (acc w)
    then ∃ fd peer, handed w' = handed w ++ [(fd, peer)] ∧ 0 ≤ fd ∧ fd ∉ open_fds (os w) ∧
           open_fds (os w') = {[fd]} ∪ open_fds (os w)
    else handed w' = handed w ∧ open_fds (os w') = open_fds (os w)) ∧
  ∀ k a, k_accept (acceptSocket_ (acc w)) (os w) = (k, -1, a) → handleRead w = Fail FatalLog.
Proof.
  intros I. split.
  - eapply safely_mono; [apply safely_and; [by apply acceptor_handleRead_ok|by apply handleRead_spec, ac_thread]|].
    intros w' (Hok & _ & _ & Hacc). split; [done|]. destruct (newConnectionCallback_ _); [|done].
    destruct Hacc as (fd & peer & ? & ? & _ & ? & ?). by exists fd, peer.
  - intros k a E. apply (handleRead_error w k a); [apply I|done].
Qed.

(** Connections are spread evenly.  After [start] with [n] threads the [k]-th call of
    [getNextLoop] answers the loop of thread [k mod n]; without threads always the base loop. *)
Theorem pool_round_robin here cb fresh n k p :
  here = baseLoop_ p → started_ p = false → next_ p = 0 → loops_ p = [] → 0 ≤ n →
  ∃ p' inits ls p'', pool_start here cb fresh (setThreadNum n p) = Ok (p', inits) ∧
    next_loops here k p' = Ok (ls, p'') ∧ length ls = k ∧
    ∀ i, (i < k)%nat →
      ls !! i = Some (if n =? 0 then baseLoop_ p else fresh (Z.to_nat (Z.of_nat i mod n))).
Proof.
  intros Hb Hs Hn Hl Hpos. destruct (pool_start_ok here cb fresh (setThreadNum n p)) as (p' & ini & E & I & En & Eb & El);
    try done. destruct (next_loops_ok here k p' I) as (ls & p'' & E2 & _ & _ & Hlen & _ & Hls).
  exists p', ini, ls, p''. split_and!; try done. intros i Hi. rewrite Hls, En, Z.add_0_l by done. unfold targets.
  rewrite Eb, El. cbn [numThreads_ baseLoop_ setThreadNum]. destruct (Z.eqb_spec n 0) as [->|Hne]; cbn.
  - change (zlen [baseLoop_ p]) with 1. by rewrite Z.mod_1_r.
  - rewrite bool_decide_eq_false_2 by (destruct (Z.to_nat n) eqn:?; [lia|done]).
    assert (Hz : zlen (fresh <$> seq 0 (Z.to_nat n)) = n) by (unfold zlen; rewrite length_fmap, length_seq; lia).
    rewrite Hz, list_lookup_fmap, lookup_seq_lt; [done|]. pose proof (Z.mod_pos_bound (Z.of_nat i) n). lia.
Qed.

(** C18: starting a loop's thread.  If the thread can be created and only its owner makes the
    loop quit, and not before the thread has entered [loop()], then [startLoop] and the
    destructor come to their ends: an execution takes at most 44 steps and two for each wake-up without reason, and until the thread has been joined
    somebody can go on.  [startLoop] returns the new thread's loop while it runs, the
    destructor stops a loop that still exists, and the assert on the thread's id holds. *)
Theorem start_loop_returns the_loop tid s n k s' :
  0 < tid → initial s → runs the_loop tid false false false s n k s' →
  (Z.of_nat n ≤ 44 + 2 * Z.of_nat k) ∧
  ((∃ s2, step the_loop tid false false false false s' s2) ∨ finished s') ∧
  (∀ l, at_owner s' = OReturned l ∨ at_owner s' = OQuit l → l = the_loop ∧ (at_worker s' = WEnter ∨ at_worker s' = WLoop) ∧ loop_ s' = Some l) ∧
  (at_owner s' = OStarted → is_ok (Thread.thread_started (thread_ s')) = true) ∧
  (finished s' → Thread.joined_ (thread_ s') = true).
Proof.
  intros Ht Hi R. assert (Hs : situation the_loop tid s') by (eapply (runs_situation the_loop tid false false false); eauto using initial_situation).
  split_and!.
  - apply runs_left in R. pose proof (left_nonneg s'). destruct Hi as [name ->]. unfold left in R at 2. cbn in R. lia.
  - by apply situation_progress.
  - intros l Ho. unfold situation in Hs. destruct (at_worker s'), Ho as [Ho|Ho]; rewrite Ho in Hs; naive_solver.
  - intros Ho. unfold situation in Hs. unfold Thread.thread_started. rewrite require_true; [done|].
    rewrite Ho in Hs.
    assert (Thread.tid_ (thread_ s') = tid) as -> by (destruct (at_worker s'); cbv zeta in Hs; destruct_and?; destruct_or?; try done; naive_solver). bsolve.
  - intros [Ho Hw]. unfold situation in Hs. rewrite Hw, Ho in Hs. by destruct Hs as [(? & _)|[_ ?]].
Qed.

(** C39: [startLoop] that never returns.  If pthread_create fails, [Thread::start] returns as if
    nothing had happened and [startLoop] waits for a thread that does not exist; if the loop is
    made to quit before the owner has looked, the thread has cleared [loop_] again and the
    owner waits for ever.  And when [startLoop] has returned, a destructor that calls [quit()] before
    the thread has entered [loop()] joins it for ever: [loop()] sets [quit_] back to false. *)
Theorem start_loop_hangs the_loop tid s :
  0 < tid → initial s →
  (∃ n s1, runs the_loop tid true false false s n 0 s1 ∧
     ∀ m k s2 l, runs the_loop tid true false false s1 m k s2 → at_owner s2 ≠ OReturned l) ∧
  (∃ n s1, runs the_loop tid false true false s n 0 s1 ∧
     ∀ m k s2 l, runs the_loop tid false true false s1 m k s2 → at_owner s2 ≠ OReturned l) ∧
  (∃ n s1, runs the_loop tid false false true s n 0 s1 ∧ at_owner s1 = OJoin ∧ loop_ s1 = Some the_loop ∧
     ∀ b s2, ¬ step the_loop tid false false true b s1 s2).
Proof.
  intros Ht Hi. split_and!.
  - destruct (create_failure_hangs the_loop tid true false false s eq_refl Hi) as (n & s1 & R & Hh). exists n, s1. split; [done|].
    intros m k s2 l R2 E. apply (hung_forever _ _ _ _ _ _ _ _ _ Hh) in R2. destruct R2 as (_ & _ & [E2|E2]); congruence.
  - destruct (early_quit_hangs the_loop tid false true false s eq_refl Ht Hi) as (n & s1 & R & Hh). exists n, s1. split; [done|].
    intros m k s2 l R2 E. apply (hung_forever _ _ _ _ _ _ _ _ _ Hh) in R2. destruct R2 as (_ & _ & [E2|E2]); congruence.
  - destruct (early_dtor_hangs the_loop tid false false true s eq_refl Ht Hi) as (n & s1 & R & Hh).
    exists n, s1. pose proof Hh as (Ho & Hw & Hq & Hl). split_and!; [done..|].
    intros b s2. by apply join_hangs_step.
Qed.

(** * Witnesses *)
Lemma address_roundtrip_witness :
  let ip := [Byte.x7f; Byte.x00; Byte.x00; Byte.x01] in
  let a := InetAddress_of_ip (H:=LittleEndian) zero_in6 (ntop4 ip) 8080 false in
  address_toIpPort (H:=LittleEndian) a = Ok (bytes_of_string "7f000001:8080") ∧
  toPort (H:=LittleEndian) a = 8080 ∧ zslice 2 2 a = [Byte.x1f; Byte.x90].
Proof.
  cbv zeta.
  destruct (@address_roundtrip LittleEndian demo_text false zero_in6 zero_in6 [Byte.x7f; Byte.x00; Byte.x00; Byte.x01] 8080)
    as (_ & Hp & _ & Hip & _); [done|done|done|lia|].
  split; [exact Hip|]. split; [exact Hp|vm_compute; reflexivity].
Defined.

(** A listening acceptor of the demo environment, with [n] clients waiting. *)
#[export] Instance demo_acceptor_env : AcceptorEnv unit := {| bind_handleRead := tt |}.

Abbreviation DemoAcceptor := (World (EventLoop unit unit EPollPoller)).

Definition demo_listening (n : nat) : outcome DemoAcceptor :=
  w ← new_Acceptor zero_in6 false 100 (net_loop unit unit) (demo_os [] n);
  listen (setNewConnectionCallback w).

Lemma demo_listening_ok n : ∃ w, demo_listening n = Ok w ∧ acceptor_ok w ∧
  newConnectionCallback_ (acc w) = true ∧ dk_clients (os w) = n.
Proof.
  assert (Hn : match demo_listening n with Ok w => dk_clients (os w) = n | Fail _ => False end) by (vm_compute; reflexivity).
  assert (S0 : safely (demo_listening n) (λ w, acceptor_ok w ∧ newConnectionCallback_ (acc w) = true)).
  { unfold demo_listening. apply safely_bind. eapply safely_mono.
    { apply new_Acceptor_ok; [apply net_loop_inv|done|done|intros fd Hfd _; by apply net_loop_free|by vm_compute]. }
    intros w ([I Ht Hc] & Hl & _). eapply safely_mono; [apply listen_ok; [by split|done]|].
    intros w' (I' & _ & E & _). by rewrite E. }
  destruct (demo_listening n) as [w|f]; [|done]. exists w. by destruct S0.
Qed.

Lemma acceptor_accepts_witness :
  (∃ w, demo_listening 1 = Ok w ∧ safely (handleRead w) (λ w', acceptor_ok w' ∧
     ∃ fd peer, handed w' = handed w ++ [(fd, peer)] ∧ 0 ≤ fd ∧ fd ∉ open_fds (os w) ∧
       open_fds (os w') = {[fd]} ∪ open_fds (os w))) ∧
  ∃ w, demo_listening 0 = Ok w ∧ errno (k_accept (acceptSocket_ (acc w)) (os w)).1.1 = EAGAIN ∧
    handleRead w = Fail FatalLog.
Proof.
  split.
  - destruct (demo_listening_ok 1) as (w & E & I & Hcb & _). exists w. split; [exact E|].
    destruct (acceptor_accepts w I) as [Hs _]. rewrite Hcb in Hs. exact Hs.
  - destruct (demo_listening_ok 0) as (w & E & I & _ & Hn). exists w. split; [exact E|].
    assert (Ea : k_accept (acceptSocket_ (acc w)) (os w) = (dk_fail EAGAIN (os w), -1, zero_in6))
      by (cbn; unfold dk_accept; by rewrite Hn).
    destruct (acceptor_accepts w I) as [_ Hf]. rewrite Ea. split; [reflexivity|]. exact (Hf _ _ Ea).
Defined.

Lemma pool_round_robin_witness :
  ∃ p' inits ls p'', pool_start 1 true (λ i, 10 + Z.of_nat i) (setThreadNum 3 (new_pool 1 (bytes_of_string "io"))) = Ok (p', inits) ∧
    next_loops 1 5 p' = Ok (ls, p'') ∧ length ls = 5%nat ∧
    threads_ p' = bytes_of_string <$> ["io0"; "io1"; "io2"] ∧ ls = [10; 11; 12; 10; 11].
Proof.
  destruct (pool_round_robin 1 true (λ i, 10 + Z.of_nat i) 3 5 (new_pool 1 (bytes_of_string "io")))
    as (p' & ini & ls & p'' & E & E2 & Hl & Hls); try reflexivity; [lia|].
  exists p', ini, ls, p''. split; [exact E|]. split; [exact E2|]. split; [exact Hl|]. split.
  - injection E as <- _. vm_compute. reflexivity.
  - apply list_eq_same_length with (n := 5%nat); [done|done|]. intros i x y Hi Hx Hy. rewrite (Hls i Hi) in Hx.
    do 5 (destruct i as [|i]; [vm_compute in Hx, Hy; congruence|]). lia.
Defined.

(** The complete execution without spurious wake-ups that the first scheduler finds: the owner
    goes to sleep on the latch, and then on the condition. *)
Lemma start_loop_returns_witness :
  let s := mkSystem OStart WNone (Thread.mkThread false false 0 [] 1) None false false in
  ∃ n s', runs 10 4711 false false false s n 0 s' ∧ at_owner s' = OAsleep ∧ (Z.of_nat n ≤ 44) ∧
    ∃ s2, step 10 4711 false false false false s' s2.
Proof.
  cbv zeta.
  pose proof (runs_snoc 10 4711 false false false _ _ _ _ (runs_0 10 4711 false false false _)
    (owner_creates 10 4711 false false false (Thread.mkThread false false 0 [] 1) _ None false false eq_refl)) as R1. vm_compute in R1.
  pose proof (runs_snoc _ _ _ _ _ _ _ _ _ R1 (owner_latch _ _ _ _ _ _ _ _ _ _)) as R2. vm_compute in R2.
  pose proof (runs_snoc _ _ _ _ _ _ _ _ _ R2 (worker_tid _ _ _ _ _ _ _ _ _ _)) as R3. vm_compute in R3.
  pose proof (runs_snoc _ _ _ _ _ _ _ _ _ R3 (worker_count _ _ _ _ _ _ _ _ _ _ _ _ eq_refl)) as R4. vm_compute in R4.
  pose proof (runs_snoc _ _ _ _ _ _ _ _ _ R4 (owner_latch _ _ _ _ _ _ _ _ _ _)) as R5. vm_compute in R5.
  pose proof (runs_snoc _ _ _ _ _ _ _ _ _ R5 (owner_started 10 4711 false false false WCallback
    (Thread.mkThread true false 4711 [] 0) (Thread.mkThread true false 4711 [] 0) None false false eq_refl)) as R6.
  pose proof (runs_snoc _ _ _ _ _ _ _ _ _ R6 (owner_test _ _ _ _ _ _ _ _ _ _)) as R7. vm_compute in R7.
  do 2 eexists. split; [exact R7|].
  assert (Hi : initial (mkSystem OStart WNone (Thread.mkThread false false 0 [] 1) None false false)) by (by exists []).
  destruct (start_loop_returns 10 4711 _ _ _ _ ltac:(lia) Hi R7) as (Hn & [Hs|[Hf _]] & _); [|discriminate Hf].
  split; [reflexivity|]. split; [lia|exact Hs].
Defined.

Lemma start_loop_hangs_witness :
  let s := mkSystem OStart WNone (Thread.mkThread false false 0 [] 1) None false false in
  (∃ n s1, runs 10 4711 true false false s n 0 s1 ∧
     ∀ m k s2 l, runs 10 4711 true false false s1 m k s2 → at_owner s2 ≠ OReturned l).
Proof. cbv zeta. apply (start_loop_hangs 10 4711); [lia|by exists []]. Defined.
