(* ===== verification/ServerTheorems.v ===== *)
(** Properties of the server (TcpServer.v), with the connections of TcpConnection.v. *)
From S2P Require Import Prelude.
From S2P Require Import Endian.
From S2P Require Import Format.
From S2P Require Import StringPiece.
From S2P Require Import CurrentThread.
From S2P Require Import Channel.
From S2P Require Import Poller.
From S2P Require Import EPollPoller.
From S2P Require Import Loop.
From S2P Require Import EventLoop.
From S2P Require Import TcpConnection.
From S2P Require Import TcpConnectionFacts.
From S2P Require Import TcpConnectionLife.
From S2P Require Import TcpConnectionRun.
From S2P Require Import Demo.
From S2P Require Import SocketsOps.
From S2P Require Import InetAddress.
From S2P Require Import NetDemo.
From S2P Require Import Socket.
From S2P Require Import Acceptor.
From S2P Require Import EventLoopThreadPool.
From S2P Require Import TcpServer.
From S2P Require Import TcpServerFacts.
From S2P Require Import TcpServerRun.
From S2P Require Import TcpServerEnd.
From S2P Require Import ServedConnection.


(** * Witness: a server of the demo environment whose connections are TCP connections *)
#[export] Instance demo_site : Site handler TcpConnection.functor DemoLoop :=
  {| site_loop := demo_loop; site_channel := 100; site_socket _ := mkScript [] []; site_user := default_user |}.

#[export] Instance demo_site_laws : SiteLaws handler TcpConnection.functor DemoLoop.
Proof. split; try done; exact demo_loop_inv. Qed.

#[export] Instance demo_server_acceptor : AcceptorEnv unit := {| bind_handleRead := tt |}.

Abbreviation DemoServer := (World (EventLoop unit unit EPollPoller) (TcpConnection.World sockaddr DemoLoop)).

(** The server with [n] threads: started, two clients accepted, what is queued then run. *)
Definition demo_server : outcome DemoServer :=
  new_TcpServer 1 zero_in6 (bytes_of_string "echo") false 100 (net_loop unit unit) (demo_os [] 2).

Definition server_view (m : outcome DemoServer) : option (list (list byte * LoopPtr * StateE * Z) * list (LoopPtr * functor)) :=
  match m with
  | Ok w => Some ((λ x, (e_name x.2, e_loop x.2, conn_state (e_conn x.2), e_fd x.2)) <$> map_to_list (conns w), queue w)
  | Fail _ => None
  end.

(** Two threads: the connections go to their loops, which establish them. *)
Example demo_two_threads :
  server_view (w ← demo_server; w ← server_setThreadNum 2 w; w ← start 1 false (λ i, 10 + Z.of_nat i) w;
               w ← on_accept 1 501 w; on_accept 1 502 w)
  = Some ([(bytes_of_string "echo-:0#1", 10, kConnecting, 3); (bytes_of_string "echo-:0#2", 11, kConnecting, 4)],
          [(10, FConnectEstablished 501); (11, FConnectEstablished 502)]).
Proof. vm_compute. reflexivity. Qed.





