(* ===== verification/ConnectorTheorems.v ===== *)
(** Properties of outgoing connections (Connector.v). *)
From S2P Require Import Prelude.
From S2P Require Import Endian.
From S2P Require Import CurrentThread.
From S2P Require Import Channel.
From S2P Require Import Poller.
From S2P Require Import EPollPoller.
From S2P Require Import Loop.
From S2P Require Import EventLoop.
From S2P Require Import Demo.
From S2P Require Import SocketsOps.
From S2P Require Import InetAddress.
From S2P Require Import NetDemo.
From S2P Require Import Connector.
From S2P Require Import ConnectorFacts.
From S2P Require Import ConnectorRun.

Section connector.
  Context {CB F L : Type} `{!Loop CB F L, !LoopSpec CB F L, !LoopLaws CB F L}.
  Context `{!Host, !SocketKernel} `{!ConnectorEnv CB F L, !ConnectorEnvLaws CB F L} `{!CurrentThread}.
  Notation W := (World L).
  Implicit Types w : W.


(** C33: the back-off.  The delays of consecutive failed attempts are half a second doubled each
    time, from the seventh on half a minute: never less, never more, and the doubling never
    overflows its [int]. *)
Theorem connector_backoff n (fds : list Z) w :
  connect_ (cn w) = true → retryDelayMs_ (cn w) = kInitRetryDelayMs → length fds = n →
  let w' := foldr retry w fds in
  timers w' = timers w ++ (backoff <$> seq 0 n) ∧ retryDelayMs_ (cn w') = backoff n ∧
  ∀ k, kInitRetryDelayMs ≤ backoff k ≤ kMaxRetryDelayMs ∧ ((6 ≤ k)%nat → backoff k = kMaxRetryDelayMs).
Proof.
  intros Hc Hd <-. cbn. assert (G : connect_ (cn (foldr retry w fds)) = true ∧
    timers (foldr retry w fds) = timers w ++ (backoff <$> seq 0 (length fds)) ∧
    retryDelayMs_ (cn (foldr retry w fds)) = backoff (length fds)).
  { clear -Hc Hd. induction fds as [|fd fds (IHc & IHt & IHd)]; cbn [foldr length]; [by rewrite app_nil_r|].
    rewrite seq_S, fmap_app, app_assoc, <- IHt, <- backoff_next, <- IHd.
    set (r := foldr retry w fds) in *. unfold retry. cbn. rewrite IHc. cbn. by rewrite IHc, IHd. }
  destruct G as (_ & ? & ?). split_and!; [done|done|]. intros k. split; [apply backoff_bounds|apply backoff_capped].
Qed.

(** C29: the verdict.  When the socket of an attempt becomes writable, the connector asks for
    the socket's error: without one (and unless the socket connected to itself) the descriptor goes
    to the callback, once, if the connector was not stopped meanwhile; otherwise the socket is
    closed and exactly one timer is set for the next attempt, unless the connector was stopped. *)
Theorem connector_verdict w c ch :
  inv_with false w → state_ (cn w) = kConnecting → busy false w c ch → can_remove (lp w) c →
  safely (handleWrite w) (λ w', inv_with false w' ∧ ledger w w' ∧
    if attempt_succeeded (fd_ ch) (os w)
    then state_ (cn w') = kConnected ∧ timers w' = [] ∧
         handed w' = handed w ++ if connect_ (cn w) then [fd_ ch] else []
    else state_ (cn w') = kDisconnected ∧ handed w' = handed w ∧
         timers w' = if connect_ (cn w) then [retryDelayMs_ (cn w)] else []).
Proof.
  intros I Es B Hr. eapply safely_mono; [by apply (handleWrite_spec false w c ch)|].
  intros w' [(I' & Hl & _) Hv]. by split_and!.
Qed.

(** C38: where starting again fails.  A retry timer survives [stop]: after [stop] and a [start]
    that is connecting, it still fires and fails the assert of [startInLoop].  And if an attempt
    succeeds just after [stop], its socket is closed but the state says connected, so the next
    [start] fails the same assert. *)
Theorem connector_start_again_asserts w c ch chan chan' :
  inv_with false w →
  (∀ w1 w2, timers w ≠ [] → stop w = Ok w1 → start chan w1 = Ok w2 → state_ (cn w2) = kConnecting →
     isInLoopThread (lp w2) = true →
     timers w2 = timers w ∧ timer_fires chan' w2 = Fail AssertFailure) ∧
  (state_ (cn w) = kConnecting → busy false w c ch → can_remove (lp w) c → connect_ (cn w) = false →
   attempt_succeeded (fd_ ch) (os w) = true →
   safely (handleWrite w) (λ w', fd_ ch ∉ open_fds (os w') ∧ handed w' = handed w ∧
     start chan w' = Fail AssertFailure)).
Proof.
  intros I. split.
  - intros w1 w2 Ht E1 E2 Es Hth. assert (I1 : inv_with false w1).
    { eapply (safely_ok _ (inv_with false)); [exact E1|]. eapply safely_mono; [by apply stop_ok|]. by intros ? [? _]. }
    unfold stop in E1. destruct (queue_law (bind_functor FStopInLoop) (lp w)) as (l' & El & _).
    cbn in E1. rewrite El in E1. injection E1 as <-. split.
    + pose proof (iv_thread _ _ I1) as T. cbn in T.
      unfold start, startInLoop, assertInLoopThread in E2. cbn in E2. rewrite T in E2. cbn in E2.
      case_bool_decide as Ed; cbn in E2; [|done]. by apply (connect_timers chan _ _ E2).
    + by apply timer_while_connecting.
  - intros Es B Hr Hc Hv. eapply safely_mono; [by apply (handleWrite_spec false w c ch)|].
    intros w' [(I' & (new & Eh & Eo & _) & _) Hw]. rewrite Hv, Hc, app_nil_r in Hw. destruct Hw as (Es' & _ & Eh').
    split_and!; [|done|].
    + rewrite Eh' in Eh. assert (new = []) as -> by (apply (app_inv_head (handed w)); by rewrite app_nil_r).
      rewrite (owned_idle w'), (owned_busy _ _ _ _ B Es) in Eo by (by rewrite Es'). cbn in Eo. set_solver.
    + apply start_unless_disconnected; [apply I'|by rewrite Es'].
Qed.
End connector.

(** * Witnesses: a connector of the demo environment *)
#[export] Instance demo_connector_env : ConnectorEnv handler functor (EventLoop handler functor EPollPoller).
Proof.
  refine {| bind_functor f := f; bind_handler h := h; decode_handler h := Some h; runAfter _ _ l := l |}. done.
Defined.

#[export] Instance demo_connector_laws : ConnectorEnvLaws handler functor (EventLoop handler functor EPollPoller).
Proof. split. intros d f l. by split. Qed.

Abbreviation DemoConnector := (World (EventLoop handler functor EPollPoller)).

(** A new connector in an empty loop; the next connects end as the script [es] says. *)
Definition demo_connector (es : list Z) : DemoConnector :=
  mkWorld (setNewConnectionCallback (new_Connector zero_in6)) (net_loop handler functor) (demo_os es 0) [] [].

Lemma demo_connector_start chan es : enabled Start chan (demo_connector es).
Proof. split; [done|]. split; [done|]. intros fd Hfd _. by apply net_loop_free. Qed.

(** What is looked at in a result. *)
Definition seen (m : outcome DemoConnector) : option (States * list Z * list Z * list Z) :=
  match m with
  | Ok w => Some (state_ (cn w), handed w, timers w, Z.of_nat <$> dk_fds (os w))
  | Fail _ => None
  end.

(** An attempt under way, one that was refused, and one that succeeded. *)
Example demo_start_connecting :
  seen (start 5 (demo_connector [EINPROGRESS])) = Some (kConnecting, [], [], [1]).
Proof. vm_compute. reflexivity. Qed.

Example demo_start_refused :
  seen (start 5 (demo_connector [ECONNREFUSED])) = Some (kDisconnected, [], [500], []).
Proof. vm_compute. reflexivity. Qed.

Example demo_start_succeeds :
  seen (w ← start 5 (demo_connector [EINPROGRESS]); dispatch_events POLLOUT w) = Some (kConnected, [1], [], [1]).
Proof. vm_compute. reflexivity. Qed.

(** The connector of the examples, while it is connecting. *)
Lemma demo_connecting :
  ∃ w c ch, start 5 (demo_connector [EINPROGRESS]) = Ok w ∧ turn (demo_connector [EINPROGRESS]) w ∧
    inv_with false w ∧ state_ (cn w) = kConnecting ∧ busy false w c ch ∧ can_remove (lp w) c ∧
    connect_ (cn w) = true ∧ attempt_succeeded (fd_ ch) (os w) = true.
Proof.
  assert (Hs : match start 5 (demo_connector [EINPROGRESS]) with
               | Ok w => bool_decide (state_ (cn w) = kConnecting) && connect_ (cn w) && may_remove 5 (lp w) &&
                         bool_decide (channel_ (cn w) = Some 5) && attempt_succeeded 1 (os w) &&
                         match heap (lp w) !! 5 with Some ch => fd_ ch =? 1 | None => false end
               | Fail _ => false end = true) by (vm_compute; reflexivity).
  destruct (start 5 (demo_connector [EINPROGRESS])) as [w|f] eqn:E; [|done]. bool_prop.
  assert (T : turn (demo_connector [EINPROGRESS]) w) by (by apply (turn_action Start 5); [apply demo_connector_start|]).
  assert (I : inv_with false w).
  { apply (connector_turn_ok (demo_connector [EINPROGRESS])); [|done].
    by apply (new_connector_ok zero_in6 (net_loop handler functor) (demo_os [EINPROGRESS] 0) (net_loop_inv _ _)). }
  assert (Es : state_ (cn w) = kConnecting) by (by eapply bool_decide_eq_true).
  pose proof (iv_state _ _ I) as Hst. rewrite Es in Hst. destruct Hst as (_ & c & ch & B). pose proof B as (Ec & Hg & _).
  match goal with Hx : bool_decide (channel_ _ = Some 5) = true |- _ => apply bool_decide_eq_true in Hx; rewrite Ec in Hx; injection Hx as -> end.
  change (heap (lp w) !! 5 = Some ch) in Hg. rewrite Hg in *. exists w, 5, ch. bool_prop.
  match goal with Hx : fd_ ch = 1 |- _ => rewrite Hx end. split_and!; done.
Qed.


Lemma connector_backoff_witness :
  let w := on_cn (set_connect true) (demo_connector []) in
  timers (foldr retry w [7; 7; 7; 7; 7; 7; 7]) = [500; 1000; 2000; 4000; 8000; 16000; 30000] ∧
  timers (foldr retry w [7; 7; 7; 7; 7; 7; 7]) = timers w ++ (backoff <$> seq 0 7).
Proof.
  split; [vm_compute; reflexivity|].
  apply (connector_backoff 7 [7; 7; 7; 7; 7; 7; 7] (on_cn (set_connect true) (demo_connector []))); reflexivity.
Defined.

Lemma connector_verdict_witness :
  ∃ w c ch, start 5 (demo_connector [EINPROGRESS]) = Ok w ∧ busy false w c ch ∧
    safely (handleWrite w) (λ w', inv_with false w' ∧ ledger w w' ∧
      if attempt_succeeded (fd_ ch) (os w)
      then state_ (cn w') = kConnected ∧ timers w' = [] ∧
           handed w' = handed w ++ if connect_ (cn w) then [fd_ ch] else []
      else state_ (cn w') = kDisconnected ∧ handed w' = handed w ∧
           timers w' = if connect_ (cn w) then [retryDelayMs_ (cn w)] else []).
Proof.
  destruct demo_connecting as (w & c & ch & E & _ & I & Es & B & Hr & _). exists w, c, ch. split; [exact E|].
  split; [exact B|]. apply (connector_verdict w c ch); assumption.
Defined.

(** Both ways to the failing assert, on the connector of the examples: it is refused and then
    stopped and started; it is stopped while it connects. *)
Lemma connector_start_again_asserts_witness :
  match w ← start 5 (demo_connector [ECONNREFUSED; EINPROGRESS]); w ← stop w; start 6 w with
  | Ok w => state_ (cn w) = kConnecting ∧ timers w = [500] ∧ is_ok (timer_fires 7 w) = false
  | Fail _ => False
  end ∧
  ∃ w c ch w1, start 5 (demo_connector [EINPROGRESS]) = Ok w ∧ busy false w c ch ∧ stop w = Ok w1 ∧
    safely (handleWrite w1) (λ w', fd_ ch ∉ open_fds (os w') ∧ handed w' = handed w1 ∧
      start 6 w' = Fail AssertFailure).
Proof.
  split; [vm_compute; auto|].
  destruct demo_connecting as (w & c & ch & E & _ & I & Es & B & Hr & _ & Hv).
  pose proof (stop_ok w I) as Hstop. unfold stop in Hstop |- *. cbn in Hstop |- *.
  exists w, c, ch. eexists. split; [exact E|]. split; [exact B|]. split; [reflexivity|].
  destruct Hstop as [I1 _].
  match type of I1 with inv_with false ?w1 => destruct (connector_start_again_asserts w1 c ch 6 7 I1) as [_ H2] end.
  pose proof (queueInLoop_same FStopInLoop (lp w)) as SL. destruct B as (Ec & Hg & Hw & Hh & Ho).
  apply H2; [exact Es| |exact (sl_remove _ _ SL c Hr)|reflexivity|exact Hv].
  split_and!; [exact Ec|exact (eq_trans (sl_get _ _ SL c) Hg)|exact Hw|exact (proj1 (sl_has _ _ SL c) Hh)|exact Ho].
Defined.
