(* ===== verification/ClientTheorems.v ===== *)
(** Properties of the client (TcpClient.v), with the connections of TcpConnection.v. *)
From S2P Require Import Prelude.
From S2P Require Import Endian.
From S2P Require Import Format.
From S2P Require Import StringPiece.
From S2P Require Import CurrentThread.
From S2P Require Import Channel.
From S2P Require Import Poller.
From S2P Require Import EPollPoller.
From S2P Require Import Loop.
From S2P Require Import EventLoop.
From S2P Require Import TcpConnection.
From S2P Require Import Demo.
From S2P Require Import SocketsOps.
From S2P Require Import InetAddress.
From S2P Require Import NetDemo.
From S2P Require Import TcpServer.
From S2P Require Import TcpServerFacts.
From S2P Require Import Connector.
From S2P Require Import ConnectorFacts.
From S2P Require Import ConnectorRun.
From S2P Require Import ConnectorTheorems.
From S2P Require Import TcpClient.
From S2P Require Import TcpClientFacts.
From S2P Require Import TcpClientRun.
From S2P Require Import ServedConnection.
From S2P Require Import ServerTheorems.

Section client.
  Context {CB F L C : Type} `{!Loop CB F L, !LoopSpec CB F L, !LoopLaws CB F L}.
  Context `{!Host, !InetText, !SocketKernel} `{!ConnectorEnv CB F L, !ConnectorEnvLaws CB F L}.
  Context `{!CurrentThread} `{!ServedConnection C, !ServedConnectionLaws C, !ClientConnection C, !ClientConnectionLaws C}.
  Notation W := (ClientWorld L C).
  Implicit Types w : W.


(** After a connection has closed.  With retrying enabled, and unless [disconnect] or [stop]
    was called, the client starts an attempt at once, with the back-off at its beginning.  Otherwise
    nothing is attempted; but the connector still says it is connected, so that [connect] fails
    an assert: without retrying a client connects only once. *)
Theorem client_after_close chan ptr c e x w :
  client_inv w → cl w = Some x → cconns w !! c = Some e → connection_ x = Some c →
  channel_ (cn (cw w)) = None → room chan (cw w) →
  if retry_ x && client_connect_ x then
    safely (client_on_close chan ptr c w) (λ w', client_inv w' ∧ connect_ (cn (cw w')) = true ∧
      state_ (cn (cw w')) ≠ kConnected ∧ (timers (cw w') = [] ∨ timers (cw w') = [kInitRetryDelayMs]))
  else
    safely (client_on_close chan ptr c w) (λ w', cw w' = cw w ∧
      ∀ chan' ptr', client_connect chan' ptr' w' = Fail AssertFailure).
Proof.
  intros I Ex He Ec Hch Hroom. pose proof (ki_client _ I) as Hx. rewrite Ex in Hx. cbn in Hx. rewrite Ec in Hx.
  destruct Hx as (_ & Es & e2 & He2 & Ho & Er). rewrite He in He2. injection He2 as <-.
  pose proof (client_on_close_ok chan ptr c e w I He Ho Hch Hroom) as S0. pose proof (ki_connector _ I) as Ic.
  destruct (own_connection w c e I He Ho Er) as (_ & _ & _ & _ & Em).
  unfold client_on_close, client_deref in *. rewrite He in *. cbn in *.
  destruct (conn_closed (ce_conn e)) as [v|f]; [|by destruct (_ && _)]. cbn in *. rewrite Er in *.
  unfold client_removeConnection, the_client, assertInLoopThread in *. cbn in *. rewrite Ex, (iv_thread _ _ Ic) in *. cbn in *.
  rewrite bool_decide_eq_true_2 in * by done. cbn in *. destruct (retry_ x && client_connect_ x).
  - eapply safely_mono; [apply safely_and; [exact S0|]|].
    2:{ intros w' [Iw P]. split; [exact Iw|exact P]. }
    unfold with_connector in *. cbn in *. destruct (restart chan (cw w)) as [a|f] eqn:Ea; [|exact S0]. cbn in *.
    pose proof (restart_fresh chan (cw w) a Em Ea) as (Eh & P). rewrite Eh, drop_all. exact P.
  - split; [done|]. intros chan' ptr'. unfold client_connect, the_client, with_connector. cbn.
    by rewrite start_unless_disconnected by (rewrite ?Es; done || apply Ic).
Qed.
End client.

(** * Names *)

(** The names of a client's connections.  They end in the peer's address and a number, which
    fit in the buffer of 32 bytes together if they have at most 29 characters; of an address with
    30 characters or more, as IPv6 addresses can have, the number is cut off, and all connections
    get the same name. *)
Theorem client_names ipPort id :
  zlen (until_nul ipPort) + zlen (decimal id) ≤ 29 ∧
    client_suffix ipPort id = bytes_of_string ":" ++ until_nul ipPort ++ bytes_of_string "#" ++ decimal id ∨
  29 < zlen (until_nul ipPort) + zlen (decimal id) ∧ zlen (client_suffix ipPort id) = 31 ∧
    (30 ≤ zlen (until_nul ipPort) → client_suffix ipPort id = bytes_of_string ":" ++ ztake 30 (until_nul ipPort)).
Proof.
  set (s := bytes_of_string ":" ++ until_nul ipPort ++ bytes_of_string "#" ++ decimal id).
  assert (Hl : zlen s = 2 + zlen (until_nul ipPort) + zlen (decimal id)).
  { unfold s. rewrite !zlen_app. change (zlen (bytes_of_string ":")) with 1. change (zlen (bytes_of_string "#")) with 1. lia. }
  unfold client_suffix. fold s. destruct (Z.le_gt_cases (zlen (until_nul ipPort) + zlen (decimal id)) 29).
  - left. split; [done|]. by rewrite snprintf_fits by lia.
  - right. unfold snprintf. cbn [fst]. split; [done|]. split; [apply zlen_ztake; lia|]. intros Hip.
    unfold s. rewrite app_assoc, ztake_app_l; [done|]. rewrite zlen_app. change (zlen (bytes_of_string ":")) with 1. lia.
Qed.

(** * Witnesses: a client of the demo environment whose connections are TCP connections *)
Abbreviation DemoClient := (ClientWorld (EventLoop Connector.handler Connector.functor EPollPoller) (TcpConnection.World sockaddr DemoLoop)).

Definition demo_client (es : list Z) : DemoClient :=
  new_TcpClient zero_in6 (bytes_of_string "cli") (net_loop Connector.handler Connector.functor) (demo_os es 0).

(** What is looked at: the connection, the connector's state and timers, the connections, the queue. *)
Definition client_view (m : outcome DemoClient) :=
  match m with
  | Ok w => Some (connection_ <$> cl w, state_ (cn (cw w)), timers (cw w),
      (λ x, (ce_name x.2, conn_state (ce_conn x.2), ce_fd x.2, ce_destroyed x.2)) <$> map_to_list (cconns w), cqueue w)
  | Fail _ => None
  end.

(** The client connects, the socket becomes writable, the channel is freed. *)
Definition demo_connect (retry : bool) (w : DemoClient) : outcome DemoClient :=
  w ← (if retry then enableRetry w else Ok w);
  w ← client_connect 5 501 w;
  w ← with_connector 501 (perform (Events POLLOUT) 6) w;
  with_connector 502 (perform (RunFunctor FResetChannel) 6) w.

(** Up; down with a new attempt, which is refused; destroyed. *)
Example demo_client_up :
  client_view (demo_connect true (demo_client [EINPROGRESS; ECONNREFUSED])) =
  Some (Some (Some 501), kConnected, [], [(bytes_of_string "cli::0#1", TcpConnection.kConnected, 1, false)], []).
Proof. vm_compute. reflexivity. Qed.

Example demo_client_down :
  client_view (w ← demo_connect true (demo_client [EINPROGRESS; ECONNREFUSED]); client_on_close 6 502 501 w) =
  Some (Some None, kDisconnected, [500], [(bytes_of_string "cli::0#1", TcpConnection.kDisconnected, 1, false)], [ClientDestroyed 501]).
Proof. vm_compute. reflexivity. Qed.

Example demo_client_again :
  match w ← demo_connect false (demo_client [EINPROGRESS]); w ← client_on_close 6 502 501 w; client_connect 7 503 w with
  | Ok _ => False
  | Fail f => f = AssertFailure
  end.
Proof. vm_compute. reflexivity. Qed.

(** The number of the next connection. *)
Definition next_is (n : Z) (x : option TcpClient) : bool := match x with Some x => client_nextConnId_ x =? n | None => false end.
Definition is_none {A} (x : option A) : bool := match x with None => true | _ => false end.

Lemma client_room_is n ptr (w : DemoClient) :
  n < 1000 → is_none (cconns w !! ptr) = true → next_is n (cl w) = true → client_room ptr w.
Proof.
  intros Hn Hp Hi. split; [by destruct (cconns w !! ptr)|]. intros x Ex. rewrite Ex in Hi. cbn in Hi. bool_prop. lia.
Qed.

(** The client of the examples, up and with its connector's channel gone. *)
Lemma demo_up retry :
  ∃ w x e, demo_connect retry (demo_client [EINPROGRESS]) = Ok w ∧ rtc client_turn (demo_client [EINPROGRESS]) w ∧
    cl w = Some x ∧ connection_ x = Some 501 ∧ (retry_ x && client_connect_ x) = retry ∧
    cconns w !! 501 = Some e ∧ is_open (conn_state (ce_conn e)) = true ∧ ce_close e = RemoveByClient ∧
    channel_ (cn (cw w)) = None ∧ room 6 (cw w) ∧ client_inv w.
Proof.
  set (w0 := set_cl (mkClient (bytes_of_string "cli") retry true 1 None) (demo_client [EINPROGRESS])).
  assert (E0 : (if retry then enableRetry (demo_client [EINPROGRESS]) else Ok (demo_client [EINPROGRESS])) = Ok w0)
    by (by destruct retry).
  assert (Hv : match
      (w1 ← client_connect 5 501 w0; w2 ← with_connector 501 (perform (Events POLLOUT) 6) w1;
       w3 ← with_connector 502 (perform (RunFunctor FResetChannel) 6) w2; Ok (w1, w2, w3)) with
    | Ok (w1, w2, w3) =>
        bool_decide (state_ (cn (cw w1)) = kConnecting) && bool_decide (channel_ (cn (cw w1)) = Some 5) &&
        may_remove 5 (lp (cw w1)) && is_none (cconns w1 !! 501) && next_is 1 (cl w1) &&
        bool_decide (state_ (cn (cw w2)) = kConnected) && is_none (cconns w2 !! 502) && next_is 2 (cl w2) &&
        match cl w3, cconns w3 !! 501 with
        | Some x, Some e => bool_decide (connection_ x = Some 501) && Bool.eqb (retry_ x && client_connect_ x) retry &&
            is_open (conn_state (ce_conn e)) && match ce_close e with RemoveByClient => true | _ => false end &&
            bool_decide (channel_ (cn (cw w3)) = None) && is_none (heap (lp (cw w3)) !! 6) &&
            bool_decide (chmap (poller_ (lp (cw w3))) = ∅)
        | _, _ => false
        end
    | Fail _ => false end = true) by (destruct retry; vm_compute; reflexivity).
  unfold demo_connect. rewrite E0. cbn [mbind outcome_bind].
  destruct (client_connect 5 501 w0) as [w1|f] eqn:E1; [|done]. cbn [mbind outcome_bind] in *.
  destruct (with_connector 501 _ w1) as [w2|f] eqn:E2; [|done]. cbn [mbind outcome_bind] in *.
  destruct (with_connector 502 _ w2) as [w3|f] eqn:E3; [|done]. cbn [mbind outcome_bind] in *.
  rewrite !andb_true_iff, !bool_decide_eq_true in Hv.
  destruct Hv as ((((((((B1 & B2) & B3) & B4) & B5) & C1) & C2) & C3) & D).
  destruct (cl w3) as [x|] eqn:Ex; [|done]. destruct (cconns w3 !! 501) as [e|] eqn:Ee; [|done].
  rewrite !andb_true_iff, !bool_decide_eq_true in D. destruct D as ((((((D1 & D2) & D3) & D4) & D5) & D6) & D7).
  apply Bool.eqb_prop in D2. assert (T0 : rtc client_turn (demo_client [EINPROGRESS]) w0).
  { destruct retry; [|done]. apply rtc_once, (client_turn_move MoveRetry); [by eexists|exact E0]. }
  assert (T1 : client_turn w0 w1).
  { apply (client_turn_move (MoveConnect 5 501)); [|exact E1]. split; [by eexists|]. split; [done|].
    split; [done|]. intros fd Hfd _. by apply net_loop_free. }
  assert (T2 : client_turn w1 w2).
  { apply (client_turn_move (MoveConnector (Events POLLOUT) 6 501)); [|exact E2]. split; [done|]. split.
    - split; [done|]. intros c Ec. rewrite B2 in Ec. by injection Ec as <-.
    - by apply (client_room_is 1). }
  assert (T3 : client_turn w2 w3).
  { apply (client_turn_move (MoveConnector (RunFunctor FResetChannel) 6 502)); [|exact E3]. split; [done|]. split.
    - cbn. by rewrite C1.
    - by apply (client_room_is 2). }
  assert (R : rtc client_turn (demo_client [EINPROGRESS]) w3)
    by (etrans; [exact T0|]; eapply rtc_l; [exact T1|]; eapply rtc_l; [exact T2|]; by apply rtc_once).
  exists w3, x, e. split_and!; try done.
  - by destruct (ce_close e).
  - split; [by destruct (heap (lp (cw w3)) !! 6) eqn:E6|]. intros fd Hfd _. split; [done|]. split; [|done]. change (chmap (poller_ (lp (cw w3))) !! fd = None). by rewrite D7.
  - eapply client_turns_ok; [|exact R]. apply new_TcpClient_ok; [apply net_loop_inv|done].
Qed.


Lemma client_after_close_witness :
  (∃ w, safely (client_on_close 6 502 501 w) (λ w', client_inv w' ∧ connect_ (cn (cw w')) = true ∧
      state_ (cn (cw w')) ≠ kConnected ∧ (timers (cw w') = [] ∨ timers (cw w') = [kInitRetryDelayMs])) ∧
      demo_connect true (demo_client [EINPROGRESS]) = Ok w) ∧
  ∃ w, safely (client_on_close 6 502 501 w) (λ w', cw w' = cw w ∧
      ∀ chan' ptr', client_connect chan' ptr' w' = Fail AssertFailure) ∧
      demo_connect false (demo_client [EINPROGRESS]) = Ok w.
Proof.
  split.
  - destruct (demo_up true) as (w & x & e & E & R & Ex & Ec & Eb & He & Ho & Er & Hch & Hroom & I).
    exists w. split; [|exact E]. pose proof (client_after_close 6 502 501 e x w I Ex He Ec Hch Hroom) as P.
    rewrite Eb in P. exact P.
  - destruct (demo_up false) as (w & x & e & E & R & Ex & Ec & Eb & He & Ho & Er & Hch & Hroom & I).
    exists w. split; [|exact E]. pose proof (client_after_close 6 502 501 e x w I Ex He Ec Hch Hroom) as P.
    rewrite Eb in P. exact P.
Defined.
