(* ===== verification/Echo.v ===== *)
(** The echo server of test/src/echo.cpp: its callbacks as a user program, and a whole
    conversation: over any turns of the loop, what a connection gives back is what it received.

    The facts of TcpConnectionRun.v hold for every user program; here the program is the echo
    server's, so its effect on the byte stream is known exactly. *)
From S2P Require Import Prelude.
From S2P Require Import CurrentThread.
From S2P Require Import StringPiece.
From S2P Require Import Buffer.
From S2P Require Import BufferFacts.
From S2P Require Import Channel.
From S2P Require Import Poller.
From S2P Require Import EPollPoller.
From S2P Require Import Loop.
From S2P Require Import EventLoop.
From S2P Require Import TcpConnection.
From S2P Require Import TcpConnectionFacts.
From S2P Require Import TcpConnectionLife.
From S2P Require Import TcpConnectionRun.
From S2P Require Import Demo.

(** [EchoServer::onConnection] only logs. *)
Definition onConnection {Addr} (c : TcpConnection Addr) : list api := [].

(** [EchoServer::onMessage]: take everything, send it back as a [string]. *)
Definition onMessage {Addr} (c : TcpConnection Addr) : list api :=
  [ARetrieveAll; ASendString (content (inputBuffer_ c))].

Definition echo_user {Addr} : UserCallbacks Addr :=
  mkUser onConnection onMessage (λ _, []) (λ _ _, []).

Section echo.
  Context {Addr CB F L : Type} `{!Loop CB F L, !LoopSpec CB F L, !LoopLaws CB F L}.
  Context `{!TcpSocket} `{!ConnEnv CB F L, !ConnEnvLaws CB F L} `{!CurrentThread}.
  Notation W := (World Addr L).
  Implicit Types w : W.

(** A read of [bs] into an empty buffer: everything is taken out again and sent back, up to the
    first NUL. *)
Lemma echo_read w s' bs n o b :
  isInLoopThread (lp w) = true → state_ (conn w) = kConnected → bs ≠ [] → zlen bs < 2 ^ 31 →
  sock_readv (sk w) (iov_capacity (inputBuffer_ (conn w))) = (s', ReadBytes bs) →
  readFd (ReadBytes bs) (inputBuffer_ (conn w)) = Ok (n, o, b) → n = zlen bs → content b = bs →
  handleRead echo_user w =
  sendInLoop (until_nul bs) (log_event (EvMessage bs) (on_conn (set_input (retrieveAll b)) (set_sk s' w))).
Proof.
  intros Ht Hs Hne Hlen Er Ef -> Cb. unfold handleRead. rewrite assert_thread_ok, bind_Ok, Er, Ef, bind_Ok by done.
  rewrite (proj2 (Z.ltb_lt _ _)) by (destruct bs; [done|zlia]).
  unfold call_message. cbn. rewrite Cb. unfold send_string.
  destruct (of_string_view bs Hlen) as (p & -> & _ & Hv). cbn. rewrite Hv.
  unfold send, connected. cbn. rewrite bool_decide_eq_true_2 by done. rewrite run_in_loop_here by done.
  unfold log_event, on_conn, set_sk. cbn. by destruct (sendInLoop _ _).
Qed.

Lemma echo_capacity w s' bs :
  sock_readv (sk w) (iov_capacity (inputBuffer_ (conn w))) = (s', ReadBytes bs) →
  zlen bs ≤ iov_capacity (inputBuffer_ (conn w)).
Proof.
  intros Er. eapply sock_readv_fits, Er. unfold iov_capacity, extrabuf_size.
  pose proof (u64_range (size (inputBuffer_ (conn w)) - writerIndex_ (inputBuffer_ (conn w)))).
  unfold writableBytes. case_match; lia.
Qed.

(** What comes back is the message up to its first NUL byte. *)
Lemma echo_reply w s' bs :
  inv w → isInLoopThread (lp w) = true → state_ (conn w) = kConnected →
  content (inputBuffer_ (conn w)) = [] → bs ≠ [] → zlen bs < 2 ^ 31 →
  sock_readv (sk w) (iov_capacity (inputBuffer_ (conn w))) = (s', ReadBytes bs) →
  safely (handleRead echo_user w) (λ w',
    trace w' = trace w ++ [EvMessage bs] ∧ content (inputBuffer_ (conn w')) = [] ∧
    (stream w' = stream w ++ until_nul bs ∨
     stream w' = stream w ∧ write_fault (set_sk s' w) (until_nul bs))).
Proof.
  intros I Ht Hs Hin Hne Hlen Er. pose proof I as [IL If Ii Io Ic].
  pose proof (readFd_safely bs _ Ii (echo_capacity w s' bs Er)) as Hrd.
  destruct (readFd (ReadBytes bs) (inputBuffer_ (conn w))) as [[[n o] b]|e] eqn:Ef; cbn in Hrd.
  2:{ unfold handleRead. by rewrite assert_thread_ok, bind_Ok, Er, Ef by done. }
  destruct Hrd as (E & Wb & Cb). injection E as -> ->. rewrite Hin in Cb. cbn in Cb.
  rewrite (echo_read w s' bs (zlen bs) None b) by done.
  destruct (retrieveAll_spec b Wb) as [Wr Cr]. set (w2 := log_event _ _).
  assert (I2 : inv w2) by (by split).
  assert (Hst : state_ (conn w2) = kConnected) by done.
  pose proof (until_nul_len bs) as Hu.
  pose proof (sendInLoop_ok (until_nul bs) w2 I2 Ht ltac:(rewrite Hst; done) ltac:(lia)) as Hsend.
  destruct (sendInLoop (until_nul bs) w2) as [w3|] eqn:E3; cbn in *; [|done].
  rewrite (sendInLoop_keeps_input _ _ _ E3). cbn. rewrite Cr.
  destruct Hsend as [Es Hcase]. split_and!; [|done|].
  - destruct Hcase as [[_ A]|[A _]]; by rewrite (ad_trace _ _ _ A).
  - destruct Hcase as [[_ A]|[A [Hd|Hf]]].
    + left. by rewrite (ad_stream _ _ _ A).
    + congruence.
    + right. rewrite (ad_stream _ _ _ A), app_nil_r. done.
Qed.
End echo.

(** The reply to ["hi"], and to a message with a NUL byte in it. *)
Example echo_hi :
  observe (w ← run_demo echo_user (mkScript [] [bytes_of_string "hi"]) [FConnectEstablished];
           handleRead echo_user w)
  = Some (bytes_of_string "hi", [], false, kConnected,
          [EvConnection kConnected; EvMessage (bytes_of_string "hi")], []).
Proof. by vm_compute. Qed.

Example echo_nul :
  observe (w ← run_demo echo_user (mkScript [] [[Byte.x68; Byte.x00; Byte.x69]]) [FConnectEstablished];
           handleRead echo_user w)
  = Some ([Byte.x68], [], false, kConnected,
          [EvConnection kConnected; EvMessage [Byte.x68; Byte.x00; Byte.x69]], []).
Proof. by vm_compute. Qed.

(** * Messages and replies *)
Definition messages (t : list event) : list (list byte) :=
  omap (λ e, match e with EvMessage bs => Some bs | _ => None end) t.
Definition replies (t : list event) : list (list byte) := until_nul <$> messages t.

Lemma messages_app t t' : messages (t ++ t') = messages t ++ messages t'.
Proof. apply omap_app. Qed.

(** * The input buffer between two messages *)
Record idle (b : Buffer) : Prop := {
  id_wf : Buffer.wf b;
  id_content : content b = [];
  id_writer : writerIndex_ b = kCheapPrepend;
  id_size : size b ≤ 2 ^ 18
}.

Lemma idle_capacity b : idle b → iov_capacity b < 2 ^ 31.
Proof.
  intros [W _ E Hs]. pose proof (writableBytes_wf b W). unfold iov_capacity, extrabuf_size, kCheapPrepend in *.
  case_match; lia.
Qed.

(** A read that fits into the vector does not grow it. *)
Lemma readFd_in_place bs b n o b' :
  Buffer.wf b → zlen bs ≤ writableBytes b → readFd (ReadBytes bs) b = Ok (n, o, b') → size b' = size b.
Proof.
  intros W Hle E. unfold readFd in E. rewrite ztake_all in E by done.
  destruct (fill_spec bs b W Hle) as (v & Es & _ & _ & _ & Hv). rewrite Es, bind_Ok in E.
  rewrite (proj2 (Z.leb_le _ _) Hle) in E. injection E as _ _ <-. exact Hv.
Qed.

(** The end of the stream leaves the buffer idle. *)
Lemma idle_eof b n o b' : idle b → readFd (ReadBytes []) b = Ok (n, o, b') → n = 0 ∧ idle b'.
Proof.
  intros [W Hc Hw Hs] E. pose proof (writableBytes_wf b W) as EW. pose proof W as (HR & HS & H8).
  assert (Hle : zlen (@nil byte) ≤ writableBytes b) by (change (zlen (@nil byte)) with 0; lia).
  assert (Hcap : zlen (@nil byte) ≤ iov_capacity b) by (unfold iov_capacity, extrabuf_size; case_match; lia).
  pose proof (readFd_in_place [] b n o b' W Hle E) as Hsz. pose proof (readFd_safely [] b W Hcap) as Hrd.
  pose proof (safely_ok _ _ _ E Hrd) as (En & W' & C'). cbn in En, W', C'. injection En as -> ->.
  split; [done|]. split; [done|by rewrite C', Hc| |lia].
  unfold readFd in E. change (zlen (@nil byte)) with 0 in E. destruct (store _ _ _) as [v|]; [|done].
  rewrite bind_Ok, (proj2 (Z.leb_le 0 _)) in E by lia. injection E as <-. cbn [writerIndex_]. by rewrite Hw.
Qed.

(** Taking everything out again leaves the buffer idle, and of bounded size. *)
Lemma idle_read bs b n o b' :
  idle b → zlen bs ≤ iov_capacity b → readFd (ReadBytes bs) b = Ok (n, o, b') →
  n = zlen bs ∧ content b' = bs ∧ idle (retrieveAll b').
Proof.
  intros [W Hc Hw Hs] Hcap E. pose proof (writableBytes_wf b W) as EW. pose proof W as (HR & HS & H8).
  assert (Hmax : writerIndex_ b + zlen bs ≤ max_vector_size).
  { unfold iov_capacity, extrabuf_size, max_vector_size, kCheapPrepend in *. case_match; lia. }
  destruct (readFd_spec bs b W Hcap Hmax) as (b2 & E2 & W2 & C2 & S2).
  rewrite E in E2. injection E2 as -> -> <-. rewrite Hc in C2. split_and!; [done|done|].
  destruct (retrieveAll_spec b' W2) as [Wr Cr]. split; [done|done|done|].
  change (size (retrieveAll b')) with (size b').
  destruct (Z.le_gt_cases (zlen bs) (writableBytes b)) as [Hle|Hgt].
  - by rewrite (readFd_in_place bs b _ _ b' W Hle E).
  - unfold iov_capacity, iovcnt, extrabuf_size, kCheapPrepend in *.
    destruct (Z.ltb_spec (writableBytes b) 65536); cbn in Hcap; lia.
Qed.

Section conversation.
  Context {Addr CB F L : Type} `{!Loop CB F L, !LoopSpec CB F L, !LoopLaws CB F L}.
  Context `{!TcpSocket} `{!ConnEnv CB F L, !ConnEnvLaws CB F L} `{!CurrentThread}.
  Notation W := (World Addr L).
  Implicit Types w : W.

(** * The socket over time *)
Inductive sock_next : sock → sock → Prop :=
| next_write s d s' r : sock_write s d = (s', r) → sock_next s s'
| next_read s cap s' r : sock_readv s cap = (s', r) → sock_next s s'
| next_shutdown s : sock_next s (sock_shutdownWrite s).

(** No write ever finds the peer gone. *)
Definition sturdy (s : sock) : Prop :=
  ∀ s' d e, rtc sock_next s s' → (sock_write s' d).2 = WriteError e → e ≠ EPIPE ∧ e ≠ ECONNRESET.

Lemma sturdy_no_fault s w data : sturdy s → rtc sock_next s (sk w) → ¬ write_fault w data.
Proof. intros Hs Hr (e & E & He). destruct (Hs _ _ _ Hr E). tauto. Qed.

Lemma queue_sock f w w' : queue f w = Ok w' → sk w' = sk w.
Proof. intros E. unfold queue in E. by inv_ok. Qed.
Lemma on_channel_sock m w w' : on_channel m w = Ok w' → sk w' = sk w.
Proof. intros E. unfold on_channel in E. by inv_ok. Qed.

Lemma buffer_rest_sock data n r w w' : buffer_rest data n r w = Ok w' → sk w' = sk w.
Proof.
  intros E. unfold buffer_rest in E. apply bind_ok in E as (w1 & E1 & E).
  assert (Es : sk w1 = sk w).
  { destruct (_ && _) in E1; [by rewrite (queue_sock _ _ _ E1)|by injection E1 as <-]. }
  apply bind_ok in E as (b & _ & E). apply bind_ok in E as (ch & _ & E).
  destruct (negb _); [|by injection E as <-]. by rewrite (on_channel_sock _ _ _ E).
Qed.

Lemma try_write_sock data w w' n r fault :
  try_write data w = Ok (w', n, r, fault) → sock_next (sk w) (sk w').
Proof.
  unfold try_write. destruct (sock_write (sk w) data) as [s [nw|e]] eqn:Es; intros E.
  - apply bind_ok in E as (w1 & E1 & E). injection E as <- _ _ _.
    assert (sk w1 = s) as ->.
    { destruct (_ && _); [by rewrite (queue_sock _ _ _ E1)|by injection E1 as <-]. }
    by eapply next_write.
  - injection E as <- _ _ _. by eapply next_write.
Qed.

Lemma sendInLoop_sock data w w' : sendInLoop data w = Ok w' → rtc sock_next (sk w) (sk w').
Proof.
  intros E. unfold sendInLoop in E. apply bind_ok in E as (_ & _ & E).
  case_bool_decide; [by injection E as <-|]. apply bind_ok in E as (ch & _ & E).
  apply bind_ok in E as ([[[w1 n] r] fault] & E1 & E). apply bind_ok in E as (_ & _ & E).
  assert (Hr : rtc sock_next (sk w) (sk w1)).
  { destruct (_ && _) in E1; [|by injection E1 as <-]. eapply rtc_once, try_write_sock, E1. }
  destruct (_ && _) in E; [|by injection E as <-]. by rewrite (buffer_rest_sock _ _ _ _ _ E).
Qed.

Lemma handleWrite_sock w w' :
  handleWrite w = Ok w' → rtc sock_next (sk w) (sk w') ∧ inputBuffer_ (conn w') = inputBuffer_ (conn w).
Proof.
  unfold handleWrite. intros E. apply bind_ok in E as (_ & _ & E). apply bind_ok in E as (ch & _ & E).
  destruct (isWriting ch); [|by injection E as <-]. apply bind_ok in E as (data & _ & E).
  destruct (sock_write (sk w) data) as [s [n|e]] eqn:Es.
  2:{ injection E as <-. split; [|done]. eapply rtc_once, next_write, Es. }
  assert (Hs : sock_next (sk w) s) by (by eapply next_write).
  destruct (0 <? n); [|injection E as <-; split; [by apply rtc_once|done]].
  apply bind_ok in E as (b & _ & E). destruct (readableBytes b =? 0) in E.
  2:{ injection E as <-. split; [by apply rtc_once|done]. }
  apply bind_ok in E as (w1 & E1 & E). apply bind_ok in E as (w2 & E2 & E).
  assert (Hw1 : sk w1 = s ∧ inputBuffer_ (conn w1) = inputBuffer_ (conn w)) by (unfold on_channel in E1; by inv_ok).
  assert (Hw2 : sk w2 = sk w1 ∧ conn w2 = conn w1).
  { destruct (writeCompleteCallback_ _) in E2; [unfold queue in E2; by inv_ok|by injection E2 as <-]. }
  destruct Hw1 as [S1 I1], Hw2 as [S2 I2]. case_bool_decide.
  - unfold shutdownInLoop in E. apply bind_ok in E as (_ & _ & E). apply bind_ok in E as (ch' & _ & E).
    destruct (negb (isWriting ch')) in E; injection E as <-; cbn; rewrite ?S2, ?S1, ?I2, ?I1; (split; [|done]).
    + eapply rtc_l; [exact Hs|]. apply rtc_once. apply next_shutdown.
    + by apply rtc_once.
  - injection E as <-. rewrite S2, S1, I2, I1. split; [by apply rtc_once|done].
Qed.

(** * The echo server's calls *)

(** [handleClose] reports and changes nothing else. *)
Lemma echo_handleClose w w' :
  handleClose echo_user w = Ok w' →
  sk w' = sk w ∧ stream w' = stream w ∧ inputBuffer_ (conn w') = inputBuffer_ (conn w) ∧
  state_ (conn w') = kDisconnected ∧ messages (trace w') = messages (trace w).
Proof.
  intros E. unfold handleClose, call_connection, call_close, on_channel in E. inv_ok. cbn in *. inv_ok. cbn.
  split_and!; try done. rewrite !messages_app. cbn. by rewrite !app_nil_r.
Qed.

Lemma echo_connectEstablished w w' :
  connectEstablished echo_user w = Ok w' →
  sk w' = sk w ∧ stream w' = stream w ∧ inputBuffer_ (conn w') = inputBuffer_ (conn w) ∧
  state_ (conn w') = kConnected ∧ messages (trace w') = messages (trace w).
Proof.
  intros E. unfold connectEstablished, call_connection, on_channel in E. inv_ok. cbn in *. inv_ok. cbn.
  split_and!; try done. rewrite !messages_app. cbn. by rewrite !app_nil_r.
Qed.

(** * The conversation *)

(** Everything received so far has been given back, message by message; on a socket whose peer can
    go away, some replies may be missing. *)
Record echoing (s0 : sock) w : Prop := {
  ec_input : idle (inputBuffer_ (conn w));
  ec_sock : rtc sock_next s0 (sk w);
  ec_state : state_ (conn w) ≠ kDisconnecting;
  ec_stream : ∃ l, l `sublist_of` replies (trace w) ∧ stream w = concat l ∧ (sturdy s0 → l = replies (trace w))
}.

Lemma echoing_frame s0 w w' :
  echoing s0 w → inputBuffer_ (conn w') = inputBuffer_ (conn w) → rtc sock_next (sk w) (sk w') →
  state_ (conn w') ≠ kDisconnecting → stream w' = stream w → messages (trace w') = messages (trace w) →
  echoing s0 w'.
Proof.
  intros [Hi Hk _ Hl] Ei Hr Hs Es Em. split; [by rewrite Ei|by etrans|done|].
  unfold replies in *. by rewrite Es, Em.
Qed.

(** Without NUL bytes, with nothing in the buffer and a peer that stays, the wire has the messages. *)
Lemma echoing_wire s0 w :
  echoing s0 w → sturdy s0 → Forall (λ m, Byte.x00 ∉ m) (messages (trace w)) →
  content (outputBuffer_ (conn w)) = [] → wire w = concat (messages (trace w)).
Proof.
  intros [_ _ _ (ls & _ & Hstr & Hall)] Hsturdy Hnul Hout. rewrite (Hall Hsturdy) in Hstr.
  unfold stream in Hstr. rewrite Hout, app_nil_r in Hstr. rewrite Hstr. f_equal. unfold replies.
  rewrite <- (list_fmap_id (messages (trace w))) at 2. apply list_fmap_ext. intros i m Hm.
  apply until_nul_id. rewrite list.Forall_forall in Hnul. by apply Hnul, (list_elem_of_lookup_2 _ i).
Qed.

Lemma echoing_loop s0 l w : echoing s0 w → echoing s0 (set_lp l w).
Proof. intros Ec. apply (echoing_frame s0 w); try done. apply Ec. Qed.

Lemma echoing_close s0 w w' : echoing s0 w → handleClose echo_user w = Ok w' → echoing s0 w'.
Proof.
  intros Ec E. destruct (echo_handleClose _ _ E) as (Ek & Es & Ei & Hs & Em).
  eapply echoing_frame; [exact Ec|done|by rewrite Ek|by rewrite Hs|done|done].
Qed.

(** A message: its reply joins the stream, unless the peer is gone. *)
Lemma echoing_message s0 w w' s' bs :
  inv w → isInLoopThread (lp w) = true → state_ (conn w) = kConnected → echoing s0 w → bs ≠ [] →
  sock_readv (sk w) (iov_capacity (inputBuffer_ (conn w))) = (s', ReadBytes bs) →
  handleRead echo_user w = Ok w' → echoing s0 w'.
Proof.
  intros I Ht Hst [Hi Hk _ (l & Hsub & El & Hall)] Hne Er E.
  pose proof (echo_capacity w s' bs Er) as Hcap. pose proof (idle_capacity _ Hi) as Hlt.
  destruct (readFd (ReadBytes bs) (inputBuffer_ (conn w))) as [[[n o] b]|e] eqn:Ef.
  2:{ unfold handleRead in E. by rewrite assert_thread_ok, bind_Ok, Er, Ef in E by done. }
  destruct (idle_read bs _ n o b Hi Hcap Ef) as (En & Cb & Hidle).
  pose proof (safely_ok _ _ _ E (echo_reply w s' bs I Ht Hst (id_content _ Hi) Hne ltac:(lia) Er)) as (Htr & _ & Hstr).
  rewrite (echo_read w s' bs n o b) in E by (done || lia).
  pose proof (sendInLoop_keeps_input _ _ _ E) as Ei. pose proof (sendInLoop_sock _ _ _ E) as Hks. cbn in Ei, Hks.
  assert (Hnext : rtc sock_next s0 s') by (eapply rtc_r; [exact Hk|by eapply next_read]).
  set (w2 := log_event _ _) in E.
  assert (I2 : inv w2) by (split; try apply I; apply Hidle).
  assert (Es : state_ (conn w') = kConnected).
  { pose proof (until_nul_len bs). assert (Hs2 : state_ (conn w2) = kConnected) by done.
    pose proof (sendInLoop_ok (until_nul bs) w2 I2 Ht ltac:(rewrite Hs2; done) ltac:(lia)) as Hsend.
    destruct (safely_ok _ _ _ E Hsend) as [-> _]. done. }
  split; [by rewrite Ei|by etrans|by rewrite Es|].
  unfold replies in *. rewrite Htr, messages_app, fmap_app. cbn.
  destruct Hstr as [Hstr|[Hstr Hfault]].
  - exists (l ++ [until_nul bs]). split_and!; [by apply sublist_app| |intros Hs; by rewrite Hall].
    rewrite Hstr, El, concat_app. cbn. by rewrite app_nil_r.
  - exists l. split_and!; [by apply sublist_inserts_r|by rewrite Hstr|].
    intros Hs. exfalso. by apply (sturdy_no_fault s0 (set_sk s' w) (until_nul bs) Hs Hnext).
Qed.

Lemma echoing_read s0 w w' :
  inv w → isInLoopThread (lp w) = true → open (conn w) = true → echoing s0 w →
  handleRead echo_user w = Ok w' → echoing s0 w'.
Proof.
  intros I Ht Ho Ec E.
  destruct (sock_readv (sk w) (iov_capacity (inputBuffer_ (conn w)))) as [s' r] eqn:Er.
  assert (Hnext : rtc sock_next (sk w) s') by (eapply rtc_once, next_read, Er).
  destruct r as [[|x bs]|e].
  - unfold handleRead in E. rewrite assert_thread_ok, bind_Ok, Er in E by done.
    apply bind_ok in E as ([[n o] b] & Ef & E).
    destruct (idle_eof _ n o b (ec_input _ _ Ec) Ef) as [-> Hb]. cbn in E.
    apply (echoing_close s0 (on_conn (set_input b) (set_sk s' w))); [|done].
    destruct Ec as [Hi Hk Hst Hl]. split; [done|by etrans|done|done].
  - apply (echoing_message s0 w w' s' (x :: bs)); try done.
    pose proof (ec_state _ _ Ec). unfold open in Ho. by destruct (state_ (conn w)).
  - unfold handleRead in E. rewrite assert_thread_ok, bind_Ok, Er in E by done. cbn in E. injection E as <-.
    eapply echoing_frame; [exact Ec|done|done|apply Ec|done|done].
Qed.

(** * Turns of the loop *)

(** The same program with a guard against messages that have no [int] length; it meets the obligations
    of TcpConnectionLife.v, and behaves the same on what one read can bring. *)
Definition cautious_user : UserCallbacks Addr :=
  mkUser onConnection (λ c, if zlen (content (inputBuffer_ c)) <? 2 ^ 31 then onMessage c else []) (λ _, []) (λ _ _, []).

Lemma cautious_user_ok : user_ok cautious_user.
Proof.
  split; try done. intros c _. unfold calls_ok, cautious_user. cbn.
  destruct (Z.ltb_spec (zlen (content (inputBuffer_ c))) (2 ^ 31)); cbn; [|done].
  split_and?; try done.
Qed.

Lemma cautious_handleRead w :
  isInLoopThread (lp w) = true → idle (inputBuffer_ (conn w)) → handleRead echo_user w = handleRead cautious_user w.
Proof.
  intros Ht Hi. unfold handleRead. rewrite assert_thread_ok, !bind_Ok by done.
  destruct (sock_readv (sk w) (iov_capacity (inputBuffer_ (conn w)))) as [s' [bs|e]] eqn:Er; [|done].
  destruct (readFd (ReadBytes bs) (inputBuffer_ (conn w))) as [[[n o] b]|] eqn:Ef; [|done]. rewrite !bind_Ok.
  destruct (idle_read bs _ n o b Hi (echo_capacity w s' bs Er) Ef) as (-> & Cb & _).
  destruct (0 <? zlen bs); [|done]. unfold call_message. cbn. rewrite Cb.
  pose proof (echo_capacity w s' bs Er). pose proof (idle_capacity _ Hi).
  rewrite (proj2 (Z.ltb_lt (zlen bs) _)) by lia. unfold onMessage. cbn. by rewrite Cb.
Qed.

(** The handlers, with what they keep. *)
Section turns.
  Variable s0 : sock.

Lemma echo_close_step w :
  inv w → isInLoopThread (lp w) = true → open (conn w) = true → echoing s0 w →
  safely (handleClose echo_user w) (λ w', progress w w' ∧ echoing s0 w').
Proof.
  intros I Ht Ho Ec. change (handleClose echo_user w) with (handleClose cautious_user w).
  pose proof (handleClose_progress cautious_user cautious_user_ok w I Ht Ho) as Hp.
  destruct (handleClose cautious_user w) as [w'|] eqn:E; cbn in *; [|done].
  split; [done|]. by apply (echoing_close s0 w).
Qed.

Lemma echo_read_step w :
  inv w → isInLoopThread (lp w) = true → open (conn w) = true → echoing s0 w →
  safely (handleRead echo_user w) (λ w', progress w w' ∧ echoing s0 w').
Proof.
  intros I Ht Ho Ec. pose proof (handleRead_progress cautious_user cautious_user_ok w I Ht Ho) as Hp.
  rewrite <- cautious_handleRead in Hp by (done || apply Ec).
  destruct (handleRead echo_user w) as [w'|] eqn:E; cbn in *; [|done].
  split; [done|]. by apply (echoing_read s0 w).
Qed.

Lemma echo_write_step w :
  inv w → isInLoopThread (lp w) = true → echoing s0 w →
  safely (handleWrite w) (λ w', progress w w' ∧ echoing s0 w').
Proof.
  intros I Ht Ec. pose proof (handleWrite_ok w I Ht) as Hw.
  destruct (handleWrite w) as [w'|] eqn:E; cbn in *; [|done]. destruct Hw as (A & Es & _).
  destruct (handleWrite_sock _ _ E) as [Hk Hi]. split; [apply (progress_plain [] _ _ A); by rewrite Es|].
  apply (echoing_frame s0 w); try done.
  - rewrite Es. apply Ec.
  - by rewrite (ad_stream _ _ _ A), app_nil_r.
  - by rewrite (ad_trace _ _ _ A).
Qed.

(** What the loop does with an echo connection: it is established, its channel's events are handled,
    and the rest of the loop goes on. *)
Inductive echo_turn : W → W → Prop :=
| turn_established w w' :
    state_ (conn w) = kConnecting → connectEstablished echo_user w = Ok w' → echo_turn w w'
| turn_dispatch r w w' :
    open (conn w) = true → close_fires r = false ∨ read_fires r = false →
    dispatch_events echo_user r w = Ok w' → echo_turn w w'
| turn_other w l : same_loop (lp w) l → echo_turn w (set_lp l w).

Lemma echo_dispatch_ok r w :
  alive w → echoing s0 w → open (conn w) = true → close_fires r = false ∨ read_fires r = false →
  safely (dispatch_events echo_user r w) (λ w', alive w' ∧ echoing s0 w').
Proof.
  intros Ha Ec Ho Hex. destruct (iv_channel _ (al_inv _ Ha)) as (ch & Hc & _).
  eapply safely_mono.
  { apply (dispatch_events_with echo_user (echoing s0) (echoing_loop s0)
             echo_close_step echo_read_step echo_write_step r w ch); try done; apply Ha. }
  intros w' [Hp He]. split; [|done]. eapply progress_alive; [by apply (alive_reported r ch)|done].
Qed.

Lemma echo_turn_alive w w' : alive w ∧ echoing s0 w → echo_turn w w' → alive w' ∧ echoing s0 w'.
Proof.
  intros [Ha Ec] T. destruct T as [w w' Hs E|r w w' Ho Hex E|w l Hl].
  - split.
    + apply (turn_alive cautious_user cautious_user_ok w w' Ha). by apply (turn_functor _ FConnectEstablished).
    + destruct (echo_connectEstablished _ _ E) as (Ek & Es & Ei & Hst & Em).
      apply (echoing_frame s0 w); try done; [by rewrite Ek|by rewrite Hst].
  - exact (safely_ok _ _ _ E (echo_dispatch_ok r w Ha Ec Ho Hex)).
  - split; [|by apply echoing_loop].
    apply (turn_alive cautious_user cautious_user_ok w _ Ha). by apply turn_elsewhere.
Qed.

Lemma echo_turns w w' : rtc echo_turn w w' → alive w ∧ echoing s0 w → alive w' ∧ echoing s0 w'.
Proof. induction 1; intros Ha; [done|]. eauto using echo_turn_alive. Qed.
End turns.

(** A connection that was just constructed. *)
Lemma new_connection_echoing name fd chan (a1 a2 : Addr) c ch (l : L) (s : sock) :
  new_TcpConnection (CB:=CB) name fd chan a1 a2 = Ok (c, ch) → echoing s (mkWorld c l s [] false []).
Proof.
  unfold new_TcpConnection. destruct (new_buffer_spec kInitialSize) as (b & -> & Wb & Cb & Sb & Ww & _); [done|].
  cbn. intros [= <- <-]. split; cbn; [|done|done|].
  - split; [done|done|done|]. rewrite Sb. done.
  - exists []. unfold stream. cbn. by rewrite Cb.
Qed.
End conversation.
