(* ===== verification/TcpTheorems.v ===== *)
(** Properties of a TCP connection (TcpConnection.v) and of the echo server (Echo.v). *)
From S2P Require Import Prelude.
From S2P Require Import CurrentThread.
From S2P Require Import StringPiece.
From S2P Require Import Buffer.
From S2P Require Import BufferFacts.
From S2P Require Import Channel.
From S2P Require Import Poller.
From S2P Require Import EPollPoller.
From S2P Require Import Loop.
From S2P Require Import EventLoop.
From S2P Require Import TcpConnection.
From S2P Require Import TcpConnectionFacts.
From S2P Require Import TcpConnectionLife.
From S2P Require Import TcpConnectionRun.
From S2P Require Import Demo.
From S2P Require Import Echo.

Lemma default_user_ok {Addr} : @user_ok Addr default_user.
Proof. split; intros; done. Qed.

Section connection.
  Context {Addr CB F L : Type} `{!Loop CB F L, !LoopSpec CB F L, !LoopLaws CB F L}.
  Context `{!TcpSocket} `{!ConnEnv CB F L, !ConnEnvLaws CB F L} `{!CurrentThread}.
  Notation W := (World Addr L).
  Implicit Types w : W.


(** C19: sending.  On an established connection, in its loop's thread, [sendInLoop] appends the
    data to what the peer receives, in order and without loss or duplication, split between
    the kernel and the output buffer; only a write that fails for good drops it, and after the
    connection is down nothing is sent. *)
Theorem send_extends_stream data w :
  inv w → isInLoopThread (lp w) = true → state_ (conn w) ≠ kConnecting → zlen data < 2 ^ 63 →
  safely (sendInLoop data w) (λ w', inv w' ∧ state_ (conn w') = state_ (conn w) ∧
    wire w `prefix_of` wire w' ∧
    (stream w' = stream w ++ data ∨
     stream w' = stream w ∧ (state_ (conn w) = kDisconnected ∨ write_fault w data))).
Proof.
  intros I Ht Hs Hl. eapply safely_mono; [by apply sendInLoop_ok|].
  intros w' [Es [[_ A]|[A Hd]]]; (split_and!; [apply A|done|apply A|]).
  - left. apply A.
  - right. split; [|done]. by rewrite (ad_stream _ _ _ A), app_nil_r.
Qed.

(** C20: graceful shutdown.  [shutdownInLoop] half-closes the socket only if no data waits;
    otherwise the last [handleWrite] that empties the output buffer does it.  Neither loses
    or reorders a byte. *)
Theorem shutdown_after_data w :
  inv w → isInLoopThread (lp w) = true →
  (∃ w', shutdownInLoop w = Ok w' ∧ stream w' = stream w ∧ conn w' = conn w ∧
     (open (conn w) = true → fin w' = fin w || bool_decide (content (outputBuffer_ (conn w)) = []))) ∧
  safely (handleWrite w) (λ w', inv w' ∧ stream w' = stream w ∧
     (state_ (conn w) = kDisconnecting → content (outputBuffer_ (conn w)) ≠ [] →
      content (outputBuffer_ (conn w')) = [] → fin w' = true)).
Proof.
  intros I Ht. split.
  - destruct (shutdownInLoop_ok w I Ht) as (w' & E & A & Ec & _ & Hf). exists w'.
    split_and!; try done. by rewrite (ad_stream _ _ _ A), app_nil_r.
  - eapply safely_mono; [by apply handleWrite_ok|]. intros w' (A & _ & Hf). split_and!; [apply A| |done].
    by rewrite (ad_stream _ _ _ A), app_nil_r.
Qed.

(** C21: the end.  [connectDestroyed] on a connection that is up or down reports "down" at
    most once, unregisters the channel and leaves the object ready for its destructor; but on
    a connection that is still shutting down (as TcpServer's destructor may find it) the
    channel is still watched and [Channel::remove]'s assert fails. *)
Theorem connection_destroyed user w :
  user_ok user → inv w → isInLoopThread (lp w) = true → can_remove (lp w) (channel_ (conn w)) →
  (state_ (conn w) = kConnected ∨ state_ (conn w) = kDisconnected →
   safely (connectDestroyed user w) (λ w', destroyed w' ∧ stream w' = stream w ∧
     trace w' = trace w ++ (if bool_decide (state_ (conn w) = kConnected)
                            then [EvConnection kDisconnected] else []))) ∧
  (state_ (conn w) = kDisconnecting → connectDestroyed user w = Fail AssertFailure).
Proof.
  intros Hu I Ht Hr. split; intros Hs.
  - by apply connectDestroyed_ok.
  - by apply connectDestroyed_while_disconnecting.
Qed.

(** The echo server answers a message with its bytes up to the first NUL: the reply goes
    through a [std::string] that becomes a [StringPiece] by [strlen]. *)
Theorem echo_truncates_at_nul w s' bs :
  inv w → isInLoopThread (lp w) = true → state_ (conn w) = kConnected →
  content (inputBuffer_ (conn w)) = [] → bs ≠ [] → zlen bs < 2 ^ 31 →
  sock_readv (sk w) (iov_capacity (inputBuffer_ (conn w))) = (s', ReadBytes bs) →
  safely (handleRead echo_user w) (λ w',
    trace w' = trace w ++ [EvMessage bs] ∧ content (inputBuffer_ (conn w')) = [] ∧
    (stream w' = stream w ++ until_nul bs ∨
     stream w' = stream w ∧ write_fault (set_sk s' w) (until_nul bs))).
Proof. apply echo_reply. Qed.
End connection.

(** * Witnesses: a connection of the demo environment, just established *)
Definition demo_world (s : @sock demo_socket) : outcome DemoWorld :=
  run_demo default_user s [FConnectEstablished].

(** What the evaluation of [demo_world] shows. *)
Definition established (m : outcome DemoWorld) : bool :=
  match m with
  | Ok w => bool_decide (state_ (conn w) = kConnected) &&
            bool_decide (content (inputBuffer_ (conn w)) = []) &&
            (iov_capacity (inputBuffer_ (conn w)) =? 66560) && may_remove (channel_ (conn w)) (lp w)
  | Fail _ => false
  end.

Lemma demo_established (s : @sock demo_socket) :
  ∃ c ch w, new_TcpConnection (F:=functor) (L:=DemoLoop) (bytes_of_string "c") 7 100 tt tt = Ok (c, ch) ∧
    demo_world s = Ok w ∧ turn default_user (mkWorld c (put_channel 100 ch demo_loop) s [] false []) w ∧
    alive w ∧ state_ (conn w) = kConnected ∧ content (inputBuffer_ (conn w)) = [] ∧ sk w = s ∧
    iov_capacity (inputBuffer_ (conn w)) = 66560 ∧ can_remove (lp w) (channel_ (conn w)).
Proof.
  assert (Hobs : established (demo_world s) = true) by (vm_compute; reflexivity).
  assert (Hsk : match demo_world s with Ok w => sk w | Fail _ => s end = s) by (vm_compute; reflexivity).
  destruct (new_connection_alive (bytes_of_string "c") 7 100 tt tt demo_loop s demo_loop_inv)
    as (c & ch & E & Ha & Es); try done.
  exists c, ch. unfold demo_world, run_demo, demo_connection in *. rewrite E in *. cbn [mbind outcome_bind foldl] in *.
  set (w0 := mkWorld c _ s _ _ _) in *.
  destruct (run_functor default_user FConnectEstablished w0) as [w|f] eqn:Er; [|done].
  cbn [established] in Hobs. bool_prop.
  assert (Ht : turn default_user w0 w) by (by apply (turn_functor _ FConnectEstablished)).
  exists w. split_and!; try done; try (by eapply bool_decide_eq_true); try (by eapply turn_alive, Ht; [apply default_user_ok|]).
Qed.

Definition quiet : @sock demo_socket := mkScript [] [].


Lemma send_extends_stream_witness :
  ∃ w, demo_world quiet = Ok w ∧
    safely (sendInLoop (bytes_of_string "hello") w) (λ w', inv w' ∧ state_ (conn w') = state_ (conn w) ∧
      wire w `prefix_of` wire w' ∧
      (stream w' = stream w ++ bytes_of_string "hello" ∨
       stream w' = stream w ∧ (state_ (conn w) = kDisconnected ∨ write_fault w (bytes_of_string "hello")))).
Proof.
  destruct (demo_established quiet) as (c & ch & w & _ & E & _ & Ha & Hs & _).
  exists w. split; [exact E|]. apply send_extends_stream; [apply Ha|apply Ha|by rewrite Hs|by vm_compute].
Defined.

Lemma shutdown_after_data_witness :
  ∃ w, demo_world quiet = Ok w ∧
    (∃ w', shutdownInLoop w = Ok w' ∧ stream w' = stream w ∧ conn w' = conn w ∧
       (open (conn w) = true → fin w' = fin w || bool_decide (content (outputBuffer_ (conn w)) = []))) ∧
    safely (handleWrite w) (λ w', inv w' ∧ stream w' = stream w ∧
       (state_ (conn w) = kDisconnecting → content (outputBuffer_ (conn w)) ≠ [] →
        content (outputBuffer_ (conn w')) = [] → fin w' = true)).
Proof.
  destruct (demo_established quiet) as (c & ch & w & _ & E & _ & Ha & Hs & _).
  exists w. split; [exact E|]. apply shutdown_after_data; apply Ha.
Defined.

Lemma connection_destroyed_witness :
  ∃ w, demo_world quiet = Ok w ∧ state_ (conn w) = kConnected ∧
    safely (connectDestroyed default_user w) (λ w', destroyed w' ∧ stream w' = stream w ∧
      trace w' = trace w ++ (if bool_decide (state_ (conn w) = kConnected)
                             then [EvConnection kDisconnected] else [])).
Proof.
  destruct (demo_established quiet) as (c & ch & w & _ & E & _ & Ha & Hs & _ & _ & _ & Hr).
  exists w. split_and!; [exact E|exact Hs|].
  destruct (connection_destroyed default_user w default_user_ok (al_inv _ Ha) (al_thread _ Ha) Hr) as [Hd _].
  apply Hd. by left.
Defined.

(** The shutting-down case: half-closing an established connection reaches it. *)
Example demo_destroyed_while_disconnecting :
  match demo_world (mkScript [2] []) with
  | Ok w => match w ← sendInLoop (bytes_of_string "abc") w; shutdown w with
            | Ok w => (state_ (conn w), is_ok (connectDestroyed default_user w)) = (kDisconnecting, false)
            | Fail _ => False
            end
  | Fail _ => False
  end.
Proof. vm_compute. reflexivity. Qed.

Lemma echo_truncates_at_nul_witness :
  ∃ w, demo_world (mkScript [] [[Byte.x68; Byte.x00; Byte.x69]]) = Ok w ∧
    safely (handleRead echo_user w) (λ w',
      trace w' = trace w ++ [EvMessage [Byte.x68; Byte.x00; Byte.x69]] ∧
      content (inputBuffer_ (conn w')) = [] ∧
      (stream w' = stream w ++ [Byte.x68] ∨
       stream w' = stream w ∧ write_fault (set_sk (mkScript [] []) w) [Byte.x68])).
Proof.
  destruct (demo_established (mkScript [] [[Byte.x68; Byte.x00; Byte.x69]]))
    as (c & ch & w & _ & E & _ & Ha & Hs & Hi & Hk & Hc & _).
  exists w. split; [exact E|].
  apply (echo_truncates_at_nul w (mkScript [] []) [Byte.x68; Byte.x00; Byte.x69]);
    [apply Ha|apply Ha|exact Hs|exact Hi|done|by vm_compute|by rewrite Hk, Hc].
Defined.

(** Why reading must not be restarted once the connection is down: [startRead] looks at no state, so a
    callback that calls it when it is told of the close watches the channel again, and the
    [connectDestroyed] that follows fails the assert of [Channel::remove]. *)
Definition restarting_user : UserCallbacks unit :=
  mkUser (λ c, if disconnected c then [AStartRead] else []) (λ _, []) (λ _, []) (λ _ _, []).

Example start_read_after_close :
  (run_demo restarting_user (mkScript [] []) [FConnectEstablished; FForceCloseInLoop; FConnectDestroyed],
   is_ok (run_demo default_user (mkScript [] []) [FConnectEstablished; FForceCloseInLoop; FConnectDestroyed]))
  = (Fail AssertFailure, true).
Proof. vm_compute. reflexivity. Qed.
