(* ===== verification/EchoTheorems.v ===== *)
(** Properties of the echo server (Echo.v). *)
From S2P Require Import Prelude.
From S2P Require Import CurrentThread.
From S2P Require Import StringPiece.
From S2P Require Import Buffer.
From S2P Require Import BufferFacts.
From S2P Require Import Channel.
From S2P Require Import Poller.
From S2P Require Import EPollPoller.
From S2P Require Import Loop.
From S2P Require Import EventLoop.
From S2P Require Import TcpConnection.
From S2P Require Import TcpConnectionFacts.
From S2P Require Import TcpConnectionLife.
From S2P Require Import TcpConnectionRun.
From S2P Require Import Demo.
From S2P Require Import Echo.

Section echo.
  Context {Addr CB F L : Type} `{!Loop CB F L, !LoopSpec CB F L, !LoopLaws CB F L}.
  Context `{!TcpSocket} `{!ConnEnv CB F L, !ConnEnvLaws CB F L} `{!CurrentThread}.
  Implicit Types w : World Addr L.

(** A conversation with the echo server.  From the constructor of the connection on, over any
    turns of its loop, however the messages arrive and however little the kernel takes at a time:
    what the peer has got and will get is the messages up to their first NUL bytes, in order and
    each once; if the peer is never gone for a write none is missing, so without NUL bytes and with
    an empty output buffer the wire carries exactly what was received; and no event of the next turn
    can fail an assert. *)
Theorem echo_conversation name fd chan (a1 a2 : Addr) (l : L) (s : sock) c ch w :
  loop_inv l → isInLoopThread l = true → get_channel chan l = None → fd_free l fd → 0 ≤ fd →
  new_TcpConnection name fd chan a1 a2 = Ok (c, ch) →
  rtc echo_turn (mkWorld c (put_channel chan ch l) s [] false []) w →
  (∃ ls, ls `sublist_of` replies (trace w) ∧ stream w = concat ls ∧ (sturdy s → ls = replies (trace w))) ∧
  (sturdy s → Forall (λ m, Byte.x00 ∉ m) (messages (trace w)) → content (outputBuffer_ (conn w)) = [] →
   wire w = concat (messages (trace w))) ∧
  (∀ r, open (conn w) = true → close_fires r = false ∨ read_fires r = false →
     safely (dispatch_events echo_user r w) (λ w', inv w' ∧ wire w `prefix_of` wire w' ∧ echo_turn w w')).
Proof.
  intros Hl Ht Hc Hfree Hfd E Hw.
  destruct (new_connection_alive name fd chan a1 a2 l s Hl Ht Hc Hfree Hfd) as (c' & ch' & E' & Ha & _).
  rewrite E in E'. injection E' as <- <-.
  pose proof (new_connection_echoing name fd chan a1 a2 c ch (put_channel chan ch l) s E) as Hec.
  destruct (echo_turns s _ _ Hw (conj Ha Hec)) as [Ha' Hec']. pose proof (ec_stream _ _ Hec') as Hs.
  split_and!; [exact Hs| |].
  - exact (echoing_wire _ _ Hec').
  - intros r Ho Hex. destruct (iv_channel _ (al_inv _ Ha')) as (ch2 & Hc2 & _).
    pose proof (dispatch_events_with echo_user (echoing s) (echoing_loop s) (echo_close_step s)
      (echo_read_step s) (echo_write_step s) r w ch2 (al_inv _ Ha') (al_thread _ Ha') Ho Hec' Hc2 Hex) as Hd.
    destruct (dispatch_events echo_user r w) as [w'|] eqn:Ed; cbn in *; [|done]. destruct Hd as [Hp _].
    split_and!; [by eapply progress_inv| |by eapply turn_dispatch].
    destruct Hp as (evs & sent & A & _). apply (ad_wire _ _ _ A).
Qed.
End echo.

(** * Witness *)

(** Two messages; the kernel takes one byte, then waits for a writability event. *)
Definition talk : @sock demo_socket := mkScript [1] [bytes_of_string "hi"; bytes_of_string "yo"].

Definition demo_dispatch (r : Z) (w : DemoWorld) : outcome DemoWorld :=
  if open (conn w) then dispatch_events echo_user r w else Fail AssertFailure.
Definition demo_talk : outcome DemoWorld :=
  w ← demo_connection talk;
  w ← (if decide (state_ (conn w) = kConnecting) then connectEstablished echo_user w else Fail AssertFailure);
  w ← demo_dispatch POLLIN w;
  w ← demo_dispatch POLLIN w;
  demo_dispatch POLLOUT w.

Definition talked (m : outcome DemoWorld) : bool :=
  match m with
  | Ok w => bool_decide (content (outputBuffer_ (conn w)) = []) &&
            bool_decide (messages (trace w) = [bytes_of_string "hi"; bytes_of_string "yo"])
  | Fail _ => false
  end.

Lemma demo_dispatch_turn r w w' :
  close_fires r = false → demo_dispatch r w = Ok w' → echo_turn w w'.
Proof.
  intros Hr E. unfold demo_dispatch in E. destruct (open (conn w)) eqn:Ho; [|done].
  apply (turn_dispatch r); auto.
Qed.

Lemma demo_talk_turns w :
  demo_talk = Ok w →
  ∃ c ch, new_TcpConnection (F:=functor) (L:=DemoLoop) (bytes_of_string "c") 7 100 tt tt = Ok (c, ch) ∧
    rtc echo_turn (mkWorld c (put_channel 100 ch demo_loop) talk [] false []) w.
Proof.
  unfold demo_talk, demo_connection. intros E.
  destruct (new_TcpConnection (bytes_of_string "c") 7 100 tt tt) as [[c ch]|] eqn:En; [|done].
  exists c, ch. split; [done|]. cbn [mbind outcome_bind] in E. set (w0 := mkWorld c _ _ _ _ _) in *.
  apply bind_ok in E as (w1 & E1 & E). destruct (decide _) as [Hs|] in E1; [|done]. apply bind_ok in E as (w2 & E2 & E). apply bind_ok in E as (w3 & E3 & E4).
  eapply rtc_l; [by apply turn_established, E1|].
  eapply rtc_l; [by eapply demo_dispatch_turn, E2|].
  eapply rtc_l; [by eapply demo_dispatch_turn, E3|].
  apply rtc_once. by eapply demo_dispatch_turn, E4.
Qed.

(** The limits of the script are no errors. *)
Lemma talk_sturdy : sturdy talk.
Proof.
  assert (Hn : ∀ s s', rtc sock_next s s' → Forall (Z.le 0) (limits s) → Forall (Z.le 0) (limits s')).
  { induction 1 as [|s1 s2 s3 Hn _ IH]; [done|]. intros Hs. apply IH. revert Hs.
    destruct Hn as [s d s' r E|s cap s' r E|s]; cbn in *; [| |done].
    - destruct (limits s) as [|n ns] eqn:El; injection E as <- _; rewrite ?El; [done|]. cbn. by inversion 1.
    - by destruct (arriving s); injection E as <- _. }
  intros s' d e Hr E. assert (Hs : Forall (Z.le 0) (limits s')) by (apply (Hn talk); [done|repeat constructor; lia]).
  cbn in E. destruct (limits s') as [|n ns]; [done|]. inversion Hs. cbn in E.
  by rewrite (proj2 (Z.ltb_ge _ _)) in E by done.
Qed.

Lemma echo_conversation_witness :
  ∃ w, demo_talk = Ok w ∧ wire w = bytes_of_string "hiyo".
Proof.
  assert (Ht : isInLoopThread demo_loop = true) by reflexivity.
  assert (Hc : get_channel 100 demo_loop = None) by reflexivity.
  assert (Hf : fd_free demo_loop 7) by done.
  assert (Hnul : Forall (λ m, Byte.x00 ∉ m) [bytes_of_string "hi"; bytes_of_string "yo"])
    by (by apply (bool_decide_eq_true_1 _)).
  assert (Hobs : talked demo_talk = true) by (vm_compute; reflexivity).
  destruct demo_talk as [w|] eqn:Et; [|discriminate Hobs]. exists w. split; [reflexivity|].
  destruct (demo_talk_turns w Et) as (c & ch & E & Hr). cbn [talked] in Hobs.
  apply andb_true_iff in Hobs as [Ho%bool_decide_eq_true Hm%bool_decide_eq_true].
  destruct (echo_conversation (bytes_of_string "c") 7 100 tt tt demo_loop talk c ch w demo_loop_inv Ht Hc Hf
              ltac:(lia) E Hr) as (_ & Hw & _).
  rewrite Hm in Hw. exact (Hw talk_sturdy Hnul Ho).
Defined.
