(* ===== verification/ServiceTheorems.v ===== *)
(** Properties of many connections on one loop (Service.v). *)
From S2P Require Import Prelude.
From S2P Require Import CurrentThread.
From S2P Require Import StringPiece.
From S2P Require Import Buffer.
From S2P Require Import BufferFacts.
From S2P Require Import Channel.
From S2P Require Import Poller.
From S2P Require Import EPollPoller.
From S2P Require Import Loop.
From S2P Require Import EventLoop.
From S2P Require Import TcpConnection.
From S2P Require Import TcpConnectionFacts.
From S2P Require Import TcpConnectionLife.
From S2P Require Import TcpConnectionRun.
From S2P Require Import Demo.
From S2P Require Import Echo.
From S2P Require Import Service.
From S2P Require Import Footprint.
From S2P Require Import ServiceFacts.
From S2P Require Import ServiceRun.

(** * The echo server's program keeps its conversations *)
Section echo.
  Context {Addr : Type} `{!TcpSocket, !EpollKernel, !EventFd, !CurrentThread}.
  Notation L := (EventLoop callback bound_functor EPollPoller).
  Variable c : ChannelPtr.
  #[local] Hint Extern 0 (ConnEnv _ _ _) => exact (connection_env c) : typeclass_instances.
  Implicit Types w : World Addr L.

Lemma echo_established s w :
  inv w → isInLoopThread (lp w) = true → state_ (conn w) = kConnecting → echoing s w →
  safely (connectEstablished echo_user w) (λ w', progress w w' ∧ echoing s w' ∧ open (conn w') = true).
Proof.
  intros I Ht Hs Ec. change (connectEstablished echo_user w) with (connectEstablished cautious_user w).
  pose proof (connectEstablished_ok cautious_user cautious_user_ok w I Ht Hs) as Hok.
  destruct (connectEstablished cautious_user w) as [w'|] eqn:E; [|done]. destruct Hok as (sent & A & Ho).
  destruct (echo_connectEstablished w w' E) as (Ek & Es & Ei & Hst & Em). split_and!; [|..|done].
  - eapply progress_intro; [exact A|]. by rewrite Hs, (open_calls _ Ho).
  - apply (echoing_frame s w); try done; [by rewrite Ek|by rewrite Hst].
Qed.

Lemma echo_plain s f w :
  inv w → isInLoopThread (lp w) = true → state_ (conn w) ≠ kConnecting → plain f = true → echoing s w →
  safely (run_functor echo_user f w) (λ w', progress w w' ∧ echoing s w').
Proof.
  intros I Ht Hs Hf Ec. change (run_functor echo_user f w) with (run_functor cautious_user f w).
  pose proof (run_functor_ok cautious_user cautious_user_ok f w I Ht) as Hok.
  destruct (run_functor cautious_user f w) as [w'|e] eqn:E; [|apply Hok; by destruct f].
  split; [apply Hok; by destruct f|]. destruct f; try discriminate Hf; cbn in E.
  - unfold forceCloseInLoop in E. apply bind_ok in E as (_ & _ & E).
    destruct (open _) in E; [by apply (echoing_close s w)|by injection E as <-].
  - injection E as <-. apply (echoing_frame s w); try done; [apply Ec|]. cbn. rewrite messages_app. cbn. by rewrite app_nil_r.
  - injection E as <-. apply (echoing_frame s w); try done; [apply Ec|]. cbn. rewrite messages_app. cbn. by rewrite app_nil_r.
Qed.

Lemma echo_keeps_on : keeps_on (Addr := Addr) c echo_user echoing plain.
Proof.
  split.
  - intros s l w. apply echoing_loop.
  - intros. by eapply new_connection_echoing.
  - apply echo_established.
  - apply echo_close_step.
  - apply echo_read_step.
  - apply echo_write_step.
  - apply echo_plain.
  - intros s w _ _ _ (x & n & us & Hin). cbn in Hin. set_solver.
Qed.
End echo.

(** Nobody else sends on its connections. *)
Lemma echo_keeps {Addr} `{!TcpSocket, !EpollKernel, !EventFd, !CurrentThread} :
  keeps (Addr := Addr) echo_user echoing plain nothing.
Proof.
  split; try done.
  - intros c. apply echo_keeps_on.
  - intros f Hf. unfold ordinary. apply orb_prop_intro. by left.
Qed.

Section service.
  Context {Addr : Type} `{!TcpSocket, !EpollKernel, !EventFd, !CurrentThread}.
  Notation L := (EventLoop callback bound_functor EPollPoller).
  Notation V := (Service (Addr := Addr)).
  Variables (Q : sock → World Addr L → Prop) (G : functor → bool).
  Implicit Types (sv : V) (s : seat (Addr := Addr)).

(** * What the invariant says of one connection *)



End service.

Section theorems.
  Context {Addr : Type} `{!TcpSocket, !EpollKernel, !EventFd, !CurrentThread}.
  Notation L := (EventLoop callback bound_functor EPollPoller).
  Notation V := (Service (Addr := Addr)).
  Implicit Types (sv : V) (s : seat (Addr := Addr)).

(** * Any program *)


(** * The echo server *)

(** C7: the echo server with any number of clients on one loop.  When no other thread sends on them,
    however the clients' messages are interleaved, each connection's peer has got and will get its
    own messages up to their first NUL bytes, in order and each once; if that peer is never gone for a
    write none is missing, so without NUL bytes and with an empty output buffer its wire carries
    exactly what was received from it; and no further round can fail an assert. *)
Theorem echo_clients junk other epfd wake_fd wake sv0 sv :
  new_service junk other epfd wake_fd wake = Ok sv0 → rtc (service_step echo_user nothing) sv0 sv →
  (∀ c s, sv_conns sv !! c = Some s →
     (∃ ls, ls `sublist_of` replies (s_trace s) ∧ s_wire s ++ content (outputBuffer_ (s_conn s)) = concat ls ∧
            (sturdy (s_first s) → ls = replies (s_trace s))) ∧
     (sturdy (s_first s) → Forall (λ m, Byte.x00 ∉ m) (messages (s_trace s)) →
      content (outputBuffer_ (s_conn s)) = [] → s_wire s = concat (messages (s_trace s)))) ∧
  (∀ r, wait_ok r (poller_ (sv_loop sv)) → safely (service_round echo_user r sv) (service_step echo_user nothing sv)).
Proof.
  intros E0 T. pose proof (safely_ok _ _ _ E0 (new_service_ok echo_user echoing plain nothing echo_keeps junk other epfd wake_fd wake)) as I0.
  pose proof (service_steps_ok echo_user echoing plain nothing echo_keeps sv0 sv I0 T) as I. split.
  - intros c s Hs. pose proof (so_program _ _ _ _ _ _ (si_seats _ _ _ _ I c s Hs)) as Ec.
    split; [exact (ec_stream _ _ Ec)|exact (echoing_wire _ _ Ec)].
  - intros r Hr. pose proof (service_round_ok echo_user echoing plain nothing echo_keeps r sv I Hr) as Hok.
    destruct (service_round echo_user r sv) as [sv'|] eqn:E; [|done]. by eapply step_round.
Qed.
End theorems.

(** * Witness: two clients on descriptors 7 and 8, one of which hangs up *)
Definition client_script (bss : list (list byte)) : @sock demo_socket := mkScript [1] bss.

Definition two_clients (user : UserCallbacks unit) : outcome Service :=
  sv ← new_service false false 3 4 1;
  sv ← admit_connection user (bytes_of_string "a") 7 100 tt tt (client_script [bytes_of_string "hi"]) sv;
  admit_connection user (bytes_of_string "b") 8 200 tt tt (client_script [[]]) sv.

Definition both_readable : epoll_wait_result := WaitEvents [(1, 100); (1, 200)].

(** A place for a client, decided. *)
Definition vacant (c : ChannelPtr) (fd : Z) (sv : Service (Addr := unit)) : bool :=
  bool_decide (heap (sv_loop sv) !! c = None) && bool_decide (chmap (poller_ (sv_loop sv)) !! fd = None).

Definition both_watched (sv : Service (Addr := unit)) : bool :=
  bool_decide (interest (epollfd (poller_ (sv_loop sv))) !! 7 = Some (3, 100)) &&
  bool_decide (interest (epollfd (poller_ (sv_loop sv))) !! 8 = Some (3, 200)) &&
  (2 <=? events_size (poller_ (sv_loop sv))).

Definition and_then {A} (m : outcome A) (P : A → bool) : bool := match m with Ok a => P a | Fail _ => false end.

(** The run of the demo and everything it needs, decided in one go. *)
Definition demo_runs (user : UserCallbacks unit) : bool :=
  and_then (new_service false false 3 4 1) (λ sv0, vacant 100 7 sv0 &&
  and_then (admit_connection user (bytes_of_string "a") 7 100 tt tt (client_script [bytes_of_string "hi"]) sv0) (λ sv1,
    vacant 200 8 sv1 &&
  and_then (admit_connection user (bytes_of_string "b") 8 200 tt tt (client_script [[]]) sv1) (λ sv2,
    both_watched sv2 &&
  and_then (service_round user both_readable sv2) (λ sv3,
    bool_decide (sv_conns sv3 !! 200 = None) &&
    bool_decide ((λ s, (open (s_conn s), s_wire s, content (outputBuffer_ (s_conn s)))) <$> sv_conns sv3 !! 100
                 = Some (true, bytes_of_string "h", bytes_of_string "i")))))).

Lemma both_wait_ok sv : both_watched sv = true → wait_ok both_readable (poller_ (sv_loop sv)).
Proof.
  unfold both_watched. intros [[H7 H8]%andb_prop Hn]%andb_prop. apply bool_decide_eq_true in H7, H8.
  apply Z.leb_le in Hn. split; [split; [exact Hn|]|split].
  - intros rev c Hin. apply elem_of_cons in Hin as [E|Hin]; [injection E as -> ->; by exists 7, 3|].
    apply list_elem_of_singleton in Hin. injection Hin as -> ->. by exists 8, 3.
  - by apply (bool_decide_eq_true_1 _).
  - by repeat constructor.
Qed.

Lemma vacant_free c fd sv : vacant c fd sv = true →
  heap (sv_loop sv) !! c = None ∧ chmap (poller_ (sv_loop sv)) !! fd = None.
Proof. unfold vacant. intros [H1 H2]%andb_prop. by apply bool_decide_eq_true in H1, H2. Qed.

(** The run as steps. *)
Lemma demo_steps user (calls : api → Prop) : demo_runs user = true →
  ∃ sv0 sv s, new_service false false 3 4 1 = Ok sv0 ∧ rtc (service_step user calls) sv0 sv ∧ sv_conns sv !! 200 = None ∧
    sv_conns sv !! 100 = Some s ∧ open (s_conn s) = true ∧ s_wire s = bytes_of_string "h" ∧ content (outputBuffer_ (s_conn s)) = bytes_of_string "i".
Proof.
  unfold demo_runs. destruct (new_service false false 3 4 1) as [sv0|] eqn:E0; [|discriminate]. cbn [and_then].
  intros [V1 Hr]%andb_prop. destruct (vacant_free _ _ _ V1) as [Hc1 Hf1].
  destruct (admit_connection _ _ _ _ _ _ _ sv0) as [sv1|] eqn:E1; [|discriminate Hr]. cbn [and_then] in Hr.
  apply andb_prop in Hr as [V2 Hr]. destruct (vacant_free _ _ _ V2) as [Hc2 Hf2].
  destruct (admit_connection _ _ _ _ _ _ _ sv1) as [sv2|] eqn:E2; [|discriminate Hr]. cbn [and_then] in Hr.
  apply andb_prop in Hr as [V3 Hr]. destruct (service_round _ _ sv2) as [sv3|] eqn:E3; [|discriminate Hr].
  cbn [and_then] in Hr. apply andb_prop in Hr as [Hg Hs]. apply bool_decide_eq_true in Hg, Hs.
  destruct (sv_conns sv3 !! 100) as [s|] eqn:Es; [|discriminate Hs]. injection Hs as Hopen Hw Ho.
  exists sv0, sv3, s. split_and!; [reflexivity| |exact Hg|exact Es|exact Hopen|exact Hw|exact Ho].
  eapply rtc_l; [by eapply step_admit, E1|]. eapply rtc_l; [by eapply step_admit, E2|].
  apply rtc_once. eapply step_round, E3. by apply both_wait_ok.
Qed.

Example demo_runs_echo : demo_runs echo_user = true.
Proof. vm_compute. reflexivity. Qed.



Lemma echo_clients_witness :
  ∃ (sv : Service (Addr := unit)) s ls, sv_conns sv !! 100 = Some s ∧ ls `sublist_of` replies (s_trace s) ∧
    bytes_of_string "hi" = concat ls.
Proof.
  destruct (demo_steps echo_user nothing demo_runs_echo) as (sv0 & sv & s & E0 & T & _ & Hs & _ & Hw & Hout).
  destruct (echo_clients false false 3 4 1 sv0 sv E0 T) as [Hseats _].
  destruct (Hseats 100 s Hs) as [(ls & Hsub & Hstr & _) _]. exists sv, s, ls. split; [exact Hs|]. split; [exact Hsub|].
  rewrite <- Hstr, Hw, Hout. reflexivity.
Defined.

(** Why a call of another thread must be one step: [send] tests the state and then queues a functor
    bound to the bare [this].  Here the peer hangs up in between, the round deletes the connection,
    and the caller gives its pointer up: the functor is called on an object that is gone. *)
Definition late_send : outcome Service :=
  sv ← two_clients echo_user;
  _ ← require (bool_decide ((λ s, connected (s_conn s)) <$> sv_conns sv !! 200 = Some true));
  sv ← service_round echo_user both_readable sv;
  service_round echo_user (WaitEvents [])
    (on_loop (queueInLoop_ (H0 := as_thread 2) (200, FSendInLoop (bytes_of_string "x"))) sv).

Example send_outlives_connection : late_send = Fail UndefinedBehaviour.
Proof. vm_compute. reflexivity. Qed.
