(* ===== verification/EchoServer.v ===== *)
(** The echo server of test/src/echo.cpp as a program: the class EchoServer, the logging set-up
    and [main] up to the call of [loop()].  Its callbacks are in Echo.v. *)
From S2P Require Import Prelude.
From S2P Require Import Endian.
From S2P Require Import Format.
From S2P Require Import StringPiece.
From S2P Require Import Buffer.
From S2P Require Import LogStream.
From S2P Require Import AsyncLogging.
From S2P Require Import CurrentThread.
From S2P Require Import Logging.
From S2P Require Import LoggingFacts.
From S2P Require Import Channel.
From S2P Require Import Loop.
From S2P Require Import SocketsOps.
From S2P Require Import InetAddress.
From S2P Require Import TcpConnection.
From S2P Require Import Socket.
From S2P Require Import Acceptor.
From S2P Require Import EventLoopThreadPool.
From S2P Require Import TcpServer.
From S2P Require Import TcpServerFacts.
From S2P Require Import TcpServerRun.

(** * Logging *)
Definition kRollSize : Z := 500 * 1000 * 1000.

(** [g_asyncLog]: a [unique_ptr], null at first. *)
Definition asyncOutput (junk msg : list byte) (len : Z) (g_asyncLog : option AsyncLogging)
  : outcome (option AsyncLogging) :=
  match g_asyncLog with
  | Some a => a ← AsyncLogging.append junk msg len a; Ok (Some a)
  | None => Fail UndefinedBehaviour
  end.

(** strncpy(3): the string [src], filled up with NULs, [n] bytes in all. *)
Definition strncpy (src : list byte) (n : Z) : list byte :=
  ztake n (until_nul src ++ replicate (Z.to_nat n) Byte.x00).

(** [setLogging]: [argv0] is the memory of the argument, [out] the address of [asyncOutput]; the
    result is the name for the log files and the logger, which is then started.  basename(3) of
    string.h and the [string] that is made of its result read up to a NUL. *)
Definition setLogging (out : Z) (argv0 junk1 junk2 : list byte) (g : log_globals)
  : outcome (list byte * AsyncLogging * log_globals) :=
  let g := setOutput (UserLogFunc out) g in
  let name := strncpy argv0 256 in
  slash ← strrchr name Byte.x2f;
  let base := match slash with Some i => zdrop (i + 1) name | None => name end in
  Ok (until_nul base, set_running true (new_AsyncLogging junk1 junk2), g).

(** * The server *)
Section echo.
  Context {CB F L C : Type} `{!Loop CB F L} `{!Host, !InetText, !SocketKernel} `{!AcceptorEnv CB}.
  Context `{!CurrentThread} `{!ServedConnection C}.
  Notation W := (World L C).

(** The callbacks that the constructor installs are those of [C]. *)
Definition new_EchoServer (loop : LoopPtr) (listenAddr : sockaddr) (chan : ChannelPtr) (l : L) (k : kernel) : outcome W :=
  new_TcpServer loop listenAddr (bytes_of_string "EchoServer") false chan l k.

Definition echo_start (here : LoopPtr) (fresh : nat → LoopPtr) (w : W) : outcome W := start here false fresh w.

(** [main] after [setLogging], up to [loop.loop()]. *)
Definition main (loop : LoopPtr) (junk : sockaddr) (chan : ChannelPtr) (fresh : nat → LoopPtr) (l : L) (k : kernel)
  : outcome W :=
  let listenAddr := InetAddress_of_port junk 2007 false false in
  server ← new_EchoServer loop listenAddr chan l k;
  echo_start loop fresh server.
End echo.

(** * What they do *)

Lemma strncpy_short m s n : c_string m s → zlen s < n → c_string (strncpy m n) s.
Proof.
  intros Hm Hn. destruct (c_string_mem m s Hm) as (_ & Eu & _). destruct Hm as (rest & _ & Hs).
  exists (replicate (Z.to_nat n - length s - 1) Byte.x00). split; [|done].
  unfold strncpy, ztake. unfold zlen in Hn. rewrite Eu, take_app_ge, take_replicate by lia. f_equal.
  rewrite <- replicate_S. f_equal. lia.
Qed.

(** A path of less than 256 bytes: the log files get the name after its last slash. *)
Lemma setLogging_short out argv0 dir base junk1 junk2 g :
  c_string argv0 (dir ++ base) → path dir base → zlen (dir ++ base) < 256 →
  setLogging out argv0 junk1 junk2 g =
  Ok (base, set_running true (new_AsyncLogging junk1 junk2), setOutput (UserLogFunc out) g).
Proof.
  intros Hc (Hn & Hb & Hd) Hlen. unfold setLogging.
  destruct (strncpy_short argv0 (dir ++ base) 256 Hc Hlen) as (rest & -> & _).
  rewrite not_elem_of_app in Hn. destruct Hn as [Hnd Hnb].
  assert (Eu : until_nul (base ++ Byte.x00 :: rest) = base)
    by (apply (c_string_mem (base ++ Byte.x00 :: rest) base); by exists rest).
  destruct Hd as [->|[d ->]].
  - cbn [app]. rewrite strrchr_none by done. cbn. by rewrite Eu.
  - rewrite not_elem_of_app in Hnd. rewrite <- !app_assoc. cbn [app]. rewrite strrchr_last by naive_solver.
    cbn. rewrite (cons_middle _ d), app_assoc, zdrop_app_len by zlia. by rewrite Eu.
Qed.

(** A longer one: the array has no NUL, and the search runs off its end. *)
Lemma strrchr_unterminated s c : Byte.x00 ∉ s → strrchr s c = Fail UndefinedBehaviour.
Proof.
  induction s as [|b s IH]; [done|]. rewrite not_elem_of_cons. intros [Hb Hs]. cbn.
  rewrite decide_False by done. by rewrite IH.
Qed.

Lemma setLogging_long out argv0 s junk1 junk2 g :
  c_string argv0 s → 256 ≤ zlen s → setLogging out argv0 junk1 junk2 g = Fail UndefinedBehaviour.
Proof.
  intros Hc Hlen. destruct (c_string_mem argv0 s Hc) as (_ & Eu & _). destruct Hc as (_ & _ & Hs).
  unfold setLogging, strncpy, ztake. unfold zlen in Hlen. rewrite Eu, take_app_le by lia. rewrite strrchr_unterminated; [done|].
  intros Hin. apply Hs. rewrite <- (take_drop (Z.to_nat 256) s), elem_of_app. by left.
Qed.

Section up.
  Context {CB F L C : Type} `{!Loop CB F L, !LoopSpec CB F L, !LoopLaws CB F L}.
  Context `{!Host, !InetText, !SocketKernel} `{!AcceptorEnv CB}.
  Context `{!CurrentThread} `{!ServedConnection C, !ServedConnectionLaws C}.
  Notation W := (World L C).
  Implicit Types w : W.

(** A listening server without threads of its own. *)
Record alone w : Prop := {
  so_inv : server_inv w;
  so_loops : loops_ (threadPool_ (srv w)) = [];
  so_queue : queue w = [];
  so_listening : listenning_ (acc (aw w)) = true
}.

Definition same_server w w' : Prop :=
  loop_ (srv w') = loop_ (srv w) ∧ name_ (srv w') = name_ (srv w) ∧ ipPort_ (srv w') = ipPort_ (srv w).

(** Its [start] listens at once. *)
Lemma start_alone fresh w :
  server_inv w → started_ (srv w) = 0 → numThreads_ (threadPool_ (srv w)) = 0 →
  safely (start (loop_ (srv w)) false fresh w) (λ w', alone w' ∧
    same_server w w' ∧ conns w' = conns w ∧ nextConnId_ (srv w') = nextConnId_ (srv w)).
Proof.
  intros I Es En. pose proof (start_ok false fresh w I) as Hok. pose proof I as [[Ia _] _ Ist _ _ _ _ _ _ _ _ _ _].
  destruct Ist as [(_ & Ep & Enx & Elo & Eli & Eq & _)|[? _]]; [|done].
  destruct (start _ _ _ _) as [w'|f] eqn:E; [|exact Hok]. cbn in Hok |- *. unfold start in E. cbn in E. rewrite Es in E. cbn in E.
  destruct (pool_start_ok (loop_ (srv w)) false fresh (threadPool_ (srv w))) as (p & ini & Epo & _ & _ & _ & El); try done.
  { symmetry. apply I. }
  rewrite Epo in E. cbn in E. rewrite Eli in E. cbn in E. unfold run_in_loop in E. cbn in E. rewrite Z.eqb_refl in E.
  rewrite En in El. unfold listen in E. cbn in E.
  pose proof (listen_ok (aw w) Ia Eli) as Hl. destruct (Acceptor.listen (aw w)) as [a|f]; [|done]. cbn in E, Hl.
  injection E as <-. destruct Hl as (_ & Hl & _). split; [split; cbn; done|]. split_and!; done.
Qed.

Definition established_here w (id : Z) (e : entry C) : Prop :=
  e_name e = conn_name (srv w) id ∧ e_loop e = loop_ (srv w) ∧ is_open (conn_state (e_conn e)) = true.

Lemma getNextLoop_alone here p :
  here = baseLoop_ p → EventLoopThreadPool.started_ p = true → loops_ p = [] → getNextLoop here p = Ok (here, p).
Proof.
  intros Eh Est El. unfold getNextLoop. rewrite assert_base_ok, Est by done. cbn. by rewrite bool_decide_eq_true_2, <- Eh.
Qed.

(** It establishes a connection as it accepts it. *)
Lemma accept_alone ptr w :
  alone w → conns w !! ptr = None → nextConnId_ (srv w) + 1 < 2 ^ 31 →
  safely (on_accept (loop_ (srv w)) ptr w) (λ w', alone w' ∧
    same_server w w' ∧ nextConnId_ (srv w') = nextConnId_ (srv w) + 1 ∧
    ∃ e, conns w' = <[ptr := e]> (conns w) ∧ established_here w (nextConnId_ (srv w)) e).
Proof.
  intros [I El Eq Hl] Hptr Hid. pose proof (on_accept_ok ptr w I Hl Hptr Hid) as Hok. pose proof I as [[Ia Icb] _ _ _ _ _ _ _ _ _ _ _ _].
  destruct (on_accept _ _ _) as [w'|f] eqn:E; [|exact Hok]. cbn in Hok |- *. unfold on_accept in E.
  pose proof (handleRead_spec (aw w) (ac_thread _ Ia)) as Hh.
  destruct (Acceptor.handleRead (aw w)) as [a|f]; [|done]. cbn in E, Hh. destruct Hh as (Eacc & _ & Hh). rewrite Icb in Hh.
  destruct Hh as (fd & peer & Eh & Hfd & _). rewrite Eh, drop_app_length in E. unfold newConnection in E. cbn in E.
  rewrite assert_loop_here in E. cbn in E.
  destruct (si_started _ I) as [(_ & _ & _ & _ & Enl & _)|[Hst Hp]]; [congruence|].
  destruct Hp as [Eh' Est _]. rewrite getNextLoop_alone in E by done. cbn in E.
  rewrite defined_true in E by bsolve. cbn in E.
  match type of E with context [conn_new ?x ?y ?z ?u] => pose proof (new_law x y z u Hfd) as Hn; destruct (conn_new x y z u) as [v|f] end;
    [|discriminate E].
  cbn in E, Hn. destruct Hn as [Hv Es].
  unfold run_in_loop in E. rewrite Z.eqb_refl in E. unfold connectEstablished, deref_conn in E. cbn in E.
  rewrite lookup_insert_eq in E. cbn in E. rewrite assert_loop_here in E. cbn in E.
  pose proof (established_law v Hv Es) as He. destruct (conn_established v) as [v'|f]; [|discriminate E].
  cbn in E, He. injection E as <-. split; [split; [done..|cbn; congruence]|]. do 2 (split; [done|]).
  cbn. rewrite insert_insert_eq. eexists. split; [reflexivity|]. split; [done|]. split; [done|apply He].
Qed.

(** Clients one after the other; their connection objects are made at [ptrs]. *)
Fixpoint accept_all (here : LoopPtr) (ptrs : list ConnPtr) w : outcome W :=
  match ptrs with
  | [] => Ok w
  | ptr :: ptrs => w ← on_accept here ptr w; accept_all here ptrs w
  end.

Lemma accept_all_alone ptrs w :
  alone w → NoDup ptrs → (∀ p, p ∈ ptrs → conns w !! p = None) → nextConnId_ (srv w) + zlen ptrs < 2 ^ 31 →
  safely (accept_all (loop_ (srv w)) ptrs w) (λ w', alone w' ∧ conns w ⊆ conns w' ∧
    ∀ i p, ptrs !! i = Some p →
      ∃ e, conns w' !! p = Some e ∧ established_here w (nextConnId_ (srv w) + Z.of_nat i) e).
Proof.
  revert w. induction ptrs as [|ptr ptrs IH]; intros w A Hnd Hnone Hid; [by split_and!|]. cbn [accept_all].
  apply list.NoDup_cons in Hnd as [Hptr Hnd]. rewrite zlen_cons in Hid. pose proof (zlen_nonneg ptrs).
  assert (Hf : conns w !! ptr = None) by (apply Hnone; by left).
  apply safely_bind. eapply safely_mono; [apply accept_alone; [done|exact Hf|lia]|].
  intros w1 (A1 & (El & En & Ei) & Ec & e & Em & Hn & Hl & Ho). rewrite <- El.
  eapply safely_mono; [apply IH; [done|done| |lia]|].
  { intros p Hp. rewrite Em, lookup_insert_ne by (by intros <-). apply Hnone. by right. }
  intros w2 (A2 & Hsub & Hall). split; [done|]. split.
  { etransitivity; [|exact Hsub]. rewrite Em. by apply insert_subseteq. }
  intros [|i] p; cbn.
  - intros [= ->]. exists e. split; [|split_and!; [by rewrite Z.add_0_r|done|done]].
    eapply lookup_weaken; [|exact Hsub]. by rewrite Em, lookup_insert_eq.
  - intros Hp. destruct (Hall i p Hp) as (e2 & E2 & Hn2 & Hl2 & Ho2). exists e2. split; [done|].
    split_and!; [|congruence|done]. rewrite Hn2. unfold conn_name. rewrite En, Ei, Ec. do 2 f_equal. lia.
Qed.

(** * [main] *)
Definition echo_ipPort : list byte := ntop4 (replicate 4 Byte.x00) ++ bytes_of_string ":2007".

Lemma listenAddr_text junk :
  address_ok junk → address_toIpPort (InetAddress_of_port junk 2007 false false) = Ok echo_ipPort.
Proof.
  intros Hj. destruct (shows_text4 2007 (replicate 4 Byte.x00) (InetAddress_of_port junk 2007 false false)) as [_ E];
    [lia|done|by apply of_port_shows|exact E].
Qed.

(** The name of the connection with the number [id]. *)
Lemma echo_suffix id :
  0 ≤ id < 2 ^ 31 → bytes_of_string "EchoServer" ++ connection_suffix echo_ipPort id =
  bytes_of_string "EchoServer-" ++ ntop4 (replicate 4 Byte.x00) ++ bytes_of_string ":2007#" ++ decimal id.
Proof.
  intros Hid. destruct (ntop4_text (replicate 4 Byte.x00) eq_refl) as [Hlen Hnul]. unfold INET_ADDRSTRLEN in Hlen.
  assert (Eu : until_nul echo_ipPort = echo_ipPort).
  { apply until_nul_id. unfold echo_ipPort. rewrite elem_of_app. intros [?|Hin]; [done|]. revert Hin. by apply (bool_decide_eq_true_1 (Byte.x00 ∉ bytes_of_string ":2007")). }
  assert (zlen echo_ipPort ≤ 51) by (unfold echo_ipPort; rewrite zlen_app; change (zlen (bytes_of_string ":2007")) with 5; lia).
  rewrite connection_suffix_fits by (rewrite ?Eu; done). rewrite Eu. unfold echo_ipPort. by rewrite <- !app_assoc.
Qed.

(** The kernel watches the listening socket. *)
Lemma alone_watches w : alone w → loop_watched (lp (aw w)) (acceptSocket_ (acc (aw w))) = Some kReadEvent.
Proof.
  intros A. destruct (si_acceptor _ (so_inv _ A)) as [[_ _ (ch & _ & _ & Hl)] _].
  rewrite (so_listening _ A) in Hl. apply Hl.
Qed.

Lemma main_ok loop junk chan fresh (l : L) k :
  loop_inv l → isInLoopThread l = true → get_channel chan l = None → address_ok junk →
  (∀ fd, 0 ≤ fd → fd ∉ open_fds k → fd_free l fd) →
  0 ≤ (k_open_null (k_socket AF_INET k).1).2 →
  safely (main loop junk chan fresh l k) (λ w, alone w ∧ conns w = ∅ ∧ nextConnId_ (srv w) = 1 ∧
    loop_ (srv w) = loop ∧ name_ (srv w) = bytes_of_string "EchoServer" ∧ ipPort_ (srv w) = echo_ipPort).
Proof.
  intros Il Ht Hc Hj Hfree Hnull. unfold main, new_EchoServer, echo_start. set (a := InetAddress_of_port junk 2007 false false).
  assert (Ha : typed AF_INET a) by (by apply (of_port_typed junk 2007 false false)). destruct Ha as [Ha Hf].
  rewrite <- Hf in Hnull.
  pose proof (new_TcpServer_ok loop a (bytes_of_string "EchoServer") false chan l k Il Ht Hc Ha Hfree Hnull) as Hok.
  destruct (new_TcpServer _ _ _ _ _ _ _) as [w|f] eqn:E; [|exact Hok]. cbn in Hok. destruct Hok as [I Ec].
  unfold new_TcpServer in E. unfold a in E. rewrite listenAddr_text in E by done. cbn in E.
  destruct (new_Acceptor _ _ _ _ _) as [acc0|]; [|discriminate E]. cbn in E.
  assert (Es : srv w = mkServer loop echo_ipPort (bytes_of_string "EchoServer") (new_pool loop (bytes_of_string "EchoServer")) 0 1 ∅)
    by (by injection E as <-).
  cbn [mbind outcome_bind]. pose proof (start_alone fresh w I) as Hst. rewrite Es in Hst. cbn in Hst.
  eapply safely_mono; [by apply Hst|]. intros w' (A & (El & En & Ei) & Ec' & Eid). cbn in *. rewrite Es in *.
  by rewrite Ec'.
Qed.
End up.
