(* ===== verification/EchoServerTheorems.v ===== *)
(** Properties of the echo server as a program (EchoServer.v), with the connections of
    TcpConnection.v and the callbacks of Echo.v. *)
From S2P Require Import Prelude.
From S2P Require Import Endian.
From S2P Require Import Format.
From S2P Require Import StringPiece.
From S2P Require Import CurrentThread.
From S2P Require Import Channel.
From S2P Require Import Poller.
From S2P Require Import EPollPoller.
From S2P Require Import Loop.
From S2P Require Import EventLoop.
From S2P Require Import TcpConnection.
From S2P Require Import TcpConnectionFacts.
From S2P Require Import TcpConnectionLife.
From S2P Require Import TcpConnectionRun.
From S2P Require Import Demo.
From S2P Require Import SocketsOps.
From S2P Require Import InetAddress.
From S2P Require Import NetDemo.
From S2P Require Import Echo.
From S2P Require Import Socket.
From S2P Require Import Acceptor.
From S2P Require Import EventLoopThreadPool.
From S2P Require Import TcpServer.
From S2P Require Import TcpServerFacts.
From S2P Require Import TcpServerRun.
From S2P Require Import ServedConnection.
From S2P Require Import EchoServer.

(** C10: [main] brings the echo server up.  Before it calls [loop()], unless the socket cannot be made,
    bound or listened on, the server watches its listening socket for readability, has no
    connections and no functors waiting; and any clients that are then accepted, one after the
    other, are each established at once in the only loop, under the name that has the server's
    address and the number of the connection. *)
Theorem echo_server_up {CB F L C} `{!Loop CB F L, !LoopSpec CB F L, !LoopLaws CB F L}
    `{!Host, !InetText, !SocketKernel} `{!AcceptorEnv CB} `{!CurrentThread}
    `{!ServedConnection C, !ServedConnectionLaws C}
    loop junk chan fresh (l : L) (k : kernel) :
  loop_inv l → isInLoopThread l = true → get_channel chan l = None → address_ok junk →
  (∀ fd, 0 ≤ fd → fd ∉ open_fds k → fd_free l fd) →
  0 ≤ (k_open_null (k_socket AF_INET k).1).2 →
  safely (main (C:=C) loop junk chan fresh l k) (λ w,
    loop_watched (Acceptor.lp (aw w)) (acceptSocket_ (acc (aw w))) = Some kReadEvent ∧ conns w = ∅ ∧ queue w = [] ∧
    ∀ ptrs, NoDup ptrs → 1 + zlen ptrs < 2 ^ 31 → safely (accept_all loop ptrs w) (λ w',
      queue w' = [] ∧ ∀ i p, ptrs !! i = Some p → ∃ e, conns w' !! p = Some e ∧
        e_loop e = loop ∧ is_open (conn_state (e_conn e)) = true ∧
        e_name e = bytes_of_string "EchoServer-" ++ ntop4 (replicate 4 Byte.x00) ++ bytes_of_string ":2007#" ++
                   decimal (1 + Z.of_nat i))).
Proof.
  intros Il Ht Hc Hj Hfree Hnull. eapply safely_mono; [by apply (main_ok loop junk chan fresh l k)|].
  intros w (A & Ec & Eid & El & En & Ei). split_and!; [by apply alone_watches|done|apply A|].
  intros ptrs Hnd Hlen. rewrite <- El.
  eapply safely_mono; [apply accept_all_alone; [done|done|by rewrite Ec|by rewrite Eid]|].
  intros w' (A' & _ & Hall). split; [apply A'|]. intros i p Hp. destruct (Hall i p Hp) as (e & He & Hn & Hl & Ho).
  exists e. split_and!; try done. rewrite Hn, Eid. unfold conn_name. rewrite En, Ei.

  rewrite echo_suffix; [done|]. apply lookup_lt_Some in Hp. unfold zlen in Hlen. lia.
Qed.

(** * Witness: two clients of a demo network *)
#[export] Instance echo_site : Site handler TcpConnection.functor DemoLoop :=
  {| site_loop := demo_loop; site_channel := 100; site_socket _ := mkScript [] []; site_user := cautious_user |}.

#[export] Instance echo_site_laws : SiteLaws handler TcpConnection.functor DemoLoop.
Proof. split; try done; exact cautious_user_ok. Qed.

#[export] Instance echo_acceptor : AcceptorEnv unit := {| bind_handleRead := tt |}.

Abbreviation DemoServer := (World (EventLoop unit unit EPollPoller) (TcpConnection.World sockaddr DemoLoop)).

Definition demo_main : outcome DemoServer :=
  main 1 zero_in6 100 (λ _, 0) (net_loop unit unit) (demo_os [] 2).

Lemma echo_server_up_witness :
  ∃ w w' e, demo_main = Ok w ∧ accept_all 1 [501; 502] w = Ok w' ∧ conns w' !! 502 = Some e ∧
    e_name e = bytes_of_string "EchoServer-00000000:2007#2".
Proof.
  assert (Hv : is_ok (w ← demo_main; accept_all 1 [501; 502] w) = true) by (vm_compute; reflexivity).
  assert (Hnd : NoDup [501; 502]) by (by apply (bool_decide_eq_true_1 _)).
  assert (Hlen : 1 + zlen [501; 502] < 2 ^ 31) by reflexivity.
  assert (Hnull : 0 ≤ (k_open_null (k_socket AF_INET (demo_os [] 2)).1).2) by (vm_compute; discriminate).
  pose proof (echo_server_up (C:=TcpConnection.World sockaddr DemoLoop) 1 zero_in6 100 (λ _, 0) (net_loop unit unit) (demo_os [] 2)
    (net_loop_inv _ _) eq_refl eq_refl eq_refl (λ fd Hfd _, net_loop_free _ _ fd Hfd) Hnull) as Hup.
  fold demo_main in Hup. destruct demo_main as [w|f]; [|discriminate Hv]. cbn [mbind outcome_bind] in Hv.
  destruct Hup as (_ & _ & _ & Hall). specialize (Hall [501; 502] Hnd Hlen).
  destruct (accept_all 1 [501; 502] w) as [w'|f] eqn:Ea; [|discriminate Hv]. destruct Hall as [_ Hall].
  destruct (Hall 1%nat 502 eq_refl) as (e & He & _ & _ & Hn). exists w, w', e.
  split; [reflexivity|]. split; [exact Ea|]. split; [exact He|]. rewrite Hn. vm_compute. reflexivity.
Defined.
