(* ===== verification/LoopTheorems.v ===== *)
(** Properties of the reactor: the wake-up protocol of the loop, the channels'
    registrations, the two pollers, and making and deleting a loop (LoopSetup.v, DefaultPoller.v). *)
From S2P Require Import Prelude.
From S2P Require Import CurrentThread.
From S2P Require Import Channel.
From S2P Require Import Poller.
From S2P Require Import EPollPoller.
From S2P Require Import PollPoller.
From S2P Require Import Loop.
From S2P Require Import EventLoop.
From S2P Require Import LoopThreads.
From S2P Require Import TcpConnection.
From S2P Require Import Demo.
From S2P Require Import Timestamp.
From S2P Require Import DefaultPoller.
From S2P Require Import TimerQueue.
From S2P Require Import TimerFacts.
From S2P Require Import LoopSetup.

(** * Threads *)
Section threads.
  Context {CB F P : Type} `{!Poller CB P} `{!EventFd} `{!CurrentThread}.

End threads.


(** * Registrations *)







Section registrations.
  Context {CB F P : Type} `{!Poller CB P, !PollerLaws CB P} `{!EventFd} `{!CurrentThread}.

End registrations.




(** * The pollers *)
Section pollers.
  Context {CB : Type} `{!EpollKernel}.
  Implicit Types m : gmap ChannelPtr (Channel CB).

(** C22: one wait of the epoll poller.  The active channels are those of the kernel's events,
    in the kernel's order, each with its event mask stored; all are registered; the array for
    the next wait doubles when this one was full; registrations do not change. *)
Theorem epoll_poll_delivers p m evs :
  epoll_inv p m → epoll_wait_valid (WaitEvents evs) p →
  ∃ p', epoll_poll (WaitEvents evs) p m [] = Ok (p', store_revents evs m, map snd evs) ∧
    epoll_inv p' (store_revents evs m) ∧ chmap p' = chmap p ∧ epollfd p' = epollfd p ∧
    events_size p' = (if (zlen evs =? events_size p) && negb (zlen evs =? 0)
                      then events_size p * 2 else events_size p) ∧
    (∀ c, c ∈ map snd evs → ∃ ch, m !! c = Some ch ∧ chmap p !! fd_ ch = Some c).
Proof.
  intros I [Hcap Hevs].
  assert (Hreg : ∀ rev c, (rev, c) ∈ evs → ∃ ch, m !! c = Some ch ∧ chmap p !! fd_ ch = Some c).
  { intros rev c Hin. destruct (Hevs rev c Hin) as (fd & ev & Hi).
    destruct (epoll_interest_registered _ _ _ _ _ I Hi) as (ch & ? & <- & ?). eauto. }
  pose proof (store_revents_rev evs m) as Hrev.
  assert (Hact : ∀ c, c ∈ map snd evs → ∃ ch, m !! c = Some ch ∧ chmap p !! fd_ ch = Some c).
  { intros c Hin. apply list_elem_of_fmap in Hin as ([rev c'] & -> & Hin). by eapply Hreg. }
  destruct evs as [|ev evs].
  { exists p. rewrite andb_false_r. by split_and!. }
  unfold epoll_poll, fillActiveChannels. rewrite require_true by bsolve.
  rewrite bind_Ok, (fill_loop_spec _ _ _ _ Hreg), bind_Ok.
  eexists. split; [done|]. rewrite (proj2 (Z.eqb_neq (zlen (ev :: evs)) 0)), andb_true_r by zlia.
  split_and!; try (by case_match); [|done]. eapply epoll_inv_rev; eauto; by case_match.
Qed.

(** C25: the poll(2) poller's arrays.  Pushing a mask and removing a channel (whose entry is
    replaced by the last one) return without a failed assert and keep every registered channel's
    index, descriptor and mask in step with [pollfds_]; the new mask is what poll(2) will wait
    for, or the entry is ignored when the mask is empty. *)
Theorem poll_arrays_in_step p m c ch ch' :
  poll_inv p m → m !! c = Some ch → same_registration ch ch' → mask_ok (events_ ch') →
  (registered p c ch ∨ addable p ch →
   ∃ p' m', poll_updateChannel c p (<[c := ch']> m) = Ok (p', m') ∧ poll_inv p' m' ∧
     pmap p' = <[fd_ ch := c]> (pmap p) ∧
     (∀ fd, 0 ≤ fd → fd ≠ fd_ ch → poll_watched p' fd = poll_watched p fd) ∧
     (events_ ch' ≠ 0 → poll_watched p' (fd_ ch) = Some (events_ ch'))) ∧
  (registered p c ch → events_ ch = 0 → events_ ch' = 0 → poll_watched p (fd_ ch) = None →
   ∃ p' m', poll_removeChannel c p (<[c := ch']> m) = Ok (p', m') ∧ poll_inv p' m' ∧
     pmap p' = delete (fd_ ch) (pmap p) ∧ length (pollfds_ p') = pred (length (pollfds_ p))).
Proof.
  intros I Hc Hs Hm. split.
  - intros Hr. destruct (poll_update_law p m c ch ch' I Hc Hs Hm Hr)
      as (p' & m' & E & I' & _ & _ & Ep & Ho & Hw & _). by exists p', m'.
  - intros Hr Hz Hz' Hw. destruct (poll_remove p m c ch ch' I Hc Hs Hr Hz Hz' Hw)
      as (i & x & c2 & ch2 & Hlt & _ & _ & _ & E & I').
    do 2 eexists. split; [exact E|]. split_and!; [exact I'|done|].
    cbn. unfold pop_back. rewrite length_take, length_insert. lia.
Qed.

(** The poll(2) poller reports the channels whose entries have events, in the order of
    the array, but stores no event mask: every channel keeps the [revents_] of an earlier
    time, so its handler decides on stale events. *)
Theorem poll_drops_revents p m fds :
  poll_inv p m → poll_wait_valid (PollReady (zlen (ready fds)) fds) p →
  ∃ active, poll_poll (PollReady (zlen (ready fds)) fds) p m [] = Ok (mkPoll (pmap p) fds, m, active) ∧
    Forall2 (λ pfd c, pmap p !! pfd_fd pfd = Some c) (ready fds) active.
Proof.
  intros I V. destruct (poll_poll_law p m _ I V) as (p' & m' & act & E & _).
  cbn in *. destruct (Z.ltb_spec 0 (zlen (ready fds))) as [Hlt|Hge].
  - destruct (poll_fill fds (zlen (ready fds)) (mkPoll (pmap p) fds) m []) as [cs|] eqn:Ef; [|done].
    exists cs. split; [done|].
    assert (Hall : ∀ pfd, pfd ∈ fds → 0 < pfd_revents pfd →
      ∃ c ch, pmap p !! pfd_fd pfd = Some c ∧ m !! c = Some ch ∧ fd_ ch = pfd_fd pfd).
    { by eapply poll_ready_registered. }
    destruct (poll_fill_spec fds (zlen (ready fds)) (mkPoll (pmap p) fds) m [] Hall) as (cs' & Hf & HF).
    rewrite Ef in Hf. injection Hf as ->. by rewrite ztake_all in HF.
  - exists []. split; [done|]. rewrite (zlen_zero_nil (ready fds)); [done|]. pose proof (zlen_nonneg (ready fds)). lia.
Qed.
End pollers.

(** * Witnesses: one channel on descriptor 5, at address 9, in each poller *)
Definition one_channel (index : Z) : Channel unit := set_index index (set_events 4 (new_channel 5)).
Definition one_heap (index : Z) : gmap ChannelPtr (Channel unit) := {[9 := one_channel index]}.
Definition one_epoll : EPollPoller := mkEPoll {[5 := 9]} 1 ({[5 := (4, 9)]} : gmap Z (Z * ChannelPtr)).
Definition one_poll (revents : Z) : PollPoller := mkPoll {[5 := 9]} [mkPollfd 5 4 revents].

Lemma one_epoll_inv : epoll_inv one_epoll (one_heap kAdded).
Proof.
  unfold one_heap. split; cbn.
  - intros fd c [<- <-]%lookup_singleton_Some. exists (one_channel kAdded). by rewrite lookup_singleton_eq.
  - intros c ch [<- <-]%lookup_singleton_Some. right. left. cbn. by rewrite !lookup_singleton_eq.
  - intros fd H%lookup_singleton_None. by rewrite lookup_singleton_ne.
  - intros c ch [<- <-]%lookup_singleton_Some. right. right. by left.
Qed.

Lemma one_poll_inv revents : poll_inv (one_poll revents) (one_heap 0).
Proof.
  unfold one_heap. split; cbn.
  - intros fd c [<- <-]%lookup_singleton_Some. exists (one_channel 0), O, (mkPollfd 5 4 revents).
    rewrite lookup_singleton_eq. split_and!; try done. split; [done|by left].
  - intros [|k] pfd; [|done]. intros _. exists 9, (one_channel 0). cbn. by rewrite !lookup_singleton_eq.
  - done.
  - intros c ch [<- <-]%lookup_singleton_Some. right. right. by left.
Qed.

Lemma epoll_poll_delivers_witness :
  ∃ p', epoll_poll (WaitEvents [(4, 9)]) one_epoll (one_heap kAdded) [] =
          Ok (p', store_revents [(4, 9)] (one_heap kAdded), [9]) ∧
        epoll_inv p' (store_revents [(4, 9)] (one_heap kAdded)) ∧ events_size p' = 2.
Proof.
  destruct (epoll_poll_delivers one_epoll (one_heap kAdded) [(4, 9)] one_epoll_inv)
    as (p' & E & I & _ & _ & Es & _).
  - split; [done|]. intros rev c Hin. apply list_elem_of_singleton in Hin as [= -> ->].
    exists 5, 4. apply lookup_singleton_eq.
  - by exists p'.
Defined.

Lemma poll_arrays_in_step_witness :
  ∃ p' m', poll_updateChannel 9 (one_poll 0) (<[9 := set_events 0 (one_channel 0)]> (one_heap 0)) = Ok (p', m') ∧
    poll_inv p' m' ∧ pmap p' = <[5 := 9]> {[5 := 9]}.
Proof.
  destruct (poll_arrays_in_step (one_poll 0) (one_heap 0) 9 (one_channel 0) (set_events 0 (one_channel 0))
              (one_poll_inv 0)) as [HU _]; [apply lookup_singleton_eq|done|by left|].
  destruct HU as (p' & m' & E & I & Ep & _); [left; apply lookup_singleton_eq|]. by exists p', m'.
Defined.

Lemma poll_drops_revents_witness :
  ∃ active, poll_poll (PollReady 1 [mkPollfd 5 4 4]) (one_poll 0) (one_heap 0) [] =
              Ok (one_poll 4, one_heap 0, active) ∧
            Forall2 (λ pfd c, pmap (one_poll 0) !! pfd_fd pfd = Some c) [mkPollfd 5 4 4] active.
Proof.
  apply (poll_drops_revents (one_poll 0) (one_heap 0) [mkPollfd 5 4 4] (one_poll_inv 0)).
  split; [|done]. repeat constructor. done.
Defined.

Section setup.
  Context {CB F : Type} `{!EpollKernel} `{!EventFd} `{!CurrentThread}.
  Notation L := (EventLoop CB F AnyPoller).

End setup.






