(* ===== verification/TimerTheorems.v ===== *)
(** Properties of the timers (TimerQueue.v). *)
From Stdlib Require Import Floats.SpecFloat.
From S2P Require Import Prelude.
From S2P Require Import CurrentThread.
From S2P Require Import Timestamp.
From S2P Require Import Channel.
From S2P Require Import Poller.
From S2P Require Import EPollPoller.
From S2P Require Import Loop.
From S2P Require Import EventLoop.
From S2P Require Import Demo.
From S2P Require Import TimerQueue.
From S2P Require Import TimerFacts.
From S2P Require Import TimerRun.
From S2P Require Import TimerDelay.

Section timers.
  Context {CB F L : Type} `{!Loop CB F L} `{!Allocator} `{!TimerBind F} `{!CurrentThread}.
  Implicit Types (w : TimerWorld L) (q : TimerQueue).

(** C9: the timer descriptor fired.  Whatever timers the callbacks add and cancel, unless the
    memory is exhausted [handleRead] returns with no failed assert and no use of a deleted timer;
    it calls exactly the callbacks of the timers that are due, each once, in the order of their
    expiration; the queue's two sets still agree with each other and with the live timer objects; and
    the descriptor is armed if a timer is left. *)
Theorem expired_timers_run callbacks w held :
  (∀ cb q, Forall call_ok (callbacks cb q)) → tq_inv (queue w) held → in_thread w →
  let now := (read_clock (queue w)).1 in
  ∃ expired rest,
    timers_ (queue w) = expired ++ rest ∧
    Forall (λ e, e.1 ≤ now) expired ∧ Forall (λ e, now < e.1) rest ∧
    safely (handleRead callbacks w) (λ w',
      run_log (queue w') = run_log (queue w) ++ map snd expired ∧
      callingExpiredTimers_ (queue w') = false ∧
      tq_inv (queue w') held ∧ in_thread w' ∧
      match timers_ (queue w') with
      | e :: _ => valid e.1 = true → is_Some (timerfd_ (queue w'))
      | [] => True
      end).
Proof. intros Hc. by apply timer_handleRead_ok. Qed.

(** Adding a timer re-arms the descriptor at the wrong time.  A timer that is due before
    all others is queued first but the descriptor keeps its old setting, so it runs late; a
    timer that is due after the first one moves the descriptor to its own, later time. *)
Theorem earliest_timer_not_armed q held p t e rest :
  tq_inv q (p :: held) → heap_ q !! p = Some t → timers_ q = e :: rest →
  (expiration_ t < e.1 →
   ∃ q', addTimerInLoop p q = Ok q' ∧ tq_inv q' held ∧ timerfd_ q' = timerfd_ q ∧
     timers_ q' = (expiration_ t, p) :: timers_ q) ∧
  (e.1 < expiration_ t →
   ∃ q' ts, addTimerInLoop p q = Ok q' ∧ tq_inv q' held ∧ timerfd_ q' = Some ts ∧
     howMuchTimeFromNow (expiration_ t) (read_clock q).1 = Ok ts ∧
     list.head (timers_ q') = Some e).
Proof.
  intros I Hp Et. destruct (insert_ok q held p t I Hp) as (l' & E & Hperm & I').
  assert (El : (l', true) = set_insert (expiration_ t, p) (timers_ q)).
  { unfold insert in E. apply bind_ok in E as (? & _ & E). rewrite (timer_at_ok _ p t Hp), bind_Ok in E.
    destruct (set_insert _ _) as [l b]. apply bind_ok in E as (? & Hb & E). apply require_ok in Hb as ->.
    apply bind_ok in E as (? & _ & E). apply bind_ok in E as (? & _ & E). by injection E as ->. }
  unfold addTimerInLoop. rewrite E, bind_Ok, Et. rewrite Et in El. cbn [set_insert] in El.
  split; intros Hlt.
  - rewrite (proj2 (Z.ltb_ge _ _)) by lia.
    eexists. split_and!; [done|done|done|]. cbn. unfold entry_ltb in El at 1. cbn in El.
    rewrite (proj2 (Z.ltb_lt _ _) Hlt) in El. cbn in El. by injection El as ->.
  - rewrite (proj2 (Z.ltb_lt _ _)) by done. rewrite (timer_at_ok _ p t) by done. rewrite bind_Ok.
    destruct (resetTimerfd_ok (expiration_ t) _ _ I') as (ts & c & -> & Hts & I2).
    { apply (iq_timers _ _ I' p t Hp). }
    do 2 eexists. split_and!; [done|exact I2|done| |].
    + rewrite <- Hts. unfold read_clock. cbn. by destruct (clock_ q).
    + cbn. assert (N1 : entry_ltb (expiration_ t, p) e = false).
      { unfold entry_ltb. cbn. rewrite (proj2 (Z.ltb_ge _ _)), (proj2 (Z.eqb_neq _ _)) by lia. done. }
      rewrite N1 in El. assert (N2 : entry_ltb e (expiration_ t, p) = true).
      { unfold entry_ltb. cbn. by rewrite (proj2 (Z.ltb_lt _ _)). }
      rewrite N2 in El. destruct (set_insert _ rest) as [l'' b]. by injection El as -> _.
Qed.

(** C30: cancelling.  A timer that is queued leaves the queue and is deleted; one whose callback
    is being run now (its own callback may cancel it) is remembered instead, and the end of the
    round then deletes it rather than scheduling it again; an expired periodic timer that was not
    cancelled is queued again for its next time, and a one-shot timer is deleted. *)
Theorem cancelled_timers_do_not_return q held id expired nw :
  tq_inv q held → 0 ≤ nw ≤ 2 ^ 61 →
  (∃ q', cancelInLoop id q = Ok q' ∧ tq_inv q' held ∧
     if bool_decide ((timer_ id, id_sequence_ id) ∈ activeTimers_ q)
     then (∃ t, timers_ q ≡ₚ (t, timer_ id) :: timers_ q') ∧ heap_ q' !! timer_ id = None
     else timers_ q' = timers_ q ∧
          (callingExpiredTimers_ q = true → (timer_ id, id_sequence_ id) ∈ cancelingTimers_ q')) ∧
  (∀ held', held ≡ₚ map snd expired ++ held' →
   ∃ q', reset expired nw q = Ok q' ∧ tq_inv q' held' ∧
     (∀ p, p ∈ map snd expired → ∃ t, heap_ q !! p = Some t ∧
        if repeat_ t && bool_decide ((p, sequence_ t) ∉ cancelingTimers_ q)
        then ∃ t', restart nw t = Ok t' ∧ heap_ q' !! p = Some t' ∧ (expiration_ t', p) ∈ timers_ q'
        else heap_ q' !! p = None) ∧
     (∀ e, e ∈ timers_ q → e ∈ timers_ q')).
Proof.
  intros I Hnw. split.
  - destruct (cancelInLoop_ok q held id I) as (q' & E & I' & _ & _ & _ & Hcase).
    exists q'. split_and!; [done|done|]. case_bool_decide as Hin.
    + destruct Hcase as (Hp & Hh & _). split; [done|]. by rewrite Hh, lookup_delete_eq.
    + destruct Hcase as (_ & Et & Ec). split; [done|]. intros Hcall. rewrite Ec, Hcall. set_solver.
  - intros held' Hperm. pose proof (inv_perm q _ _ Hperm I) as I1.
    destruct (reset_ok expired q held' nw I1 Hnw) as (q' & E & I2 & _ & _ & _ & Hkeep & Hres & _).
    exists q'. by split_and!.
Qed.

(** C15: runAt, runAfter and runEvery, called in the loop thread, add a timer that runs at its time:
    over any rounds of the loop and any calls between them that do not cancel it, whatever other
    timers the callbacks add, cancel and run, its callback is not called while the clock reads earlier
    times, and is called exactly once in the first round that reads its time or a later one.  The time
    is the given one, or the delay after the reading of the clock. *)
Theorem timers_punctual callbacks w held cb :
  (∀ cb q, Forall call_ok (callbacks cb q)) → tq_inv (queue w) held → in_thread w →
  let punctual_at time := λ '(id, w1), (∀ cb q, CallCancel id ∉ callbacks cb q) → punctual callbacks time id w1 in
  let now := (read_clock (queue w)).1 in
  (∀ time, time_ok time → safely (runAt time cb w) (punctual_at time)) ∧
  (∀ delay time, addTime now delay = Ok time → time_ok time → safely (runAfter delay cb w) (punctual_at time)) ∧
  (∀ interval time, addTime now interval = Ok time → time_ok time → interval_ok interval →
     safely (runEvery interval cb w) (punctual_at time)).
Proof.
  intros Hc I Ht punctual_at now.
  assert (Hadd : ∀ time interval w0, tq_inv (queue w0) held → in_thread w0 → time_ok time → interval_ok interval →
            safely (addTimer cb time interval w0) (punctual_at time)).
  { intros time interval w0 I0 Ht0 Htime Hi. eapply safely_mono; [by apply (addTimer_queues cb time interval w0 held)|].
    intros [id w1] (I1 & Ht1 & Hq) Hn. by eapply queued_punctual. }
  assert (Hzero : interval_ok (S754_zero false)) by (intros E; vm_compute in E; discriminate E).
  destruct (read_clock_ok (queue w) held I) as [_ I0]. unfold runAfter, runEvery.
  subst now. destruct (read_clock (queue w)) as [now q]. cbn [fst snd] in *. split_and!.
  - intros time Htime. by apply Hadd.
  - intros delay time -> Htime. cbn. by apply Hadd.
  - intros interval time -> Htime Hi. cbn. by apply Hadd.
Qed.
End timers.

(** * Witnesses *)

(** An allocator of a thousand timers, addresses from 1. *)
Definition first_free (h : gmap TimerPtr Timer) : option TimerPtr :=
  snd <$> list_find (λ p, h !! p = None) (seqZ 1 1000).

#[export] Instance demo_alloc : Allocator.
Proof.
  refine {| alloc := first_free |}.
  intros h p ([k p'] & E & [= <-])%fmap_Some. apply list_find_Some in E as (Hk & Hn & _).
  apply lookup_seqZ in Hk as [-> Hk]. split; [done|]. unfold UINTPTR_MAX. lia.
Defined.

#[export] Instance demo_timers : TimerBind TcpConnection.functor := λ _, TcpConnection.FWriteComplete.

(** Two timers at 5 s and 9 s; the clock then reads 7 s, 7 s. *)
Definition one_shot (cb when n : Z) : Timer := mkTimer cb when (S754_zero false) false n.
Definition demo_queue : TimerQueue :=
  mkQueue {[1 := one_shot 0 5000000 1; 2 := one_shot 1 9000000 2]} [(5000000, 1); (9000000, 2)]
    {[(1, 1); (2, 2)]} false ∅ 2 (Some (5, 0)) [7000000; 7000000] [].
Definition demo_timer_world : TimerWorld DemoLoop := mkTW demo_queue demo_loop 102.

Lemma one_shot_ok cb when n created :
  time_ok when → 0 < n ≤ created → timer_ok created (one_shot cb when n).
Proof. intros. split; [done|done|intros [=]|done]. Qed.

Lemma demo_heap p :
  is_Some (heap_ demo_queue !! p) ↔ p = 1 ∨ p = 2.
Proof.
  unfold demo_queue. cbn. rewrite lookup_insert_is_Some, lookup_singleton_is_Some. 
  destruct (decide (p = 1)); naive_solver.
Qed.

Lemma demo_queue_inv : tq_inv demo_queue [].
Proof.
  split.
  - by repeat constructor.
  - intros t p Hin. cbn in Hin. apply elem_of_cons in Hin as [[= -> ->]|Hin]; [by eexists|].
    apply list_elem_of_singleton in Hin as [= -> ->]. by eexists.
  - by apply (bool_decide_eq_true_1 _).
  - by apply (bool_decide_eq_true_1 _).
  - intros p. rewrite demo_heap. cbn. rewrite !elem_of_cons, elem_of_nil. tauto.
  - intros p Hp%demo_heap. unfold UINTPTR_MAX. lia.
  - intros p t Hp. assert (is_Some (heap_ demo_queue !! p)) as [-> | ->]%demo_heap by done;
      vm_compute in Hp; injection Hp as <-; apply one_shot_ok; cbn; unfold time_ok; lia.
  - done.
  - repeat constructor; lia.
Qed.

(** The first timer's callback adds a periodic timer (every half second). *)
Definition half : double := SFdiv prec emax (double_of_Z 1) (double_of_Z 2).
Definition demo_callbacks (cb : Z) (q : TimerQueue) : list timer_call :=
  if cb =? 0 then [CallAdd 7 8000000 half; CallCancel (mkTimerId 2 2)] else [].

Lemma demo_callbacks_ok cb q : Forall call_ok (demo_callbacks cb q).
Proof.
  unfold demo_callbacks. case_match; repeat constructor; [unfold time_ok; lia|unfold time_ok; lia|].
  intros _. exists 500000. split; [by vm_compute|lia].
Qed.

(** The first timer runs; what it adds is queued and what it cancels is gone. *)
Example demo_timers_run :
  match handleRead demo_callbacks demo_timer_world with
  | Ok w => (run_log (queue w), timers_ (queue w), timerfd_ (queue w)) = ([1], [(8000000, 3)], Some (1, 0))
  | Fail _ => False
  end.
Proof. by vm_compute. Qed.

Lemma expired_timers_run_witness :
  ∃ expired rest,
    timers_ demo_queue = expired ++ rest ∧
    Forall (λ e, e.1 ≤ 7000000) expired ∧ Forall (λ e, 7000000 < e.1) rest ∧
    safely (handleRead demo_callbacks demo_timer_world) (λ w',
      run_log (queue w') = [] ++ map snd expired ∧ callingExpiredTimers_ (queue w') = false ∧
      tq_inv (queue w') [] ∧ in_thread w' ∧
      match timers_ (queue w') with
      | e :: _ => valid e.1 = true → is_Some (timerfd_ (queue w'))
      | [] => True
      end).
Proof. exact (expired_timers_run demo_callbacks demo_timer_world [] demo_callbacks_ok demo_queue_inv eq_refl). Defined.

(** A third timer object, due before the two of the queue or between them. *)
Definition demo_queue_with (t : Timer) : TimerQueue :=
  set_created 3 (set_heap (<[3 := t]> (heap_ demo_queue)) demo_queue).

Lemma demo_queue_with_inv cb when :
  time_ok when → tq_inv (demo_queue_with (one_shot cb when 3)) [3].
Proof.
  intros Hw. pose proof demo_queue_inv as [I1 I2 I3 I4 I5 I6 I7 I8 I9]. split; cbn; try done.
  - intros t p Hin. destruct (I2 t p Hin) as (tm & Hp & E). exists tm. rewrite lookup_insert_ne; [done|].
    intros <-. by vm_compute in Hp.
  - by apply (bool_decide_eq_true_1 _).
  - intros p. rewrite lookup_insert_is_Some. pose proof (I5 p) as H5. cbn in H5.
    rewrite !elem_of_cons, elem_of_nil in *. destruct (decide (p = 3)); naive_solver.
  - intros p. rewrite lookup_insert_is_Some. intros [<-|[_ Hp]]; [unfold UINTPTR_MAX; lia|by apply I6].
  - intros p t. rewrite lookup_insert_Some. intros [[<- <-]|[Hne Hp]]; [by apply one_shot_ok; cbn; try lia|].
    destruct (I7 p t Hp). split; try done. cbn in *. lia.
Qed.

Lemma earliest_timer_not_armed_witness :
  (∃ q', addTimerInLoop 3 (demo_queue_with (one_shot 9 4000000 3)) = Ok q' ∧ tq_inv q' [] ∧
     timerfd_ q' = Some (5, 0) ∧
     timers_ q' = [(4000000, 3); (5000000, 1); (9000000, 2)]) ∧
  (∃ q' ts, addTimerInLoop 3 (demo_queue_with (one_shot 9 8000000 3)) = Ok q' ∧ timerfd_ q' = Some ts ∧
     howMuchTimeFromNow 8000000 7000000 = Ok ts ∧ list.head (timers_ q') = Some (5000000, 1)).
Proof.
  split.
  - apply (earliest_timer_not_armed _ [] 3 (one_shot 9 4000000 3) (5000000, 1) [(9000000, 2)]
             (demo_queue_with_inv 9 4000000 ltac:(unfold time_ok; lia)) eq_refl eq_refl). cbn. lia.
  - destruct (earliest_timer_not_armed _ [] 3 (one_shot 9 8000000 3) (5000000, 1) [(9000000, 2)]
             (demo_queue_with_inv 9 8000000 ltac:(unfold time_ok; lia)) eq_refl eq_refl) as [_ H].
    destruct H as (q' & ts & E & _ & Et & Eh & Ehd); [cbn; lia|]. by exists q', ts.
Defined.

Lemma cancelled_timers_do_not_return_witness :
  (∃ q', cancelInLoop (mkTimerId 1 1) demo_queue = Ok q' ∧ tq_inv q' [] ∧ heap_ q' !! 1 = None).
Proof.
  destruct (cancelled_timers_do_not_return demo_queue [] (mkTimerId 1 1) [] 0 demo_queue_inv ltac:(lia))
    as [(q' & E & I & H) _].
  exists q'. split_and!; [done|done|].
  rewrite bool_decide_eq_true_2 in H by (by apply (bool_decide_eq_true_1 _)). apply H.
Defined.

(** Half a second after the reading of 7 s: nothing of the queue is due between. *)
Definition idle_callbacks (cb : Z) (q : TimerQueue) : list timer_call := [].

Lemma timers_punctual_witness :
  addTime 7000000 half = Ok 7500000 ∧
  match runAfter half 5 demo_timer_world with
  | Ok (id, w1) => punctual idle_callbacks 7500000 id w1
  | Fail _ => False
  end.
Proof.
  assert (Ed : addTime 7000000 half = Ok 7500000) by (by vm_compute). split; [exact Ed|].
  assert (Ht : in_thread demo_timer_world) by reflexivity.
  destruct (timers_punctual idle_callbacks demo_timer_world [] 5 (λ _ _, list.Forall_nil_2 _) demo_queue_inv Ht)
    as (_ & Hafter & _).
  pose proof (Hafter half 7500000 Ed ltac:(unfold time_ok; lia)) as Hs.
  assert (Hr : match runAfter half 5 demo_timer_world with Ok _ => true | Fail _ => false end = true)
    by (vm_compute; reflexivity).
  destruct (runAfter half 5 demo_timer_world) as [[id w1]|e]; [|discriminate Hr].
  cbn in Hs. apply Hs. intros cb q. apply not_elem_of_nil.
Defined.
