(* ===== verification/SyncTheorems.v ===== *)
(** What mutexes, conditions, latches and threads guarantee (MutexLock.v, CountDownLatch.v, Thread.v). *)
From S2P Require Import Prelude.
From S2P Require Import Format.
From S2P Require Import StringPiece.
From S2P Require Import CurrentThread.
From S2P Require Import MutexLock.
From S2P Require Import MutexFacts.
From S2P Require Import CountDownLatch.
From S2P Require Import Thread.

(** C16: in every execution of any threads over one [MutexLock], at most one thread is between
    pthread_mutex_lock and pthread_mutex_unlock, and it is the owner; a thread for which
    [isLockedByThisThread] answers yes holds the lock; a thread that has not waited since its
    [lock()] passes [assertLocked]; and when all threads are outside, the destructor's assert
    holds. *)
Theorem mutex_holder {D} (d0 : D) ps tr sys :
  ps !! 0 = None → execute tr (initial d0 ps) = Some sys →
  (∀ t u th th', threads sys !! t = Some th → threads sys !! u = Some th' →
     inside th = true → inside th' = true → t = u ∧ mutex (lock_ sys) = Some t) ∧
  (∀ t th, threads sys !! t = Some th → running th = true →
     isLockedByThisThread t (lock_ sys) = true → holding th = true ∧ mutex (lock_ sys) = Some t) ∧
  (∀ t th, threads sys !! t = Some th → holding th = true → (t, EWait) ∉ since_lock t tr →
     assertLocked t (lock_ sys) = Ok tt) ∧
  (map_Forall (λ _ th, ∃ ss, th = Ready ss) (threads sys) → mutex_dtor (lock_ sys) = Ok tt).
Proof.
  intros H0 E. pose proof (owned_execute _ _ _ _ E) as Ho. pose proof (holder_known_execute _ _ _ _ E) as Hk.
  assert (Hn0 : ∀ t th, threads sys !! t = Some th → t ≠ 0).
  { intros t th Et ->. by rewrite (ids_execute _ _ _ _ 0 E H0) in Et. }
  assert (Hown : ∀ t th, threads sys !! t = Some th → inside th = true → mutex (lock_ sys) = Some t).
  { intros t th Et Hi. apply Ho. by rewrite (inside_at_lookup _ _ _ Et). }
  split_and!.
  - intros t u th th' Et Eu Hi Hi'. split; [by eapply owned_unique|by eapply Hown].
  - intros t th Et Hr Hl. apply Z.eqb_eq in Hl. destruct Hk as [Hz|(th' & Eh & Hk)].
    + pose proof (Hn0 _ _ Et). congruence.
    + rewrite Hl, Et in Eh. injection Eh as <-. unfold keeping in Hk. rewrite Hr, orb_false_r in Hk.
      split; [done|]. eapply Hown; [done|]. by destruct th.
  - intros t th Et Hh Hw. unfold assertLocked, isLockedByThisThread.
    rewrite require_true; [done|]. apply Z.eqb_eq.
    destruct (holder_exact_execute _ _ _ _ t (Hn0 _ _ Et) E) as [_ Hx].
    assert (Hkp : keeping th = true) by (unfold keeping; by rewrite Hh).
    apply (Hx th Et Hkp). by apply (unwaited_execute _ _ _ _ t E th).
  - intros Hf. unfold mutex_dtor. rewrite require_true; [done|]. apply Z.eqb_eq.
    destruct Hk as [Hz|(th' & Eh & Hk)]; [done|]. by destruct (Hf _ _ Eh) as [ss ->].
Qed.

(** Thread 1 waits for a latch of one that thread 2 counts down. *)
Definition demo_spec : gmap Z (nat * bool) := {[1 := (0%nat, true); 2 := (1%nat, false)]}.
Definition demo_events : list (Z * event) :=
  ((λ e, (1, e)) <$> [ELock; EAssign; EWait]) ++
  ((λ e, (2, e)) <$> [ELock; EAssign; EEnter; EAccess; ENotify None; EUnassign; EUnlock]) ++ [(1, EReacquire)].
Definition demo_rest : list (Z * event) := (λ e, (1, e)) <$> [EEnter; ENotify None; EUnassign; EUnlock].

Definition demo_system (tr : list (Z * event)) : option (system Z) :=
  execute tr (initial 1 (program <$> demo_spec)).

Example demo_counts : data <$> demo_system demo_events = Some 0.
Proof. by vm_compute. Qed.
Example demo_unlocks : lock_ <$> demo_system (demo_events ++ demo_rest) = Some new_MutexLock.
Proof. by vm_compute. Qed.

Lemma mutex_holder_witness :
  ∃ sys, demo_system [(1, ELock); (1, EAssign)] = Some sys ∧ assertLocked 1 (lock_ sys) = Ok tt.
Proof.
  destruct (demo_system [(1, ELock); (1, EAssign)]) as [sys|] eqn:E; [|vm_compute in E; discriminate E].
  exists sys. split; [done|].
  assert (Et : threads sys !! 1 = Some (Testing wait_section [])) by (vm_compute in E; injection E as <-; reflexivity).
  assert (E0 : (program <$> demo_spec) !! 0 = None) by (by rewrite lookup_fmap).
  destruct (mutex_holder 1 (program <$> demo_spec) _ sys E0 E) as (_ & _ & Hc & _).
  apply (Hc 1 _ Et eq_refl). vm_compute. intros Hin. inversion Hin.
Defined.

(** C40: [Condition::wait] does not restore [holder_]: a thread that owns the mutex fails
    [assertLocked] exactly when another thread has been through [lock()] or [unlock()] since its own
    [lock()], which can only have happened during a wait. *)
Theorem wait_loses_holder {D} (d0 : D) ps tr sys t th :
  t ≠ 0 → execute tr (initial d0 ps) = Some sys →
  threads sys !! t = Some th → holding th = true →
  mutex (lock_ sys) = Some t ∧
  (assertLocked t (lock_ sys) = Fail AssertFailure ↔
   ∃ u e, u ≠ t ∧ (u, e) ∈ since_lock t tr ∧ (e = EAssign ∨ e = EUnassign)) ∧
  (assertLocked t (lock_ sys) = Fail AssertFailure → (t, EWait) ∈ since_lock t tr).
Proof.
  intros H0 E Et Hh. assert (Hk : keeping th = true) by (unfold keeping; by rewrite Hh).
  destruct (holder_exact_execute _ _ _ _ t H0 E) as [Hov Hno].
  assert (Hf : assertLocked t (lock_ sys) = Fail AssertFailure ↔ holder_ (lock_ sys) ≠ t).
  { unfold assertLocked, isLockedByThisThread, require. destruct (Z.eqb_spec (holder_ (lock_ sys)) t); naive_solver. }
  assert (Hx : holder_ (lock_ sys) ≠ t ↔ overwritten t tr).
  { split; [|by apply Hov]. intros Hne. destruct (decide (overwritten t tr)) as [|Hn]; [done|].
    by destruct Hne; apply (Hno th). }
  split_and!.
  - apply (owned_execute _ _ _ _ E). rewrite (inside_at_lookup _ _ _ Et). by apply holding_inside.
  - rewrite Hf, Hx. done.
  - rewrite Hf, Hx. intros Ho. destruct (decide ((t, EWait) ∈ since_lock t tr)) as [|Hn]; [done|].
    by destruct (unwaited_execute _ _ _ _ t E th Et Hk Hn).
Qed.

Lemma wait_loses_holder_witness :
  ∃ sys, demo_system demo_events = Some sys ∧ mutex (lock_ sys) = Some 1 ∧
    assertLocked 1 (lock_ sys) = Fail AssertFailure.
Proof.
  destruct (demo_system demo_events) as [sys|] eqn:E; [|vm_compute in E; discriminate E].
  exists sys. split; [done|].
  assert (Et : threads sys !! 1 = Some (Testing wait_section [])) by (vm_compute in E; injection E as <-; reflexivity).
  destruct (wait_loses_holder 1 (program <$> demo_spec) _ sys 1 _ ltac:(lia) E Et eq_refl) as (Hm & Hf & _).
  split; [exact Hm|]. apply Hf. exists 2, EAssign. split; [lia|]. split; [vm_compute; do 2 right; left|by left].
Defined.

(** C11: guarded sections are atomic.  Whatever the interleaving of the primitive actions of any
    threads, replaying their sections one at a time, in the order in which they ended (or began to
    wait), leaves every thread with the same work, and the same data whenever no section is under
    way. *)
Theorem critical_sections_atomic {D} (d0 : D) ps tr sys :
  execute tr (initial d0 ps) = Some sys →
  ∃ a, replay (commits tr) (ainitial d0 ps) = Some a ∧
    athreads a = abs_thread <$> threads sys ∧
    (map_Forall (λ _ th, in_body th = false) (threads sys) → data sys = adata a) ∧
    (∀ t fs s ss, threads sys !! t = Some (Body fs s ss) →
       ∃ gs, body s = gs ++ fs ∧ data sys = run_body gs (adata a)).
Proof.
  intros E. destruct (execute_replays _ _ _ _ E) as (d & Er & Hb & Hd).
  eexists. split; [exact Er|]. split; [done|]. split; [exact Hd|].
  intros t fs s ss Et. by destruct (Hb _ _ _ _ Et).
Qed.

Lemma critical_sections_atomic_witness :
  ∃ sys a, demo_system (demo_events ++ demo_rest) = Some sys ∧
    replay (commits (demo_events ++ demo_rest)) (ainitial 1 (program <$> demo_spec)) = Some a ∧
    data sys = adata a.
Proof.
  destruct (demo_system (demo_events ++ demo_rest)) as [sys|] eqn:E; [|vm_compute in E; discriminate E].
  destruct (critical_sections_atomic 1 (program <$> demo_spec) _ sys E) as (a & Er & _ & Hd & _).
  exists sys, a. split; [done|]. split; [exact Er|]. apply Hd.
  assert (Hall : bool_decide (map_Forall (λ _ th, in_body th = false) (threads sys)) = true)
    by (vm_compute in E; injection E as <-; vm_compute; reflexivity).
  exact (bool_decide_eq_true_1 _ Hall).
Defined.

(** C23: a latch of [n] opens.  Threads count down [n] times or more in total and any number of
    threads wait, in any interleaving: no wait returns before the count has come down; if no thread
    can go on, all have finished; and an execution has at most [(2N + 11)] actions for each call, for
    [N] threads, and three more for each spurious wake-up. *)
Theorem latch_opens spec n tr sys :
  0 ≤ n ≤ Z.of_nat (total fst spec) →
  execute tr (initial n (program <$> spec)) = Some sys →
  (∀ x k, spec !! x = Some (k, true) → threads sys !! x = Some (Ready []) → data sys ≤ 0) ∧
  ((∃ t e sys', e ≠ ESpurious ∧ perform t e sys = Some sys') ∨ map_Forall (λ _ th, th = Ready []) (threads sys)) ∧
  (length tr ≤ (2 * size spec + 11) * total (λ kw, length (program kw)) spec + 3 * spurious tr)%nat.
Proof.
  intros [Hn Hk] E. split_and!.
  - intros x k Ex Et. by eapply latch_passed.
  - destruct (progress sys (owned_execute _ _ _ _ E)) as [?|Hs]; [by left|right]. by eapply latch_finished.
  - by eapply latch_steps.
Qed.

Lemma latch_opens_witness :
  ∃ sys, demo_system (demo_events ++ demo_rest) = Some sys ∧ data sys ≤ 0.
Proof.
  destruct (demo_system (demo_events ++ demo_rest)) as [sys|] eqn:E; [|vm_compute in E; discriminate E].
  exists sys. split; [done|].
  assert (Et : threads sys !! 1 = Some (Ready [])) by (vm_compute in E; injection E as <-; reflexivity).
  assert (E1 : demo_spec !! 1 = Some (0%nat, true)) by done.
  assert (Hn : 0 ≤ 1 ≤ Z.of_nat (total fst demo_spec)) by (change (total fst demo_spec) with 1%nat; lia).
  destruct (latch_opens demo_spec 1 _ sys Hn E) as (Hp & _).
  exact (Hp 1 0%nat E1 Et).
Defined.
